(* ===== verification/_CoqProject ===== *)
-Q . S2P
Prelude.v
GoString.v
SemVer.v
Regex.v
Validation.v
GoPath.v
Sha256.v
Os.v
OsFacts.v
Json.v
JsonFacts.v
Utf8Facts.v
Quote.v
Decode.v
DecodeFacts.v
Store.v
StoreFacts.v
StageFacts.v
KeyValue.v
Confine.v
StoreSpec.v
Index.v
IndexFacts.v
Archive.v
Signing.v
Http.v
Auth.v
Frame.v
Draft.v
AuthFacts.v
SignerKey.v
RateLimit.v
RateFacts.v
Api.v
Metrics.v
Protocol.v
ReadFacts.v
Server.v
AuditText.v
Recorders.v
Serving.v
Guard.v
NameFacts.v
KeysFile.v
ServerFacts.v
System.v
Duration.v
Startup.v
Lifetime.v
Transactions.v
DownloadFacts.v
ModuleUpload.v
ProviderUpload.v
Checksums.v
Deletion.v
Flags.v
Client.v
ClientRuns.v
ClientFacts.v
Commands.v
CommandFacts.v
Network.v
Oci.v
OciFacts.v
Bundle.v
BundleFacts.v
Publish.v
PublishFacts.v
EndToEnd.v
WellTyped.v
Interleave.v
Concurrent.v
