(* ===== verification/Prelude.v ===== *)
(** * Terraform registry: a verification library

    This library models the Go program of this repository and proves what makes
    it correct.  The program has two halves: the registry server
    ([src/registry-server/]), which keeps Terraform providers and modules in a
    directory of files and serves them under the Terraform protocols, and the
    command line [tfreg] ([src/cmd/tfreg/]), which pushes, pulls, bundles,
    publishes and imports them.  Both are translated function by function:
    a Go function is a definition of the same name where Rocq allows it, with
    the same guards, the same order of calls and the same error returns.

    ** How code is modelled

    - Values.  A string or byte slice is a [string] of bytes; runes are decoded
      as Go decodes them (GoString).  Integers are [Z], with the wrap-around of
      [int64] and [uint64] written where it can matter; [float64] is the IEEE
      754 arithmetic of [SpecFloat].  Structs are records, maps are [gmap]s
      (lists where the order of iteration shows), JSON is a data type with the
      printer and parser of encoding/json (Json, Decode).
    - Errors.  [(T, error)] is [result error T]; [error] keeps the causes that
      [os.IsNotExist], [errors.Is] and [errors.As] can see.
    - Effects of the server.  [M] (Os) is a state monad over a [world]: a file
      system of files, directories and symbolic links, the mutexes, the clock,
      the random numbers of [os.CreateTemp], and an oracle of faults.  Every
      system call first asks the oracle, which may make it fail (a write may
      store a part), so a theorem for every oracle covers every failure of
      every call, and a crash anywhere.  [None] is a computation that never
      returns (a deadlock); [wp] (OsFacts) is total correctness.
    - Effects of the command line.  [C] (Client) adds a network that answers
      requests, standard output and [os.Exit].
    - Code that is not in the repository is a parameter: the readers of
      archive/zip and archive/tar and compress/gzip, the router of gorilla/mux (class
      [Server.Router], with the laws its documentation states), packages
      openpgp and oras, net/url, the JSON form of [time.Time],
      the table of [unicode.IsPrint] above U+00FF, the bytes between client and
      server (Network), the go command.

    ** The parts

    Foundations: Prelude (results, lemmas on strings and lists), GoString
    (packages strings, unicode/utf8, strconv), GoPath (package path/filepath),
    Regex (an executable matcher for the regular expressions used), Sha256,
    Os and OsFacts (the world, system calls, weakest preconditions), Frame
    (what a computation keeps in any world: mutexes, the clock; the hints
    [keeps]), Json, JsonFacts, Utf8Facts, Decode, DecodeFacts, Quote
    ([strconv.Quote] and its readers).

    The server:
    - SemVer: semver.go - parsing, precedence, stable sorting.
    - Validation: validation.go, and the copies in cmd/tfreg/import.go.
    - Archive: archive_validation.go.
    - Store: storage.go, the operations on files.  StoreFacts and StageFacts
      prove them one by one; KeyValue is the abstract view, a map from keys to
      contents, and StoreSpec the refinement; Confine treats stores with any
      symbolic links.
    - Index, IndexFacts: storage.go, the JSON indexes and metadata.
    - Signing, Checksums: signing.go, the signed checksums.  SignerKey: the
      signing key.  Draft: replacing a file through a temporary one, as the
      key files do.
    - Auth, AuthFacts, KeysFile: auth.go and crypto.go - the key file, hot
      reload, validation of keys.
    - RateLimit, RateFacts: the limiter of middleware.go.
    - Http, Api, Protocol, ReadFacts: requests and replies, every handler of
      api.go, every protocol handler of main.go.
    - Metrics: metrics.go.  Server: the middleware, the table of routes, the
      endpoints.  AuditText: the lines of the audit log and its file.
      Recorders: the two recording response writers.  Guard, Serving, NameFacts
      and ServerFacts: what passes the middleware; that mutexes are released.
    - System: the server as a transition system ([step]), its reachable states
      and their invariant.  Startup: the configuration and [main]'s start
      (Duration: [time.ParseDuration]).  Lifetime: [main] from its arguments to
      its exit status.
    - Transactions, DownloadFacts, ModuleUpload, ProviderUpload, Deletion: the
      handlers that change several keys, under faults, as transactions.
      WellTyped: every document of the store has its type, and every change
      keeps that.

    The command line:
    - Flags: option parsing.  Client, ClientRuns, ClientFacts: requests,
      uploads, verified downloads, workspaces.  Commands, CommandFacts: push,
      pull, list, delete.
    - Oci, OciFacts: oci.go and import.go.  Bundle, BundleFacts: archive.go.
    - Publish, PublishFacts: publish.go, bundle, import and [main].

    Both halves together: Network lets the command line's requests reach the
    server, through an HTTP exchange that may lose or damage a body; EndToEnd
    follows a module from [tfreg publish] to [tfreg pull].

    Requests at the same time: Interleave (threads cut into atomic pieces,
    pools of them, a logic of invariants, mutual exclusion) and Concurrent (the
    handlers of modules cut at their calls of the store, and every change under
    the mutation mutex).

    ** What is proved

    - Storage.  Any sequence of Get, Put and Delete on the files behaves as a
      finite map whose failed operations have no effect, under any faults
      ([StoreSpec.store_refines_map]); Put is atomic, immutable uploads are
      published whole under the digest of their bytes, a staged deletion is
      reversible, garbage collection removes exactly stale temporary files; no
      read leaves the root, whatever links there are
      ([Confine.Get_confined]).
    - Publication.  An accepted upload publishes its archive, metadata, index
      entry and, for providers, signed checksums, and what was published is
      what the download endpoints serve; an upload or deletion that fails under
      a fault leaves the published state as it was ([ModuleUpload],
      [ProviderUpload], [Deletion], [Checksums]).  Whatever changes are made
      and whatever fails, every index, metadata and archive keeps its type, and
      in a typed store every change, uploads included, is answered
      ([WellTyped.documents_well_typed]).
    - Access.  A request that changes the registry is refused, or the server's
      key store, asked in the world in which the request arrived, found its key
      to be enabled and of sufficient permission, the key being one of those
      loaded or of the key file, and its route variables are valid
      ([ServerFacts.mutations_authorised]); the key file is replaced whole or
      not at all; Validate finds exactly the enabled key with that digest; GET
      endpoints change nothing; a burst is let through exactly as far as the
      configured rate, in the floating-point arithmetic of the code.
    - The whole server.  Every start ends, in a failure or in a state of the
      transition system ([Startup.start_serves]), and an exit has status
      0 or 1 ([Lifetime.main_exits]); the invariant of its
      reachable states ([System.server_invariant]): mutexes free, keys
      well-formed, counters balanced, the audit log ordered and append-only;
      every request but an upload is answered; every request is counted and
      audited; the audit log is read back entry by entry, whatever clients
      write into their requests, and is JSON exactly when it needs no escape
      that only Go has ([AuditText]); the recorders agree with net/http on the
      status of a reply ([Recorders]); the signing key survives restarts
      ([SignerKey]).
    - End to end.  A module that [tfreg publish] reports as published is held
      and listed by the server, and a later [tfreg pull] saves it byte for
      byte, or fails for a stated reason ([EndToEnd.published_is_pulled]).
    - Concurrency.  Changes of the registry that run at the same time leave it,
      and reply, as if they had run one after another, however finely they are
      interleaved with each other and with readers
      ([Concurrent.changes_serialised]); a download that overlaps uploads gets
      a whole archive or none ([Concurrent.downloads_consistent]), and it may
      get none although the module is published at every moment
      ([Concurrent.download_misses_published]).
    - Pure parts.  The grammar of versions and the order and sorting of
      versions; the name and path checks; the archive checks; round trips of
      the JSON documents; the agreement of the CLI's checks with the server's.
    - The command line.  What is pulled has the promised digest, or nothing is
      saved; what is imported is exactly what the manifest vouches for; what is
      published is exactly the bundle of the source; workspaces are removed;
      an identity survives packing; option parsing.

    Theorems named in the list of properties have a concrete run beside them
    ([..._witness]), evaluated by computation; [Example]s evaluate the
    definitions on more inputs.

    ** Bounds and fuel

    Recursion that is not structural runs on fuel, always enough: the length of
    the input for lexing, parsing and trimming (each step consumes a byte or a
    token), [max_tries] = 10000 for [os.CreateTemp] (the bound of the Go
    library), [max_links] for links met on a path (the kernel's 40;
    [filepath.EvalSymlinks] has 255), and [reject_rev], [mkdir_all_rev] recurse
    on the path.  Loops over indexes, entries and listings are structural.

    ** Not modelled

    Requests that overlap are treated in Concurrent only: there one call of the
    store on one key is atomic (its mutex and the final rename make it so), the
    downloads and uploads of modules interleave under any faults, and all
    changes, cut anywhere, without faults.  The hourly collection, the health
    check and the reload of keys are not among those threads.  In System a
    request is one step, between which any change of the files may come.
    Permission bits and owners of files; sizes of disks; the network below a
    request's body; logging; the HTTP server's timeouts and what it does with
    open connections at shutdown; in the command line, standard error.
    Uploads are excluded from the liveness theorems of System, whose files are
    arbitrary: they delete a file whose name they read from earlier metadata,
    and Delete need not end for a name that leads to the root
    ([Serving.Delete_root_diverges]); in a typed store they are answered
    (WellTyped).

    Simplified: a signature is a function of the key and the text (OpenPGP also
    puts the time into it); the readings of the clock within one decision of
    the limiter are one reading; [http.ServeContent] answers a plain GET, with
    no range or condition; [sort.Slice] is a stable sort, one of the orders it
    may give; an archive that is written holds names and contents, without
    modes and times.  The tests, the UI's assets and the
    deployment files are not program logic. *)

From Stdlib Require Export ZArith NArith Lia Ascii.
From stdpp Require Export base tactics option list sorting strings gmap numbers pretty.


(** ** Results

    Go functions that return [(T, error)] are modelled by [result E T]: the
    value of [T] that accompanies a non-nil error is never used by the
    callers in this program. *)

Inductive result (E A : Type) : Type :=
| Ok (a : A)
| Err (e : E).
Arguments Ok {E A} a.
Arguments Err {E A} e.

Definition is_ok {E A} (r : result E A) : bool :=
  match r with Ok _ => true | Err _ => false end.

Definition result_bind {E A B} (f : A → result E B) (r : result E A) : result E B :=
  match r with Ok a => f a | Err e => Err e end.

Definition result_map_err {E F A} (f : E → F) (r : result E A) : result F A :=
  match r with Ok a => Ok a | Err e => Err (f e) end.

Declare Scope go_scope.
Delimit Scope go_scope with go.

(** [x ←? r; k] is [if err != nil { return err }]. *)
Notation "x ←? r ; k" := (result_bind (fun x => k) r)
  (at level 20, r at level 100, k at level 200, right associativity,
   format "x  ←?  r ;  '//' k") : go_scope.
Notation "' x ←? r ; k" := (result_bind (fun x => k) r)
  (at level 20, x pattern, r at level 100, k at level 200, right associativity,
   format "' x  ←?  r ;  '//' k") : go_scope.
#[global] Open Scope go_scope.

Lemma result_bind_ok {E A B} (f : A → result E B) r b :
  result_bind f r = Ok b ↔ ∃ a, r = Ok a ∧ f a = Ok b.
Proof. destruct r; naive_solver. Qed.

(** ** Tactics *)

(** Turn boolean connectives and tests in the hypotheses into propositions. *)
Ltac to_props :=
  repeat match goal with
  | H : _ && _ = true |- _ => apply andb_true_iff in H; destruct H as [? ?]
  | H : _ || _ = false |- _ => apply orb_false_iff in H; destruct H as [? ?]
  | H : negb _ = true |- _ => apply negb_true_iff in H
  | H : negb _ = false |- _ => apply negb_false_iff in H
  | H : String.eqb _ _ = true |- _ => apply String.eqb_eq in H
  | H : String.eqb _ _ = false |- _ => apply String.eqb_neq in H
  | H : Is_true _ |- _ => apply Is_true_true in H
  | H : bool_decide _ = true |- _ => apply bool_decide_eq_true in H
  | H : bool_decide _ = false |- _ => apply bool_decide_eq_false in H
  | H : (_ =? _)%Z = true |- _ => apply Z.eqb_eq in H
  | H : (_ =? _)%Z = false |- _ => apply Z.eqb_neq in H
  | H : (_ <? _)%Z = true |- _ => apply Z.ltb_lt in H
  | H : (_ <? _)%Z = false |- _ => apply Z.ltb_ge in H
  | H : (_ <=? _)%Z = true |- _ => apply Z.leb_le in H
  | H : (_ <=? _)%Z = false |- _ => apply Z.leb_gt in H
  | H : (_ =? _)%N = true |- _ => apply N.eqb_eq in H
  | H : (_ =? _)%N = false |- _ => apply N.eqb_neq in H
  | H : (_ <? _)%N = true |- _ => apply N.ltb_lt in H
  | H : (_ <? _)%N = false |- _ => apply N.ltb_ge in H
  | H : (_ <=? _)%N = true |- _ => apply N.leb_le in H
  | H : (_ <=? _)%N = false |- _ => apply N.leb_gt in H
  | H : (_ =? _)%nat = true |- _ => apply Nat.eqb_eq in H
  | H : (_ =? _)%nat = false |- _ => apply Nat.eqb_neq in H
  | H : (_ <? _)%nat = true |- _ => apply Nat.ltb_lt in H
  | H : (_ <? _)%nat = false |- _ => apply Nat.ltb_ge in H
  | H : (_ <=? _)%nat = true |- _ => apply Nat.leb_le in H
  | H : (_ <=? _)%nat = false |- _ => apply Nat.leb_gt in H
  end.

(** Case analysis on the first match of a hypothesis. *)
Ltac dmatch H :=
  match type of H with
  | context [match ?x with _ => _ end] =>
      lazymatch x with
      | context [match _ with _ => _ end] => fail
      | _ => let E := fresh "E" in destruct x eqn:E
      end
  end.

(** Break a hypothesis [H : body = result] along the branches of the body,
    discarding the impossible ones. *)
Ltac dmatches H := repeat (dmatch H; simplify_eq).

(** ** Hints

    [go] collects the inversion lemmas of the monads and of the string
    operations; [gostr] the rewriting rules of string concatenation. *)

Create HintDb go.
Create Rewrite HintDb gostr.
