(* ===== verification/GoString.v ===== *)
(** * Go strings

    A Go string is a byte sequence: [string] with one [ascii] per byte.  This
    file models the functions of [strings], [path], [strconv] and [unicode/utf8]
    that the program calls, and their algebra. *)

From S2P Require Import Prelude.

Definition slen (s : string) : nat := String.length s.

Fixpoint sdrop (n : nat) (s : string) : string :=
  match n, s with
  | O, _ => s
  | S n, String _ s => sdrop n s
  | S _, "" => ""
  end.

Fixpoint stake (n : nat) (s : string) : string :=
  match n, s with
  | O, _ => ""
  | S n, String a s => String a (stake n s)
  | S _, "" => ""
  end.

(** Predicates on all bytes, resp. on some byte. *)
Fixpoint sforall (p : ascii → bool) (s : string) : bool :=
  match s with "" => true | String a s => p a && sforall p s end.

Definition sexists (p : ascii → bool) (s : string) : bool :=
  negb (sforall (fun a => negb (p a)) s).

(** ** Package strings *)

Fixpoint HasPrefix (s p : string) {struct p} : bool :=
  match p, s with
  | "", _ => true
  | String b p', String a s' => bool_decide (a = b) && HasPrefix s' p'
  | String _ _, "" => false
  end.

Definition HasSuffix (s suf : string) : bool :=
  (slen suf <=? slen s) && String.eqb (sdrop (slen s - slen suf) s) suf.

Definition TrimPrefix (s p : string) : string :=
  if HasPrefix s p then sdrop (slen p) s else s.

Definition TrimSuffix (s suf : string) : string :=
  if HasSuffix s suf then stake (slen s - slen suf) s else s.

Fixpoint Contains (s sub : string) : bool :=
  HasPrefix s sub || match s with "" => false | String _ s' => Contains s' sub end.

(** [strings.Cut]: before, after and found; an unfound separator leaves the
    whole string in [before]. *)
Fixpoint cut_at (s sep : string) : option (string * string) :=
  if HasPrefix s sep then Some ("", sdrop (slen sep) s)
  else match s with
       | "" => None
       | String a s' =>
           match cut_at s' sep with
           | Some (b, r) => Some (String a b, r)
           | None => None
           end
       end.

Definition Cut (s sep : string) : string * string * bool :=
  match cut_at s sep with
  | Some (b, r) => (b, r, true)
  | None => (s, "", false)
  end.

Definition CutPrefix (s p : string) : string * bool :=
  if HasPrefix s p then (sdrop (slen p) s, true) else (s, false).

(** [strings.Split] for the one-byte separators the program uses. *)
Fixpoint Split (s : string) (sep : ascii) : list string :=
  match s with
  | "" => [""]
  | String a s' =>
      if bool_decide (a = sep) then "" :: Split s' sep
      else match Split s' sep with
           | x :: xs => String a x :: xs
           | [] => [String a ""]
           end
  end.

Fixpoint Join (l : list string) (sep : string) : string :=
  match l with
  | [] => ""
  | [x] => x
  | x :: l => x +:+ sep +:+ Join l sep
  end.

Fixpoint TrimLeft (s : string) (c : ascii) : string :=
  match s with
  | String a s' => if bool_decide (a = c) then TrimLeft s' c else s
  | "" => ""
  end.

Fixpoint TrimRight (s : string) (c : ascii) : string :=
  match s with
  | "" => ""
  | String a s' =>
      match TrimRight s' c with
      | "" => if bool_decide (a = c) then "" else String a ""
      | t => String a t
      end
  end.

Definition Trim (s : string) (c : ascii) : string := TrimRight (TrimLeft s c) c.

(** [strings.Compare]: -1, 0 or 1 by lexicographic byte order. *)
Definition Compare (a b : string) : Z :=
  match String.compare a b with Lt => -1 | Eq => 0 | Gt => 1 end.

(** ** Bytes and runes *)

Definition byte_of (a : ascii) : N := N_of_ascii a.

Definition in_range (lo hi : ascii) (a : ascii) : bool :=
  (byte_of lo <=? byte_of a)%N && (byte_of a <=? byte_of hi)%N.

Definition RuneError : N := 65533.

Definition is_cont (a : ascii) : bool := (128 <=? byte_of a)%N && (byte_of a <=? 191)%N.

(** [utf8.DecodeRune] as [for _, char := range s] uses it: an ill-formed byte
    yields [RuneError] and advances by one byte. *)
Fixpoint runes (s : string) : list N :=
  match s with
  | "" => []
  | String a s1 =>
      let x := byte_of a in
      if (x <? 128)%N then x :: runes s1
      else if (194 <=? x)%N && (x <=? 223)%N then
        match s1 with
        | String b s2 =>
            if is_cont b then ((x - 192) * 64 + (byte_of b - 128))%N :: runes s2
            else RuneError :: runes s1
        | "" => [RuneError]
        end
      else if (224 <=? x)%N && (x <=? 239)%N then
        match s1 with
        | String b (String c s3) =>
            let lo := if (x =? 224)%N then 160%N else 128%N in
            let hi := if (x =? 237)%N then 159%N else 191%N in
            if (lo <=? byte_of b)%N && (byte_of b <=? hi)%N && is_cont c then
              ((x - 224) * 4096 + (byte_of b - 128) * 64 + (byte_of c - 128))%N :: runes s3
            else RuneError :: runes s1
        | _ => RuneError :: runes s1
        end
      else if (240 <=? x)%N && (x <=? 244)%N then
        match s1 with
        | String b (String c (String d s4)) =>
            let lo := if (x =? 240)%N then 144%N else 128%N in
            let hi := if (x =? 244)%N then 143%N else 191%N in
            if (lo <=? byte_of b)%N && (byte_of b <=? hi)%N && is_cont c && is_cont d then
              ((x - 240) * 262144 + (byte_of b - 128) * 4096
               + (byte_of c - 128) * 64 + (byte_of d - 128))%N :: runes s4
            else RuneError :: runes s1
        | _ => RuneError :: runes s1
        end
      else RuneError :: runes s1
  end.

(** ** Package strconv *)

Definition max_uint64 : N := 18446744073709551615.

(** [strconv.ParseUint(s, 10, 64)]: [None] is the error ([ErrSyntax] or
    [ErrRange]); the accumulator wraps at 64 bits as in the library. *)
Fixpoint parse_uint_loop (s : string) (n : N) : option N :=
  match s with
  | "" => Some n
  | String a s' =>
      if in_range "0" "9" a then
        let d := (byte_of a - 48)%N in
        if (max_uint64 / 10 + 1 <=? n)%N then None
        else
          let n := (n * 10)%N in
          let n1 := ((n + d) mod 2 ^ 64)%N in
          if (n1 <? n)%N || (max_uint64 <? n1)%N then None
          else parse_uint_loop s' n1
      else None
  end.

Definition ParseUint (s : string) : option N :=
  match s with "" => None | _ => parse_uint_loop s 0 end.

(** The exact value of a string of decimal digits, read left to right. *)
Fixpoint dec_value (s : string) (n : N) : N :=
  match s with
  | "" => n
  | String a s' => dec_value s' (n * 10 + (byte_of a - 48))
  end.

Definition is_digit (a : ascii) : bool := in_range "0" "9" a.

(** * Lemmas *)

Lemma sapp_cons a s t : String a s +:+ t = String a (s +:+ t).
Proof. done. Qed.

Lemma sapp_nil_l t : "" +:+ t = t.
Proof. done. Qed.

Lemma sapp_nil_r s : s +:+ "" = s.
Proof. induction s as [|a s IH]; [done|]. by rewrite sapp_cons, IH. Qed.

Lemma sapp_assoc s t u : (s +:+ t) +:+ u = s +:+ (t +:+ u).
Proof. induction s as [|a s IH]; [done|]. by rewrite !sapp_cons, IH. Qed.

Lemma slen_app s t : slen (s +:+ t) = slen s + slen t.
Proof. induction s as [|a s IH]; [done|]. rewrite sapp_cons. unfold slen in *. simpl. lia. Qed.

Lemma sapp_inj_l s t u : s +:+ t = s +:+ u → t = u.
Proof.
  induction s as [|a s IH]; [done|]. rewrite !sapp_cons. intros [=]. auto.
Qed.

Lemma sapp_inj s1 t1 s2 t2 :
  slen s1 = slen s2 → s1 +:+ t1 = s2 +:+ t2 → s1 = s2 ∧ t1 = t2.
Proof.
  revert s2. induction s1 as [|a s1 IH]; intros [|b s2]; try done.
  rewrite !sapp_cons. intros [=Hl] [=-> Happ].
  destruct (IH s2) as [-> ->]; done.
Qed.

Lemma sapp_inj_r s1 s2 t : s1 +:+ t = s2 +:+ t → s1 = s2.
Proof.
  intros H. apply (sapp_inj s1 t s2 t); [|done].
  apply (f_equal slen) in H. rewrite !slen_app in H. lia.
Qed.

Lemma sapp_eq_nil s t : s +:+ t = "" ↔ s = "" ∧ t = "".
Proof. destruct s; [|rewrite sapp_cons]; naive_solver. Qed.

Lemma sdrop_app s t : sdrop (slen s) (s +:+ t) = t.
Proof. induction s as [|a s IH]; [done|]. by rewrite sapp_cons. Qed.

Lemma stake_app s t : stake (slen s) (s +:+ t) = s.
Proof.
  induction s as [|a s IH]; [by destruct t|].
  rewrite sapp_cons. unfold slen in *. simpl. by rewrite IH.
Qed.

Lemma stake_sdrop n s : stake n s +:+ sdrop n s = s.
Proof.
  revert s. induction n as [|n IH]; intros [|a s]; try done.
  simpl. by rewrite sapp_cons, IH.
Qed.

Lemma slen_sdrop n s : slen (sdrop n s) = slen s - n.
Proof. revert s. induction n as [|n IH]; intros [|a s]; simpl; auto; unfold slen in *; simpl; auto. Qed.

Lemma slen_stake n s : slen (stake n s) = n `min` slen s.
Proof. revert s. induction n as [|n IH]; intros [|a s]; simpl; auto; unfold slen in *; simpl; auto. Qed.

#[export] Hint Rewrite sapp_nil_l sapp_nil_r sapp_assoc sapp_cons slen_app
  sdrop_app stake_app : gostr.

(** ** Byte predicates *)

Lemma sforall_app p s t : sforall p (s +:+ t) = sforall p s && sforall p t.
Proof.
  induction s as [|a s IH]; [done|]. rewrite sapp_cons. simpl. rewrite IH. by destruct (p a).
Qed.

Lemma sforall_impl (p q : ascii → bool) s :
  (∀ a, p a = true → q a = true) → sforall p s = true → sforall q s = true.
Proof. intros Hpq. induction s; simpl; [done|]. intros H; to_props. rewrite Hpq; auto. Qed.

Lemma sforall_ext (p q : ascii → bool) s : (∀ a, p a = q a) → sforall p s = sforall q s.
Proof. intros H. induction s; simpl; congruence. Qed.

Lemma sforall_andb p q s : sforall (λ a, p a && q a) s = sforall p s && sforall q s.
Proof. induction s as [|a s IH]; simpl; [done|]. rewrite IH. by destruct (p a), (q a), (sforall p s). Qed.

Lemma sexists_app p s t : sexists p (s +:+ t) = sexists p s || sexists p t.
Proof. unfold sexists. rewrite sforall_app. by rewrite negb_andb. Qed.

Lemma sexists_cons p a s : sexists p (String a s) = p a || sexists p s.
Proof. unfold sexists. simpl. by rewrite negb_andb, negb_involutive. Qed.

Lemma sforall_not_exists p q s :
  (∀ a, p a = true → q a = false) → sforall p s = true → sexists q s = false.
Proof.
  intros Hpq H. unfold sexists. apply negb_false_iff. revert H. apply sforall_impl.
  intros a Ha. by rewrite Hpq.
Qed.

(** ** Prefixes and suffixes *)

Lemma HasPrefix_app p t : HasPrefix (p +:+ t) p = true.
Proof.
  induction p as [|a p IH]; [done|]. rewrite sapp_cons.
  simpl. by rewrite bool_decide_eq_true_2.
Qed.

Lemma HasPrefix_iff s p : HasPrefix s p = true ↔ ∃ t, s = p +:+ t.
Proof.
  split; [|intros [t ->]; apply HasPrefix_app].
  revert s. induction p as [|a p IH]; intros s; [by exists s|].
  destruct s as [|b s]; simpl; [done|].
  intros [Hb [t ->]%IH]%andb_true_iff; to_props. subst. exists t. by rewrite sapp_cons.
Qed.

Lemma HasSuffix_app t suf : HasSuffix (t +:+ suf) suf = true.
Proof.
  unfold HasSuffix. rewrite slen_app. replace (slen t + slen suf - slen suf) with (slen t) by lia.
  rewrite sdrop_app, String.eqb_refl. replace (slen suf <=? _) with true; [done|].
  symmetry. apply Nat.leb_le. lia.
Qed.

Lemma HasSuffix_iff s suf : HasSuffix s suf = true ↔ ∃ t, s = t +:+ suf.
Proof.
  split; [|intros [t ->]; apply HasSuffix_app].
  unfold HasSuffix. intros H; to_props.
  exists (stake (slen s - slen suf) s). rewrite <- H0 at 2. by rewrite stake_sdrop.
Qed.

Lemma TrimPrefix_app p t : TrimPrefix (p +:+ t) p = t.
Proof. unfold TrimPrefix. by rewrite HasPrefix_app, sdrop_app. Qed.

Lemma TrimSuffix_app t suf : TrimSuffix (t +:+ suf) suf = t.
Proof.
  unfold TrimSuffix. rewrite HasSuffix_app, slen_app.
  replace (slen t + slen suf - slen suf) with (slen t) by lia. apply stake_app.
Qed.

Lemma Contains_iff s sub : Contains s sub = true ↔ ∃ b r, s = b +:+ sub +:+ r.
Proof.
  split.
  - induction s as [|a s IH]; cbn [Contains]; intros [H|H]%orb_true_iff; try done.
    + apply HasPrefix_iff in H as [t H]. by exists "", t.
    + apply HasPrefix_iff in H as [t H]. by exists "", t.
    + destruct (IH H) as (b & r & ->). by exists (String a b), r.
  - intros (b & r & ->). induction b as [|a b IH].
    + rewrite sapp_nil_l. pose proof (HasPrefix_app sub r) as H.
      destruct (sub +:+ r); cbn [Contains]; by rewrite H.
    + rewrite sapp_cons. cbn [Contains]. by rewrite IH, orb_true_r.
Qed.

(** ** Cut and Split *)

Definition no_char (c : ascii) (s : string) : Prop := sexists (λ a, bool_decide (a = c)) s = false.

Lemma no_char_nil c : no_char c "".
Proof. done. Qed.

Lemma no_char_cons c a s : no_char c (String a s) ↔ a ≠ c ∧ no_char c s.
Proof.
  unfold no_char. rewrite sexists_cons, orb_false_iff, bool_decide_eq_false. done.
Qed.

Lemma no_char_app c s t : no_char c (s +:+ t) ↔ no_char c s ∧ no_char c t.
Proof. unfold no_char. by rewrite sexists_app, orb_false_iff. Qed.

Lemma no_char_sforall c p s : p c = false → sforall p s = true → no_char c s.
Proof.
  intros Hc. unfold no_char. apply (sforall_not_exists p). intros a Ha.
  apply bool_decide_eq_false. congruence.
Qed.

#[export] Hint Resolve no_char_nil : go.

Lemma cut_at_some s sep b r : cut_at s sep = Some (b, r) → s = b +:+ sep +:+ r.
Proof.
  revert b r. induction s as [|a s IH]; intros b r; cbn [cut_at].
  - destruct (HasPrefix "" sep) eqn:E; [|done]. intros [=<- <-].
    apply HasPrefix_iff in E as [t E]. rewrite sapp_nil_l, E, sdrop_app. done.
  - destruct (HasPrefix (String a s) sep) eqn:E.
    + intros [=<- <-]. apply HasPrefix_iff in E as [t E]. rewrite sapp_nil_l, E, sdrop_app. done.
    + destruct (cut_at s sep) as [[b' r']|] eqn:E'; [|done]. intros [=<- <-].
      rewrite sapp_cons. f_equal. by apply IH.
Qed.

Lemma cut_at_char b r c : no_char c b → cut_at (b +:+ String c r) (String c "") = Some (b, r).
Proof.
  induction b as [|a b IH].
  - intros _. rewrite sapp_nil_l. cbn [cut_at].
    pose proof (HasPrefix_app (String c "") r) as H. rewrite sapp_cons, sapp_nil_l in H.
    rewrite H. done.
  - intros [Hac Hb]%no_char_cons. rewrite sapp_cons. cbn [cut_at].
    simpl. rewrite bool_decide_eq_false_2 by done. by rewrite IH.
Qed.

Lemma cut_at_char_none s c : cut_at s (String c "") = None ↔ no_char c s.
Proof.
  induction s as [|a s IH]; [done|]. rewrite no_char_cons. cbn [cut_at].
  simpl. rewrite andb_true_r. case_bool_decide as Hca.
  - split; [done|]. by intros [? _].
  - rewrite <- IH. destruct (cut_at s (String c "")) as [[??]|]; naive_solver.
Qed.

Lemma cut_at_char_some s c b r :
  cut_at s (String c "") = Some (b, r) ↔ s = b +:+ String c r ∧ no_char c b.
Proof.
  split; [|intros [-> ?]; by apply cut_at_char].
  intros H. split; [by apply cut_at_some in H|].
  revert b r H. induction s as [|a s IH]; intros b r; [done|]. cbn [cut_at].
  simpl. rewrite andb_true_r. case_bool_decide as Hca.
  - by intros [=<- <-].
  - destruct (cut_at s (String c "")) as [[b' r']|]; [|done]. intros [=<- <-].
    apply no_char_cons. eauto.
Qed.

Lemma Cut_char_found s c b r :
  Cut s (String c "") = (b, r, true) ↔ s = b +:+ String c r ∧ no_char c b.
Proof.
  unfold Cut. rewrite <- cut_at_char_some.
  destruct (cut_at s (String c "")) as [[??]|]; naive_solver.
Qed.

Lemma Cut_char_not_found s c b r :
  Cut s (String c "") = (b, r, false) ↔ b = s ∧ r = "" ∧ no_char c s.
Proof.
  unfold Cut. rewrite <- cut_at_char_none.
  destruct (cut_at s (String c "")) as [[??]|]; naive_solver.
Qed.

Lemma Split_not_nil s c : Split s c ≠ [].
Proof. destruct s as [|a s]; simpl; [done|]. case_bool_decide; [done|]. by destruct (Split s c). Qed.

Lemma Split_no_char s c : no_char c s → Split s c = [s].
Proof.
  induction s as [|a s IH]; [done|]. intros [Ha Hs]%no_char_cons. simpl.
  rewrite bool_decide_eq_false_2 by done. by rewrite IH.
Qed.

Lemma Split_app s t c : no_char c s → Split (s +:+ String c t) c = s :: Split t c.
Proof.
  induction s as [|a s IH]; intros Hs.
  - rewrite sapp_nil_l. simpl. by rewrite bool_decide_eq_true_2.
  - apply no_char_cons in Hs as [Ha Hs]. rewrite sapp_cons. simpl.
    rewrite bool_decide_eq_false_2 by done. by rewrite IH.
Qed.

Lemma Split_pieces s c : Forall (no_char c) (Split s c).
Proof.
  induction s as [|a s IH]; simpl; [by constructor|].
  case_bool_decide; [by constructor|].
  destruct (Split s c) as [|x xs]; constructor; inversion IH; subst; try done.
  - apply no_char_cons; done.
  - apply no_char_cons; done.
Qed.

Lemma Join_cons x l sep : l ≠ [] → Join (x :: l) sep = x +:+ sep +:+ Join l sep.
Proof. by destruct l. Qed.

Lemma no_char_Join c l sep :
  no_char c sep → Forall (no_char c) l → no_char c (Join l sep).
Proof.
  intros Hsep. induction l as [|x l IH]; [done|]. intros [Hx Hl]%Forall_cons.
  destruct l; [done|]. rewrite Join_cons by done. rewrite !no_char_app. auto.
Qed.

Lemma Join_Split s c : Join (Split s c) (String c "") = s.
Proof.
  induction s as [|a s IH]; [done|]. simpl. case_bool_decide as Ha.
  - subst. rewrite Join_cons by apply Split_not_nil. by rewrite IH.
  - pose proof (Split_not_nil s c). destruct (Split s c) as [|x xs]; [done|].
    rewrite <- IH. destruct xs; [done|].
    rewrite !(Join_cons _ (_ :: _)) by done. by rewrite sapp_cons.
Qed.

Lemma Split_Join l c : l ≠ [] → Forall (no_char c) l → Split (Join l (String c "")) c = l.
Proof.
  induction l as [|x l IH]; [done|]. intros _ [Hx Hl]%Forall_cons.
  destruct l as [|y l]; [by apply Split_no_char|].
  rewrite Join_cons by done. rewrite (sapp_cons c), sapp_nil_l, Split_app by done.
  by rewrite IH.
Qed.

(** ** Compare *)

Lemma Compare_refl a : Compare a a = 0%Z.
Proof.
  unfold Compare. destruct (String.compare a a) eqn:E; [done| |];
  pose proof (String.compare_antisym a a) as H; rewrite E in H; done.
Qed.

Lemma Compare_eq a b : Compare a b = 0%Z ↔ a = b.
Proof.
  split; [|intros ->; apply Compare_refl].
  unfold Compare. destruct (String.compare a b) eqn:E; try done.
  intros _. by apply String.compare_eq_iff.
Qed.

Lemma Compare_antisym a b : Compare a b = (- Compare b a)%Z.
Proof. unfold Compare. rewrite String.compare_antisym. by destruct (String.compare b a). Qed.

Lemma Compare_le a b : (Compare a b ≤ 0)%Z ↔ String.le a b.
Proof.
  unfold Compare, String.le, String.leb. destruct (String.compare a b); simpl; naive_solver lia.
Qed.

Lemma Compare_range a b : Compare a b = (-1)%Z ∨ Compare a b = 0%Z ∨ Compare a b = 1%Z.
Proof. unfold Compare. destruct (String.compare a b); auto. Qed.

Lemma Compare_trans a b c : (Compare a b ≤ 0)%Z → (Compare b c ≤ 0)%Z → (Compare a c ≤ 0)%Z.
Proof. rewrite !Compare_le. apply transitivity. Qed.

(** ** Runes *)

(** A predicate that rejects every rune outside ASCII sees the same thing
    rune by rune and byte by byte. *)
Lemma runes_ascii_forall (p : N → bool) s :
  (∀ r, (128 ≤ r)%N → p r = false) →
  forallb p (runes s) = sforall (λ a, p (byte_of a)) s.
Proof.
  intros Hp. destruct s as [|a s]; [done|]. revert a.
  induction s as [|b s IH]; intros a; cbn [runes sforall forallb];
    destruct (byte_of a <? 128)%N eqn:Ha; to_props; cbn [forallb].
  - done.
  - rewrite (Hp (byte_of a)) by done.
    repeat case_match; cbn [forallb]; rewrite ?(Hp RuneError) by (unfold RuneError; lia); done.
  - f_equal. apply IH.
  - rewrite (Hp (byte_of a)) by done. simpl (false && _).
    repeat case_match; cbn [forallb]; to_props; unfold is_cont in *; to_props;
      rewrite Hp by (unfold RuneError; lia); done.
Qed.

(** ** ParseUint *)

Lemma dec_value_ge s n : (n ≤ dec_value s n)%N.
Proof.
  revert n. induction s as [|a s IH]; intros n; cbn [dec_value]; [lia|].
  etransitivity; [|apply IH]. lia.
Qed.

Lemma dec_value_app s t n : dec_value (s +:+ t) n = dec_value t (dec_value s n).
Proof. revert n. induction s as [|a s IH]; intros n; [done|]. rewrite sapp_cons. simpl. apply IH. Qed.

Lemma parse_uint_loop_spec s n :
  (n ≤ max_uint64)%N →
  parse_uint_loop s n =
    if sforall is_digit s && (dec_value s n <=? max_uint64)%N
    then Some (dec_value s n) else None.
Proof.
  revert n. induction s as [|a s IH]; intros n Hn; cbn [parse_uint_loop sforall dec_value].
  { replace (n <=? max_uint64)%N with true; [done|]. symmetry. by apply N.leb_le. }
  change (in_range "0" "9" a) with (is_digit a).
  destruct (is_digit a) eqn:Hd; [|done]. simpl (true && _).
  assert (48 ≤ byte_of a ≤ 57)%N as Hr.
  { unfold is_digit, in_range in Hd. to_props. done. }
  pose proof (dec_value_ge s (n * 10 + (byte_of a - 48))) as Hge.
  assert (max_uint64 / 10 + 1 = 1844674407370955162)%N as Hcut by done.
  assert (2 ^ 64 = 18446744073709551616)%N as H64 by done.
  unfold max_uint64 in *. rewrite Hcut, H64.
  destruct (1844674407370955162 <=? n)%N eqn:Hc; to_props.
  { replace (_ <=? _)%N with false; [by rewrite andb_false_r|]. symmetry. apply N.leb_gt. lia. }
  destruct (decide (n * 10 + (byte_of a - 48) < 18446744073709551616)%N) as [Hs|Hs].
  - rewrite N.mod_small by done.
    replace (_ <? n * 10)%N with false by (symmetry; apply N.ltb_ge; lia).
    replace (_ <? _)%N with false by (symmetry; apply N.ltb_ge; lia).
    apply IH. lia.
  - replace (_ <=? 18446744073709551615)%N with false by (symmetry; apply N.leb_gt; lia).
    rewrite andb_false_r.
    replace ((n * 10 + (byte_of a - 48)) mod 18446744073709551616)%N
      with (n * 10 + (byte_of a - 48) - 18446744073709551616)%N.
    + replace (_ <? n * 10)%N with true by (symmetry; apply N.ltb_lt; lia). done.
    + apply (N.mod_unique _ _ 1); lia.
Qed.

(** [ParseUint] accepts exactly the non-empty digit strings whose value fits
    in 64 bits, and returns that value. *)
Lemma ParseUint_some s n :
  ParseUint s = Some n ↔
  s ≠ "" ∧ sforall is_digit s = true ∧ n = dec_value s 0 ∧ (n ≤ max_uint64)%N.
Proof.
  assert (ParseUint s = match s with "" => None | _ => parse_uint_loop s 0 end) as -> by done.
  destruct s as [|a s]; [naive_solver|]. rewrite parse_uint_loop_spec by done.
  destruct (sforall is_digit _ && _) eqn:E; split.
  - intros [=<-]. to_props. done.
  - intros (_ & _ & -> & _). done.
  - done.
  - intros (_ & Hd & -> & Hle). apply N.leb_le in Hle. rewrite Hd, Hle in E. done.
Qed.

Lemma Contains_cut s sub : Contains s sub = match cut_at s sub with Some _ => true | None => false end.
Proof.
  induction s as [|a s IH]; cbn [Contains cut_at].
  - by destruct (HasPrefix "" sub).
  - destruct (HasPrefix (String a s) sub); [done|]. rewrite IH. by destruct (cut_at s sub) as [[??]|].
Qed.

Lemma Contains_char s c : Contains s (String c "") = false ↔ no_char c s.
Proof. rewrite Contains_cut, <- cut_at_char_none. by destruct (cut_at s (String c "")) as [[??]|]. Qed.

(** ** Unique splittings *)

Lemma split_first_unique c a a' b b' :
  no_char c a → no_char c a' → a +:+ String c b = a' +:+ String c b' → a = a' ∧ b = b'.
Proof.
  intros Ha Ha' E. pose proof (cut_at_char a b c Ha) as H. rewrite E, cut_at_char in H by done.
  by simplify_eq.
Qed.

Lemma no_char_first c s : no_char c s ∨ ∃ a b, s = a +:+ String c b ∧ no_char c a.
Proof.
  destruct (cut_at s (String c "")) as [[a b]|] eqn:E.
  - apply cut_at_char_some in E. eauto.
  - left. by apply cut_at_char_none.
Qed.

Lemma has_char_app c a b : ¬ no_char c (a +:+ String c b).
Proof. rewrite no_char_app, no_char_cons. naive_solver. Qed.

Lemma split_last_unique c a a' b b' :
  no_char c b → no_char c b' → a +:+ String c b = a' +:+ String c b' → a = a' ∧ b = b'.
Proof.
  intros Hb Hb'. revert a'. induction a as [|x a IH]; intros [|y a'].
  - rewrite !sapp_nil_l. naive_solver.
  - rewrite sapp_nil_l, sapp_cons. intros [=-> ->]. by apply has_char_app in Hb.
  - rewrite sapp_nil_l, sapp_cons. intros [=-> <-]. by apply has_char_app in Hb'.
  - rewrite !sapp_cons. intros [=-> E]. destruct (IH _ E) as [-> ->]. done.
Qed.

Lemma sapp_inj_suffix a a' b b' : slen b = slen b' → a +:+ b = a' +:+ b' → a = a' ∧ b = b'.
Proof.
  intros Hl E. apply sapp_inj; [|done].
  apply (f_equal slen) in E. rewrite !slen_app in E. lia.
Qed.

(** ** Trim *)

Lemma TrimLeft_id s c : no_char c s → TrimLeft s c = s.
Proof. destruct s as [|a s]; [done|]. intros [Ha _]%no_char_cons. simpl. by rewrite bool_decide_eq_false_2. Qed.

Lemma TrimRight_last s c a : a ≠ c → TrimRight (s +:+ String a "") c = s +:+ String a "".
Proof.
  intros Ha. induction s as [|x s IH].
  - rewrite sapp_nil_l. simpl. by rewrite bool_decide_eq_false_2.
  - rewrite sapp_cons. simpl. rewrite IH. by destruct s.
Qed.

(** The last byte exists and is not [c]. *)
Definition ends_not (c : ascii) (t : string) : Prop := ∃ s a, t = s +:+ String a "" ∧ a ≠ c.

Lemma ends_not_app c u t : ends_not c t → ends_not c (u +:+ t).
Proof. intros (s & a & -> & Ha). exists (u +:+ s), a. by rewrite sapp_assoc. Qed.

Lemma Trim_id x s c : x ≠ c → ends_not c (String x s) → Trim (String x s) c = String x s.
Proof.
  intros Hx (t & a & E & Ha). unfold Trim. simpl TrimLeft.
  rewrite bool_decide_eq_false_2 by done. rewrite E. by apply TrimRight_last.
Qed.

(** ** Decimal numerals *)

Lemma pretty_N_go_digits x : ∀ s, sforall is_digit s = true → sforall is_digit (pretty_N_go x s) = true.
Proof.
  induction (N.lt_wf_0 x) as [x _ IH]. intros s Hs.
  destruct (decide (0 < x)%N) as [Hx|Hx]; [|assert (x = 0%N) as -> by lia; by rewrite pretty_N_go_0].
  rewrite pretty_N_go_step by done. apply IH; [apply N.div_lt; lia|]. simpl. rewrite Hs, andb_true_r.
  pose proof (N.mod_lt x 10 ltac:(lia)). generalize dependent (x `mod` 10)%N. intros d Hd.
  assert (d = 0 ∨ d = 1 ∨ d = 2 ∨ d = 3 ∨ d = 4 ∨ d = 5 ∨ d = 6 ∨ d = 7 ∨ d = 8 ∨ d = 9)%N as Hds by lia.
  repeat match goal with H : _ ∨ _ |- _ => destruct H as [->|H]; [reflexivity|] end. by subst.
Qed.

Lemma pretty_digits (n : N) : sforall is_digit (pretty n) = true.
Proof. unfold pretty, pretty_N. case_decide; [done|]. by apply pretty_N_go_digits. Qed.

Lemma pretty_N_go_value x : ∀ s, dec_value (pretty_N_go x s) 0 = dec_value s x.
Proof.
  induction (N.lt_wf_0 x) as [x _ IH]. intros s.
  destruct (decide (0 < x)%N) as [Hx|Hx]; [|assert (x = 0%N) as -> by lia; by rewrite pretty_N_go_0].
  rewrite pretty_N_go_step by done. rewrite IH by (apply N.div_lt; lia). cbn [dec_value]. f_equal.
  rewrite (N.div_mod x 10) at 3 by done. pose proof (N.mod_lt x 10 ltac:(lia)).
  rewrite (N.mul_comm 10). f_equal. generalize dependent (x `mod` 10)%N. intros d Hd.
  assert (d = 0 ∨ d = 1 ∨ d = 2 ∨ d = 3 ∨ d = 4 ∨ d = 5 ∨ d = 6 ∨ d = 7 ∨ d = 8 ∨ d = 9)%N as Hds by lia.
  repeat match goal with H : _ ∨ _ |- _ => destruct H as [->|H]; [reflexivity|] end. by subst.
Qed.

Lemma pretty_value (n : N) : dec_value (pretty n) 0 = n.
Proof. unfold pretty, pretty_N. case_decide; [by subst|]. by rewrite pretty_N_go_value. Qed.

Lemma pretty_not_empty (n : N) : pretty n ≠ "".
Proof. intros E. pose proof (pretty_value n) as H. rewrite E in H. simpl in H. by subst. Qed.

Lemma digit_cases a : is_digit a = true → a ∈ ["0"; "1"; "2"; "3"; "4"; "5"; "6"; "7"; "8"; "9"]%char.
Proof. destruct a as [[] [] [] [] [] [] [] []]; (discriminate 1 || intros _; by apply list_elem_of_In; cbn; tauto). Qed.
