(* ===== verification/SemVer.v ===== *)
(** * Semantic versions

    [registry-server/semver.go]: the strict SemVer 2.0 parser, the precedence
    order and the stable sort of version lists that the indexes rely on. *)

From S2P Require Import Prelude GoString.

(** ** Data and operations *)

(** [semanticVersion]: [core] is the [[3]uint64] array, [pre] the dot-separated
    prerelease identifiers ([[]] for a release). *)
Record semanticVersion := SemanticVersion {
  sv_core : list N;
  sv_pre : list string
}.

#[export] Instance semanticVersion_eq_dec : EqDecision semanticVersion.
Proof. solve_decision. Defined.

Definition rune_digit (r : N) : bool := (48 <=? r)%N && (r <=? 57)%N.

Definition rune_identifier (r : N) : bool :=
  rune_digit r || ((65 <=? r)%N && (r <=? 90)%N) || ((97 <=? r)%N && (r <=? 122)%N)
  || (r =? 45)%N.

(** The zero-led test [len(s) > 1 && s[0] == '0']. *)
Definition zero_led (s : string) : bool :=
  match s with String a (String _ _) => bool_decide (a = "0"%char) | _ => false end.

Definition numericIdentifier (value : string) : option N :=
  if String.eqb value "" then None
  else if forallb rune_digit (runes value) then ParseUint value
  else None.

Definition valid_identifier (enforceNumericLeadingZero : bool) (identifier : string) : bool :=
  if String.eqb identifier "" then false
  else if negb (forallb rune_identifier (runes identifier)) then false
  else
    let allNumeric := forallb rune_digit (runes identifier) in
    if enforceNumericLeadingZero && allNumeric && zero_led identifier then false
    else true.

Definition validIdentifiers (value : string) (enforceNumericLeadingZero : bool) : bool :=
  if String.eqb value "" then false
  else forallb (valid_identifier enforceNumericLeadingZero) (Split value ".").

(** The loop over the three core parts. *)
Fixpoint parse_core (parts : list string) : option (list N) :=
  match parts with
  | [] => Some []
  | part :: parts =>
      match numericIdentifier part with
      | None => None
      | Some value =>
          if zero_led part then None
          else match parse_core parts with
               | Some core => Some (value :: core)
               | None => None
               end
      end
  end.

(** The [ok] flag of the Go function is the [option]; its callers drop the
    partially filled record of a failed parse. *)
Definition parseSemanticVersion (value : string) : option semanticVersion :=
  if String.eqb value "" || HasPrefix value "v" then None
  else
    let '(versionAndPre, build, hasBuild) := Cut value "+" in
    if hasBuild && (Contains build "+" || negb (validIdentifiers build false)) then None
    else
      let '(core, prerelease, hasPrerelease) := Cut versionAndPre "-" in
      if hasPrerelease && negb (validIdentifiers prerelease true) then None
      else
        let parts := Split core "." in
        if negb (length parts =? 3) then None
        else
          match parse_core parts with
          | None => None
          | Some c =>
              Some (SemanticVersion c (if hasPrerelease then Split prerelease "." else []))
          end.

Definition compare_uint (a b : N) : Z :=
  if (a <? b)%N then -1 else if (b <? a)%N then 1 else 0.

Fixpoint compare_cores (a b : list N) : Z :=
  match a, b with
  | x :: a, y :: b =>
      if (x <? y)%N then -1 else if (y <? x)%N then 1 else compare_cores a b
  | _, _ => 0
  end.

(** The prerelease loop, then the tie-break on the number of identifiers. *)
Fixpoint compare_pre (a b : list string) : Z :=
  match a, b with
  | [], [] => 0
  | [], _ :: _ => -1
  | _ :: _, [] => 1
  | aID :: a, bID :: b =>
      match numericIdentifier aID, numericIdentifier bID with
      | Some aNum, Some bNum =>
          if (aNum <? bNum)%N then -1 else if (bNum <? aNum)%N then 1 else compare_pre a b
      | Some _, None => -1
      | None, Some _ => 1
      | None, None =>
          let c := Compare aID bID in
          if (c =? 0)%Z then compare_pre a b else c
      end
  end.

Definition compare_parsed (va vb : semanticVersion) : Z :=
  let c := compare_cores (sv_core va) (sv_core vb) in
  if negb (c =? 0)%Z then c
  else if (length (sv_pre va) =? 0) && (length (sv_pre vb) =? 0) then 0
  else if length (sv_pre va) =? 0 then 1
  else if length (sv_pre vb) =? 0 then -1
  else compare_pre (sv_pre va) (sv_pre vb).

Definition compareSemver (a b : string) : Z :=
  match parseSemanticVersion a, parseSemanticVersion b with
  | Some va, Some vb => compare_parsed va vb
  | _, _ => Compare a b
  end.

(** [sort.SliceStable] as its insertion sort: each element moves left past the
    elements it is less than.  [sort_uniqueness] below shows that on valid
    versions every stable sort returns this list. *)
Fixpoint insert_stable {A} (less : A → A → bool) (x : A) (rev_prefix : list A) : list A :=
  match rev_prefix with
  | [] => [x]
  | y :: r => if less x y then y :: insert_stable less x r else x :: y :: r
  end.

Definition SliceStable {A} (less : A → A → bool) (l : list A) : list A :=
  reverse (foldl (λ acc x, insert_stable less x acc) [] l).

Definition sortSemanticVersions (versions : list string) : list string :=
  SliceStable (λ a b, (compareSemver a b <? 0)%Z) versions.

Definition validVersion (v : string) : bool :=
  match parseSemanticVersion v with Some _ => true | None => false end.

(** The precedence chain of the SemVer specification, section 11. *)
Example precedence_chain :
  sortSemanticVersions
    ["1.0.0"; "1.0.0-rc.1"; "1.0.0-beta.11"; "1.0.0-beta.2"; "1.0.0-beta";
     "1.0.0-alpha.beta"; "1.0.0-alpha.1"; "1.0.0-alpha"]
  = ["1.0.0-alpha"; "1.0.0-alpha.1"; "1.0.0-alpha.beta"; "1.0.0-beta"; "1.0.0-beta.2";
     "1.0.0-beta.11"; "1.0.0-rc.1"; "1.0.0"].
Proof. vm_compute. reflexivity. Qed.

(** ** The reference grammar *)

Definition is_ident (a : ascii) : bool :=
  is_digit a || in_range "A" "Z" a || in_range "a" "z" a || bool_decide (a = "-"%char).

(** A decimal numeral without leading zeros that fits in a [uint64]. *)
Definition numeral (s : string) (n : N) : Prop :=
  s ≠ "" ∧ sforall is_digit s = true ∧ zero_led s = false ∧
  n = dec_value s 0 ∧ (n ≤ max_uint64)%N.

Definition identifier (s : string) : Prop := s ≠ "" ∧ sforall is_ident s = true.

Definition pre_identifier (s : string) : Prop :=
  identifier s ∧ (sforall is_digit s = true → zero_led s = false).

Definition suffix (sep : string) (l : list string) : string :=
  match l with [] => "" | _ => sep +:+ Join l "." end.

(** [<major>.<minor>.<patch>[-<pre>][+<build>]] *)
Inductive SemVerGrammar : string → semanticVersion → Prop :=
| semver_grammar maj min pat x y z pre build :
    numeral maj x → numeral min y → numeral pat z →
    Forall pre_identifier pre → Forall identifier build →
    SemVerGrammar
      (maj +:+ "." +:+ min +:+ "." +:+ pat +:+ suffix "-" pre +:+ suffix "+" build)
      (SemanticVersion [x; y; z] pre).

(** *** Bytes and runes agree *)

Lemma runes_digits s : forallb rune_digit (runes s) = sforall is_digit s.
Proof.
  rewrite runes_ascii_forall; [by apply sforall_ext|].
  intros r Hr. unfold rune_digit. apply andb_false_iff. right. apply N.leb_gt. lia.
Qed.

Lemma rune_identifier_byte a : rune_identifier (byte_of a) = is_ident a.
Proof. destruct a as [[] [] [] [] [] [] [] []]; reflexivity. Qed.

Lemma runes_idents s : forallb rune_identifier (runes s) = sforall is_ident s.
Proof.
  rewrite runes_ascii_forall; [apply sforall_ext, rune_identifier_byte|].
  intros r Hr. unfold rune_identifier, rune_digit.
  rewrite !orb_false_iff, !andb_false_iff, !N.leb_gt, N.eqb_neq. lia.
Qed.

Lemma digit_ident a : is_digit a = true → is_ident a = true.
Proof. unfold is_ident. by intros ->. Qed.

Lemma sforall_digit_ident s : sforall is_digit s = true → sforall is_ident s = true.
Proof. apply sforall_impl, digit_ident. Qed.

Lemma numericIdentifier_some s n :
  numericIdentifier s = Some n ↔
  s ≠ "" ∧ sforall is_digit s = true ∧ n = dec_value s 0 ∧ (n ≤ max_uint64)%N.
Proof.
  rewrite <- ParseUint_some. unfold numericIdentifier. rewrite runes_digits.
  destruct (String.eqb_spec s "") as [->|Hs]; [done|].
  destruct (sforall is_digit s) eqn:Hd; [done|].
  rewrite ParseUint_some, Hd. naive_solver.
Qed.

Lemma numericIdentifier_nil : numericIdentifier "" = None.
Proof. done. Qed.

(** *** Identifier lists *)

Lemma valid_identifier_spec b s :
  valid_identifier b s = true ↔
  identifier s ∧ (b = true → sforall is_digit s = true → zero_led s = false).
Proof.
  unfold valid_identifier, identifier. rewrite runes_idents, runes_digits.
  destruct (String.eqb_spec s "") as [->|Hs]; [naive_solver|].
  destruct (sforall is_ident s); simpl; [|naive_solver].
  destruct b, (sforall is_digit s), (zero_led s); naive_solver.
Qed.

Lemma valid_identifier_pre s : valid_identifier true s = true ↔ pre_identifier s.
Proof. rewrite valid_identifier_spec. unfold pre_identifier. naive_solver. Qed.

Lemma valid_identifier_build s : valid_identifier false s = true ↔ identifier s.
Proof. rewrite valid_identifier_spec. naive_solver. Qed.

Lemma identifier_no_char c s : is_ident c = false → identifier s → no_char c s.
Proof. intros Hc [_ H]. by eapply no_char_sforall. Qed.

Lemma Forall_identifier_no_char c l :
  is_ident c = false → Forall identifier l → Forall (no_char c) l.
Proof. intros Hc Hl. eapply Forall_impl; [exact Hl|]. intros s. by apply identifier_no_char. Qed.

Lemma pre_identifiers l : Forall pre_identifier l → Forall identifier l.
Proof. intros Hl. eapply Forall_impl; [exact Hl|]. by intros s []. Qed.

(** [validIdentifiers] accepts the dot-joined non-empty lists. *)
Lemma validIdentifiers_iff value b :
  validIdentifiers value b = true ↔
  ∃ l, l ≠ [] ∧ value = Join l "." ∧ Split value "." = l ∧
       Forall (λ s, valid_identifier b s = true) l.
Proof.
  unfold validIdentifiers. split.
  - destruct (String.eqb_spec value ""); [done|]. intros H.
    exists (Split value "."). rewrite (Join_Split value).
    split_and!; [apply Split_not_nil|done|done|]. apply Forall_forall.
    intros s Hs. rewrite forallb_forall in H. apply H. by apply list_elem_of_In.
  - intros (l & Hl & Hv & HS & Hall). rewrite HS.
    destruct (String.eqb_spec value "") as [->|].
    { destruct l as [|x l]; [done|]. inversion Hall as [|?? Hx]; subst.
      apply valid_identifier_spec in Hx as [[Hx _] _]. simpl in HS. simplify_eq. }
    apply forallb_forall. intros s Hs. rewrite Forall_forall in Hall. apply Hall.
    by apply list_elem_of_In.
Qed.

Lemma validIdentifiers_Join l b :
  l ≠ [] → Forall (λ s, valid_identifier b s = true) l →
  validIdentifiers (Join l ".") b = true ∧ Split (Join l ".") "." = l.
Proof.
  intros Hl Hall.
  assert (Split (Join l ".") "." = l) as HS.
  { apply Split_Join; [done|]. eapply Forall_impl; [exact Hall|].
    intros s [Hs _]%valid_identifier_spec. by apply identifier_no_char. }
  split; [|done]. apply validIdentifiers_iff. by exists l.
Qed.

(** *** The parser implements the grammar *)

Lemma parse_core_iff parts core :
  parse_core parts = Some core ↔ Forall2 numeral parts core.
Proof.
  revert core. induction parts as [|p parts IH]; intros core; cbn [parse_core].
  { split; [intros [=<-]; constructor|by intros ->%Forall2_nil_inv_l]. }
  destruct (numericIdentifier p) as [n|] eqn:Hn.
  - apply numericIdentifier_some in Hn as (Hp & Hd & -> & Hle).
    destruct (zero_led p) eqn:Hz.
    { split; [done|]. intros (? & ? & (? & ? & ? & _) & _ & _)%Forall2_cons_inv_l. congruence. }
    destruct (parse_core parts) as [c|] eqn:Hc.
    + split.
      * intros [=<-]. constructor; [by repeat split|by apply IH].
      * intros (x & l & (_ & _ & _ & -> & _) & Hl & ->)%Forall2_cons_inv_l.
        apply IH in Hl. congruence.
    + split; [done|]. intros (x & l & _ & Hl & ->)%Forall2_cons_inv_l.
      apply IH in Hl. congruence.
  - split; [done|]. intros (x & l & (Hp & Hd & _ & -> & Hle) & _ & ->)%Forall2_cons_inv_l.
    assert (numericIdentifier p = Some (dec_value p 0)); [|congruence].
    by apply numericIdentifier_some.
Qed.

Lemma numeral_no_char c s n : is_digit c = false → numeral s n → no_char c s.
Proof. intros Hc (_ & Hd & _). by eapply no_char_sforall. Qed.

Lemma numerals_no_char c parts core :
  is_digit c = false → Forall2 numeral parts core → Forall (no_char c) parts.
Proof.
  intros Hc H. induction H; constructor; [|done]. by eapply numeral_no_char.
Qed.

(** What remains of the parser once the build metadata is cut off. *)
Definition parse_release (versionAndPre : string) : option semanticVersion :=
  let '(core, prerelease, hasPrerelease) := Cut versionAndPre "-" in
  if hasPrerelease && negb (validIdentifiers prerelease true) then None
  else
    let parts := Split core "." in
    if negb (length parts =? 3) then None
    else
      match parse_core parts with
      | None => None
      | Some c =>
          Some (SemanticVersion c (if hasPrerelease then Split prerelease "." else []))
      end.

(** A release string: three numerals and an optional prerelease suffix. *)
Inductive Release : string → semanticVersion → Prop :=
| release maj min pat x y z pre :
    numeral maj x → numeral min y → numeral pat z → Forall pre_identifier pre →
    Release (Join [maj; min; pat] "." +:+ suffix "-" pre) (SemanticVersion [x; y; z] pre).

Lemma Forall2_numeral_3 parts core :
  length parts = 3 → Forall2 numeral parts core →
  ∃ a b c x y z, parts = [a; b; c] ∧ core = [x; y; z] ∧
    numeral a x ∧ numeral b y ∧ numeral c z.
Proof.
  intros Hl H. destruct H as [|a x ?? Ha [|b y ?? Hb [|c z ?? Hc [|]]]]; try done.
  by exists a, b, c, x, y, z.
Qed.

Lemma parse_release_sound vp sv : parse_release vp = Some sv → Release vp sv.
Proof.
  unfold parse_release. destruct (Cut vp "-") as [[core pre] hasPre] eqn:HC.
  destruct (hasPre && _) eqn:Hpre; [done|].
  destruct (length (Split core ".") =? 3) eqn:Hl; [|done].
  destruct (parse_core (Split core ".")) as [c|] eqn:Hc; [|done]. intros [=<-].
  apply Nat.eqb_eq in Hl. apply parse_core_iff in Hc.
  destruct (Forall2_numeral_3 _ _ Hl Hc) as (a & b & d & x & y & z & HS & -> & ? & ? & ?).
  rewrite <- (Join_Split core "."), HS in HC. destruct hasPre.
  - simpl in Hpre. to_props. apply validIdentifiers_iff in Hpre as (l & Hl0 & -> & HSl & Hall).
    apply (Cut_char_found vp "-") in HC as [-> _]. rewrite HSl.
    change (String "-" (Join l ".")) with ("-" +:+ Join l ".").
    replace ("-" +:+ Join l ".") with (suffix "-" l) by (by destruct l).
    constructor; try done. eapply Forall_impl; [exact Hall|]. intros s. apply valid_identifier_pre.
  - apply (Cut_char_not_found vp "-") in HC as (HC & -> & _). subst vp.
    rewrite <- (sapp_nil_r (Join _ _)). change "" with (suffix "-" []) at 2.
    by constructor.
Qed.

Lemma parse_release_complete vp sv : Release vp sv → parse_release vp = Some sv.
Proof.
  intros [maj min pat x y z pre Ha Hb Hc Hpre]. unfold parse_release.
  assert (Forall2 numeral [maj; min; pat] [x; y; z]) as Hcore.
  { constructor; [done|]. constructor; [done|]. constructor; [done|]. constructor. }
  assert (no_char "-" (Join [maj; min; pat] ".")) as Hdash.
  { apply no_char_Join; [done|]. by eapply numerals_no_char. }
  assert (Split (Join [maj; min; pat] ".") "." = [maj; min; pat]) as HS.
  { apply Split_Join; [done|]. by eapply numerals_no_char. }
  apply parse_core_iff in Hcore. destruct pre as [|p pre].
  - simpl suffix. rewrite sapp_nil_r.
    assert (Cut (Join [maj; min; pat] ".") "-" = (Join [maj; min; pat] ".", "", false)) as ->.
    { by apply Cut_char_not_found. }
    simpl (false && _). rewrite HS, Hcore. done.
  - assert (Cut (Join [maj; min; pat] "." +:+ suffix "-" (p :: pre)) "-"
            = (Join [maj; min; pat] ".", Join (p :: pre) ".", true)) as ->.
    { by apply Cut_char_found. }
    destruct (validIdentifiers_Join (p :: pre) true) as [-> ->]; [done| |].
    { eapply Forall_impl; [exact Hpre|]. intros s. apply valid_identifier_pre. }
    simpl (true && _). rewrite HS, Hcore. done.
Qed.

Lemma parse_release_iff vp sv : parse_release vp = Some sv ↔ Release vp sv.
Proof. split; [apply parse_release_sound|apply parse_release_complete]. Qed.

Lemma suffix_cons sep l : l ≠ [] → suffix sep l = sep +:+ Join l ".".
Proof. by destruct l. Qed.

Lemma Release_no_char c vp sv :
  is_ident c = false → c ≠ "."%char → Release vp sv → no_char c vp.
Proof.
  intros Hc Hdot [maj min pat x y z pre Ha Hb Hd Hpre].
  assert (is_digit c = false) as Hdig.
  { destruct (is_digit c) eqn:E; [|done]. apply digit_ident in E. congruence. }
  assert (no_char c ".") as Hs by (by apply no_char_cons).
  apply no_char_app. split.
  - apply no_char_Join; [done|]. repeat constructor; by eapply numeral_no_char.
  - destruct pre as [|p pre]; [done|]. rewrite suffix_cons by done. apply no_char_app. split.
    + apply no_char_cons. split; [by intros <-|done].
    + apply no_char_Join; [done|].
      by apply Forall_identifier_no_char, pre_identifiers.
Qed.

(** A version string starts with a digit. *)
Lemma Release_head vp sv t :
  Release vp sv → String.eqb (vp +:+ t) "" || HasPrefix (vp +:+ t) "v" = false.
Proof.
  intros [maj min pat x y z pre (Hn & Hd & _) _ _ _]. destruct maj as [|a maj]; [done|].
  rewrite Join_cons by done. autorewrite with gostr. simpl in Hd; to_props. simpl.
  rewrite bool_decide_eq_false_2; [done|]. by intros ->.
Qed.

Lemma grammar_release v sv :
  SemVerGrammar v sv ↔
  ∃ vp build, Release vp sv ∧ Forall identifier build ∧ v = vp +:+ suffix "+" build.
Proof.
  split.
  - intros [maj min pat x y z pre build ? ? ? ? ?].
    exists (Join [maj; min; pat] "." +:+ suffix "-" pre), build.
    split_and!; [by constructor|done|]. simpl. autorewrite with gostr. done.
  - intros (vp & build & [maj min pat x y z pre ? ? ? ?] & ? & ->).
    replace (_ +:+ suffix "+" build) with
      (maj +:+ "." +:+ min +:+ "." +:+ pat +:+ suffix "-" pre +:+ suffix "+" build).
    { by constructor. }
    simpl. autorewrite with gostr. done.
Qed.

(** [parseSemanticVersion] in two stages. *)
Lemma parseSemanticVersion_release v :
  parseSemanticVersion v =
    if String.eqb v "" || HasPrefix v "v" then None
    else let '(vp, build, hasBuild) := Cut v "+" in
         if hasBuild && (Contains build "+" || negb (validIdentifiers build false)) then None
         else parse_release vp.
Proof. done. Qed.

Lemma parse_iff v sv :
  parseSemanticVersion v = Some sv ↔ SemVerGrammar v sv.
Proof.
  rewrite parseSemanticVersion_release, grammar_release. split.
  - destruct (_ || _); [done|]. destruct (Cut v "+") as [[vp build] hasBuild] eqn:HC.
    destruct (hasBuild && _) eqn:Hb; [done|]. intros HR%parse_release_iff.
    destruct hasBuild; simpl in Hb; to_props.
    + apply validIdentifiers_iff in H0 as (l & Hl & -> & _ & Hall).
      apply (Cut_char_found v "+") in HC as [-> _]. exists vp, l. split_and!; [done| |by destruct l].
      eapply Forall_impl; [exact Hall|]. intros s. apply valid_identifier_build.
    + apply (Cut_char_not_found v "+") in HC as (-> & _ & _). exists v, [].
      simpl. rewrite sapp_nil_r. repeat split; [done|constructor].
  - intros (vp & build & HR & Hb & ->). rewrite (Release_head _ _ _ HR).
    assert (no_char "+" vp) as Hplus by (by eapply Release_no_char).
    apply parse_release_iff in HR. destruct build as [|b build].
    + simpl suffix. rewrite sapp_nil_r.
      assert (Cut vp "+" = (vp, "", false)) as -> by (by apply Cut_char_not_found). done.
    + assert (Cut (vp +:+ suffix "+" (b :: build)) "+" = (vp, Join (b :: build) ".", true)) as ->
        by (by apply Cut_char_found).
      destruct (validIdentifiers_Join (b :: build) false) as [-> _]; [done| |].
      { eapply Forall_impl; [exact Hb|]. intros s. apply valid_identifier_build. }
      assert (Contains (Join (b :: build) ".") "+" = false) as ->; [|done].
      apply Contains_char, no_char_Join; [done|]. by apply Forall_identifier_no_char.
Qed.

Lemma validVersion_iff v : validVersion v = true ↔ ∃ sv, SemVerGrammar v sv.
Proof.
  unfold validVersion. setoid_rewrite <- parse_iff.
  destruct (parseSemanticVersion v); naive_solver.
Qed.

(** C36. The parser accepts exactly the strings of the SemVer grammar (numeric
    core parts without leading zeros and within 64 bits, non-empty dot-separated
    prerelease and build identifiers, no leading zeros in numeric prerelease
    identifiers), and returns their core and prerelease parts. *)
Theorem parseSemanticVersion_grammar v sv :
  parseSemanticVersion v = Some sv ↔ SemVerGrammar v sv.
Proof. apply parse_iff. Qed.

(** ** The precedence order *)

(** A three-way comparison that is a total preorder. *)
Class TotalCmp {A} (P : A → Prop) (c : A → A → Z) := {
  cmp_antisym a b : P a → P b → c a b = (- c b a)%Z;
  cmp_trans x y z : P x → P y → P z → (c x y ≤ 0)%Z → (c y z ≤ 0)%Z → (c x z ≤ 0)%Z
}.

Definition always {A} (_ : A) : Prop := True.

Section total_cmp.
Context {A} (P : A → Prop) (c : A → A → Z) `{!TotalCmp P c}.

Lemma cmp_refl a : P a → c a a = 0%Z.
Proof. intros Ha. pose proof (cmp_antisym a a Ha Ha). lia. Qed.

Lemma cmp_lt_le_trans x y z :
  P x → P y → P z → (c x y < 0)%Z → (c y z ≤ 0)%Z → (c x z < 0)%Z.
Proof.
  intros Hx Hy Hz Hxy Hyz. pose proof (cmp_trans x y z Hx Hy Hz).
  destruct (decide (c x z = 0)%Z) as [E|]; [|lia].
  pose proof (cmp_antisym x z Hx Hz). pose proof (cmp_antisym x y Hx Hy).
  pose proof (cmp_trans y z x Hy Hz Hx). lia.
Qed.

Lemma cmp_le_lt_trans x y z :
  P x → P y → P z → (c x y ≤ 0)%Z → (c y z < 0)%Z → (c x z < 0)%Z.
Proof.
  intros Hx Hy Hz Hxy Hyz. pose proof (cmp_trans x y z Hx Hy Hz).
  destruct (decide (c x z = 0)%Z) as [E|]; [|lia].
  pose proof (cmp_antisym x z Hx Hz). pose proof (cmp_antisym y z Hy Hz).
  pose proof (cmp_trans z x y Hz Hx Hy). lia.
Qed.

Lemma cmp_eq_trans x y z : P x → P y → P z → c x y = 0%Z → c y z = 0%Z → c x z = 0%Z.
Proof.
  intros Hx Hy Hz Hxy Hyz.
  pose proof (cmp_trans x y z Hx Hy Hz). pose proof (cmp_trans z y x Hz Hy Hx).
  pose proof (cmp_antisym x y Hx Hy). pose proof (cmp_antisym y z Hy Hz).
  pose proof (cmp_antisym x z Hx Hz). lia.
Qed.
End total_cmp.

#[export] Instance compare_uint_total : TotalCmp always compare_uint.
Proof.
  unfold compare_uint. split; intros; repeat case_match; to_props; lia.
Qed.

#[export] Instance Compare_total : TotalCmp always Compare.
Proof. split; intros; [apply Compare_antisym|by eapply Compare_trans]. Qed.

(** Lexicographic comparison, a proper prefix being smaller. *)
Section lexicographic.
Context {A} (c : A → A → Z) `{!TotalCmp always c}.

Fixpoint lex (a b : list A) : Z :=
  match a, b with
  | [], [] => 0
  | [], _ :: _ => -1
  | _ :: _, [] => 1
  | x :: a, y :: b => if (c x y =? 0)%Z then lex a b else c x y
  end.

#[export] Instance lex_total : TotalCmp always lex.
Proof.
  split.
  - intros a b _ _. revert b. induction a as [|x a IH]; intros [|y b]; simpl; try done.
    pose proof (cmp_antisym (c:=c) x y I I).
    repeat case_match; to_props; try lia. apply IH.
  - intros a b d _ _ _. revert b d.
    induction a as [|x a IH]; intros [|y b] [|z d]; simpl; try lia.
    pose proof (cmp_antisym (c:=c) x y I I). pose proof (cmp_antisym (c:=c) y z I I).
    pose proof (cmp_eq_trans always c x y z I I I).
    pose proof (cmp_lt_le_trans always c x y z I I I).
    pose proof (cmp_le_lt_trans always c x y z I I I).
    destruct (Z.eqb_spec (c x y) 0), (Z.eqb_spec (c y z) 0), (Z.eqb_spec (c x z) 0);
      try lia. apply IH.
Qed.
End lexicographic.

(** The order on prerelease identifiers: numeric ones first, by value. *)
Definition compare_identifier (a b : string) : Z :=
  match numericIdentifier a, numericIdentifier b with
  | Some x, Some y => compare_uint x y
  | Some _, None => -1
  | None, Some _ => 1
  | None, None => Compare a b
  end.

#[export] Instance compare_identifier_total : TotalCmp always compare_identifier.
Proof.
  unfold compare_identifier. split.
  - intros a b _ _. destruct (numericIdentifier a), (numericIdentifier b); try done;
      by apply cmp_antisym.
  - intros x y z _ _ _.
    destruct (numericIdentifier x), (numericIdentifier y), (numericIdentifier z); try lia;
      by apply cmp_trans.
Qed.

Lemma compare_pre_lex a b : compare_pre a b = lex compare_identifier a b.
Proof.
  revert b. induction a as [|x a IH]; intros [|y b]; try done. simpl.
  unfold compare_identifier, compare_uint.
  destruct (numericIdentifier x), (numericIdentifier y); rewrite ?IH; try done.
  by repeat case_match.
Qed.

Lemma compare_cores_lex a b : length a = length b → compare_cores a b = lex compare_uint a b.
Proof.
  revert b. induction a as [|x a IH]; intros [|y b]; try done. simpl. intros [= Hl].
  rewrite (IH _ Hl). unfold compare_uint at 2 4. by destruct (x <? y)%N, (y <? x)%N.
Qed.

(** A release sorts after all its prereleases: compare as if the empty
    prerelease list were the greatest. *)
Definition compare_pre_top (a b : list string) : Z :=
  match a, b with
  | [], [] => 0 | [], _ => 1 | _, [] => -1
  | _, _ => compare_pre a b
  end.

#[export] Instance compare_pre_top_total : TotalCmp always compare_pre_top.
Proof.
  split.
  - intros [|x a] [|y b] _ _; try done. cbn -[compare_pre]. rewrite !compare_pre_lex.
    by apply cmp_antisym.
  - intros [|x a] [|y b] [|z d] _ _ _; try (cbn -[compare_pre]; lia).
    cbn -[compare_pre]. rewrite !compare_pre_lex. by apply cmp_trans.
Qed.

Definition has_three (v : semanticVersion) : Prop := length (sv_core v) = 3.

Lemma compare_parsed_eq va vb :
  has_three va → has_three vb →
  compare_parsed va vb =
    if (lex compare_uint (sv_core va) (sv_core vb) =? 0)%Z
    then compare_pre_top (sv_pre va) (sv_pre vb)
    else lex compare_uint (sv_core va) (sv_core vb).
Proof.
  unfold has_three, compare_parsed. intros Ha Hb. rewrite compare_cores_lex by congruence.
  destruct (lex _ _ _ =? 0)%Z; [|done]. simpl. by destruct (sv_pre va), (sv_pre vb).
Qed.

#[export] Instance compare_parsed_total : TotalCmp has_three compare_parsed.
Proof.
  split.
  - intros a b Ha Hb. rewrite !compare_parsed_eq by done.
    rewrite (cmp_antisym (c:=lex compare_uint) (sv_core a) (sv_core b) I I).
    pose proof (cmp_antisym (c:=compare_pre_top) (sv_pre a) (sv_pre b) I I).
    repeat case_match; to_props; lia.
  - intros x y z Hx Hy Hz. rewrite !compare_parsed_eq by done.
    set (cx := sv_core x). set (cy := sv_core y). set (cz := sv_core z).
    pose proof (cmp_antisym (c:=lex compare_uint) cx cy I I).
    pose proof (cmp_antisym (c:=lex compare_uint) cy cz I I).
    pose proof (cmp_eq_trans always (lex compare_uint) cx cy cz I I I).
    pose proof (cmp_lt_le_trans always (lex compare_uint) cx cy cz I I I).
    pose proof (cmp_le_lt_trans always (lex compare_uint) cx cy cz I I I).
    pose proof (cmp_trans (c:=compare_pre_top) (sv_pre x) (sv_pre y) (sv_pre z) I I I).
    destruct (Z.eqb_spec (lex compare_uint cx cy) 0), (Z.eqb_spec (lex compare_uint cy cz) 0),
      (Z.eqb_spec (lex compare_uint cx cz) 0); try lia; auto.
Qed.

Definition valid (v : string) : Prop := validVersion v = true.

Lemma valid_parse v : valid v → ∃ sv, parseSemanticVersion v = Some sv ∧ has_three sv.
Proof.
  intros [sv Hg]%validVersion_iff. exists sv. split; [by apply parse_iff|].
  by destruct Hg.
Qed.

#[export] Instance compareSemver_total : TotalCmp valid compareSemver.
Proof.
  split.
  - intros a b (x & Ex & Hx)%valid_parse (y & Ey & Hy)%valid_parse.
    unfold compareSemver. rewrite Ex, Ey. by apply cmp_antisym.
  - intros a b d (x & Ex & Hx)%valid_parse (y & Ey & Hy)%valid_parse (z & Ez & Hz)%valid_parse.
    unfold compareSemver. rewrite Ex, Ey, Ez. by apply cmp_trans.
Qed.

(** ** Stable sorting *)

Section stable_sort.
Context {A : Type} (P : A → Prop) (c : A → A → Z) `{!TotalCmp P c}.

Definition cmp_less (a b : A) : bool := (c a b <? 0)%Z.
Definition cmp_le (a b : A) : Prop := (c a b ≤ 0)%Z.

(** The elements of the class of [v], in order. *)
Definition class (v : A) (l : list A) : list A :=
  List.filter (λ x, (c x v =? 0)%Z) l.

(** [l'] is a stable sort of [l]. *)
Definition stable_sort_of (l l' : list A) : Prop :=
  l' ≡ₚ l ∧ StronglySorted cmp_le l' ∧ ∀ v, P v → class v l' = class v l.

Lemma insert_stable_perm x acc : insert_stable cmp_less x acc ≡ₚ x :: acc.
Proof.
  induction acc as [|y acc IH]; simpl; [done|]. case_match; [|done].
  rewrite IH. constructor.
Qed.

Lemma insert_stable_sorted x acc :
  P x → Forall P acc → StronglySorted (flip cmp_le) acc →
  StronglySorted (flip cmp_le) (insert_stable cmp_less x acc).
Proof.
  intros Hx Hacc Hs. induction Hs as [|y acc Hs IH Hy]; simpl; [by repeat constructor|].
  apply Forall_cons in Hacc as [HPy Hacc].
  unfold cmp_less at 1. destruct (c x y <? 0)%Z eqn:E; to_props.
  - constructor; [auto|]. rewrite insert_stable_perm. constructor; [|done].
    unfold flip, cmp_le. lia.
  - assert (c y x ≤ 0)%Z by (rewrite (cmp_antisym y x) by done; lia).
    constructor; [by constructor|]. constructor; [done|].
    rewrite Forall_forall in Hy, Hacc |- *. intros z Hz. unfold flip, cmp_le in *.
    apply (cmp_trans z y x); auto.
Qed.

Lemma insert_stable_class v x acc :
  P v → P x → Forall P acc → class v (insert_stable cmp_less x acc) = class v (x :: acc).
Proof.
  intros Hv Hx Hacc. induction acc as [|y acc IH]; simpl; [done|].
  apply Forall_cons in Hacc as [Hy Hacc]. case_match eqn:E; [|done].
  unfold cmp_less in E. to_props. specialize (IH Hacc). simpl in IH |- *. rewrite IH.
  destruct (Z.eqb_spec (c x v) 0) as [Exv|]; [|done].
  destruct (Z.eqb_spec (c y v) 0) as [Eyv|]; [|done].
  pose proof (cmp_antisym y v Hy Hv). pose proof (cmp_eq_trans P c x v y Hx Hv Hy). lia.
Qed.

Lemma SliceStable_loop l acc :
  Forall P l → Forall P acc → StronglySorted (flip cmp_le) acc →
  let r := foldl (λ acc x, insert_stable cmp_less x acc) acc l in
  r ≡ₚ l ++ acc ∧ StronglySorted (flip cmp_le) r ∧
  ∀ v, P v → class v r = reverse (class v l) ++ class v acc.
Proof.
  revert acc. induction l as [|x l IH]; intros acc Hl Hacc Hs; simpl; [done|].
  apply Forall_cons in Hl as [Hx Hl].
  destruct (IH (insert_stable cmp_less x acc)) as (Hp & Hs' & Hc); [done| | |].
  { rewrite insert_stable_perm. by constructor. }
  { by apply insert_stable_sorted. }
  split_and!; [|done|].
  - rewrite Hp, insert_stable_perm. symmetry. apply Permutation_middle.
  - intros v Hv. rewrite Hc, insert_stable_class by done. simpl.
    destruct (c x v =? 0)%Z; [|done]. by rewrite reverse_cons, <- app_assoc.
Qed.

Lemma StronglySorted_reverse (R : A → A → Prop) l :
  StronglySorted (flip R) l → StronglySorted R (reverse l).
Proof.
  induction 1 as [|x l Hs IH Hx]; [constructor|]. rewrite reverse_cons.
  apply StronglySorted_app. split_and!; [|done|by repeat constructor].
  intros y z Hy Hz. apply list_elem_of_singleton in Hz as ->.
  rewrite elem_of_reverse in Hy. rewrite Forall_forall in Hx. by apply Hx.
Qed.

Lemma class_reverse v l : class v (reverse l) = reverse (class v l).
Proof.
  unfold class. induction l as [|x l IH]; [done|].
  rewrite reverse_cons, List.filter_app, IH. simpl. case_match.
  - by rewrite reverse_cons.
  - by rewrite app_nil_r.
Qed.

Lemma SliceStable_stable_sort l : Forall P l → stable_sort_of l (SliceStable cmp_less l).
Proof.
  intros Hl. destruct (SliceStable_loop l [] Hl) as (Hp & Hs & Hc); [constructor..|].
  unfold SliceStable. split_and!.
  - by rewrite reverse_Permutation, Hp, app_nil_r.
  - by apply StronglySorted_reverse.
  - intros v Hv. rewrite class_reverse, Hc by done. simpl.
    by rewrite app_nil_r, reverse_involutive.
Qed.

(** Two stable sorts of the same list are equal. *)
Lemma stable_sort_unique l1 l2 :
  Forall P l1 → l1 ≡ₚ l2 → StronglySorted cmp_le l1 → StronglySorted cmp_le l2 →
  (∀ v, P v → class v l1 = class v l2) → l1 = l2.
Proof.
  intros HP Hp Hs1. revert l2 HP Hp.
  induction Hs1 as [|x l1 Hs1 IH Hx]; intros [|y l2] HP Hp Hs2 Hc.
  { done. } { by apply Permutation_nil_l in Hp. } { by apply Permutation_nil_r in Hp. }
  apply Forall_cons in HP as [HPx HP]. apply StronglySorted_inv in Hs2 as [Hs2 Hy].
  assert (P y) as HPy.
  { assert (y ∈ x :: l1) as [->|Hin]%elem_of_cons; [|done|].
    - rewrite Hp. left.
    - rewrite Forall_forall in HP. auto. }
  assert (c x y ≤ 0)%Z as Hxy.
  { assert (y ∈ x :: l1) as [->|Hin]%elem_of_cons by (rewrite Hp; left).
    - by rewrite (cmp_refl P c).
    - rewrite Forall_forall in Hx. by apply Hx. }
  assert (c y x ≤ 0)%Z as Hyx.
  { assert (x ∈ y :: l2) as [->|Hin]%elem_of_cons by (rewrite <- Hp; left).
    - by rewrite (cmp_refl P c).
    - rewrite Forall_forall in Hy. by apply Hy. }
  pose proof (cmp_antisym x y HPx HPy) as Hanti.
  assert (x = y) as <-.
  { specialize (Hc x HPx). simpl in Hc. rewrite (cmp_refl P c) in Hc by done. simpl in Hc.
    replace (c y x =? 0)%Z with true in Hc by (symmetry; apply Z.eqb_eq; lia). by simplify_eq. }
  f_equal. apply IH; [done|by eapply Permutation_cons_inv|done|].
  intros v Hv. specialize (Hc v Hv). simpl in Hc. case_match; by simplify_eq.
Qed.
End stable_sort.

(** On valid versions [compareSemver] is a total preorder: it is
    antisymmetric in sign and transitive, equality being equal precedence. *)
Theorem compareSemver_total_preorder x y z :
  valid x → valid y → valid z →
  compareSemver x x = 0%Z ∧
  compareSemver x y = (- compareSemver y x)%Z ∧
  ((compareSemver x y ≤ 0)%Z → (compareSemver y z ≤ 0)%Z → (compareSemver x z ≤ 0)%Z) ∧
  ((compareSemver x y < 0)%Z → (compareSemver y z ≤ 0)%Z → (compareSemver x z < 0)%Z).
Proof.
  intros Hx Hy Hz. split_and!.
  - by apply (cmp_refl valid compareSemver).
  - by apply cmp_antisym.
  - by apply cmp_trans.
  - by apply (cmp_lt_le_trans valid compareSemver).
Qed.

Lemma compareSemver_total_preorder_witness :
  compareSemver "1.0.0-rc.1" "1.0.0" = (-1)%Z ∧ compareSemver "1.0.0-rc.1" "1.2.0" = (-1)%Z.
Proof.
  destruct (compareSemver_total_preorder "1.0.0-rc.1" "1.0.0" "1.2.0") as (_ & Hs & _ & _);
    [reflexivity..|].
  split; [rewrite Hs|]; vm_compute; reflexivity.
Defined.

(** On valid versions [sortSemanticVersions] is a stable sort by precedence
    (a permutation, ordered oldest to newest, versions of equal precedence in
    their original order), and it is the only one: any list with these three
    properties is the one the code computes. *)
Theorem sortSemanticVersions_stable versions :
  Forall valid versions →
  stable_sort_of valid compareSemver versions (sortSemanticVersions versions) ∧
  (∀ l, stable_sort_of valid compareSemver versions l → l = sortSemanticVersions versions).
Proof.
  intros Hv. pose proof (SliceStable_stable_sort valid compareSemver versions Hv) as H.
  split; [exact H|]. intros l (Hp & Hs & Hc). destruct H as (Hp' & Hs' & Hc').
  apply (stable_sort_unique valid compareSemver); [by rewrite Hp| |done|done|].
  - rewrite Hp. by symmetry.
  - intros v Hval. by rewrite Hc, Hc'.
Qed.

Lemma sortSemanticVersions_stable_witness :
  stable_sort_of valid compareSemver ["1.0.0+b"; "2.0.0"; "1.0.0+a"; "1.0.0-x"]
    ["1.0.0-x"; "1.0.0+b"; "1.0.0+a"; "2.0.0"].
Proof.
  change ["1.0.0-x"; "1.0.0+b"; "1.0.0+a"; "2.0.0"]
    with (sortSemanticVersions ["1.0.0+b"; "2.0.0"; "1.0.0+a"; "1.0.0-x"]).
  apply sortSemanticVersions_stable. repeat constructor.
Defined.
