(* ===== verification/Regex.v ===== *)
(** * Regular expressions

    The fragment of Go's [regexp] that [validation.go] and [import.go] use:
    literals, repeated ASCII classes, optional groups and capture groups,
    anchored at both ends.  [re_match] follows the leftmost-first (greedy,
    backtracking) semantics that determines the submatches; [re_den] is the
    language denoted, with the captures of a derivation. *)

From S2P Require Import Prelude GoString.

Inductive re :=
| RLit (l : string)
| RClass (p : ascii → bool) (lo : nat) (hi : option nat)  (* [p]{lo,hi}, greedy *)
| RSeq (r1 r2 : re)
| ROpt (r : re)                                          (* (?:r)?, greedy *)
| RGroup (r : re).                                       (* a capture group *)

(** Length of the longest prefix of [p]-bytes, at most [hi] of them. *)
Fixpoint run_length (p : ascii → bool) (hi : option nat) (s : string) : nat :=
  match hi, s with
  | Some O, _ => 0
  | _, "" => 0
  | _, String a s' => if p a then S (run_length p (pred <$> hi) s') else 0
  end.

(** Greedy repetition: try the longest run first and give back one byte at a
    time, down to [lo]. *)
Fixpoint try_down {X} (lo n : nat) (f : nat → option X) : option X :=
  if (n <? lo)%nat then None
  else match f n with
       | Some x => Some x
       | None => match n with O => None | S n' => try_down lo n' f end
       end.

Fixpoint re_match (r : re) (s : string) (caps : list string)
    (k : string → list string → option (list string)) : option (list string) :=
  match r with
  | RLit l => if HasPrefix s l then k (sdrop (slen l) s) caps else None
  | RClass p lo hi => try_down lo (run_length p hi s) (λ n, k (sdrop n s) caps)
  | RSeq r1 r2 => re_match r1 s caps (λ s' caps', re_match r2 s' caps' k)
  | ROpt r => match re_match r s caps k with Some x => Some x | None => k s caps end
  | RGroup r =>
      re_match r s caps (λ s' caps', k s' (caps' ++ [stake (slen s - slen s') s]))
  end.

(** [FindStringSubmatch] without the whole match (its element 0). *)
Definition FindSubmatch (r : re) (s : string) : option (list string) :=
  re_match r s [] (λ s' caps, if String.eqb s' "" then Some caps else None).

Definition MatchString (r : re) (s : string) : bool :=
  match FindSubmatch r s with Some _ => true | None => false end.

(** ** The language *)

Definition within (lo : nat) (hi : option nat) (n : nat) : Prop :=
  lo ≤ n ∧ match hi with Some h => n ≤ h | None => True end.

Inductive re_den : re → string → list string → Prop :=
| den_lit l : re_den (RLit l) l []
| den_class p lo hi s : sforall p s = true → within lo hi (slen s) → re_den (RClass p lo hi) s []
| den_seq r1 r2 s1 s2 c1 c2 :
    re_den r1 s1 c1 → re_den r2 s2 c2 → re_den (RSeq r1 r2) (s1 +:+ s2) (c1 ++ c2)
| den_opt_none r : re_den (ROpt r) "" []
| den_opt_some r s c : re_den r s c → re_den (ROpt r) s c
| den_group r s c : re_den r s c → re_den (RGroup r) s (c ++ [s]).

Lemma try_down_some {X} lo n (f : nat → option X) x :
  try_down lo n f = Some x → ∃ m, lo ≤ m ≤ n ∧ f m = Some x.
Proof.
  induction n as [|n IH]; cbn [try_down]; case_match; try done; to_props.
  - destruct (f 0) eqn:E; [|done]. intros [=->]. by exists 0.
  - destruct (f (S n)) eqn:E.
    + intros [=->]. exists (S n). split; [lia|done].
    + intros (m & ? & ?)%IH. exists m. split; [lia|done].
Qed.

Lemma try_down_complete {X} lo n m (f : nat → option X) :
  lo ≤ m ≤ n → f m ≠ None → try_down lo n f ≠ None.
Proof.
  induction n as [|n IH]; cbn [try_down]; intros Hm Hf.
  - assert (m = 0) as -> by lia. replace (0 <? lo) with false by (symmetry; apply Nat.ltb_ge; lia).
    by destruct (f 0).
  - replace (S n <? lo) with false by (symmetry; apply Nat.ltb_ge; lia).
    destruct (f (S n)) eqn:E; [done|]. apply IH; [|done].
    destruct (decide (m = S n)) as [->|]; [congruence|lia].
Qed.

Lemma run_length_take p hi s n :
  n ≤ run_length p hi s →
  sforall p (stake n s) = true ∧ slen (stake n s) = n ∧ within 0 hi n.
Proof.
  revert hi n. induction s as [|a s IH]; intros hi n.
  - assert (run_length p hi "" = 0) as -> by (by destruct hi as [[]|]).
    intros Hn. assert (n = 0) as -> by lia. split_and!; [done..|]. split; [lia|]. destruct hi; lia.
  - destruct n as [|n]; [intros _; split_and!; [done..|]; split; [lia|]; destruct hi; lia|].
    intros Hn. assert (p a = true ∧ n ≤ run_length p (pred <$> hi) s ∧ hi ≠ Some 0) as (Ha & Hn' & Hhi).
    { destruct hi as [[|h]|]; simpl in Hn |- *; [lia| |]; destruct (p a); (split_and!; [done|lia|done]) || lia. }
    destruct (IH _ _ Hn') as (Hf & Hl & Hw). simpl. rewrite Ha, Hf. split_and!; [done| |].
    + unfold slen in *. simpl. lia.
    + destruct hi as [[|h]|]; [done| |]; destruct Hw; split; simpl in *; lia.
Qed.

Lemma run_length_app p hi s t :
  sforall p s = true → within 0 hi (slen s) → slen s ≤ run_length p hi (s +:+ t).
Proof.
  revert hi. induction s as [|a s IH]; intros hi; [simpl; lia|].
  rewrite sapp_cons. simpl. intros H Hw; to_props.
  assert (within 0 (pred <$> hi) (slen s)) as Hw'.
  { destruct Hw, hi as [h|]; split; unfold slen in *; simpl in *; lia. }
  specialize (IH _ H0 Hw'). destruct hi as [[|h]|]; simpl in *.
  - destruct Hw. unfold slen in *. simpl in *. lia.
  - rewrite H. unfold slen in *. simpl. lia.
  - rewrite H. unfold slen in *. simpl. lia.
Qed.

(** ** The matcher is sound and complete for the language *)

Lemma re_match_sound r s caps k x :
  re_match r s caps k = Some x →
  ∃ s1 s2 c, s = s1 +:+ s2 ∧ re_den r s1 c ∧ k s2 (caps ++ c) = Some x.
Proof.
  revert s caps k x. induction r as [l|p lo hi|r1 IH1 r2 IH2|r IH|r IH];
    intros s caps k x; cbn [re_match].
  - destruct (HasPrefix s l) eqn:E; [|done]. apply HasPrefix_iff in E as [t ->].
    rewrite sdrop_app. intros Hk. exists l, t, []. rewrite app_nil_r. split_and!; [done|constructor|done].
  - intros (n & Hn & Hk)%try_down_some.
    destruct (run_length_take p hi s n) as (Hf & Hl & Hw); [lia|].
    exists (stake n s), (sdrop n s), []. rewrite stake_sdrop, app_nil_r.
    split_and!; [done| |done]. constructor; [done|]. rewrite Hl. destruct Hw. split; [lia|done].
  - intros (s1 & t & c1 & -> & H1 & (s2 & t2 & c2 & -> & H2 & Hk)%IH2)%IH1.
    exists (s1 +:+ s2), t2, (c1 ++ c2). rewrite sapp_assoc, app_assoc.
    split_and!; [done|by constructor|done].
  - destruct (re_match r s caps k) eqn:E.
    + intros [=->]. apply IH in E as (s1 & s2 & c & -> & H & Hk).
      exists s1, s2, c. split_and!; [done|by constructor|done].
    + intros Hk. exists "", s, []. rewrite app_nil_r. split_and!; [done|constructor|done].
  - intros (s1 & s2 & c & -> & H & Hk)%IH. exists s1, s2, (c ++ [s1]).
    split_and!; [done|by constructor|]. rewrite slen_app in Hk.
    replace (slen s1 + slen s2 - slen s2) with (slen s1) in Hk by lia.
    by rewrite stake_app, <- app_assoc in Hk.
Qed.

Lemma re_match_complete r s1 c :
  re_den r s1 c → ∀ s2 caps k, k s2 (caps ++ c) ≠ None → re_match r (s1 +:+ s2) caps k ≠ None.
Proof.
  induction 1 as [l|p lo hi s Hf Hw|r1 r2 t1 t2 c1 c2 H1 IH1 H2 IH2|r|r s c H IH|r s c H IH];
    intros s2 caps k Hk; cbn [re_match].
  - rewrite HasPrefix_app, sdrop_app. by rewrite app_nil_r in Hk.
  - rewrite app_nil_r in Hk. apply (try_down_complete _ _ (slen s)); [|by rewrite sdrop_app].
    destruct Hw as [Hlo Hhi]. split; [done|]. apply run_length_app; [done|]. split; [lia|done].
  - rewrite sapp_assoc. apply IH1. apply IH2. by rewrite <- app_assoc.
  - rewrite sapp_nil_l. destruct (re_match r s2 caps k); [done|]. by rewrite app_nil_r in Hk.
  - specialize (IH s2 caps k Hk). by destruct (re_match r (s +:+ s2) caps k).
  - apply IH. rewrite slen_app. replace (slen s + slen s2 - slen s2) with (slen s) by lia.
    by rewrite stake_app, <- app_assoc.
Qed.

Lemma FindSubmatch_sound r s caps : FindSubmatch r s = Some caps → re_den r s caps.
Proof.
  intros (s1 & s2 & c & -> & H & Hk)%re_match_sound.
  destruct (String.eqb_spec s2 "") as [->|]; [|done]. simplify_eq/=. by rewrite sapp_nil_r.
Qed.

Lemma FindSubmatch_complete r s c : re_den r s c → ∃ caps, FindSubmatch r s = Some caps.
Proof.
  intros H. pose proof (re_match_complete r s c H "" []
    (λ s' caps, if String.eqb s' "" then Some caps else None)) as Hm.
  rewrite sapp_nil_r in Hm. unfold FindSubmatch.
  destruct (re_match r s _ _) as [caps|]; [by exists caps|]. by destruct Hm.
Qed.

Lemma MatchString_iff r s : MatchString r s = true ↔ ∃ c, re_den r s c.
Proof.
  unfold MatchString. split.
  - destruct (FindSubmatch r s) as [c|] eqn:E; [|done]. intros _. exists c. by apply FindSubmatch_sound.
  - intros [c [caps ->]%FindSubmatch_complete]. done.
Qed.

(** Inversion rules for the denotation. *)
Lemma den_lit_inv l s c : re_den (RLit l) s c → s = l ∧ c = [].
Proof. by inversion 1. Qed.
Lemma den_class_inv p lo hi s c :
  re_den (RClass p lo hi) s c → sforall p s = true ∧ within lo hi (slen s) ∧ c = [].
Proof. by inversion 1. Qed.
Lemma den_seq_inv r1 r2 s c :
  re_den (RSeq r1 r2) s c →
  ∃ s1 s2 c1 c2, s = s1 +:+ s2 ∧ c = c1 ++ c2 ∧ re_den r1 s1 c1 ∧ re_den r2 s2 c2.
Proof. inversion 1; subst. eauto 10. Qed.
Lemma den_opt_inv r s c : re_den (ROpt r) s c → (s = "" ∧ c = []) ∨ re_den r s c.
Proof. inversion 1; subst; auto. Qed.
Lemma den_group_inv r s c : re_den (RGroup r) s c → ∃ c', c = c' ++ [s] ∧ re_den r s c'.
Proof. inversion 1; subst; eauto. Qed.

#[export] Hint Constructors re_den : go.
