(* ===== verification/Validation.v ===== *)
(** * Request validation

    [registry-server/validation.go]: the name, version and hostname patterns,
    the allow-list of downloadable paths, and the middleware that checks the
    route variables; the same patterns of [cmd/tfreg/import.go]. *)

From S2P Require Import Prelude GoString SemVer Regex.

(** ** Patterns *)

Definition is_alnum (a : ascii) : bool :=
  in_range "A" "Z" a || in_range "a" "z" a || in_range "0" "9" a.
Definition is_name_char (a : ascii) : bool :=
  is_alnum a || bool_decide (a = "_"%char) || bool_decide (a = "-"%char).
Definition is_host_char (a : ascii) : bool :=
  is_alnum a || bool_decide (a = "."%char) || bool_decide (a = "-"%char).
Definition is_version_char (a : ascii) : bool :=
  is_alnum a || bool_decide (a = "."%char) || bool_decide (a = "+"%char)
  || bool_decide (a = "-"%char).
Definition is_lower_hex (a : ascii) : bool := in_range "a" "f" a || in_range "0" "9" a.

(** [[A-Za-z0-9][A-Za-z0-9_-]{0,63}] *)
Definition artifactNameRE : re :=
  RSeq (RClass is_alnum 1 (Some 1)) (RClass is_name_char 0 (Some 63)).

(** [[A-Za-z0-9](?:[A-Za-z0-9.-]{0,251}[A-Za-z0-9])?] *)
Definition hostnameRE : re :=
  RSeq (RClass is_alnum 1 (Some 1))
    (ROpt (RSeq (RClass is_host_char 0 (Some 251)) (RClass is_alnum 1 (Some 1)))).

(** [(?:_[a-f0-9]{64})?] *)
Definition digestRE : re := ROpt (RSeq (RLit "_") (RClass is_lower_hex 64 (Some 64))).

Definition versionRE : re := RClass is_version_char 1 None.

Definition providerFileRE : re :=
  RSeq (RLit "terraform-provider-") (RSeq (RGroup artifactNameRE)
  (RSeq (RLit "_") (RSeq (RGroup versionRE)
  (RSeq (RLit "_") (RSeq (RGroup artifactNameRE)
  (RSeq (RLit "_") (RSeq (RGroup artifactNameRE) (RSeq digestRE (RLit ".zip"))))))))).

Definition checksumFileRE : re :=
  RSeq (RLit "terraform-provider-") (RSeq (RGroup artifactNameRE)
  (RSeq (RLit "_") (RSeq (RGroup versionRE)
  (RSeq (RLit "_SHA256SUMS") (ROpt (RLit ".sig")))))).

Definition moduleFileRE : re := RSeq (RLit "module") (RSeq digestRE (RLit ".tar.gz")).

Definition validArtifactName (v : string) : bool := MatchString artifactNameRE v.
Definition validHostname (v : string) : bool :=
  MatchString hostnameRE v && negb (Contains v "..").

(** ** The download allow-list *)

Definition isPublicArtifactPath (path : string) : bool :=
  match Split (Trim path "/") "/" with
  | [p0; p1; p2; p3; p4] =>
      if String.eqb p0 "providers" then
        if negb (validArtifactName p1) || negb (validArtifactName p2) || negb (validVersion p3)
        then false
        else match FindSubmatch providerFileRE p4 with
             | Some [m1; m2; m3; m4] =>
                 String.eqb m1 p2 && String.eqb m2 p3 && validArtifactName m3 && validArtifactName m4
             | _ =>
                 match FindSubmatch checksumFileRE p4 with
                 | Some [c1; c2] => String.eqb c1 p2 && String.eqb c2 p3
                 | _ => false
                 end
             end
      else false
  | [p0; p1; p2; p3; p4; p5] =>
      if String.eqb p0 "modules" && MatchString moduleFileRE p5 then
        validArtifactName p1 && validArtifactName p2 && validArtifactName p3 && validVersion p4
      else false
  | _ => false
  end.

(** ** Route variables *)

Definition valid_route_var (key value : string) : bool :=
  if bool_decide (key ∈ ["namespace"; "name"; "type"; "provider"; "os"; "arch"])
  then validArtifactName value
  else if String.eqb key "version" then validVersion value
  else if String.eqb key "hostname" then validHostname value
  else true.

(** [routeValidationMiddleware]: [mux.Vars(r)] in the order the map is ranged
    over; [Some key] is the 400 response ["Invalid " + key], [None] means the
    next handler runs. *)
Fixpoint routeValidation (vars : list (string * string)) : option string :=
  match vars with
  | [] => None
  | (key, value) :: vars =>
      if negb (valid_route_var key value) then Some key else routeValidation vars
  end.

(** ** The client's copies ([cmd/tfreg/import.go]) *)

Definition importArtifactNameRE : re :=
  RSeq (RClass is_alnum 1 (Some 1)) (RClass is_name_char 0 (Some 63)).

Definition validImportName (value : string) : bool := MatchString importArtifactNameRE value.

Definition valid_import_identifier (enforceNumericLeadingZero : bool) (identifier : string) : bool :=
  if String.eqb identifier "" then false
  else if negb (forallb rune_identifier (runes identifier)) then false
  else negb (enforceNumericLeadingZero && forallb rune_digit (runes identifier)
             && zero_led identifier).

Definition validImportIdentifiers (value : string) (enforceNumericLeadingZero : bool) : bool :=
  if String.eqb value "" then false
  else forallb (valid_import_identifier enforceNumericLeadingZero) (Split value ".").

Definition valid_import_part (part : string) : bool :=
  if String.eqb part "" || zero_led part then false
  else match ParseUint part with Some _ => true | None => false end.

Definition validImportVersion (value : string) : bool :=
  if String.eqb value "" || HasPrefix value "v" then false
  else
    let '(versionAndPre, build, hasBuild) := Cut value "+" in
    if hasBuild && (Contains build "+" || negb (validImportIdentifiers build false)) then false
    else
      let '(core, prerelease, hasPrerelease) := Cut versionAndPre "-" in
      if hasPrerelease && negb (validImportIdentifiers prerelease true) then false
      else
        let parts := Split core "." in
        if negb (length parts =? 3) then false
        else forallb valid_import_part parts.

Example public_paths :
  map isPublicArtifactPath
    ["providers/acme/my_prov/1.0.0/terraform-provider-my_prov_1.0.0_linux_amd64.zip";
     "providers/acme/x/1.0.0/terraform-provider-x_1.0.0_SHA256SUMS.sig";
     "modules/acme/vpc/aws/1.0.0/module.tar.gz";
     "providers/acme/x/1.0.0/linux_amd64.json"; "keys.json";
     "providers/acme/x/1.0.0/terraform-provider-y_1.0.0_linux_amd64.zip"]
  = [true; true; true; false; false; false].
Proof. vm_compute. reflexivity. Qed.

(** * Properties *)

Lemma name_char_not c : is_name_char c = false → is_alnum c = false.
Proof. unfold is_name_char. by intros [[? _]%orb_false_iff _]%orb_false_iff. Qed.

Lemma alnum_name_char a : is_alnum a = true → is_name_char a = true.
Proof. unfold is_name_char. by intros ->. Qed.

Lemma ident_version_char a : is_ident a = true → is_version_char a = true.
Proof. destruct a as [[] [] [] [] [] [] [] []]; vm_compute; congruence. Qed.

Lemma digit_version_char a : is_digit a = true → is_version_char a = true.
Proof. intros H. by apply ident_version_char, digit_ident. Qed.

(** ** Names *)

Lemma class1_inv p s c : re_den (RClass p 1 (Some 1)) s c → ∃ a, s = String a "" ∧ p a = true ∧ c = [].
Proof.
  intros (Hf & [Hlo Hhi] & ->)%den_class_inv. destruct s as [|a [|b s]]; unfold slen in *; simpl in *; try lia.
  exists a. to_props. done.
Qed.

Lemma artifactNameRE_den v c :
  re_den artifactNameRE v c ↔
  c = [] ∧ ∃ a s, v = String a s ∧ is_alnum a = true ∧ sforall is_name_char s = true ∧ slen s ≤ 63.
Proof.
  split.
  - intros (s1 & s2 & c1 & c2 & -> & -> & (a & -> & Ha & ->)%class1_inv
            & (Hf & [_ Hhi] & ->)%den_class_inv)%den_seq_inv.
    split; [done|]. exists a, s2. done.
  - intros (-> & a & s & -> & Ha & Hf & Hl).
    change (String a s) with (String a "" +:+ s). change (@nil string) with (@nil string ++ []).
    constructor; constructor; simpl; rewrite ?Ha; try done.
    all: split; unfold slen in *; simpl; lia.
Qed.

Lemma validArtifactName_iff v :
  validArtifactName v = true ↔
  ∃ a s, v = String a s ∧ is_alnum a = true ∧ sforall is_name_char s = true ∧ slen s ≤ 63.
Proof.
  unfold validArtifactName. rewrite MatchString_iff. setoid_rewrite artifactNameRE_den. naive_solver.
Qed.

Lemma name_den v : validArtifactName v = true ↔ re_den artifactNameRE v [].
Proof. rewrite validArtifactName_iff, artifactNameRE_den. naive_solver. Qed.

Lemma name_den_group v : validArtifactName v = true → re_den (RGroup artifactNameRE) v [v].
Proof. intros H%name_den. by apply (den_group artifactNameRE v []). Qed.

Lemma name_group_inv v c :
  re_den (RGroup artifactNameRE) v c → c = [v] ∧ validArtifactName v = true.
Proof.
  intros (c' & -> & [-> H]%artifactNameRE_den)%den_group_inv. split; [done|].
  by apply validArtifactName_iff.
Qed.

Lemma name_chars v : validArtifactName v = true → sforall is_name_char v = true.
Proof.
  intros (a & s & -> & Ha & Hf & _)%validArtifactName_iff. simpl.
  by rewrite (alnum_name_char _ Ha), Hf.
Qed.

Lemma name_no_char c v : is_name_char c = false → validArtifactName v = true → no_char c v.
Proof. intros Hc Hv%name_chars. by eapply no_char_sforall. Qed.

(** ** Versions *)

Lemma sforall_Join p l sep :
  sforall p sep = true → Forall (λ s, sforall p s = true) l → sforall p (Join l sep) = true.
Proof.
  intros Hs. induction 1 as [|x l Hx Hl IH]; [done|].
  destruct l; [done|]. rewrite Join_cons by done. by rewrite !sforall_app, Hx, Hs.
Qed.

Lemma identifiers_version_chars sep l :
  sforall is_version_char sep = true → Forall identifier l →
  sforall is_version_char (suffix sep l) = true.
Proof.
  intros Hs Hl. destruct l as [|x l]; [done|]. rewrite suffix_cons, sforall_app, Hs by done.
  apply sforall_Join; [done|]. eapply Forall_impl; [exact Hl|].
  intros s [_ H]. eapply sforall_impl; [apply ident_version_char|done].
Qed.

(** A valid version is [<digits>.<r>] where [r] holds another dot. *)
Lemma valid_version_shape v :
  valid v →
  sforall is_version_char v = true ∧
  ∃ mj r, v = mj +:+ String "." r ∧ mj ≠ "" ∧ sforall is_digit mj = true ∧ ¬ no_char "." r.
Proof.
  intros [sv [maj min pat x y z pre build (Hn & Ha & _) (_ & Hb & _) (_ & Hc & _) Hp Hi]]%validVersion_iff.
  split.
  - rewrite !sforall_app, !identifiers_version_chars; try done; [|by apply pre_identifiers].
    pose proof (sforall_impl _ _ maj digit_version_char Ha) as ->.
    pose proof (sforall_impl _ _ min digit_version_char Hb) as ->.
    pose proof (sforall_impl _ _ pat digit_version_char Hc) as ->. done.
  - exists maj, (min +:+ String "." (pat +:+ suffix "-" pre +:+ suffix "+" build)).
    split_and!; [done..|apply has_char_app].
Qed.

Lemma valid_version_chars v : valid v → sforall is_version_char v = true.
Proof. by intros [? _]%valid_version_shape. Qed.

Lemma version_no_char c v : is_version_char c = false → valid v → no_char c v.
Proof. intros Hc Hv%valid_version_chars. by eapply no_char_sforall. Qed.

Lemma version_group_inv v c :
  re_den (RGroup versionRE) v c → c = [v] ∧ sforall is_version_char v = true.
Proof. intros (c' & -> & (Hf & _ & ->)%den_class_inv)%den_group_inv. done. Qed.

Lemma version_den_group v : valid v → re_den (RGroup versionRE) v [v].
Proof.
  intros Hv. apply (den_group versionRE v []). constructor; [by apply valid_version_chars|].
  apply valid_version_shape in Hv as (_ & mj & r & -> & _). rewrite slen_app. split; [|done].
  unfold slen at 2. simpl. lia.
Qed.

(** ** File names of published artifacts *)

Definition digest_suffix (d : string) : Prop :=
  d = "" ∨ ∃ h, d = "_" +:+ h ∧ sforall is_lower_hex h = true ∧ slen h = 64.

Definition provider_file (n v os arch d : string) : string :=
  "terraform-provider-" +:+ n +:+ "_" +:+ v +:+ "_" +:+ os +:+ "_" +:+ arch +:+ d +:+ ".zip".
Definition checksum_file (n v sig : string) : string :=
  "terraform-provider-" +:+ n +:+ "_" +:+ v +:+ "_SHA256SUMS" +:+ sig.
Definition module_file (d : string) : string := "module" +:+ d +:+ ".tar.gz".

Lemma digestRE_den d c : re_den digestRE d c ↔ c = [] ∧ digest_suffix d.
Proof.
  split.
  - intros [[-> ->]|(s1 & s2 & c1 & c2 & -> & -> & [-> ->]%den_lit_inv
      & (Hf & [Hlo Hhi] & ->)%den_class_inv)%den_seq_inv]%den_opt_inv.
    + split; [done|by left].
    + split; [done|]. right. exists s2. split_and!; [done..|lia].
  - intros (-> & [->|(h & -> & Hf & Hl)]); [constructor|]. apply den_opt_some.
    change (@nil string) with (@nil string ++ []). constructor; [constructor|].
    constructor; [done|]. rewrite Hl. split; lia.
Qed.

Lemma provider_file_den n v os arch d :
  validArtifactName n = true → valid v → validArtifactName os = true →
  validArtifactName arch = true → digest_suffix d →
  re_den providerFileRE (provider_file n v os arch d) [n; v; os; arch].
Proof.
  intros Hn Hv Hos Ha Hd. unfold provider_file, providerFileRE.
  change [n; v; os; arch] with ([] ++ [n] ++ [] ++ [v] ++ [] ++ [os] ++ [] ++ [arch] ++ [] ++ []).
  repeat first [apply den_lit | by apply name_den_group | by apply version_den_group
               | by apply digestRE_den | apply den_seq].
Qed.

Lemma provider_file_inv f c :
  re_den providerFileRE f c →
  ∃ n v os arch d, f = provider_file n v os arch d ∧ c = [n; v; os; arch] ∧
    validArtifactName n = true ∧ sforall is_version_char v = true ∧
    validArtifactName os = true ∧ validArtifactName arch = true ∧ digest_suffix d.
Proof.
  intros (? & ? & ? & ? & -> & -> & [-> ->]%den_lit_inv & H)%den_seq_inv.
  apply den_seq_inv in H as (n & ? & ? & ? & -> & -> & [-> Hn]%name_group_inv & H).
  apply den_seq_inv in H as (? & ? & ? & ? & -> & -> & [-> ->]%den_lit_inv & H).
  apply den_seq_inv in H as (v & ? & ? & ? & -> & -> & [-> Hv]%version_group_inv & H).
  apply den_seq_inv in H as (? & ? & ? & ? & -> & -> & [-> ->]%den_lit_inv & H).
  apply den_seq_inv in H as (os & ? & ? & ? & -> & -> & [-> Hos]%name_group_inv & H).
  apply den_seq_inv in H as (? & ? & ? & ? & -> & -> & [-> ->]%den_lit_inv & H).
  apply den_seq_inv in H as (arch & ? & ? & ? & -> & -> & [-> Ha]%name_group_inv & H).
  apply den_seq_inv in H as (d & ? & ? & ? & -> & -> & [-> Hd]%digestRE_den & [-> ->]%den_lit_inv).
  by exists n, v, os, arch, d.
Qed.

Lemma checksum_file_den n v sig :
  validArtifactName n = true → valid v → sig = "" ∨ sig = ".sig" →
  re_den checksumFileRE (checksum_file n v sig) [n; v].
Proof.
  intros Hn Hv Hs. unfold checksum_file, checksumFileRE.
  assert (re_den (ROpt (RLit ".sig")) sig []) as Hsig.
  { destruct Hs as [->| ->]; [apply den_opt_none|apply den_opt_some, den_lit]. }
  change [n; v] with ([] ++ [n] ++ [] ++ [v] ++ [] ++ []).
  repeat first [exact Hsig | apply den_lit | by apply name_den_group | by apply version_den_group
               | apply den_seq].
Qed.

Lemma checksum_file_inv f c :
  re_den checksumFileRE f c →
  ∃ n v sig, f = checksum_file n v sig ∧ c = [n; v] ∧
    validArtifactName n = true ∧ sforall is_version_char v = true ∧ (sig = "" ∨ sig = ".sig").
Proof.
  intros (? & ? & ? & ? & -> & -> & [-> ->]%den_lit_inv & H)%den_seq_inv.
  apply den_seq_inv in H as (n & ? & ? & ? & -> & -> & [-> Hn]%name_group_inv & H).
  apply den_seq_inv in H as (? & ? & ? & ? & -> & -> & [-> ->]%den_lit_inv & H).
  apply den_seq_inv in H as (v & ? & ? & ? & -> & -> & [-> Hv]%version_group_inv & H).
  apply den_seq_inv in H as (? & sig & ? & ? & -> & -> & [-> ->]%den_lit_inv & H).
  exists n, v, sig. apply den_opt_inv in H as [[-> ->]|[-> ->]%den_lit_inv]; eauto 10.
Qed.

Lemma moduleFileRE_iff f : MatchString moduleFileRE f = true ↔ ∃ d, f = module_file d ∧ digest_suffix d.
Proof.
  rewrite MatchString_iff. split.
  - intros (c & (? & ? & ? & ? & -> & -> & [-> ->]%den_lit_inv & H)%den_seq_inv).
    apply den_seq_inv in H as (d & ? & ? & ? & -> & -> & [-> Hd]%digestRE_den & [-> ->]%den_lit_inv).
    by exists d.
  - intros (d & -> & Hd). exists ([] ++ [] ++ []). unfold module_file, moduleFileRE.
    repeat first [apply den_lit | by apply digestRE_den | apply den_seq].
Qed.

(** At most one dot. *)
Definition one_dot (t : string) : Prop := ∀ a b, t = a +:+ String "." b → no_char "." b.

Lemma one_dot_ext x y : no_char "." x → no_char "." y → one_dot (x +:+ String "." y).
Proof.
  intros Hx Hy a b E. destruct (no_char_first "." a) as [Ha|(a1 & a2 & -> & Ha)].
  - by apply split_first_unique in E as [-> ->].
  - rewrite sapp_assoc, sapp_cons in E. apply split_first_unique in E as [-> ->]; [|done..].
    by apply has_char_app in Hy.
Qed.

Lemma one_dot_app x t : no_char "." x → one_dot t → one_dot (x +:+ t).
Proof.
  intros Hx Ht a b E. destruct (no_char_first "." t) as [Hn|(t1 & t2 & -> & Ht1)].
  - assert (no_char "." (x +:+ t)) as Hno by (by apply no_char_app).
    rewrite E in Hno. by apply has_char_app in Hno.
  - specialize (Ht t1 t2 eq_refl). rewrite <- sapp_assoc in E.
    assert (no_char "." (x +:+ t1)) as Hxt by (by apply no_char_app).
    destruct (no_char_first "." a) as [Ha|(a1 & a2 & -> & Ha)].
    + by apply split_first_unique in E as [_ <-].
    + rewrite (sapp_assoc a1), sapp_cons in E. apply split_first_unique in E as [_ ->]; [|done..].
      by apply has_char_app in Ht.
Qed.

(** In [<name>_<version>_<t>] the name has no dot, the version has dots and no
    underscore: whatever way the pattern splits it, the two parts are the same. *)
Lemma name_version_unique n v t n' v' t' :
  no_char "." n → no_char "." n' → valid v → no_char "_" v' → one_dot t' →
  n +:+ "_" +:+ v +:+ "_" +:+ t = n' +:+ "_" +:+ v' +:+ "_" +:+ t' → n = n' ∧ v = v'.
Proof.
  intros Hn Hn' Hv Hv' Ht'.
  pose proof (version_no_char "_" v eq_refl Hv) as Hu.
  apply valid_version_shape in Hv as (_ & mj & r & -> & _ & Hmj & Hr).
  assert (no_char "." mj) as Hmj' by (by apply (no_char_sforall _ is_digit)).
  apply no_char_app in Hu as [Hum [_ Hur]%no_char_cons].
  autorewrite with gostr. intros E.
  assert (no_char "." (n +:+ String "_" mj)) as Hl by (by apply no_char_app).
  destruct (no_char_first "." v') as [Hd|(p & q & -> & Hp)].
  - exfalso.
    assert (one_dot (n' +:+ String "_" (v' +:+ String "_" t'))) as H1.
    { apply one_dot_app; [done|]. apply (one_dot_app "_"); [done|].
      apply one_dot_app; [done|]. by apply (one_dot_app "_"). }
    specialize (H1 (n +:+ String "_" mj) (r +:+ String "_" t)). rewrite <- E in H1.
    autorewrite with gostr in H1. apply no_char_app in H1 as [? _]; done.
  - autorewrite with gostr in E.
    replace (n +:+ String "_" (mj +:+ String "." (r +:+ String "_" t)))
      with ((n +:+ String "_" mj) +:+ String "." (r +:+ String "_" t)) in E by (by autorewrite with gostr).
    replace (n' +:+ String "_" (p +:+ String "." (q +:+ String "_" t')))
      with ((n' +:+ String "_" p) +:+ String "." (q +:+ String "_" t')) in E by (by autorewrite with gostr).
    apply no_char_app in Hv' as [Hup [_ Huq]%no_char_cons].
    apply split_first_unique in E as [E1 E2]; [|done|by apply no_char_app].
    apply split_last_unique in E1 as [-> ->]; [|done..].
    apply split_first_unique in E2 as [-> _]; done.
Qed.

Lemma digest_no_char c d : c ≠ "_"%char → is_lower_hex c = false → digest_suffix d → no_char c d.
Proof.
  intros Hc Hx [->|(h & -> & Hh & _)]; [done|]. apply (no_char_cons c). split; [congruence|].
  by apply (no_char_sforall _ is_lower_hex).
Qed.

Lemma version_chars_no_char c v : is_version_char c = false → sforall is_version_char v = true → no_char c v.
Proof. intros Hc. by apply no_char_sforall. Qed.

Lemma provider_file_unique n v os arch d n' v' os' arch' d' :
  validArtifactName n = true → valid v →
  validArtifactName n' = true → sforall is_version_char v' = true →
  validArtifactName os' = true → validArtifactName arch' = true → digest_suffix d' →
  provider_file n v os arch d = provider_file n' v' os' arch' d' → n = n' ∧ v = v'.
Proof.
  unfold provider_file. intros Hn Hv Hn' Hv' Hos Ha Hd E%sapp_inj_l.
  eapply name_version_unique; [..|exact E]; try by apply name_no_char.
  - done.
  - by apply version_chars_no_char.
  - replace (os' +:+ "_" +:+ arch' +:+ d' +:+ ".zip")
      with ((os' +:+ "_" +:+ arch' +:+ d') +:+ String "." "zip") by (by autorewrite with gostr).
    apply one_dot_ext; [|done]. rewrite !no_char_app.
    split_and!; [by apply name_no_char|done|by apply name_no_char|by apply digest_no_char].
Qed.

Lemma checksum_file_unique n v sig n' v' sig' :
  validArtifactName n = true → valid v →
  validArtifactName n' = true → sforall is_version_char v' = true → sig' = "" ∨ sig' = ".sig" →
  checksum_file n v sig = checksum_file n' v' sig' → n = n' ∧ v = v'.
Proof.
  unfold checksum_file. intros Hn Hv Hn' Hv' Hs E%sapp_inj_l.
  change ("_SHA256SUMS" +:+ sig) with ("_" +:+ ("SHA256SUMS" +:+ sig)) in E.
  change ("_SHA256SUMS" +:+ sig') with ("_" +:+ ("SHA256SUMS" +:+ sig')) in E.
  eapply name_version_unique; [..|exact E]; try by apply name_no_char.
  - done.
  - by apply version_chars_no_char.
  - apply one_dot_app; [done|]. destruct Hs as [->| ->].
    + intros a b Hab. assert (no_char "." (a +:+ String "." b)) as Hno by (by rewrite <- Hab).
      by apply has_char_app in Hno.
    + by apply (one_dot_ext "" "sig").
Qed.

Lemma checksum_not_provider n v sig c :
  sig = "" ∨ sig = ".sig" → ¬ re_den providerFileRE (checksum_file n v sig) c.
Proof.
  intros Hs (n' & v' & os & arch & d & E & _)%provider_file_inv.
  assert (provider_file n' v' os arch d =
    ("terraform-provider-" +:+ n' +:+ "_" +:+ v' +:+ "_" +:+ os +:+ "_" +:+ arch +:+ d) +:+ ".zip")
    as E2 by (unfold provider_file; by autorewrite with gostr).
  rewrite E2 in E. destruct Hs as [->| ->].
  - assert (checksum_file n v "" = ("terraform-provider-" +:+ n +:+ "_" +:+ v +:+ "_SHA256") +:+ "SUMS")
      as E1 by (unfold checksum_file; by autorewrite with gostr).
    rewrite E1 in E. by apply sapp_inj_suffix in E as [_ ?].
  - assert (checksum_file n v ".sig" = ("terraform-provider-" +:+ n +:+ "_" +:+ v +:+ "_SHA256SUMS") +:+ ".sig")
      as E1 by (unfold checksum_file; by autorewrite with gostr).
    rewrite E1 in E. by apply sapp_inj_suffix in E as [_ ?].
Qed.

(** ** The allow-list *)

(** The published objects, by the components of their storage path. *)
Inductive PublishedPath : list string → Prop :=
| published_provider ns n v os arch d :
    validArtifactName ns = true → validArtifactName n = true → valid v →
    validArtifactName os = true → validArtifactName arch = true → digest_suffix d →
    PublishedPath ["providers"; ns; n; v; provider_file n v os arch d]
| published_checksums ns n v sig :
    validArtifactName ns = true → validArtifactName n = true → valid v →
    sig = "" ∨ sig = ".sig" →
    PublishedPath ["providers"; ns; n; v; checksum_file n v sig]
| published_module ns n p v d :
    validArtifactName ns = true → validArtifactName n = true → validArtifactName p = true →
    valid v → digest_suffix d →
    PublishedPath ["modules"; ns; n; p; v; module_file d].

Definition public_parts (parts : list string) : bool :=
  match parts with
  | [p0; p1; p2; p3; p4] =>
      if String.eqb p0 "providers" then
        if negb (validArtifactName p1) || negb (validArtifactName p2) || negb (validVersion p3)
        then false
        else match FindSubmatch providerFileRE p4 with
             | Some [m1; m2; m3; m4] =>
                 String.eqb m1 p2 && String.eqb m2 p3 && validArtifactName m3 && validArtifactName m4
             | _ =>
                 match FindSubmatch checksumFileRE p4 with
                 | Some [c1; c2] => String.eqb c1 p2 && String.eqb c2 p3
                 | _ => false
                 end
             end
      else false
  | [p0; p1; p2; p3; p4; p5] =>
      if String.eqb p0 "modules" && MatchString moduleFileRE p5 then
        validArtifactName p1 && validArtifactName p2 && validArtifactName p3 && validVersion p4
      else false
  | _ => false
  end.

Lemma isPublicArtifactPath_parts path :
  isPublicArtifactPath path = public_parts (Split (Trim path "/") "/").
Proof. done. Qed.

Lemma public_provider_file_sound p2 p3 p4 m1 m2 m3 m4 :
  FindSubmatch providerFileRE p4 = Some [m1; m2; m3; m4] →
  m1 = p2 → m2 = p3 →
  ∃ os arch d, p4 = provider_file p2 p3 os arch d ∧
    validArtifactName os = true ∧ validArtifactName arch = true ∧ digest_suffix d.
Proof.
  intros (n & v & os & arch & d & -> & [= -> -> -> ->] & _ & _ & ? & ? & ?)%FindSubmatch_sound%provider_file_inv
    <- <-. by exists os, arch, d.
Qed.

Lemma public_checksum_file_sound p2 p3 p4 c1 c2 :
  FindSubmatch checksumFileRE p4 = Some [c1; c2] → c1 = p2 → c2 = p3 →
  ∃ sig, p4 = checksum_file p2 p3 sig ∧ (sig = "" ∨ sig = ".sig").
Proof.
  intros (n & v & sig & -> & [= -> ->] & _ & _ & ?)%FindSubmatch_sound%checksum_file_inv <- <-.
  by exists sig.
Qed.

Lemma public_parts_sound parts : public_parts parts = true → PublishedPath parts.
Proof.
  destruct parts as [|p0 [|p1 [|p2 [|p3 [|p4 [|p5 [|]]]]]]]; try done; cbn [public_parts].
  - destruct (String.eqb_spec p0 "providers") as [->|]; [|done].
    destruct (negb _ || _ || _) eqn:E; [done|]. to_props.
    destruct (FindSubmatch providerFileRE p4) as [c|] eqn:Ef; cycle 1.
    { destruct (FindSubmatch checksumFileRE p4) as [[|c1 [|c2 [|]]]|] eqn:Ec; try done. intros Hm; to_props.
      destruct (public_checksum_file_sound p2 p3 _ _ _ Ec) as (sig & -> & Hs); [done..|]. by constructor. }
    pose proof (FindSubmatch_sound _ _ _ Ef) as (n & v & os & arch & d & _ & -> & _)%provider_file_inv.
    intros Hm; to_props.
    destruct (public_provider_file_sound p2 p3 _ _ _ _ _ Ef) as (os' & arch' & d' & -> & ? & ? & ?);
      [done..|]. by constructor.
  - destruct (String.eqb_spec p0 "modules") as [->|]; [|done]. simpl (true && _).
    destruct (MatchString moduleFileRE p5) eqn:E; [|done].
    apply moduleFileRE_iff in E as (d & -> & Hd). intros Hm; to_props. by constructor.
Qed.

Lemma public_parts_complete parts : PublishedPath parts → public_parts parts = true.
Proof.
  intros [ns n v os arch d Hns Hn Hv Hos Ha Hd|ns n v sig Hns Hn Hv Hs|ns n p v d Hns Hn Hp Hv Hd];
    cbn [public_parts].
  - rewrite String.eqb_refl, Hns, Hn, Hv. simpl.
    pose proof (provider_file_den n v os arch d Hn Hv Hos Ha Hd) as Hden.
    apply FindSubmatch_complete in Hden as [c Hc]. rewrite Hc.
    apply FindSubmatch_sound, provider_file_inv in Hc
      as (n' & v' & os' & arch' & d' & E & -> & Hn' & Hv' & Hos' & Ha' & Hd').
    apply provider_file_unique in E as [<- <-]; try done.
    by rewrite !String.eqb_refl, Hos', Ha'.
  - rewrite String.eqb_refl, Hns, Hn, Hv. simpl.
    destruct (FindSubmatch providerFileRE (checksum_file n v sig)) as [c|] eqn:Ef.
    { apply FindSubmatch_sound, checksum_not_provider in Ef; done. }
    pose proof (checksum_file_den n v sig Hn Hv Hs) as Hden.
    apply FindSubmatch_complete in Hden as [c Hc]. rewrite Hc.
    apply FindSubmatch_sound, checksum_file_inv in Hc as (n' & v' & sig' & E & -> & Hn' & Hv' & Hs').
    apply checksum_file_unique in E as [<- <-]; try done. by rewrite !String.eqb_refl.
  - rewrite String.eqb_refl, Hns, Hn, Hp, Hv.
    assert (MatchString moduleFileRE (module_file d) = true) as ->; [|done].
    apply moduleFileRE_iff. eauto.
Qed.

(** C37. The download allow-list is exact: a path is served if and only if its
    slash-separated components are those of a provider package, a provider
    checksum file or its signature, or a module package, whose file name
    carries the same provider name and version as its directory; the greedy
    submatches cannot confuse the name and version parts. *)
Theorem isPublicArtifactPath_exact path :
  isPublicArtifactPath path = true ↔ PublishedPath (Split (Trim path "/") "/").
Proof.
  rewrite isPublicArtifactPath_parts. split; [apply public_parts_sound|apply public_parts_complete].
Qed.

(** ** Published keys *)

Lemma name_slash v : validArtifactName v = true → no_char "/" v.
Proof. by apply name_no_char. Qed.
Lemma version_slash v : valid v → no_char "/" v.
Proof. by apply version_no_char. Qed.

Lemma PublishedPath_slash parts : PublishedPath parts → Forall (no_char "/") parts.
Proof.
  intros [ns n v os arch d Hns Hn Hv Hos Ha Hd|ns n v sig Hns Hn Hv Hs|ns n p v d Hns Hn Hp Hv Hd];
    repeat (apply Forall_cons; split); try done;
    try (by apply name_slash); try (by apply version_slash);
    unfold provider_file, checksum_file, module_file; rewrite ?no_char_app; split_and!; try done;
    try (by apply name_slash); try (by apply version_slash); try by apply digest_no_char.
  destruct Hs as [->| ->]; done.
Qed.

Lemma PublishedPath_ends parts : PublishedPath parts → ends_not "/" (Join parts "/").
Proof.
  assert (ends_not "/" ".zip") as Hzip by (by exists ".zi", "p"%char).
  assert (ends_not "/" ".tar.gz") as Hgz by (by exists ".tar.g", "z"%char).
  assert (ends_not "/" "_SHA256SUMS") as Hsum by (by exists "_SHA256SUM", "S"%char).
  assert (ends_not "/" ".sig") as Hsig by (by exists ".si", "g"%char).
  intros [ns n v os arch d Hns Hn Hv Hos Ha Hd|ns n v sig Hns Hn Hv Hs|ns n p v d Hns Hn Hp Hv Hd];
    rewrite !Join_cons by done; simpl Join; unfold provider_file, checksum_file, module_file.
  - by repeat apply ends_not_app.
  - do 12 apply ends_not_app. destruct Hs as [->| ->]; [by rewrite sapp_nil_r|by apply ends_not_app].
  - by repeat apply ends_not_app.
Qed.

Lemma PublishedPath_nonempty parts : PublishedPath parts → parts ≠ [].
Proof. by intros []. Qed.

Lemma PublishedPath_Trim parts : PublishedPath parts → Trim (Join parts "/") "/" = Join parts "/".
Proof.
  intros H. pose proof (PublishedPath_ends parts H) as He.
  destruct (Join parts "/") as [|x s] eqn:E; [done|]. apply Trim_id; [|done].
  destruct H; rewrite Join_cons in E by done; simpl in E; by injection E as <- _.
Qed.

Lemma published_key_public parts :
  PublishedPath parts → isPublicArtifactPath (Join parts "/") = true.
Proof.
  intros H. rewrite isPublicArtifactPath_parts, PublishedPath_Trim by done.
  rewrite Split_Join; [by apply public_parts_complete|by apply PublishedPath_nonempty|].
  by apply PublishedPath_slash.
Qed.

(** ** Route variables *)

Lemma routeValidation_none vars :
  routeValidation vars = None ↔ Forall (λ kv, valid_route_var kv.1 kv.2 = true) vars.
Proof.
  induction vars as [|[k v] vars IH]; simpl; [done|].
  rewrite Forall_cons, <- IH. simpl. destruct (valid_route_var k v); naive_solver.
Qed.

Lemma routeValidation_some vars k :
  routeValidation vars = Some k → ∃ v, (k, v) ∈ vars ∧ valid_route_var k v = false.
Proof.
  induction vars as [|[k' v'] vars IH]; simpl; [done|].
  destruct (valid_route_var k' v') eqn:E; simpl.
  - intros (v & Hin & Hv)%IH. exists v. split; [by right|done].
  - intros [=->]. exists v'. split; [left|done].
Qed.

(** [routeValidationMiddleware] lets a request through exactly when every
    route variable is valid, whatever order the map is ranged over; a 400
    response names a variable that is invalid. *)
Theorem routeValidation_order_independent vars vars' :
  vars ≡ₚ vars' →
  (routeValidation vars = None ↔ Forall (λ kv, valid_route_var kv.1 kv.2 = true) vars) ∧
  (routeValidation vars = None ↔ routeValidation vars' = None) ∧
  (∀ k, routeValidation vars = Some k → ∃ v, (k, v) ∈ vars' ∧ valid_route_var k v = false).
Proof.
  intros Hp. split_and!.
  - apply routeValidation_none.
  - rewrite !routeValidation_none. by rewrite Hp.
  - intros k (v & Hin & Hv)%routeValidation_some. exists v. by rewrite <- Hp.
Qed.

Lemma routeValidation_order_independent_witness :
  routeValidation [("namespace", "acme"); ("name", "../x")] = Some "name" ∧
  ∃ v, ("name", v) ∈ [("name", "../x"); ("namespace", "acme")] ∧ valid_route_var "name" v = false.
Proof.
  assert ([("namespace", "acme"); ("name", "../x")] ≡ₚ [("name", "../x"); ("namespace", "acme")])
    as Hp by constructor.
  destruct (routeValidation_order_independent _ _ Hp) as (_ & _ & H).
  split; [reflexivity|apply H; reflexivity].
Defined.

(** ** The client's checks are the server's *)

Lemma numericIdentifier_ParseUint s : numericIdentifier s = ParseUint s.
Proof.
  apply option_eq. intros n. by rewrite numericIdentifier_some, ParseUint_some.
Qed.

Lemma valid_import_part_core parts :
  forallb valid_import_part parts = match parse_core parts with Some _ => true | None => false end.
Proof.
  induction parts as [|p parts IH]; [done|]. cbn [forallb parse_core].
  rewrite IH, numericIdentifier_ParseUint. unfold valid_import_part.
  destruct (String.eqb_spec p "") as [->|Hp]; [done|]. simpl.
  destruct (zero_led p), (ParseUint p), (parse_core parts); done.
Qed.

Lemma valid_import_identifier_eq b s : valid_import_identifier b s = valid_identifier b s.
Proof.
  unfold valid_import_identifier, valid_identifier.
  destruct (String.eqb s ""), (forallb rune_identifier (runes s)); simpl; try done.
Qed.

Lemma validImportIdentifiers_eq s b : validImportIdentifiers s b = validIdentifiers s b.
Proof.
  unfold validImportIdentifiers, validIdentifiers. destruct (String.eqb s ""); [done|].
  induction (Split s ".") as [|x l IH]; [done|]. cbn [forallb]. by rewrite IH, valid_import_identifier_eq.
Qed.

Lemma validImportVersion_eq v : validImportVersion v = validVersion v.
Proof.
  unfold validVersion, validImportVersion, parseSemanticVersion.
  destruct (_ || _); [done|]. destruct (Cut v "+") as [[vp build] hasBuild].
  rewrite validImportIdentifiers_eq. destruct (hasBuild && _); [done|].
  destruct (Cut vp "-") as [[core pre] hasPre]. rewrite validImportIdentifiers_eq.
  destruct (hasPre && _); [done|]. destruct (negb _); [done|].
  rewrite valid_import_part_core. by destruct (parse_core _).
Qed.

(** The client mirrors the server: [validImportVersion] accepts exactly the
    versions of the server's parser, and [validImportName] exactly its artifact
    names, so OCI metadata the client accepts passes the server's route
    validation. *)
Theorem client_server_validation_agree v :
  validImportVersion v = validVersion v ∧ validImportName v = validArtifactName v.
Proof. split; [apply validImportVersion_eq|done]. Qed.
