(* ===== verification/GoPath.v ===== *)
(** * Paths

    [path.Clean], [path.Base] and the [filepath] functions the program calls
    (Unix rules, where [filepath] and [path] agree).  Besides slash-separated
    strings, absolute cleaned paths are handled as lists of components. *)

From S2P Require Import Prelude GoString.

Abbreviation path := (list string).

(** One component of [Clean]: empty and ["."] components vanish, [".."] removes
    the preceding real component; the accumulator is reversed. *)
Definition clean_step (rooted : bool) (acc : list string) (c : string) : list string :=
  if String.eqb c "" || String.eqb c "." then acc
  else if String.eqb c ".." then
    match acc with
    | x :: acc' => if String.eqb x ".." then c :: acc else acc'
    | [] => if rooted then [] else [c]
    end
  else c :: acc.

Definition clean_parts (rooted : bool) (l : list string) : list string :=
  reverse (foldl (clean_step rooted) [] l).

Definition IsAbs (s : string) : bool := HasPrefix s "/".

Definition Clean (s : string) : string :=
  if String.eqb s "" then "."
  else
    let parts := clean_parts (IsAbs s) (Split s "/") in
    if IsAbs s then "/" +:+ Join parts "/"
    else match parts with [] => "." | _ => Join parts "/" end.

Definition Base (s : string) : string :=
  if String.eqb s "" then "."
  else match TrimRight s "/" with
       | "" => "/"
       | t => List.last (Split t "/") ""
       end.

(** [filepath.Join(a, b)] of a directory prefix and a name. *)
Definition Join2 (a b : string) : string :=
  if String.eqb a "" then (if String.eqb b "" then "" else Clean b)
  else Clean (if String.eqb b "" then a else a +:+ "/" +:+ b).

(** ** Absolute paths as component lists *)

(** [filepath.Dir] and [filepath.Base] of an absolute cleaned path. *)
Definition parent (p : path) : path := removelast p.
Definition base_name (p : path) : string := List.last p "/".

(** [filepath.Join(base, rel)] for an absolute [base]. *)
Definition join_parts (base rel : path) : path := clean_parts true (base ++ rel).

(** [filepath.Rel(base, targ)] for absolute cleaned paths. *)
Fixpoint Rel (base targ : path) : path :=
  match base, targ with
  | b :: base', t :: targ' =>
      if String.eqb b t then Rel base' targ' else replicate (length base) ".." ++ targ
  | [], _ => targ
  | _, [] => replicate (length base) ".."
  end.

(** [rel == ".." || strings.HasPrefix(rel, "../")] *)
Definition escapes (rel : path) : bool :=
  match rel with c :: _ => String.eqb c ".." | [] => false end.

(** A component that names a directory entry. *)
Definition plain (c : string) : Prop := c ≠ "" ∧ c ≠ "." ∧ c ≠ "..".
#[export] Instance plain_dec c : Decision (plain c) := _.

Example clean_examples :
  map Clean ["a//b/./../c/"; "/../x"; "../a"; "a/.."; ""] = ["a/c"; "/x"; "../a"; "."; "."].
Proof. reflexivity. Qed.

Lemma clean_step_plain r acc c : plain c → clean_step r acc c = c :: acc.
Proof.
  intros (H1 & H2 & H3). unfold clean_step.
  by rewrite !(proj2 (String.eqb_neq _ _)) by done.
Qed.

Lemma foldl_clean_plain r acc l : Forall plain l → foldl (clean_step r) acc l = reverse l ++ acc.
Proof.
  intros Hl. revert acc. induction Hl as [|c l Hc Hl IH]; intros acc; [done|].
  simpl. rewrite clean_step_plain, IH by done. by rewrite reverse_cons, <- app_assoc.
Qed.

Lemma clean_parts_plain r l : Forall plain l → clean_parts r l = l.
Proof.
  intros Hl. unfold clean_parts. rewrite foldl_clean_plain by done.
  by rewrite app_nil_r, reverse_involutive.
Qed.

Lemma join_parts_plain base rel : Forall plain base → Forall plain rel → join_parts base rel = base ++ rel.
Proof. intros. by apply clean_parts_plain, Forall_app. Qed.

(** The components kept by [Clean]: plain ones, after leading [".."]s that only
    a relative path can have. *)
Lemma foldl_clean_shape r l acc :
  (∃ d u, acc = d ++ replicate u ".." ∧ Forall plain d ∧ (r = true → u = 0)) →
  ∃ d u, foldl (clean_step r) acc l = d ++ replicate u ".." ∧ Forall plain d ∧ (r = true → u = 0).
Proof.
  revert acc. induction l as [|c l IH]; intros acc (d & u & -> & Hd & Hu); [by exists d, u|].
  simpl. apply IH. unfold clean_step.
  destruct (String.eqb_spec c ""), (String.eqb_spec c "."); simpl; try (by exists d, u).
  destruct (String.eqb_spec c "..") as [->|].
  - destruct d as [|x d]; simpl.
    + destruct u as [|u]; simpl.
      * destruct r; [by exists [], 0|]. by exists [], 1.
      * exists [], (S (S u)). split_and!; [done|done|intros Hr; by specialize (Hu Hr)].
    + apply Forall_cons in Hd as [(? & ? & Hx) Hd].
      rewrite (proj2 (String.eqb_neq _ _)) by done. by exists d, u.
  - exists (c :: d), u. split_and!; [done| |done]. constructor; [by split_and!|done].
Qed.

Lemma clean_parts_shape r l :
  ∃ u d, clean_parts r l = replicate u ".." ++ d ∧ Forall plain d ∧ (r = true → u = 0).
Proof.
  destruct (foldl_clean_shape r l []) as (d & u & E & Hd & Hu); [by exists [], 0|].
  exists u, (reverse d). unfold clean_parts. rewrite E, reverse_app, reverse_replicate.
  split_and!; [done| |done]. by apply Forall_reverse.
Qed.

(** A cleaned relative path that does not start with [".."] has none. *)
Lemma clean_parts_no_escape l : escapes (clean_parts false l) = false → Forall plain (clean_parts false l).
Proof.
  destruct (clean_parts_shape false l) as (u & d & -> & Hd & _).
  destruct u as [|u]; simpl; done.
Qed.

Lemma Rel_app base p : Rel base (base ++ p) = p.
Proof. induction base as [|b base IH]; [done|]. simpl. by rewrite String.eqb_refl. Qed.

(** The escape test is exactly the prefix test. *)
Lemma Rel_escapes base q : Forall plain q → escapes (Rel base q) = false ↔ base `prefix_of` q.
Proof.
  intros Hq. split.
  - revert q Hq. induction base as [|b base IH]; intros q Hq; [intros _; apply prefix_nil|].
    destruct q as [|t q]; simpl; [done|].
    destruct (String.eqb_spec b t) as [->|]; simpl; [|done].
    apply Forall_cons in Hq as [_ Hq]. intros H. by apply prefix_cons, IH.
  - intros [p ->]. rewrite Rel_app. apply Forall_app in Hq as [_ Hp].
    destruct Hp as [|c p (_ & _ & Hc) _]; [done|]. simpl. by apply String.eqb_neq.
Qed.

Lemma parent_app p c : parent (p ++ [c]) = p.
Proof. apply removelast_last. Qed.
Lemma base_name_app p c : base_name (p ++ [c]) = c.
Proof. apply List.last_last. Qed.
Lemma parent_base p : p ≠ [] → p = parent p ++ [base_name p].
Proof. intros H. by apply app_removelast_last. Qed.
Lemma parent_prefix p : parent p `prefix_of` p.
Proof.
  destruct (decide (p = [])) as [->|H]; [done|]. exists [base_name p]. by apply parent_base.
Qed.
#[export] Hint Rewrite parent_app base_name_app : gostr.

(** ** Relative strings *)

(** The components of a cleaned relative string. *)
Definition rel_parts (s : string) : path := clean_parts false (Split s "/").

Lemma Clean_rel s : s ≠ "" → IsAbs s = false →
  Clean s = match rel_parts s with [] => "." | _ => Join (rel_parts s) "/" end.
Proof.
  intros Hs Ha. unfold Clean, rel_parts. rewrite Ha. by rewrite (proj2 (String.eqb_neq _ _)).
Qed.

Lemma foldl_clean_no_slash r l acc :
  Forall (no_char "/") l → Forall (no_char "/") acc →
  Forall (no_char "/") (foldl (clean_step r) acc l).
Proof.
  intros Hl. revert acc. induction Hl as [|c l Hc Hl IH]; intros acc Hacc; [done|].
  simpl. apply IH. unfold clean_step.
  destruct (_ || _); [done|]. destruct (String.eqb c "..").
  - destruct Hacc as [|x acc Hx Hacc]; [by destruct r; repeat constructor|].
    destruct (String.eqb x ".."); [by repeat constructor|done].
  - by constructor.
Qed.

Lemma rel_parts_no_slash s : Forall (no_char "/") (rel_parts s).
Proof.
  unfold rel_parts, clean_parts. apply Forall_reverse, foldl_clean_no_slash; [|done].
  apply Split_pieces.
Qed.

(** The tests on strings are the tests on components. *)
Lemma escape_test s : s ≠ "" → IsAbs s = false →
  String.eqb (Clean s) ".." || HasPrefix (Clean s) "../" = escapes (rel_parts s).
Proof.
  intros Hs Ha. rewrite (Clean_rel s Hs Ha). pose proof (rel_parts_no_slash s) as Hn.
  destruct (rel_parts s) as [|c l]; [done|].
  assert (Split (Join (c :: l) "/") "/" = c :: l) as HS by by apply Split_Join.
  cbn [escapes]. apply Forall_cons in Hn as [Hc Hl].
  destruct (String.eqb_spec c "..") as [->|Hne].
  - destruct l as [|d l]; [done|]. rewrite Join_cons by done.
    apply orb_true_iff. right. apply HasPrefix_iff. by exists (Join (d :: l) "/").
  - apply orb_false_iff. split.
    + apply String.eqb_neq. intros E. rewrite E in HS. by injection HS as <- _.
    + apply not_true_iff_false. rewrite HasPrefix_iff. intros [t E]. rewrite E in HS.
      change ("../" +:+ t) with (".." +:+ String "/" t) in HS.
      rewrite Split_app in HS by done. by injection HS as <- _.
Qed.

Lemma Clean_dot s : s ≠ "" → IsAbs s = false → Clean s = "." ↔ rel_parts s = [].
Proof.
  intros Hs Ha. rewrite (Clean_rel s Hs Ha).
  pose proof (rel_parts_no_slash s) as Hn.
  destruct (clean_parts_shape false (Split s "/")) as (u & d & E & Hd & _).
  fold (rel_parts s) in E. destruct (rel_parts s) as [|c l]; [done|].
  split; [|done]. intros HJ.
  assert (Split (Join (c :: l) "/") "/" = c :: l) as HS by by apply Split_Join.
  rewrite HJ in HS. injection HS as <- <-.
  destruct u; simpl in E; [|done]. rewrite <- E in Hd. apply Forall_cons in Hd as [(_ & ? & _) _]. done.
Qed.

(** Cleaning below a directory: without escape nothing of it is lost. *)
Lemma foldl_clean_dotdot l d : ∃ x, foldl (clean_step false) (d ++ [".."]) l = x ++ [".."].
Proof.
  revert d. induction l as [|c l IH]; intros d; [by exists d|]. simpl. unfold clean_step.
  destruct (_ || _); [apply IH|]. destruct (String.eqb c "..").
  - destruct d as [|x d]; simpl; [apply (IH [c])|].
    destruct (String.eqb x ".."); [apply (IH (c :: x :: d))|apply IH].
  - apply (IH (c :: d)).
Qed.

Lemma clean_step_cases c :
  (∀ r acc, clean_step r acc c = acc) ∨ c = ".." ∨ plain c.
Proof.
  destruct (decide (plain c)) as [?|Hp]; [by right; right|].
  destruct (decide (c = "..")); [by right; left|]. left. intros r acc. unfold clean_step.
  destruct (String.eqb_spec c ""); [done|]. destruct (String.eqb_spec c "."); [done|].
  by destruct Hp.
Qed.

Lemma foldl_clean_below D l d :
  Forall plain d → Forall plain (foldl (clean_step false) d l) →
  foldl (clean_step true) (d ++ D) l = foldl (clean_step false) d l ++ D.
Proof.
  revert d. induction l as [|c l IH]; intros d Hd Hf; [done|]. cbn [foldl] in *.
  destruct (clean_step_cases c) as [Hs|[->|Hp]].
  - rewrite Hs in Hf. rewrite !Hs. by apply IH.
  - destruct Hd as [|x d (? & ? & Hx) Hd].
    + destruct (foldl_clean_dotdot l []) as [y Ey].
      change (clean_step false [] "..") with ([] ++ [".."]) in Hf. rewrite Ey in Hf.
      apply Forall_app in Hf as [_ (_ & _ & Hf)%Forall_singleton]. by destruct Hf.
    + apply String.eqb_neq in Hx.
      assert (∀ r E, clean_step r (x :: E) ".." = E) as Hup by (intros r E; cbn; by rewrite Hx).
      rewrite Hup in Hf. cbn [app]. rewrite !Hup. by apply IH.
  - rewrite clean_step_plain in Hf by done. rewrite !clean_step_plain by done.
    by apply (IH (c :: d)); [constructor|].
Qed.

Lemma clean_parts_below D l :
  Forall plain D → escapes (clean_parts false l) = false →
  clean_parts true (D ++ l) = D ++ clean_parts false l.
Proof.
  intros HD Hl%clean_parts_no_escape. unfold clean_parts in *.
  apply Forall_reverse in Hl. rewrite reverse_involutive in Hl.
  rewrite foldl_app, (foldl_clean_plain true [] D), app_nil_r by done.
  assert (foldl (clean_step true) (reverse D) l = foldl (clean_step false) [] l ++ reverse D) as ->.
  { by apply (foldl_clean_below (reverse D) l []). }
  by rewrite reverse_app, reverse_involutive.
Qed.

(** [fmt.Sprintf("%s/%s/...", ...)] *)
Definition slash (l : list string) : string := Join l "/".
