(* ===== verification/Sha256.v ===== *)
(** * SHA-256

    [sha256.Sum256] and the lower-case hexadecimal rendering used for artifact
    digests ([fmt.Sprintf("%x", _)], [hex.EncodeToString]).  32-bit words are
    [N] reduced modulo 2^32. *)

From S2P Require Import Prelude GoString.

Section sha256.
Local Open Scope N_scope.

Definition w32 (x : N) : N := N.land x 4294967295.
Definition rotr (n x : N) : N := N.lor (N.shiftr x n) (w32 (N.shiftl x (32 - n))).

(** The constants are the first 32 bits of the fractional parts of the cube
    and square roots of the first primes. *)
Definition small_primes : list N :=
  List.filter (λ p, forallb (λ d, negb (N.eqb (N.modulo p d) 0)) (map N.of_nat (seq 2 (N.to_nat p - 2))))
              (map N.of_nat (seq 2 310)).

(** The integer [k]-th root of [x] below [2^40], bit by bit. *)
Definition root (k x : N) : N :=
  foldl (λ r i, let r' := r + 2 ^ N.of_nat i in if r' ^ k <=? x then r' else r) 0 (reverse (seq 0 40)).

Definition root_bits (k p : N) : N := w32 (root k (p * 2 ^ (32 * k))).

Definition round_constants : list N := Eval vm_compute in map (root_bits 3) small_primes.
Definition initial_state : list N := Eval vm_compute in map (root_bits 2) (take 8 small_primes).

(** The message with its padding, as bytes. *)
Fixpoint bytes_of (s : string) : list N :=
  match s with "" => [] | String a s => N_of_ascii a :: bytes_of s end.

Fixpoint big_endian (n : nat) (x : N) : list N :=
  match n with O => [] | S n => N.land (N.shiftr x (8 * N.of_nat n)) 255 :: big_endian n x end.

Definition padded (s : string) : list N :=
  let m := bytes_of s in
  let len := length m in
  m ++ 128 :: replicate ((119 - len mod 64) mod 64) 0 ++ big_endian 8 (8 * N.of_nat len).

Fixpoint words (l : list N) : list N :=
  match l with
  | a :: b :: c :: d :: l =>
      N.lor (N.shiftl a 24) (N.lor (N.shiftl b 16) (N.lor (N.shiftl c 8) d)) :: words l
  | _ => []
  end.

(** The message schedule, most recent word first. *)
Fixpoint extend (n : nat) (w : list N) : list N :=
  match n with
  | O => w
  | S n =>
      let x := nth 14 w 0 in
      let y := nth 1 w 0 in
      let s0 := N.lxor (rotr 7 x) (N.lxor (rotr 18 x) (N.shiftr x 3)) in
      let s1 := N.lxor (rotr 17 y) (N.lxor (rotr 19 y) (N.shiftr y 10)) in
      extend n (w32 (nth 15 w 0 + s0 + nth 6 w 0 + s1) :: w)
  end.

Definition sha_round (st : list N) (kw : N * N) : list N :=
  match st with
  | [a; b; c; d; e; f; g; h] =>
      let s1 := N.lxor (rotr 6 e) (N.lxor (rotr 11 e) (rotr 25 e)) in
      let ch := N.lxor (N.land e f) (N.land (N.lxor e 4294967295) g) in
      let t1 := w32 (h + s1 + ch + kw.1 + kw.2) in
      let s0 := N.lxor (rotr 2 a) (N.lxor (rotr 13 a) (rotr 22 a)) in
      let maj := N.lxor (N.land a b) (N.lxor (N.land a c) (N.land b c)) in
      [w32 (t1 + s0 + maj); a; b; c; w32 (d + t1); e; f; g]
  | _ => st
  end.

Definition block (st : list N) (w : list N) : list N :=
  let schedule := reverse (extend 48 (reverse w)) in
  zip_with (λ x y, w32 (x + y)) st (foldl sha_round st (zip round_constants schedule)).

(** One block of 16 words at a time. *)
Fixpoint blocks (fuel : nat) (st w : list N) : list N :=
  match fuel with
  | O => st
  | S fuel => match w with [] => st | _ => blocks fuel (block st (take 16 w)) (drop 16 w) end
  end.

Definition sum256 (s : string) : list N :=
  let w := words (padded s) in
  concat (map (big_endian 4) (blocks (length w) initial_state w)).

End sha256.

Definition hex_of_nibble (x : N) : ascii :=
  ascii_of_N (if (x <? 10)%N then 48 + x else 87 + x).

(** [hex.EncodeToString] *)
Fixpoint hex (l : list N) : string :=
  match l with
  | [] => ""
  | x :: l => String (hex_of_nibble (N.land (N.shiftr x 4) 15)) (String (hex_of_nibble (N.land x 15)) (hex l))
  end.

(** [fmt.Sprintf("%x", sha256.Sum256(s))] *)
Definition sha256_hex (s : string) : string := hex (sum256 s).

Example sha256_empty :
  sha256_hex "" = "e3b0c44298fc1c149afbf4c8996fb92427ae41e4649b934ca495991b7852b855".
Proof. vm_compute. reflexivity. Qed.

Example sha256_abc :
  sha256_hex "abc" = "ba7816bf8f01cfea414140de5dae2223b00361a396177a9cb410ff61f20015ad".
Proof. vm_compute. reflexivity. Qed.

Example sha256_two_blocks :
  sha256_hex "abcdbcdecdefdefgefghfghighijhijkijkljklmklmnlmnomnopnopq" =
  "248d6a61d20638b8e5c026930c3e6039a33ce45964ff2167f6ecedd419db06c1".
Proof. vm_compute. reflexivity. Qed.

(** ** The digest has 64 lower-case hexadecimal digits *)

Definition lower_hex (a : ascii) : bool := in_range "0" "9" a || in_range "a" "f" a.

Lemma big_endian_length n x : length (big_endian n x) = n.
Proof. induction n; simpl; auto. Qed.

Lemma sha_round_length st kw : length st = 8 → length (sha_round st kw) = 8.
Proof. intros. by destruct st as [|? [|? [|? [|? [|? [|? [|? [|? [|??]]]]]]]]]. Qed.

Lemma block_length st w : length st = 8 → length (block st w) = 8.
Proof.
  intros H. unfold block. generalize (zip round_constants (reverse (extend 48 (reverse w)))); intros l.
  assert (∀ s, length s = 8 → length (foldl sha_round s l) = 8) as Hl.
  { induction l as [|kw l IH]; [done|]. intros s Hs. by apply IH, sha_round_length. }
  rewrite length_zip_with, Hl, H by done. done.
Qed.

Lemma blocks_length fuel st w : length st = 8 → length (blocks fuel st w) = 8.
Proof.
  revert st w. induction fuel as [|fuel IH]; intros st w H; [done|].
  destruct w; [done|]. by apply IH, block_length.
Qed.

Lemma sum256_length s : length (sum256 s) = 32.
Proof.
  unfold sum256.
  assert (∀ l, length (concat (map (big_endian 4) l)) = 4 * length l) as Hc.
  { induction l as [|x l IH]; [done|]. rewrite map_cons, concat_cons, length_app, IH.
    rewrite big_endian_length. simpl. lia. }
  by rewrite Hc, blocks_length.
Qed.

Lemma hex_of_nibble_lower x : (x < 16)%N → lower_hex (hex_of_nibble x) = true.
Proof.
  intros H.
  assert (x ∈ map N.of_nat (seq 0 16)) as Hx.
  { apply list_elem_of_fmap. exists (N.to_nat x). rewrite elem_of_seq. lia. }
  vm_compute in Hx. repeat (apply elem_of_cons in Hx as [->|Hx]; [done|]). by apply elem_of_nil in Hx.
Qed.

Lemma land_15 x : (N.land x 15 < 16)%N.
Proof. change 15%N with (N.ones 4). rewrite N.land_ones. by apply N.mod_lt. Qed.

Lemma hex_shape l : slen (hex l) = 2 * length l ∧ sforall lower_hex (hex l) = true.
Proof.
  induction l as [|x l [IH1 IH2]]; [done|]. simpl. rewrite IH1, IH2.
  split; [simpl; lia|]. by rewrite !hex_of_nibble_lower by apply land_15.
Qed.

Lemma sha256_hex_length s : slen (sha256_hex s) = 64.
Proof. unfold sha256_hex. by rewrite (proj1 (hex_shape _)), sum256_length. Qed.

Lemma sha256_hex_lower s : sforall lower_hex (sha256_hex s) = true.
Proof. apply hex_shape. Qed.
