(* ===== verification/Os.v ===== *)
(** * The operating system as the server sees it

    A file system with regular files, directories and symbolic links; the
    system calls of package [os] on it; a state monad whose state also holds
    the clock, the random source of [os.CreateTemp], the mutexes and an oracle
    of I/O faults.  Every system call first consults the oracle, so a property
    proved for every oracle covers every failure of every call, and a crash
    after any call (all later calls fail). *)

From S2P Require Import Prelude GoString GoPath.

(** ** Errors *)

Inductive errno := ENOENT | EEXIST | ENOTDIR | EISDIR | ENOTEMPTY | ELOOP | EINVAL | EBUSY | EIO.

(** Go error values.  [EWrap msg e] is [fmt.Errorf("msg: %w", e)];
    [EText] an error without a cause. *)
Inductive error :=
| EOS (e : errno)
| EText (msg : string)
| EWrap (msg : string) (e : error)
| EMaxBytes                                (* *http.MaxBytesError *)
| EUploadTooLarge (limit : Z)              (* fmt.Errorf("%w of %d bytes", ErrUploadTooLarge, _) *)
| EInvalidArchive (cause : error).         (* fmt.Errorf("%w: %v", ErrInvalidArchive, _) *)

#[export] Instance errno_eq_dec : EqDecision errno.
Proof. solve_decision. Defined.
#[export] Instance error_eq_dec : EqDecision error.
Proof. solve_decision. Defined.

(** [os.IsNotExist] does not look through [fmt] wrappers. *)
Definition os_IsNotExist (e : error) : bool := match e with EOS ENOENT => true | _ => false end.

(** [errors.Is(err, ErrUploadTooLarge)], [errors.As(err, *MaxBytesError)] and
    [errors.Is(err, ErrInvalidArchive)] do. *)
Fixpoint is_upload_too_large (e : error) : bool :=
  match e with EUploadTooLarge _ => true | EWrap _ e => is_upload_too_large e | _ => false end.
Fixpoint is_max_bytes (e : error) : bool :=
  match e with EMaxBytes => true | EWrap _ e => is_max_bytes e | _ => false end.
Fixpoint is_invalid_archive (e : error) : bool :=
  match e with EInvalidArchive _ => true | EWrap _ e => is_invalid_archive e | _ => false end.

(** ** File systems *)

Inductive node :=
| NFile (data : string) (mtime : Z)
| NDir
| NLink (absolute : bool) (target : list string) (mtime : Z).

#[export] Instance node_eq_dec : EqDecision node.
Proof. solve_decision. Defined.

Definition is_dir (n : node) : bool := match n with NDir => true | _ => false end.

Abbreviation fs := (gmap (list string) node).

(** ** Path resolution *)

Inductive walked :=
| WDone (p : path) (n : node)                       (* the canonical path, not a link *)
| WMissing (dir : path) (name : string) (rest : path) (* no such entry in a directory *)
| WErr (e : errno).

(** Resolve [todo] from the canonical directory [here], following at most
    [links] symbolic links. *)
Fixpoint walk (f : fs) (links : nat) : path → path → walked :=
  fix go (here todo : path) {struct todo} : walked :=
    match f !! here with
    | None => WErr ENOENT
    | Some n =>
        match todo with
        | [] => WDone here n
        | c :: rest =>
            match n with
            | NDir =>
                if String.eqb c "" || String.eqb c "." then go here rest
                else if String.eqb c ".." then go (parent here) rest
                else match f !! (here ++ [c]) with
                     | None => WMissing here c rest
                     | Some (NLink absolute target _) =>
                         match links with
                         | O => WErr ELOOP
                         | S links' =>
                             walk f links' (if absolute then [] else here) (target ++ rest)
                         end
                     | Some _ => go (here ++ [c]) rest
                     end
            | _ => WErr ENOTDIR
            end
        end
    end.

(** The kernel's limit and that of [filepath.EvalSymlinks]. *)
Definition max_links : nat := 40.
Definition max_eval_links : nat := 255.

(** [stat(2)] *)
Definition stat (f : fs) (p : path) : result error (path * node) :=
  match walk f max_links [] p with
  | WDone q n => Ok (q, n)
  | WMissing _ _ _ => Err (EOS ENOENT)
  | WErr e => Err (EOS e)
  end.

(** The directory of a path, resolved, and the entry name: where a call that
    does not follow a final link operates. *)
Definition locate (f : fs) (p : path) : result error path :=
  match p with
  | [] => Ok []
  | _ =>
      match stat f (parent p) with
      | Ok (d, NDir) => Ok (d ++ [base_name p])
      | Ok _ => Err (EOS ENOTDIR)
      | Err e => Err e
      end
  end.

(** [lstat(2)] *)
Definition lstat (f : fs) (p : path) : result error (path * node) :=
  q ←? locate f p;
  match f !! q with Some n => Ok (q, n) | None => Err (EOS ENOENT) end.

(** Strip the prefix [p] of [q]. *)
Definition strip (p q : path) : option path :=
  if bool_decide (p `prefix_of` q) then Some (drop (length p) q) else None.

(** The names in a directory, sorted. *)
Definition children (f : fs) (p : path) : list string :=
  merge_sort String.le
    (omap (λ qn, match strip p qn.1 with Some [c] => Some c | _ => None end) (map_to_list f)).

(** Remove [p] and everything below it. *)
Definition prune (p : path) (f : fs) : fs := filter (λ qn, ¬ p `prefix_of` qn.1) f.

Definition reroot (old new q : path) : path :=
  match strip old q with Some r => new ++ r | None => q end.

(** Move the subtree [old] to [new], replacing what is there. *)
Definition move (old new : path) (f : fs) : fs :=
  list_to_map (map (λ qn, (reroot old new qn.1, qn.2)) (map_to_list (prune new f))).

(** Order of [filepath.Walk]: lexical in each directory, a directory before
    its contents. *)
Fixpoint path_leb (p q : path) : bool :=
  match p, q with
  | [], _ => true
  | _ :: _, [] => false
  | c :: p, d :: q => if String.eqb c d then path_leb p q else String.leb c d
  end.

Definition entry_le (a b : path * node) : Prop := path_leb a.1 b.1 = true.
#[export] Instance entry_le_dec : RelDecision entry_le.
Proof. intros a b. unfold entry_le. apply _. Defined.

Definition tree (f : fs) (p : path) : list (path * node) :=
  merge_sort entry_le
    (List.filter (λ qn, bool_decide (p `prefix_of` qn.1)) (map_to_list f)).

(** ** The world *)

Record world := World {
  w_fs : fs;
  w_faults : list (option nat);      (* [Some k]: the next call fails, a write after [k] bytes *)
  w_rand : nat → N;                  (* the numbers [os.CreateTemp] draws *)
  w_drawn : nat;
  w_now : Z;                         (* nanoseconds *)
  w_locks : gmap string bool;        (* [Store.locks]: allocated mutexes, [true] when held *)
  w_mutation : bool                  (* [mutationMu] held *)
}.

Definition set_fs (f : fs) (w : world) : world :=
  World f (w_faults w) (w_rand w) (w_drawn w) (w_now w) (w_locks w) (w_mutation w).
Definition set_faults l (w : world) : world :=
  World (w_fs w) l (w_rand w) (w_drawn w) (w_now w) (w_locks w) (w_mutation w).
Definition set_drawn n (w : world) : world :=
  World (w_fs w) (w_faults w) (w_rand w) n (w_now w) (w_locks w) (w_mutation w).
Definition set_locks l (w : world) : world :=
  World (w_fs w) (w_faults w) (w_rand w) (w_drawn w) (w_now w) l (w_mutation w).
Definition set_mutation b (w : world) : world :=
  World (w_fs w) (w_faults w) (w_rand w) (w_drawn w) (w_now w) (w_locks w) b.

(** [None] is a goroutine blocked for ever on a mutex it holds itself. *)
Definition M (A : Type) : Type := world → option (A * world).

#[export] Instance M_ret : MRet M := λ A a w, Some (a, w).
#[export] Instance M_bind : MBind M := λ A B k m w,
  match m w with Some (a, w') => k a w' | None => None end.

#[export] Instance M_fmap : FMap M := λ A B f m, a ← m; mret (f a).

(** [if err != nil { return wrap(err) }] *)
Definition try_bind {A B} (wrap : error → error) (k : A → M (result error B))
    (m : M (result error A)) : M (result error B) :=
  r ← m; match r with Ok a => k a | Err e => mret (Err (wrap e)) end.

Notation "x ←! m ; k" := (try_bind id (λ x, k) m)
  (at level 20, m at level 100, k at level 200, right associativity,
   format "x  ←!  m ;  '//' k") : go_scope.
Notation "' x ←! m ; k" := (try_bind id (λ x, k) m)
  (at level 20, x pattern, m at level 100, k at level 200, right associativity,
   format "' x  ←!  m ;  '//' k") : go_scope.
Notation "x ←! m 'wrapping' s ; k" := (try_bind (EWrap s) (λ x, k) m)
  (at level 20, m at level 100, s at level 0, k at level 200, right associativity,
   format "x  ←!  m  'wrapping'  s ;  '//' k") : go_scope.
Notation "' x ←! m 'wrapping' s ; k" := (try_bind (EWrap s) (λ x, k) m)
  (at level 20, x pattern, m at level 100, s at level 0, k at level 200, right associativity,
   format "' x  ←!  m  'wrapping'  s ;  '//' k") : go_scope.

Definition get_world : M world := λ w, Some (w, w).
Definition put_fs (f : fs) : M unit := λ w, Some ((), set_fs f w).
Definition time_Now : M Z := λ w, Some (w_now w, w).

(** Consult the fault oracle. *)
Definition next_fault : M (option nat) := λ w,
  match w_faults w with
  | [] => Some (None, w)
  | x :: l => Some (x, set_faults l w)
  end.

(** A system call: fails with [EIO] when the oracle says so, otherwise acts. *)
Definition syscall {A} (call : world → result error (A * fs)) : M (result error A) :=
  ft ← next_fault;
  match ft with
  | Some _ => mret (Err (EOS EIO))
  | None =>
      w ← get_world;
      match call w with
      | Ok (a, f') => put_fs f';; mret (Ok a)
      | Err e => mret (Err e)
      end
  end.

(** A call that only reads. *)
Definition query {A} (q : fs → result error A) : M (result error A) :=
  syscall (λ w, a ←? q (w_fs w); Ok (a, w_fs w)).

(** ** System calls *)

Definition os_Stat (p : path) : M (result error node) := query (λ f, '(_, n) ←? stat f p; Ok n).
Definition os_Lstat (p : path) : M (result error node) := query (λ f, '(_, n) ←? lstat f p; Ok n).

Definition EvalSymlinks (p : path) : M (result error path) :=
  query (λ f, match walk f max_eval_links [] p with
              | WDone q _ => Ok q
              | WMissing _ _ _ => Err (EOS ENOENT)
              | WErr ELOOP => Err (EText "EvalSymlinks: too many links")
              | WErr e => Err (EOS e)
              end).

Definition os_ReadFile (p : path) : M (result error string) :=
  query (λ f, match stat f p with
              | Ok (_, NFile d _) => Ok d
              | Ok _ => Err (EOS EISDIR)
              | Err e => Err e
              end).

(** [os.Open] and what can be read through the handle. *)
Definition os_Open (p : path) : M (result error node) := os_Stat p.

(** Read an open file from the start to the end. *)
Definition f_ReadAll (h : path) : M (result error string) :=
  query (λ f, match f !! h with
              | Some (NFile d _) => Ok d
              | _ => Err (EOS EISDIR)
              end).

(** The entries of a directory with their [IsDir] flag (of the entry itself:
    a link is not a directory). *)
Definition os_ReadDir (p : path) : M (result error (list (string * bool))) :=
  query (λ f, match stat f p with
              | Ok (q, NDir) =>
                  Ok (map (λ c, (c, match f !! (q ++ [c]) with Some n => is_dir n | None => false end))
                          (children f q))
              | Ok _ => Err (EOS ENOTDIR)
              | Err e => Err e
              end).

Definition os_Mkdir (p : path) : M (result error unit) :=
  syscall (λ w, q ←? locate (w_fs w) p;
                match w_fs w !! q with
                | Some _ => Err (EOS EEXIST)
                | None => Ok ((), <[q := NDir]> (w_fs w))
                end).

(** [os.MkdirAll], on the reversed path. *)
Fixpoint mkdir_all_rev (rp : path) : M (result error unit) :=
  st ← os_Stat (reverse rp);
  match st with
  | Ok n => mret (if is_dir n then Ok () else Err (EOS ENOTDIR))
  | Err _ =>
      let make :=
        r ← os_Mkdir (reverse rp);
        match r with
        | Ok _ => mret (Ok ())
        | Err e =>
            l ← os_Lstat (reverse rp);
            mret (match l with Ok NDir => Ok () | _ => Err e end)
        end in
      match rp with
      | [] => make
      | _ :: rp' =>
          r ← mkdir_all_rev rp';
          match r with Ok _ => make | Err e => mret (Err e) end
      end
  end.

Definition os_MkdirAll (p : path) : M (result error unit) := mkdir_all_rev (reverse p).

(** Where [open(2)] with [O_CREAT] puts a file: a final dangling link is
    followed. *)
Definition create_at (f : fs) (p : path) : result error path :=
  match walk f max_links [] p with
  | WDone q (NFile _ _) => Ok q
  | WDone _ _ => Err (EOS EISDIR)
  | WMissing d c [] => Ok (d ++ [c])
  | WMissing _ _ _ => Err (EOS ENOENT)
  | WErr e => Err (EOS e)
  end.

(** [os.OpenFile(p, O_CREATE|O_WRONLY|O_TRUNC, _)]; a handle is the canonical
    path of the open file. *)
Definition os_OpenTrunc (p : path) : M (result error path) :=
  syscall (λ w, q ←? create_at (w_fs w) p; Ok (q, <[q := NFile "" (w_now w)]> (w_fs w))).

(** [os.OpenFile(p, O_RDWR|O_CREATE|O_EXCL, _)] *)
Definition os_OpenExcl (p : path) : M (result error path) :=
  syscall (λ w, q ←? locate (w_fs w) p;
                match w_fs w !! q with
                | Some _ => Err (EOS EEXIST)
                | None => Ok (q, <[q := NFile "" (w_now w)]> (w_fs w))
                end).

Definition next_random : M N := λ w, Some (w_rand w (w_drawn w), set_drawn (S (w_drawn w)) w).

Definition max_tries : nat := N.to_nat 10000.

(** [os.CreateTemp]: the name of the file and its handle; [name] places the
    random number where the pattern has its star. *)
Fixpoint create_temp (tries : nat) (dir : path) (name : N → string) : M (result error (path * path)) :=
  n ← next_random;
  let file := dir ++ [name n] in
  r ← os_OpenExcl file;
  match r with
  | Ok h => mret (Ok (file, h))
  | Err (EOS EEXIST) =>
      match tries with
      | O => mret (Err (EOS EEXIST))
      | S tries => create_temp tries dir name
      end
  | Err e => mret (Err e)
  end.

(** [os.CreateTemp(dir, prefix + "*")] *)
Definition os_CreateTemp (dir : path) (prefix : string) : M (result error (path * path)) :=
  create_temp (pred max_tries) dir (λ n, prefix +:+ pretty n).

(** [os.CreateTemp(dir, prefix + "*" + suffix)] *)
Definition os_CreateTempSuffix (dir : path) (prefix suffix : string) : M (result error (path * path)) :=
  create_temp (pred max_tries) dir (λ n, prefix +:+ pretty n +:+ suffix).

(** Append to an open file; a faulty write stores a part of the data. *)
Definition append_to (h : path) (data : string) (t : Z) (f : fs) : fs :=
  match f !! h with
  | Some (NFile d _) => <[h := NFile (d +:+ data) t]> f
  | _ => f
  end.

Definition f_Write (h : path) (data : string) : M (result error unit) :=
  ft ← next_fault;
  w ← get_world;
  match ft with
  | Some k => put_fs (append_to h (stake k data) (w_now w) (w_fs w));; mret (Err (EOS EIO))
  | None => put_fs (append_to h data (w_now w) (w_fs w));; mret (Ok ())
  end.

(** Calls on a handle that do not change the modelled state. *)
Definition f_noop (h : path) : M (result error unit) := query (λ _, Ok ()).
Definition f_Sync := f_noop.
Definition f_Close := f_noop.
Definition f_Chmod := f_noop.
Definition f_Seek := f_noop.

(** [os.Rename]: refuses to replace a directory. *)
Definition rename_fs (f : fs) (old new : path) : result error fs :=
  qo ←? locate f old;
  match f !! qo with
  | None => Err (EOS ENOENT)
  | Some _ =>
      qn ←? locate f new;
      match f !! qn with
      | Some NDir => Err (EOS EEXIST)
      | _ =>
          if bool_decide (qo = qn) then Ok f
          else if bool_decide (qo `prefix_of` qn) then Err (EOS EINVAL)
          else Ok (move qo qn f)
      end
  end.

Definition os_Rename (old new : path) : M (result error unit) :=
  syscall (λ w, f' ←? rename_fs (w_fs w) old new; Ok ((), f')).

(** [os.Remove]: a file, a link or an empty directory other than the root. *)
Definition remove_fs (f : fs) (p : path) : result error fs :=
  q ←? locate f p;
  if bool_decide (q = []) then Err (EOS EBUSY)
  else match f !! q with
  | None => Err (EOS ENOENT)
  | Some NDir => match children f q with [] => Ok (delete q f) | _ => Err (EOS ENOTEMPTY) end
  | Some _ => Ok (delete q f)
  end.

Definition os_Remove (p : path) : M (result error unit) :=
  syscall (λ w, f' ←? remove_fs (w_fs w) p; Ok ((), f')).

(** Remove the last [k] entries of the tree at [p] in walking order, so that
    what remains is still a tree. *)
Definition prune_some (k : nat) (p : path) (f : fs) : fs :=
  foldr (λ qn g, delete qn.1 g) f (take k (reverse (tree f p))).

(** [os.RemoveAll]: a missing path is not an error; a fault leaves a part of
    the tree. *)
Definition os_RemoveAll (p : path) : M (result error unit) :=
  ft ← next_fault;
  w ← get_world;
  match locate (w_fs w) p with
  | Ok q =>
      match ft with
      | None => put_fs (prune q (w_fs w));; mret (Ok ())
      | Some k => put_fs (prune_some k q (w_fs w));; mret (Err (EOS EIO))
      end
  | Err (EOS ENOENT) => mret (Ok ())
  | Err e => mret (Err e)
  end.

(** The entries [filepath.Walk] visits and the error it then meets, if any. *)
Definition filepath_Walk (p : path) : M (list (path * node) * option error) :=
  ft ← next_fault;
  w ← get_world;
  match lstat (w_fs w) p with
  | Err e => mret ([], Some e)
  | Ok (q, _) =>
      let visited := map (λ rn, (p ++ drop (length q) rn.1, rn.2)) (tree (w_fs w) q) in
      mret (match ft with
            | Some k => (take k visited, Some (EOS EIO))
            | None => (visited, None)
            end)
  end.

(** ** Mutexes *)

(** [s.getLock(key).Lock()]: the mutex is allocated on first use. *)
Definition lock_key (key : string) : M unit := λ w,
  match w_locks w !! key with
  | Some true => None
  | _ => Some ((), set_locks (<[key := true]> (w_locks w)) w)
  end.
Definition unlock_key (key : string) : M unit := λ w,
  Some ((), set_locks (<[key := false]> (w_locks w)) w).

(** [lk.Lock(); defer lk.Unlock()] *)
Definition with_lock {A} (key : string) (body : M A) : M A :=
  lock_key key;; r ← body; unlock_key key;; mret r.

Definition lock_mutation : M unit := λ w,
  if w_mutation w then None else Some ((), set_mutation true w).
Definition unlock_mutation : M unit := λ w, Some ((), set_mutation false w).

(** [mutationMu.Lock(); defer mutationMu.Unlock()] *)
Definition with_mutation {A} (body : M A) : M A :=
  lock_mutation;; r ← body; unlock_mutation;; mret r.
