(* ===== verification/OsFacts.v ===== *)
(** * Reasoning about the operating system model

    Total-correctness rules for the monad [M], file systems without symbolic
    links, and what each system call does to them whatever the faults. *)

From S2P Require Import Prelude GoString GoPath Os.

(** ** Weakest preconditions

    [wp m Q w]: from [w], [m] returns (no deadlock, no divergence) and its
    result satisfies [Q]. *)
Definition wp {A} (m : M A) (Q : A → world → Prop) (w : world) : Prop :=
  match m w with Some (a, w') => Q a w' | None => False end.

Lemma wp_ret {A} (a : A) Q w : Q a w → wp (mret a) Q w.
Proof. done. Qed.

Lemma wp_bind {A B} (m : M A) (k : A → M B) Q w : wp m (λ a, wp (k a) Q) w → wp (m ≫= k) Q w.
Proof. unfold wp, mbind, M_bind. by destruct (m w) as [[a w']|]. Qed.

Lemma wp_mono {A} (m : M A) (P Q : A → world → Prop) w :
  wp m P w → (∀ a w', P a w' → Q a w') → wp m Q w.
Proof. unfold wp. destruct (m w) as [[a w']|]; auto. Qed.

Lemma wp_try {A B} (wrap : error → error) (k : A → M (result error B)) m Q w :
  wp m (λ r w', match r with Ok a => wp (k a) Q w' | Err e => Q (Err (wrap e)) w' end) w →
  wp (try_bind wrap k m) Q w.
Proof. intros H. apply wp_bind. eapply wp_mono; [exact H|]. by intros [a|e] w'. Qed.

Lemma wp_get Q w : Q w w → wp get_world Q w.
Proof. done. Qed.

Lemma wp_run {A} (m : M A) Q w a w' : wp m Q w → m w = Some (a, w') → Q a w'.
Proof. unfold wp. intros H E. by rewrite E in H. Qed.

Lemma wp_total {A} (m : M A) Q w : wp m Q w → ∃ a w', m w = Some (a, w') ∧ Q a w'.
Proof. unfold wp. destruct (m w) as [[a w']|]; [eauto|done]. Qed.

(** ** The rest of the world *)

(** No mutex is held. *)
Definition unlocked (w : world) : Prop := ∀ k, w_locks w !! k ≠ Some true.

Fixpoint count_faults (l : list (option nat)) : nat :=
  match l with [] => 0 | Some _ :: l => S (count_faults l) | None :: l => count_faults l end.
Definition faults_left (w : world) : nat := count_faults (w_faults w).

(** [env w w']: only the file system, the numbers drawn, the faults and the
    table of mutexes changed; no fault was added and no mutex is left held. *)
Record env (w w' : world) : Prop := {
  env_locks : w_locks w' = w_locks w ∨ (unlocked w ∧ unlocked w');
  env_mutation : w_mutation w' = w_mutation w;
  env_now : w_now w' = w_now w;
  env_rand : w_rand w' = w_rand w;
  env_faults : faults_left w' ≤ faults_left w
}.

#[export] Instance env_preorder : PreOrder env.
Proof.
  split; [by intros w; split; auto|]. intros w1 w2 w3 [L1 ? ? ? ?] [L2 ? ? ? ?].
  split; [|congruence..|lia]. unfold unlocked in *.
  destruct L1 as [E1|[? ?]], L2 as [E2|[? ?]]; rewrite ?E2, ?E1 in *; auto.
Qed.

Lemma env_unlocked w w' : env w w' → unlocked w → unlocked w'.
Proof. intros [[E|[_ ?]] _ _ _ _]; [|done]. unfold unlocked. by rewrite E. Qed.

(** A fault happened. *)
Definition faulted (w w' : world) : Prop := faults_left w' < faults_left w.

Lemma faulted_l w1 w2 w3 : faulted w1 w2 → env w2 w3 → faulted w1 w3.
Proof. unfold faulted. intros H []. lia. Qed.
Lemma faulted_r w1 w2 w3 : env w1 w2 → faulted w2 w3 → faulted w1 w3.
Proof. unfold faulted. intros []. lia. Qed.

#[export] Hint Resolve faulted_l faulted_r : go.

Lemma env_set_fs w w' f : env w w' → env w (set_fs f w').
Proof. intros []. by split. Qed.

Lemma env_set_faults w l : count_faults l ≤ faults_left w → env w (set_faults l w).
Proof. intros. split; auto. Qed.

Lemma wp_next_fault Q w :
  (∀ w' k, env w w' → w_fs w' = w_fs w → w_rand w' = w_rand w → w_drawn w' = w_drawn w →
     faulted w w' → Q (Some k) w') →
  (∀ w', env w w' → w_fs w' = w_fs w → w_rand w' = w_rand w → w_drawn w' = w_drawn w →
     Q None w') →
  wp next_fault Q w.
Proof.
  intros HS HN. unfold wp, next_fault. destruct (w_faults w) as [|[k|] l] eqn:E.
  - by apply HN.
  - apply HS; try done; [apply env_set_faults|unfold faulted];
      unfold faults_left; simpl; rewrite E; simpl; lia.
  - apply HN; try done. apply env_set_faults. unfold faults_left. by rewrite E.
Qed.

Lemma wp_syscall {A} (call : world → result error (A * fs)) Q w :
  (∀ w', env w w' → w_fs w' = w_fs w → faulted w w' → Q (Err (EOS EIO)) w') →
  (∀ w', env w w' → w_fs w' = w_fs w → w_rand w' = w_rand w → w_drawn w' = w_drawn w →
     match call w' with Ok (a, f) => Q (Ok a) (set_fs f w') | Err e => Q (Err e) w' end) →
  wp (syscall call) Q w.
Proof.
  intros HF HC. apply wp_bind, wp_next_fault; [by intros; apply HF|].
  intros w' He Hf Hr Hd. apply wp_bind, wp_get. specialize (HC w' He Hf Hr Hd).
  by destruct (call w') as [[a f]|e].
Qed.

Lemma wp_query {A} (q : fs → result error A) Q w :
  (∀ w', env w w' → w_fs w' = w_fs w → faulted w w' → Q (Err (EOS EIO)) w') →
  (∀ w', env w w' → w_fs w' = w_fs w → Q (q (w_fs w)) w') →
  wp (query q) Q w.
Proof.
  intros HF HC. apply wp_syscall; [done|]. intros w' He Hf _ _. rewrite Hf.
  specialize (HC w' He Hf). destruct (q (w_fs w)); [|done]. simpl.
  rewrite <- Hf. by destruct w'.
Qed.

(** ** Mutexes *)

Definition same_but_locks (w w' : world) : Prop :=
  w_fs w' = w_fs w ∧ w_mutation w' = w_mutation w ∧ w_now w' = w_now w ∧
  w_faults w' = w_faults w ∧ w_rand w' = w_rand w ∧ w_drawn w' = w_drawn w.

Lemma same_but_locks_faulted w w1 w2 w3 :
  same_but_locks w w1 → same_but_locks w2 w3 → faulted w1 w2 → faulted w w3.
Proof.
  unfold faulted, faults_left. intros (_ & _ & _ & E1 & _) (_ & _ & _ & E2 & _). by rewrite E1, E2.
Qed.

(** The body runs with the lock held; the lock is released whatever the body
    returns.  [R] is what the body guarantees, apart from the locks. *)
Lemma wp_with_lock {A} key (body : M A) (R : A → world → Prop) w :
  unlocked w →
  (∀ w1, same_but_locks w w1 → wp body (λ r w2, env w1 w2 ∧ R r w2) w1) →
  (∀ r w2 w3, same_but_locks w2 w3 → R r w2 → R r w3) →
  wp (with_lock key body) (λ r w3, env w w3 ∧ unlocked w3 ∧ R r w3) w.
Proof.
  intros Hu HB HR. set (w1 := set_locks (<[key := true]> (w_locks w)) w).
  specialize (HB w1 ltac:(done)).
  assert (∀ r w2, env w1 w2 ∧ R r w2 →
    let w3 := set_locks (<[key := false]> (w_locks w2)) w2 in
    env w w3 ∧ unlocked w3 ∧ R r w3) as Hend.
  { intros r w2 [He Hr] w3.
    assert (w_locks w2 = <[key := true]> (w_locks w)) as El.
    { destruct He as [[E|[Hx _]] _ _ _ _]; [done|]. destruct (Hx key). apply lookup_insert_eq. }
    assert (unlocked w3) as Hu3.
    { intros k. unfold w3. simpl. rewrite El.
      destruct (decide (k = key)) as [->|]; [by rewrite lookup_insert_eq|].
      rewrite !lookup_insert_ne by done. apply Hu. }
    split; [|split; [done|by apply (HR r w2)]].
    destruct He as [_ Em En Er Ef]. split; [by right|exact Em|exact En|exact Er|exact Ef]. }
  apply wp_bind. unfold wp at 1, lock_key. fold w1.
  destruct (w_locks w !! key) as [[]|] eqn:E; [by destruct (Hu key)|..];
    (apply wp_bind; eapply wp_mono; [exact HB|]; intros r w2 H; apply wp_bind;
     unfold wp, unlock_key; by apply Hend).
Qed.

(** ** File systems without symbolic links *)

Record clean_fs (f : fs) : Prop := {
  cf_root : f !! [] = Some NDir;
  cf_parent : ∀ p c n, f !! (p ++ [c]) = Some n → f !! p = Some NDir;
  cf_nolink : ∀ p b t m, f !! p ≠ Some (NLink b t m);
  cf_plain : ∀ p n, f !! p = Some n → Forall plain p
}.

Lemma clean_prefix f p x n : clean_fs f → f !! (p ++ x) = Some n → x ≠ [] → f !! p = Some NDir.
Proof.
  intros Hc. revert n. induction x as [|c x IH] using rev_ind; intros n H Hx; [done|].
  rewrite app_assoc in H. apply (cf_parent f Hc) in H.
  destruct x as [|d x]; [by rewrite app_nil_r in H|]. by apply (IH _ H).
Qed.

Lemma clean_parent_dir f p n : clean_fs f → p ≠ [] → f !! p = Some n → f !! parent p = Some NDir.
Proof. intros Hc Hp H. rewrite (parent_base p Hp) in H. by apply (cf_parent f Hc) in H. Qed.

(** No file lies on the way to [p]. *)
Definition way (f : fs) (p : path) : Prop :=
  ∀ d x, p = d ++ x → f !! d = None ∨ f !! d = Some NDir.

Lemma way_prefix f p d x : way f p → p = d ++ x → way f d.
Proof. intros H -> d' x' ->. apply (H d' (x' ++ x)). by rewrite app_assoc. Qed.

Lemma way_parent f p : way f p → way f (parent p).
Proof.
  intros H. destruct (decide (p = [])) as [->|Hp]; [done|].
  eapply way_prefix; [exact H|apply (parent_base p Hp)].
Qed.

Lemma way_dir f p : clean_fs f → f !! p = Some NDir → way f p.
Proof.
  intros Hc H d x ->. destruct x as [|c x]; [rewrite app_nil_r in H; by right|].
  right. by eapply clean_prefix.
Qed.

Lemma walk_step f k here c rest :
  clean_fs f → f !! here = Some NDir → plain c →
  walk f k here (c :: rest) =
    match f !! (here ++ [c]) with
    | None => WMissing here c rest
    | Some _ => walk f k (here ++ [c]) rest
    end.
Proof.
  intros Hc Hd (H1 & H2 & H3).
  destruct k; simpl; rewrite Hd;
    rewrite !(proj2 (String.eqb_neq _ _)) by done; simpl;
    destruct (f !! (here ++ [c])) as [[| |b t m]|] eqn:E; try done;
    by destruct (cf_nolink f Hc _ _ _ _ E).
Qed.

Lemma walk_nil f k here n : f !! here = Some n → walk f k here [] = WDone here n.
Proof. intros H. destruct k; simpl; by rewrite H. Qed.

Lemma walk_found f k here p n :
  clean_fs f → Forall plain p → f !! (here ++ p) = Some n → walk f k here p = WDone (here ++ p) n.
Proof.
  intros Hc Hp. revert here. induction Hp as [|c p Hpc Hp IH]; intros here H.
  - rewrite app_nil_r in *. by apply walk_nil.
  - assert (f !! here = Some NDir) as Hd by (by apply (clean_prefix f here (c :: p) n)).
    rewrite walk_step by done. rewrite (cons_middle c here p), app_assoc in H |- *.
    specialize (IH _ H).
    destruct (f !! (here ++ [c])) as [m|] eqn:E; [done|].
    destruct p as [|d p]; [by rewrite app_nil_r, E in H|].
    apply clean_prefix in H; [congruence|done|done].
Qed.

(** A missing path: either an entry of a directory is missing, or a file is
    on the way. *)
Lemma walk_missing f k here p :
  clean_fs f → Forall plain p → f !! here = Some NDir → f !! (here ++ p) = None →
  (∃ d c rest, here ++ p = d ++ c :: rest ∧ f !! d = Some NDir ∧ f !! (d ++ [c]) = None ∧
     walk f k here p = WMissing d c rest) ∨
  (∃ d x data t, here ++ p = d ++ x ∧ x ≠ [] ∧ f !! d = Some (NFile data t) ∧
     walk f k here p = WErr ENOTDIR).
Proof.
  intros Hc Hp. revert here. induction Hp as [|c p Hpc Hp IH]; intros here Hd HN.
  - rewrite app_nil_r in HN. congruence.
  - rewrite walk_step by done. destruct (f !! (here ++ [c])) as [[data t| |b t m]|] eqn:E.
    + right. destruct p as [|d p]; [congruence|].
      exists (here ++ [c]), (d :: p), data, t. rewrite <- app_assoc. split_and!; try done.
      destruct k; simpl; by rewrite E.
    + rewrite (cons_middle c here p), app_assoc in HN. specialize (IH _ E HN).
      by rewrite <- app_assoc in IH.
    + by destruct (cf_nolink f Hc _ _ _ _ E).
    + left. by exists here, c, p.
Qed.

Lemma stat_found f p n : clean_fs f → f !! p = Some n → stat f p = Ok (p, n).
Proof.
  intros Hc H. unfold stat. rewrite (walk_found f max_links [] p n); [done|done| |done].
  by eapply cf_plain.
Qed.

Lemma stat_missing f p :
  clean_fs f → Forall plain p → f !! p = None →
  stat f p = Err (EOS ENOENT) ∨ (stat f p = Err (EOS ENOTDIR) ∧ ¬ way f (parent p)).
Proof.
  intros Hc Hp H. unfold stat.
  destruct (walk_missing f max_links [] p Hc Hp (cf_root f Hc) H)
    as [(d & c & rest & _ & _ & _ & ->)|(d & x & data & t & E & Hx & Hf & ->)]; [by left|].
  right. split; [done|]. intros Hw. simpl in E. subst p.
  assert (parent (d ++ x) = d ++ removelast x) as Ep by (by apply removelast_app).
  destruct (Hw d (removelast x) Ep); congruence.
Qed.

Lemma stat_inv f p q n : clean_fs f → Forall plain p → stat f p = Ok (q, n) → q = p ∧ f !! p = Some n.
Proof.
  intros Hc Hp H. destruct (f !! p) as [m|] eqn:E.
  - rewrite (stat_found f p m) in H by done. by simplify_eq.
  - destruct (stat_missing f p Hc Hp E) as [Hs|[Hs _]]; congruence.
Qed.

Lemma plain_parent p : Forall plain p → Forall plain (parent p).
Proof.
  destruct (decide (p = [])) as [->|Hp]; [done|]. rewrite (parent_base p Hp) at 1.
  by intros [? _]%Forall_app.
Qed.
#[export] Hint Resolve plain_parent : go.

Lemma locate_inv f p q :
  clean_fs f → Forall plain p → locate f p = Ok q → q = p ∧ (p = [] ∨ f !! parent p = Some NDir).
Proof.
  intros Hc Hp. unfold locate. destruct p as [|c p]; [intros [= <-]; auto|].
  destruct (stat f (parent (c :: p))) as [[d []]|] eqn:E; try done. intros [= <-].
  apply stat_inv in E as [-> E]; [|done|by apply plain_parent].
  split; [by rewrite <- parent_base|by right].
Qed.

Lemma locate_found f p : clean_fs f → p ≠ [] → f !! parent p = Some NDir → locate f p = Ok p.
Proof.
  intros Hc Hp H. unfold locate. destruct p as [|c p]; [done|].
  rewrite (stat_found f _ _ Hc H). by rewrite <- parent_base.
Qed.

Lemma locate_err f p e :
  clean_fs f → Forall plain p → locate f p = Err e →
  (e = EOS ENOENT ∧ f !! p = None) ∨ (e = EOS ENOTDIR ∧ f !! p = None ∧ ¬ way f (parent p)).
Proof.
  intros Hc Hp H. destruct (decide (p = [])) as [->|Hn]; [done|].
  assert (f !! p = None) as HN.
  { destruct (f !! p) as [n|] eqn:E; [|done].
    apply clean_parent_dir in E; [|done|done]. rewrite locate_found in H; done. }
  unfold locate in H. destruct p as [|c p]; [done|].
  destruct (f !! parent (c :: p)) as [n|] eqn:E.
  - rewrite (stat_found f _ _ Hc E) in H. destruct n as [data t| |b t m].
    + injection H as <-. right. split_and!; [done|done|]. intros Hw.
      destruct (Hw (parent (c :: p)) []); [by rewrite app_nil_r|congruence|congruence].
    + done.
    + by destruct (cf_nolink f Hc _ _ _ _ E).
  - destruct (stat_missing f (parent (c :: p)) Hc) as [Hs|[Hs Hw]]; [by apply plain_parent|done| |];
      rewrite Hs in H; injection H as <-; [by left|].
    right. split_and!; [done|done|]. intros Hw'. by apply Hw, way_parent.
Qed.

(** ** Queries on link-free file systems *)

Definition same (w w' : world) : Prop := env w w' ∧ w_fs w' = w_fs w.

#[export] Instance same_preorder : PreOrder same.
Proof.
  split; [by intros w|]. intros w1 w2 w3 [? E1] [? E2].
  split; [by etransitivity|congruence].
Qed.

Definition io_fault (w w' : world) (e : error) : Prop := faulted w w' ∧ e = EOS EIO.

(** The errors of a path that does not exist. *)
Definition missing (f : fs) (p : path) (e : error) : Prop :=
  f !! p = None ∧ (e = EOS ENOENT ∨ e = EOS ENOTDIR ∧ ¬ way f (parent p)).

(** The contents of a regular file. *)
Definition file (f : fs) (p : path) : option string :=
  match f !! p with Some (NFile d _) => Some d | _ => None end.

Lemma file_lookup f p d t : f !! p = Some (NFile d t) → file f p = Some d.
Proof. unfold file. by intros ->. Qed.
Lemma file_some f p d : file f p = Some d → ∃ t, f !! p = Some (NFile d t).
Proof. unfold file. destruct (f !! p) as [[]|]; intros [= ->]. by eexists. Qed.
Lemma file_none f p : f !! p = None → file f p = None.
Proof. unfold file. by intros ->. Qed.

Section queries.
Context (w : world) (p : path) (Hc : clean_fs (w_fs w)) (Hp : Forall plain p).

Lemma stat_cases :
  (∃ n, w_fs w !! p = Some n ∧ stat (w_fs w) p = Ok (p, n)) ∨
  (∃ e, stat (w_fs w) p = Err e ∧ missing (w_fs w) p e).
Proof using Hc Hp.
  destruct (w_fs w !! p) as [n|] eqn:E.
  - left. exists n. by rewrite (stat_found _ _ n).
  - right. destruct (stat_missing _ p Hc Hp E) as [->|[-> ?]]; eexists; split; try done;
      split; auto.
Qed.

Lemma wp_stat : wp (os_Stat p) (λ r w', same w w' ∧
  match r with
  | Ok n => w_fs w !! p = Some n
  | Err e => io_fault w w' e ∨ missing (w_fs w) p e
  end) w.
Proof using Hc Hp.
  apply wp_query; [intros w' ???; split; [done|by left]|]. intros w' He Hf. split; [done|].
  destruct stat_cases as [(n & E & ->)|(e & -> & Hm)]; [done|by right].
Qed.

Lemma wp_lstat : wp (os_Lstat p) (λ r w', same w w' ∧
  match r with
  | Ok n => w_fs w !! p = Some n
  | Err e => io_fault w w' e ∨ missing (w_fs w) p e
  end) w.
Proof using Hc Hp.
  apply wp_query; [intros w' ???; split; [done|by left]|]. intros w' He Hf. split; [done|].
  unfold lstat. destruct (locate (w_fs w) p) as [q|e] eqn:E; simpl.
  - apply locate_inv in E as [-> _]; [|done..]. destruct (w_fs w !! p) eqn:El; simpl; [done|].
    right. split; auto.
  - right. apply locate_err in E as [[-> ?]|(-> & ? & ?)]; [..|done|done]; split; auto.
Qed.

Lemma wp_evalsymlinks : wp (EvalSymlinks p) (λ r w', same w w' ∧
  match r with
  | Ok q => q = p ∧ ∃ n, w_fs w !! p = Some n
  | Err e => io_fault w w' e ∨ missing (w_fs w) p e
  end) w.
Proof using Hc Hp.
  apply wp_query; [intros w' ???; split; [done|by left]|]. intros w' He Hf. split; [done|].
  destruct (w_fs w !! p) as [n|] eqn:E.
  - rewrite (walk_found _ max_eval_links [] p n) by done. split; [done|by exists n].
  - destruct (walk_missing _ max_eval_links [] p Hc Hp (cf_root _ Hc) E)
      as [(d & c & rest & _ & _ & _ & ->)|(d & x & data & t & Ed & Hx & Hd & ->)];
      right; (split; [done|]); [by left|]. right. split; [done|].
    simpl in Ed. subst p. intros Hw.
    destruct (Hw d (removelast x)); [by apply removelast_app|congruence..].
Qed.

Lemma wp_readfile : wp (os_ReadFile p) (λ r w', same w w' ∧
  match r with
  | Ok d => file (w_fs w) p = Some d
  | Err e => io_fault w w' e ∨ missing (w_fs w) p e ∨ (e = EOS EISDIR ∧ w_fs w !! p = Some NDir)
  end) w.
Proof using Hc Hp.
  apply wp_query; [intros w' ???; split; [done|by left]|]. intros w' He Hf. split; [done|].
  destruct stat_cases as [(n & E & ->)|(e & -> & Hm)]; [|by right; left].
  destruct n as [d t| |b t m]; [by eapply file_lookup|by right; right|].
  by destruct (cf_nolink _ Hc _ _ _ _ E).
Qed.

End queries.

Lemma wp_f_noop h w : wp (f_noop h) (λ r w', same w w' ∧ (is_ok r = false → faulted w w')) w.
Proof. apply wp_query; intros; split; done. Qed.

Lemma wp_readall h w d :
  file (w_fs w) h = Some d →
  wp (f_ReadAll h) (λ r w', same w w' ∧ (r = Ok d ∨ ∃ e, r = Err e ∧ io_fault w w' e)) w.
Proof.
  intros Hd. apply wp_query; [intros w' ???|intros w' ??]; (split; [done|]).
  - right. by eexists.
  - left. apply file_some in Hd as [t Hd]. by rewrite Hd.
Qed.

(** ** Updates *)

Lemma clean_insert f p c n :
  clean_fs f → plain c → f !! p = Some NDir →
  (∀ b t m, n ≠ NLink b t m) →
  (f !! (p ++ [c]) ≠ Some NDir ∨ n = NDir) →
  clean_fs (<[p ++ [c] := n]> f).
Proof.
  intros Hc Hpc Hd Hn Hold. split.
  - rewrite lookup_insert_ne by (by destruct p). apply (cf_root f Hc).
  - intros q d m. destruct (decide (p ++ [c] = q ++ [d])) as [E|Hne].
    + apply app_inj_tail in E as [<- <-]. intros _.
      destruct (decide (p ++ [c] = p)) as [E|Hne]; [|by rewrite lookup_insert_ne].
      apply (f_equal length) in E. rewrite length_app in E. simpl in E. lia.
    + rewrite lookup_insert_ne by done. intros Hq. apply (cf_parent f Hc) in Hq as Hq'.
      destruct (decide (p ++ [c] = q)) as [<-|]; [|by rewrite lookup_insert_ne].
      rewrite lookup_insert_eq. destruct Hold as [?| ->]; [congruence|done].
  - intros q b t m. destruct (decide (p ++ [c] = q)) as [<-|].
    + rewrite lookup_insert_eq. intros [= ->]. by eapply Hn.
    + rewrite lookup_insert_ne by done. apply (cf_nolink f Hc).
  - intros q m. destruct (decide (p ++ [c] = q)) as [<-|].
    + intros _. apply Forall_app. split; [by eapply cf_plain|by constructor].
    + rewrite lookup_insert_ne by done. apply (cf_plain f Hc).
Qed.

Lemma clean_insert_file f p d t :
  clean_fs f → Forall plain p → p ≠ [] → f !! parent p = Some NDir → f !! p ≠ Some NDir →
  clean_fs (<[p := NFile d t]> f).
Proof.
  intros Hc Hp Hn. destruct p as [|c q _] using rev_ind; [done|]. rewrite parent_app.
  apply Forall_app in Hp as [_ [Hb _]%Forall_cons]. intros Hd Hf.
  apply clean_insert; [done..|by left].
Qed.

Lemma clean_delete f p :
  clean_fs f → p ≠ [] → (∀ c, f !! (p ++ [c]) = None) → clean_fs (delete p f).
Proof.
  intros Hc Hp Hch. split.
  - rewrite lookup_delete_ne by done. apply (cf_root f Hc).
  - intros q c n. rewrite lookup_delete_Some. intros [Hne Hq].
    apply (cf_parent f Hc) in Hq as Hd. rewrite lookup_delete_ne; [done|].
    intros <-. by rewrite Hch in Hq.
  - intros q b t m. rewrite lookup_delete_Some. intros [_ H]. by apply (cf_nolink f Hc) in H.
  - intros q n. rewrite lookup_delete_Some. intros [_ H]. by apply (cf_plain f Hc) in H.
Qed.

Lemma file_no_children f p d t c : clean_fs f → f !! p = Some (NFile d t) → f !! (p ++ [c]) = None.
Proof.
  intros Hc H. destruct (f !! (p ++ [c])) eqn:E; [|done]. apply (cf_parent f Hc) in E. congruence.
Qed.

Lemma clean_delete_file f p d t : clean_fs f → f !! p = Some (NFile d t) → clean_fs (delete p f).
Proof.
  intros Hc H. apply clean_delete; [done| |].
  - intros ->. rewrite (cf_root f Hc) in H. done.
  - intros c. by eapply file_no_children.
Qed.

Lemma append_insert f p d t s t' :
  f !! p = Some (NFile d t) → append_to p s t' f = <[p := NFile (d +:+ s) t']> f.
Proof. unfold append_to. by intros ->. Qed.

(** ** Directories *)

(** [f'] is [f] with some of the missing prefixes of [p] made directories. *)
Definition extends (p : path) (f f' : fs) : Prop :=
  ∀ q, f' !! q = f !! q ∨ (f !! q = None ∧ f' !! q = Some NDir ∧ q `prefix_of` p).

#[export] Instance extends_preorder p : PreOrder (extends p).
Proof.
  split; [by left|]. intros f1 f2 f3 H1 H2 q.
  destruct (H1 q) as [E1|(? & ? & ?)], (H2 q) as [E2|(? & ? & ?)]; rewrite ?E2, ?E1 in *; auto.
Qed.

Lemma extends_file p f f' q : extends p f f' → file f' q = file f q.
Proof. intros H. unfold file. by destruct (H q) as [->|(-> & -> & _)]. Qed.

Lemma extends_mono p p' f f' : p `prefix_of` p' → extends p f f' → extends p' f f'.
Proof.
  intros Hp H q. destruct (H q) as [|(? & ? & ?)]; [by left|]. right.
  split_and!; [done|done|by etransitivity].
Qed.

Lemma extends_way p f f' q : extends p f f' → way f q ↔ way f' q.
Proof.
  intros H. split; intros Hw d x ->; destruct (H d) as [E|(E1 & E2 & _)]; auto.
  - rewrite E. by eapply Hw.
  - rewrite <- E. by eapply Hw.
Qed.

Lemma extends_lookup p f f' q n : extends p f f' → f !! q = Some n → f' !! q = Some n.
Proof. intros H Hq. destruct (H q) as [->|(? & _ & _)]; congruence. Qed.

Lemma wp_mkdir p w :
  clean_fs (w_fs w) → Forall plain p →
  wp (os_Mkdir p) (λ r w', env w w' ∧
    match r with
    | Ok _ => w_fs w !! p = None ∧ w_fs w !! parent p = Some NDir ∧ w_fs w' = <[p := NDir]> (w_fs w)
    | Err e => w_fs w' = w_fs w ∧
        (io_fault w w' e ∨ (e = EOS EEXIST ∧ w_fs w !! p ≠ None) ∨ w_fs w !! parent p ≠ Some NDir)
    end) w.
Proof.
  intros Hc Hp. apply wp_syscall; [intros w' ???; split; [done|]; split; [done|by left]|].
  intros w' He Hf _ _. rewrite Hf. destruct (locate (w_fs w) p) as [q|e] eqn:E; simpl.
  - apply locate_inv in E as [-> Hd]; [|done..].
    destruct (w_fs w !! p) eqn:El; simpl.
    + split; [done|]. split; [done|]. right. left. by split.
    + destruct Hd as [->|Hd]; [by rewrite (cf_root _ Hc) in El|].
      split_and!; [by apply env_set_fs|done..].
  - split; [done|]. split; [done|]. do 2 right. intros Hd.
    destruct (decide (p = [])) as [->|]; [done|]. rewrite locate_found in E; done.
Qed.

Lemma clean_mkdir f p : clean_fs f → Forall plain p → f !! parent p = Some NDir →
  f !! p = None → clean_fs (<[p := NDir]> f).
Proof.
  intros Hc Hp. destruct p as [|c q _] using rev_ind; [by rewrite (cf_root f Hc)|].
  rewrite parent_app. apply Forall_app in Hp as [_ [Hb _]%Forall_cons].
  intros Hd Hf. apply clean_insert; auto.
Qed.

Definition mkdirall_post (p : path) (w : world) (r : result error unit) (w' : world) : Prop :=
  env w w' ∧ clean_fs (w_fs w') ∧ extends p (w_fs w) (w_fs w') ∧
  match r with
  | Ok _ => w_fs w' !! p = Some NDir
  | Err _ => faulted w w' ∨ ¬ way (w_fs w) p
  end.

(** The last directory, once its parent is there. *)
Lemma wp_make_last p w :
  clean_fs (w_fs w) → Forall plain p → w_fs w !! parent p = Some NDir →
  wp (r ← os_Mkdir p;
      match r with
      | Ok _ => mret (Ok ())
      | Err e => l ← os_Lstat p; mret (match l with Ok NDir => Ok () | _ => Err e end)
      end) (mkdirall_post p w) w.
Proof.
  intros Hc Hp Hd. apply wp_bind. eapply wp_mono; [by apply wp_mkdir|].
  intros [[]|e] w1 [He H1].
  - destruct H1 as (HN & _ & Hf). apply wp_ret. split_and!; [done|..].
    + rewrite Hf. by apply clean_mkdir.
    + intros q. rewrite Hf. destruct (decide (p = q)) as [<-|]; [|left; by rewrite lookup_insert_ne].
      right. by rewrite lookup_insert_eq.
    + by rewrite Hf, lookup_insert_eq.
  - destruct H1 as [Hf Hw]. apply wp_bind.
    eapply wp_mono; [apply wp_lstat; [by rewrite Hf|done]|].
    intros l w2 [[He2 Hf2] Hl]. apply wp_ret. rewrite Hf in *.
    assert (env w w2) as Hew by by transitivity w1.
    unfold mkdirall_post. rewrite Hf2. split_and!; [done|done|reflexivity|].
    destruct l as [[d t| |b tg m]|el]; [|done| |].
    + right. intros Hway. destruct (Hway p [] (eq_sym (app_nil_r _))); congruence.
    + by destruct (cf_nolink _ Hc _ _ _ _ Hl).
    + left. destruct Hw as [[Hft _]|[[_ Hex]|?]]; [exact (faulted_l _ _ _ Hft He2)| |done].
      destruct Hl as [[Hft _]|[HN _]]; [exact (faulted_r _ _ _ He Hft)|]. congruence.
Qed.

(** Steps before the last directory is made. *)
Lemma mkdirall_post_trans p q w w1 r w2 :
  env w w1 → extends q (w_fs w) (w_fs w1) → q `prefix_of` p →
  mkdirall_post p w1 r w2 → mkdirall_post p w r w2.
Proof.
  intros He Hx Hq (He2 & Hc2 & Hx2 & Hr). apply (extends_mono q p) in Hx; [|done].
  split_and!; [by etransitivity|done|by etransitivity|].
  destruct r; [done|]. destruct Hr as [Hr|Hr]; [left; by eapply faulted_r|right].
  by rewrite (extends_way _ _ _ _ Hx).
Qed.

Lemma wp_mkdir_all_rev rp w :
  clean_fs (w_fs w) → Forall plain (reverse rp) →
  wp (mkdir_all_rev rp) (mkdirall_post (reverse rp) w) w.
Proof.
  revert w. induction rp as [|c rp IH]; intros w Hc Hp; cbn [mkdir_all_rev];
    apply wp_bind; (eapply wp_mono; [by apply wp_stat|]); intros [n|e] w1 [[He Hf] Hr];
    try (apply wp_ret; destruct n as [d t| |b t m]; unfold mkdirall_post; rewrite Hf;
      (split_and!; [done|done|reflexivity|]); simpl;
      [right; intros Hw; destruct (Hw _ [] (eq_sym (app_nil_r _))); congruence|done|
       by destruct (cf_nolink _ Hc _ _ _ _ Hr)]).
  - cbv zeta. eapply wp_mono; [apply (wp_make_last []); rewrite ?Hf; [done|done|apply (cf_root _ Hc)]|].
    intros r w2. apply (mkdirall_post_trans [] []); [done|by rewrite Hf|done].
  - rewrite reverse_cons in *. apply Forall_app in Hp as Hp'. destruct Hp' as [Hp1 _].
    assert (reverse rp `prefix_of` reverse rp ++ [c]) as Hpre by by eexists.
    apply wp_bind. eapply wp_mono; [apply IH; [by rewrite Hf|done]|].
    intros r w2 (He2 & Hc2 & Hx2 & Hr2). rewrite Hf in Hx2. destruct r as [[]|e2].
    + cbv zeta. eapply wp_mono; [apply wp_make_last; [done|done|by rewrite parent_app]|].
      intros r w3. apply (mkdirall_post_trans _ (reverse rp)); [by transitivity w1|done|done].
    + apply wp_ret. split_and!; [by transitivity w1|done|by eapply extends_mono|].
      destruct Hr2 as [Hr2|Hr2]; [left; by eapply faulted_r|]. right. rewrite Hf in Hr2.
      intros Hw. apply Hr2. by eapply way_prefix.
Qed.

Lemma wp_mkdirall p w :
  clean_fs (w_fs w) → Forall plain p → wp (os_MkdirAll p) (mkdirall_post p w) w.
Proof.
  intros Hc Hp. unfold os_MkdirAll. rewrite <- (reverse_involutive p) at 2.
  apply wp_mkdir_all_rev; [done|]. by rewrite reverse_involutive.
Qed.

(** ** Creating and writing files *)

Lemma wp_opentrunc p w :
  clean_fs (w_fs w) → Forall plain p → p ≠ [] →
  wp (os_OpenTrunc p) (λ r w', env w w' ∧
    match r with
    | Ok h => h = p ∧ w_fs w !! p ≠ Some NDir ∧ w_fs w !! parent p = Some NDir ∧
              w_fs w' = <[p := NFile "" (w_now w)]> (w_fs w)
    | Err _ => w_fs w' = w_fs w ∧
               (faulted w w' ∨ w_fs w !! p = Some NDir ∨ w_fs w !! parent p ≠ Some NDir)
    end) w.
Proof.
  intros Hc Hp Hn. apply wp_syscall; [intros w' ???; split; [done|]; split; [done|by left]|].
  intros w' He Hf _ _. rewrite Hf, (env_now _ _ He). unfold create_at.
  destruct (w_fs w !! p) as [n|] eqn:E.
  - rewrite (walk_found _ max_links [] p n) by done. simpl.
    destruct n as [d t| |b t m]; simpl.
    + apply clean_parent_dir in E; [|done|done]. split_and!; [by apply env_set_fs|done..].
    + split_and!; [done|done|]. right. by left.
    + by destruct (cf_nolink _ Hc _ _ _ _ E).
  - destruct (walk_missing _ max_links [] p Hc Hp (cf_root _ Hc) E)
      as [(d & c & rest & Ed & Hd & Hdc & ->)|(d & x & data & t & Ed & Hx & Hd & ->)].
    + simpl in Ed. destruct rest as [|c' rest]; simpl.
      * rewrite <- Ed. subst p. rewrite parent_app.
        split_and!; [by apply env_set_fs|done..].
      * split_and!; [done|done|]. do 2 right. subst p. intros Hpd.
        replace (parent (d ++ c :: c' :: rest)) with ((d ++ [c]) ++ removelast (c' :: rest)) in Hpd.
        2:{ unfold parent. by rewrite removelast_app, <- app_assoc. }
        destruct (removelast (c' :: rest)); [by rewrite app_nil_r, Hdc in Hpd|].
        apply clean_prefix in Hpd; [congruence|done|done].
    + split_and!; [done|done|]. do 2 right. simpl in Ed. subst p. intros Hpd.
      unfold parent in Hpd. rewrite removelast_app in Hpd by done.
      destruct (removelast x); [rewrite app_nil_r in Hpd; congruence|].
      apply clean_prefix in Hpd; [congruence|done|done].
Qed.

Lemma wp_write h data w d t :
  w_fs w !! h = Some (NFile d t) →
  wp (f_Write h data) (λ r w', env w w' ∧
    match r with
    | Ok _ => w_fs w' = <[h := NFile (d +:+ data) (w_now w)]> (w_fs w)
    | Err _ => faulted w w' ∧ ∃ d', w_fs w' = <[h := NFile d' (w_now w)]> (w_fs w)
    end) w.
Proof.
  intros Hh. apply wp_bind, wp_next_fault.
  - intros w' k He Hf _ _ Hft. apply wp_bind, wp_get, wp_bind. unfold wp, put_fs. simpl.
    split; [by apply env_set_fs|]. split; [done|]. exists (d +:+ stake k data).
    by rewrite Hf, (env_now _ _ He), (append_insert _ _ d t).
  - intros w' He Hf _ _. apply wp_bind, wp_get, wp_bind. unfold wp, put_fs. simpl.
    split; [by apply env_set_fs|]. by rewrite Hf, (env_now _ _ He), (append_insert _ _ d t).
Qed.

(** Some number of the next [tries] draws gives a free name. *)
Definition room_for (tries : nat) (w : world) (dir : path) (name : N → string) : Prop :=
  ∃ k, k < tries ∧ w_fs w !! (dir ++ [name (w_rand w (w_drawn w + k))]) = None.

Definition room_at (tries : nat) (w : world) (dir : path) (prefix : string) : Prop :=
  room_for tries w dir (λ n, prefix +:+ pretty n).

(** This is so however many numbers have been drawn. *)
Definition temp_room (w : world) (dir : path) (prefix : string) : Prop :=
  ∀ d, ∃ k, k < max_tries ∧ w_fs w !! (dir ++ [prefix +:+ pretty (w_rand w (d + k))]) = None.

Lemma temp_room_at w w' dir prefix :
  env w w' → w_fs w' = w_fs w → temp_room w dir prefix → room_at max_tries w' dir prefix.
Proof.
  intros He Hf H. destruct (H (w_drawn w')) as (k & ? & ?). exists k.
  by rewrite Hf, (env_rand _ _ He).
Qed.

Definition tempfile_post (dir : path) (name : N → string) (room : Prop) (w : world)
    (r : result error (path * path)) (w' : world) : Prop :=
  env w w' ∧
  match r with
  | Ok (file, h) => file = h ∧ ∃ n : N, h = dir ++ [name n] ∧ w_fs w !! h = None ∧
      w_fs w !! dir = Some NDir ∧ w_fs w' = <[h := NFile "" (w_now w)]> (w_fs w)
  | Err _ => w_fs w' = w_fs w ∧ (faulted w w' ∨ w_fs w !! dir ≠ Some NDir ∨ ¬ room)
  end.

Definition createtemp_post (dir : path) (prefix : string) (room : Prop) (w : world)
    (r : result error (path * path)) (w' : world) : Prop :=
  tempfile_post dir (λ n, prefix +:+ pretty n) room w r w'.

Lemma wp_openexcl p w :
  clean_fs (w_fs w) → Forall plain p → p ≠ [] →
  wp (os_OpenExcl p) (λ r w', env w w' ∧ w_rand w' = w_rand w ∧ w_drawn w' = w_drawn w ∧
    match r with
    | Ok h => h = p ∧ w_fs w !! p = None ∧ w_fs w !! parent p = Some NDir ∧
              w_fs w' = <[p := NFile "" (w_now w)]> (w_fs w)
    | Err e => w_fs w' = w_fs w ∧
               (faulted w w' ∨ (e = EOS EEXIST ∧ w_fs w !! p ≠ None) ∨ w_fs w !! parent p ≠ Some NDir)
    end) w.
Proof.
  intros Hc Hp Hn. apply wp_bind, wp_next_fault.
  - intros w' k He Hf Hr Hd Hft. apply wp_ret. split_and!; auto.
  - intros w' He Hf Hr Hd. apply wp_bind, wp_get. rewrite Hf, (env_now _ _ He).
    destruct (locate (w_fs w) p) as [q|e] eqn:E; simpl.
    + apply locate_inv in E as [-> [?|Hpd]]; [done| |done|done].
      destruct (w_fs w !! p) eqn:El; simpl.
      * apply wp_ret. split_and!; [done..|]. right. by left.
      * apply wp_bind. unfold wp, put_fs. simpl. split_and!; try done. by apply env_set_fs.
    + apply wp_ret. split_and!; [done..|]. do 2 right. intros Hpd.
      rewrite locate_found in E; done.
Qed.

Lemma wp_tempfile tries dir name w :
  clean_fs (w_fs w) → Forall plain dir → (∀ n : N, plain (name n)) →
  wp (create_temp tries dir name) (tempfile_post dir name (room_for (S tries) w dir name) w) w.
Proof.
  intros Hc Hd Hpl. revert w Hc. induction tries as [|tries IH]; intros w Hc; cbn [create_temp];
    apply wp_bind; unfold wp at 1, next_random; cbv zeta; apply wp_bind;
    set (file := dir ++ [name (w_rand w (w_drawn w))]);
    (assert (Forall plain file) as Hpn by (apply Forall_app; split; [done|by constructor]));
    (assert (file ≠ []) as Hnn by by destruct dir);
    (assert (parent file = dir) as Hpar by apply parent_app);
    (eapply wp_mono; [by apply (wp_openexcl file)|]); simpl;
    intros [h|e] w1 (He & Hr & Hdr & H1).
  1,3: apply wp_ret; destruct H1 as (-> & HN & Hpd & Hf); rewrite Hpar in Hpd;
       split; [by destruct He|]; split; [done|]; by eexists.
  - assert (tempfile_post dir name (room_for 1 w dir name) w (Err e) w1) as Hpost.
    { destruct H1 as [Hf H1]. rewrite Hpar in H1. split; [by destruct He|]. split; [done|].
      destruct H1 as [?|[[-> Hex]|?]]; [by left| |by right; left].
      do 2 right. intros (k & Hk & HN). replace k with 0 in HN by lia.
      rewrite Nat.add_0_r in HN. by apply Hex. }
    destruct e as [[]| | | | |]; apply wp_ret; exact Hpost.
  - destruct H1 as [Hf H1]. rewrite Hpar in H1.
    destruct (decide (e = EOS EEXIST)) as [->|Hne].
    + eapply wp_mono; [apply IH; by rewrite Hf|].
      intros r w2 [He2 H2]. assert (env w w2) as Hew.
      { transitivity w1; [by destruct He|done]. }
      split; [done|]. rewrite Hf in H2. destruct r as [[nm h]|e2].
      * destruct H2 as (? & n & ? & ? & ? & H2). split; [done|]. exists n.
        split_and!; [done..|]. rewrite H2. by rewrite (env_now _ _ He).
      * destruct H2 as [H2 H3]. split; [congruence|].
        destruct H3 as [?|[?|Hno]]; [left; eapply faulted_r; [|done]; by destruct He|by right; left|].
        destruct H1 as [Hft|[[_ Hex]|?]]; [left|..|by right; left].
        { eapply (faulted_l w w1); [by unfold faulted in *|done]. }
        do 2 right. intros (k & Hk & HN). destruct k as [|k].
        { rewrite Nat.add_0_r in HN. by apply Hex. }
        apply Hno. exists k. split; [lia|]. rewrite Hf, Hr, Hdr. simpl.
        by rewrite Nat.add_succ_r in HN.
    + assert (tempfile_post dir name (room_for (S (S tries)) w dir name) w (Err e) w1) as Hpost.
      { split; [by destruct He|]. split; [done|].
        destruct H1 as [?|[[? _]|?]]; [by left|done|by right; left]. }
      destruct e as [[]| | | | |]; try (apply wp_ret; exact Hpost). done.
Qed.

Lemma wp_create_temp tries dir prefix w :
  clean_fs (w_fs w) → Forall plain dir → (∀ n : N, plain (prefix +:+ pretty n)) →
  wp (create_temp tries dir (λ n, prefix +:+ pretty n))
     (createtemp_post dir prefix (room_at (S tries) w dir prefix) w) w.
Proof. intros Hc Hd Hpl. by apply (wp_tempfile tries dir (λ n, prefix +:+ pretty n)). Qed.

(** ** Moving subtrees *)

Lemma strip_some p q r : strip p q = Some r ↔ q = p ++ r.
Proof.
  unfold strip. case_bool_decide as H; split.
  - intros [= <-]. destruct H as [r' ->]. by rewrite drop_app_length.
  - intros ->. by rewrite drop_app_length.
  - done.
  - intros ->. destruct H. by eexists.
Qed.

Lemma strip_none p q : strip p q = None ↔ ¬ p `prefix_of` q.
Proof. unfold strip. by case_bool_decide. Qed.

Lemma lookup_prune p f q n : prune p f !! q = Some n ↔ f !! q = Some n ∧ ¬ p `prefix_of` q.
Proof. unfold prune. by rewrite map_lookup_filter_Some. Qed.

Lemma reroot_inj old new f :
  ¬ old `prefix_of` new → ¬ new `prefix_of` old →
  NoDup (map (λ qn, (reroot old new qn.1, qn.2)) (map_to_list (prune new f))).*1.
Proof.
  intros Hon Hno.
  assert (∀ l : list (path * node), NoDup l.*1 → (∀ qn, qn ∈ l → ¬ new `prefix_of` qn.1) →
    NoDup (map (λ qn, (reroot old new qn.1, qn.2)) l).*1) as Hl.
  { induction l as [|[q n] l IH]; [constructor|]. cbn [map fmap list_fmap fst snd].
    intros [Hq Hnd]%NoDup_cons Hnew. constructor; [|apply IH; [done|]; intros; apply Hnew; by right].
    intros ([q' n'] & E & ([q2 n2] & [= -> ->] & Hin)%list_elem_of_fmap)%list_elem_of_fmap.
    simpl in E. apply Hq. apply list_elem_of_fmap. exists (q2, n2). split; [|done]. simpl.
    assert (¬ new `prefix_of` q) as H1 by (apply (Hnew (q, n)); by left).
    assert (¬ new `prefix_of` q2) as H2 by (apply (Hnew (q2, n2)); by right).
    unfold reroot in E. destruct (strip old q) as [r|] eqn:E1, (strip old q2) as [r2|] eqn:E2.
    - apply strip_some in E1 as ->, E2 as ->. by apply app_inv_head in E as ->.
    - destruct H2. by eexists.
    - destruct H1. by eexists.
    - done. }
  apply Hl; [apply NoDup_fst_map_to_list|].
  intros [q n] Hin%elem_of_map_to_list. by apply lookup_prune in Hin as [_ ?].
Qed.

Lemma lookup_move old new f p n :
  ¬ old `prefix_of` new → ¬ new `prefix_of` old →
  move old new f !! p = Some n ↔
  (∃ r, p = new ++ r ∧ f !! (old ++ r) = Some n) ∨
  (¬ old `prefix_of` p ∧ ¬ new `prefix_of` p ∧ f !! p = Some n).
Proof.
  intros Hon Hno. unfold move. rewrite <- elem_of_list_to_map by by apply reroot_inj.
  rewrite list_elem_of_fmap. split.
  - intros ([q n'] & [= -> ->] & [Hq Hnew]%elem_of_map_to_list%lookup_prune). simpl.
    unfold reroot. destruct (strip old q) as [r|] eqn:E.
    + apply strip_some in E as ->. left. by exists r.
    + right. by apply strip_none in E.
  - intros [(r & -> & H)|(H1 & H2 & H3)].
    + exists (old ++ r, n). split.
      * simpl. unfold reroot. by rewrite (proj2 (strip_some old (old ++ r) r)).
      * apply elem_of_map_to_list, lookup_prune. split; [done|].
        intros Hp. apply (prefix_weak_total new old (old ++ r)) in Hp as [?|?]; [done|done|by eexists].
    + exists (p, n). split.
      * simpl. unfold reroot. by rewrite (proj2 (strip_none old p)).
      * by apply elem_of_map_to_list, lookup_prune.
Qed.

Section move_lookups.
Context (old new : path) (f : fs) (Hon : ¬ old `prefix_of` new) (Hno : ¬ new `prefix_of` old).

Lemma lookup_move_in r : move old new f !! (new ++ r) = f !! (old ++ r).
Proof using Hon Hno.
  apply option_eq. intros n. rewrite lookup_move by done. split; [|by left; exists r].
  intros [(r' & E & H)|(_ & Hx & _)]; [by apply app_inv_head in E as ->|]. destruct Hx. by eexists.
Qed.

Lemma lookup_move_gone p : old `prefix_of` p → ¬ new `prefix_of` p → move old new f !! p = None.
Proof using Hon Hno.
  intros Ho Hn. destruct (move old new f !! p) eqn:E; [|done].
  apply lookup_move in E as [(r & -> & _)|(Hx & _)]; [|done|done|done]. destruct Hn. by eexists.
Qed.

Lemma lookup_move_out p : ¬ old `prefix_of` p → ¬ new `prefix_of` p → move old new f !! p = f !! p.
Proof using Hon Hno.
  intros Ho Hn. apply option_eq. intros n. rewrite lookup_move by done. split; [|by right].
  intros [(r & -> & _)|(_ & _ & ?)]; [|done]. destruct Hn. by eexists.
Qed.

End move_lookups.

Lemma prefix_file f p q d t n :
  clean_fs f → f !! p = Some (NFile d t) → p `prefix_of` q → f !! q = Some n → q = p.
Proof.
  intros Hc Hp [x ->] Hq. destruct x as [|c x]; [by rewrite app_nil_r|].
  apply clean_prefix in Hq; [congruence|done|done].
Qed.

Lemma prefix_exists f p q n : clean_fs f → p `prefix_of` q → f !! q = Some n → f !! p ≠ None.
Proof.
  intros Hc [x ->] Hq. destruct x as [|c x]; [rewrite app_nil_r in Hq; congruence|].
  apply clean_prefix in Hq; [congruence|done|done].
Qed.

(** A file renamed over a file or a missing name. *)
Lemma rename_file f old new d t :
  clean_fs f → Forall plain new → new ≠ [] → old ≠ new →
  f !! old = Some (NFile d t) → f !! parent new = Some NDir → f !! new ≠ Some NDir →
  rename_fs f old new = Ok (<[new := NFile d t]> (delete old f)).
Proof.
  intros Hc Hpn Hn Hne Ho Hp Hnd.
  assert (old ≠ []) as Hon by (intros ->; by rewrite (cf_root f Hc) in Ho).
  assert (¬ old `prefix_of` new) as Hp1.
  { intros [x ->]. destruct x as [|c x _] using rev_ind; [by rewrite app_nil_r in Hne|].
    rewrite app_assoc, parent_app in Hp.
    apply (prefix_file f old _ d t) in Hp as E; [|done|done|by eexists].
    rewrite E in Hp. congruence. }
  assert (¬ new `prefix_of` old) as Hp2.
  { intros [x ->]. apply Hnd. destruct x as [|c x]; [by rewrite app_nil_r in Hne|].
    by eapply clean_prefix. }
  unfold rename_fs. rewrite (locate_found f old) by (done || by eapply clean_parent_dir).
  simpl. rewrite Ho, (locate_found f new) by done. simpl.
  assert (move old new f = <[new := NFile d t]> (delete old f)) as Hm.
  { apply map_eq. intros q. apply option_eq. intros n. rewrite lookup_move by done. split.
    - intros [(r & -> & Hr)|(Ha & Hb & ?)].
      + apply (prefix_file f old _ d t) in Hr as E; [|done|done|by eexists].
        rewrite <- (app_nil_r old) in E at 2. apply app_inv_head in E as ->.
        rewrite app_nil_r in *. rewrite lookup_insert_eq. congruence.
      + rewrite lookup_insert_ne by (intros E; apply Hb; by rewrite E).
        by rewrite lookup_delete_ne by (intros E; apply Ha; by rewrite E).
    - destruct (decide (new = q)) as [<-|Hq].
      + rewrite lookup_insert_eq. intros [= <-]. left. exists []. by rewrite !app_nil_r.
      + rewrite lookup_insert_ne by done. rewrite lookup_delete_Some. intros [Hq' Hl]. right.
        split_and!; [|intros Hpre|done].
        * intros Hpre. by rewrite (prefix_file f old q d t n) in Hq'.
        * destruct Hpre as [[|c x] ->]; [by rewrite app_nil_r in Hq|].
          apply clean_prefix in Hl; done. }
  destruct (f !! new) as [[]|]; try done; rewrite !bool_decide_eq_false_2 by done; by rewrite Hm.
Qed.

(** Any entry renamed to a name that is free. *)
Lemma rename_free f old new n :
  clean_fs f → new ≠ [] → f !! old = Some n → f !! new = None →
  f !! parent new = Some NDir → ¬ old `prefix_of` new →
  rename_fs f old new = Ok (move old new f) ∧ ¬ new `prefix_of` old.
Proof.
  intros Hc Hn Ho HN Hp Hon.
  assert (old ≠ []) as Hne by (intros ->; apply Hon, prefix_nil).
  split; [|by intros Hx; eapply prefix_exists in Hx].
  unfold rename_fs. rewrite (locate_found f old) by (done || by eapply clean_parent_dir).
  simpl. rewrite Ho, (locate_found f new) by done. simpl. rewrite HN.
  rewrite !bool_decide_eq_false_2; [done|done|]. intros ->. by rewrite HN in Ho.
Qed.

Lemma clean_move f old new :
  clean_fs f → Forall plain new → new ≠ [] → old ≠ [] → f !! parent new = Some NDir →
  ¬ old `prefix_of` new → ¬ new `prefix_of` old → clean_fs (move old new f).
Proof.
  intros Hc Hpl Hn Ho Hp Hon Hno. split.
  - apply lookup_move; [done|done|]. right.
    split_and!; [by intros ?%prefix_nil_inv|by intros ?%prefix_nil_inv|apply (cf_root f Hc)].
  - intros p c n. rewrite !lookup_move by done. intros [(r & E & Hr)|(H1 & H2 & H3)].
    + destruct r as [|d r _] using rev_ind.
      * rewrite app_nil_r in *. subst new. rewrite parent_app in Hp. right. split_and!; [|..|done].
        -- intros Hx. apply Hon. etransitivity; [exact Hx|by eexists].
        -- intros [x Ex]. apply (f_equal length) in Ex. rewrite !length_app in Ex. simpl in Ex. lia.
      * rewrite app_assoc in E. apply app_inj_tail in E as [-> ->]. left. exists r.
        split; [done|]. rewrite app_assoc in Hr. by apply (cf_parent f Hc) in Hr.
    + right. apply (cf_parent f Hc) in H3. split_and!; [| |done].
      * intros Hx. apply H1. etransitivity; [exact Hx|by eexists].
      * intros Hx. apply H2. etransitivity; [exact Hx|by eexists].
  - intros p b t m. rewrite lookup_move by done.
    intros [(r & _ & Hr)|(_ & _ & Hr)]; by apply (cf_nolink f Hc) in Hr.
  - intros p n. rewrite lookup_move by done. intros [(r & -> & Hr)|(_ & _ & Hr)].
    + apply (cf_plain f Hc), Forall_app in Hr as [_ Hr]. by apply Forall_app.
    + by apply (cf_plain f Hc) in Hr.
Qed.

(** A call that succeeds with a known effect unless a fault hits it. *)
Definition acts (f' : fs) (w : world) (r : result error unit) (w' : world) : Prop :=
  env w w' ∧
  match r with
  | Ok _ => w_fs w' = f'
  | Err e => w_fs w' = w_fs w ∧ io_fault w w' e
  end.

Lemma wp_acts (call : world → result error (unit * fs)) f' w :
  (∀ w', w_fs w' = w_fs w → call w' = Ok ((), f')) → wp (syscall call) (acts f' w) w.
Proof.
  intros H. apply wp_syscall; [intros; split; [done|]; by split_and!|].
  intros w' He Hf _ _. rewrite (H w' Hf). split; [by apply env_set_fs|done].
Qed.

Lemma wp_rename_file old new d t w :
  clean_fs (w_fs w) → Forall plain new → new ≠ [] → old ≠ new →
  w_fs w !! old = Some (NFile d t) → w_fs w !! parent new = Some NDir → w_fs w !! new ≠ Some NDir →
  wp (os_Rename old new) (acts (<[new := NFile d t]> (delete old (w_fs w))) w) w.
Proof.
  intros. apply wp_acts. intros w' ->. by rewrite (rename_file _ _ _ d t).
Qed.

Lemma wp_rename_free old new n w :
  clean_fs (w_fs w) → new ≠ [] → w_fs w !! old = Some n → w_fs w !! new = None →
  w_fs w !! parent new = Some NDir → ¬ old `prefix_of` new →
  wp (os_Rename old new) (acts (move old new (w_fs w)) w) w.
Proof.
  intros Hc Hn Ho HN Hp Hon. apply wp_acts. intros w' ->.
  destruct (rename_free (w_fs w) old new n) as [-> _]; done.
Qed.

(** ** Listing and removing *)

Lemma elem_of_children f p c : c ∈ children f p ↔ ∃ n, f !! (p ++ [c]) = Some n.
Proof.
  unfold children. rewrite merge_sort_Permutation, list_elem_of_omap. split.
  - intros ([q n] & Hq%elem_of_map_to_list & H). simpl in H.
    destruct (strip p q) as [[|x [|]]|] eqn:E; try done. injection H as ->.
    apply strip_some in E as ->. by exists n.
  - intros [n H]. exists (p ++ [c], n). split; [by apply elem_of_map_to_list|]. simpl.
    by rewrite (proj2 (strip_some p (p ++ [c]) [c])).
Qed.

Lemma children_nil f p : children f p = [] ↔ ∀ c, f !! (p ++ [c]) = None.
Proof.
  split.
  - intros H c. destruct (f !! (p ++ [c])) as [n|] eqn:E; [|done].
    assert (c ∈ children f p) as Hc by (apply elem_of_children; by exists n).
    rewrite H in Hc. by apply not_elem_of_nil in Hc.
  - intros H. destruct (children f p) as [|c l] eqn:E; [done|].
    assert (c ∈ children f p) as Hc by (rewrite E; by left).
    apply elem_of_children in Hc as [n Hn]. by rewrite H in Hn.
Qed.

Lemma elem_of_tree f p q n : (q, n) ∈ tree f p ↔ p `prefix_of` q ∧ f !! q = Some n.
Proof.
  unfold tree. rewrite merge_sort_Permutation, list_elem_of_In, filter_In, <- list_elem_of_In.
  rewrite elem_of_map_to_list, bool_decide_eq_true. simpl. tauto.
Qed.

(** ** The order of a walk *)

Lemma path_leb_cons c p d q :
  path_leb (c :: p) (d :: q) = true ↔ (c = d ∧ path_leb p q = true) ∨ (c ≠ d ∧ String.le c d).
Proof. cbn [path_leb]. unfold String.le. destruct (String.eqb_spec c d); rewrite Is_true_true; naive_solver. Qed.

#[export] Instance entry_le_total : Total entry_le.
Proof.
  intros [p n] [q m]. unfold entry_le. cbn [fst]. clear. revert q.
  induction p as [|c p IH]; intros [|d q]; auto. rewrite !path_leb_cons.
  destruct (decide (c = d)) as [->|]; [destruct (IH q); auto|].
  destruct (total String.le c d); auto.
Qed.

#[export] Instance entry_le_trans : Transitive entry_le.
Proof.
  intros [p n] [q m] [r o]. unfold entry_le. cbn [fst]. clear. revert q r.
  induction p as [|c p IH]; intros [|d q] [|e r]; try done. rewrite !path_leb_cons.
  intros [[-> H1]|[Hcd H1]] [[-> H2]|[Hde H2]]; [left; eauto|right; auto..|].
  right. split; [|by etransitivity]. intros ->. apply Hde. by apply (anti_symm String.le).
Qed.

Lemma tree_sorted f p : StronglySorted entry_le (tree f p).
Proof. apply StronglySorted_merge_sort; apply _. Qed.

(** What lies between a directory and one of its entries is below it too. *)
Lemma path_between a x p : path_leb a x = true → path_leb x p = true → a `prefix_of` p → a `prefix_of` x.
Proof.
  revert x p. induction a as [|c a IH]; intros x p H1 H2 [s ->]; [apply prefix_nil|].
  destruct x as [|d x]; [done|]. rewrite path_leb_cons in H1. rewrite <- app_comm_cons, path_leb_cons in H2. destruct H1 as [[-> H1]|[Hne H1]].
  - destruct H2 as [[_ H2]|[? _]]; [|done]. apply prefix_cons. apply (IH x (a ++ s)); [done..|by eexists].
  - destruct H2 as [[-> _]|[_ H2]]; [done|]. destruct Hne. by apply (anti_symm String.le).
Qed.

Definition remove_post (p : path) (w : world) (r : result error unit) (w' : world) : Prop :=
  env w w' ∧ clean_fs (w_fs w') ∧
  match r with
  | Ok _ => w_fs w' = delete p (w_fs w) ∧ p ≠ [] ∧ w_fs w !! p ≠ None ∧
            ∀ c, w_fs w !! (p ++ [c]) = None
  | Err e => w_fs w' = w_fs w ∧
      (io_fault w w' e ∨ missing (w_fs w) p e ∨ (e ≠ EOS ENOENT ∧ w_fs w !! p = Some NDir))
  end.

Lemma wp_remove p w :
  clean_fs (w_fs w) → Forall plain p → wp (os_Remove p) (remove_post p w) w.
Proof.
  intros Hc Hp. apply wp_syscall.
  { intros w' He Hf Hft. split; [done|]. rewrite Hf. split; [done|]. split; [done|by left]. }
  intros w' He Hf _ _. unfold remove_fs. rewrite Hf.
  destruct (locate (w_fs w) p) as [q|e] eqn:E; simpl.
  - apply locate_inv in E as [-> _]; [|done..]. case_bool_decide as Hn; simpl.
    { split; [done|]. rewrite Hf. split; [done|]. split; [done|]. do 2 right. subst.
      split; [done|apply (cf_root _ Hc)]. }
    destruct (w_fs w !! p) as [[d t| |b tg m]|] eqn:El; simpl.
    + assert (∀ c, w_fs w !! (p ++ [c]) = None) as Hch by (intros; by eapply file_no_children).
      split; [by apply env_set_fs|]. split; [by apply clean_delete|]. by rewrite El.
    + destruct (children (w_fs w) p) eqn:Ech; simpl.
      * pose proof (proj1 (children_nil _ _) Ech) as Hch.
        split; [by apply env_set_fs|]. split; [by apply clean_delete|]. by rewrite El.
      * split; [done|]. rewrite Hf. split; [done|]. split; [done|]. by do 2 right.
    + by destruct (cf_nolink _ Hc _ _ _ _ El).
    + split; [done|]. rewrite Hf. split; [done|]. split; [done|]. right. left. split; auto.
  - split; [done|]. rewrite Hf. split; [done|]. split; [done|]. right. left.
    apply locate_err in E as [[-> ?]|(-> & ? & ?)]; [..|done|done]; split; auto.
Qed.

(** A file is removed unless a fault hits. *)
Lemma wp_remove_file p d t w :
  clean_fs (w_fs w) → Forall plain p → w_fs w !! p = Some (NFile d t) →
  wp (os_Remove p) (acts (delete p (w_fs w)) w) w.
Proof.
  intros Hc Hp Hf. eapply wp_mono; [by apply wp_remove|]. intros r w' (He & _ & H).
  split; [done|]. destruct r as [[]|e]; [by destruct H|]. destruct H as [Hs H]. split; [done|].
  destruct H as [?|[[? _]|[_ ?]]]; [done|congruence..].
Qed.

Lemma wp_readdir p w :
  clean_fs (w_fs w) → Forall plain p →
  wp (os_ReadDir p) (λ r w', same w w' ∧
    match r with
    | Ok l => w_fs w !! p = Some NDir ∧
        l = map (λ c, (c, bool_decide (w_fs w !! (p ++ [c]) = Some NDir))) (children (w_fs w) p)
    | Err e => io_fault w w' e ∨ missing (w_fs w) p e ∨
        (e = EOS ENOTDIR ∧ ∃ d t, w_fs w !! p = Some (NFile d t))
    end) w.
Proof.
  intros Hc Hp. apply wp_query; [intros w' ???; split; [done|by left]|].
  intros w' He Hf. split; [done|].
  destruct (stat_cases w p Hc Hp) as [(n & E & ->)|(e & -> & Hm)]; [|by right; left].
  destruct n as [d t| |b t m].
  - do 2 right. split; [done|]. by exists d, t.
  - split; [done|]. apply map_ext. intros c. f_equal.
    destruct (w_fs w !! (p ++ [c])) as [[]|]; simpl; by (rewrite ?bool_decide_eq_true_2 || rewrite ?bool_decide_eq_false_2).
  - by destruct (cf_nolink _ Hc _ _ _ _ E).
Qed.

Lemma lookup_prune_some k p f q :
  prune_some k p f !! q = f !! q ∨ (prune_some k p f !! q = None ∧ p `prefix_of` q).
Proof.
  unfold prune_some.
  assert (∀ qn, qn ∈ take k (reverse (tree f p)) → p `prefix_of` qn.1) as Hl.
  { intros [q' n] Hin. apply elem_of_take in Hin as (? & Hin & _).
    apply list_elem_of_lookup_2 in Hin. rewrite elem_of_reverse, elem_of_tree in Hin.
    by destruct Hin. }
  induction (take k (reverse (tree f p))) as [|[q' n] l IH]; simpl; [by left|].
  destruct (decide (q' = q)) as [->|].
  - right. rewrite lookup_delete_eq. split; [done|]. apply (Hl (q, n)). by left.
  - rewrite lookup_delete_ne by done. apply IH. intros. apply Hl. by right.
Qed.

Lemma prune_missing f p : clean_fs f → f !! p = None → prune p f = f.
Proof.
  intros Hc HN. apply map_filter_id. intros q n Hq Hx. simpl in Hx.
  by apply (prefix_exists f p q n) in Hx.
Qed.

Lemma wp_removeall p w :
  clean_fs (w_fs w) → Forall plain p →
  wp (os_RemoveAll p) (λ r w', env w w' ∧
    (∀ q, w_fs w' !! q = w_fs w !! q ∨ (w_fs w' !! q = None ∧ p `prefix_of` q)) ∧
    match r with
    | Ok _ => w_fs w' = prune p (w_fs w)
    | Err _ => faulted w w' ∨ ¬ way (w_fs w) (parent p)
    end) w.
Proof.
  intros Hc Hp. apply wp_bind, wp_next_fault.
  - intros w' k He Hf _ _ Hft. apply wp_bind, wp_get. rewrite Hf.
    destruct (locate (w_fs w) p) as [q|e] eqn:E.
    + apply locate_inv in E as [-> _]; [|done..]. apply wp_bind. unfold wp, put_fs. simpl.
      split; [by apply env_set_fs|]. split; [|by left]. intros q. apply lookup_prune_some.
    + apply locate_err in E as [[-> HN]|(-> & _ & Hw)]; [| |done..].
      * apply wp_ret. split; [done|]. split; [intros q; left; by rewrite Hf|].
        by rewrite Hf, prune_missing.
      * apply wp_ret. split; [done|]. split; [intros q; left; by rewrite Hf|by right].
  - intros w' He Hf _ _. apply wp_bind, wp_get. rewrite Hf.
    destruct (locate (w_fs w) p) as [q|e] eqn:E.
    + apply locate_inv in E as [-> _]; [|done..]. apply wp_bind. unfold wp, put_fs. simpl.
      split; [by apply env_set_fs|]. split; [|done]. intros q.
      destruct (decide (p `prefix_of` q)) as [Hx|Hx].
      * right. split; [|done]. destruct (prune p (w_fs w) !! q) eqn:Eq; [|done].
        by apply lookup_prune in Eq as [_ ?].
      * left. apply option_eq. intros n. rewrite lookup_prune. naive_solver.
    + apply locate_err in E as [[-> HN]|(-> & _ & Hw)]; [| |done..].
      * apply wp_ret. split; [done|]. split; [intros q; left; by rewrite Hf|].
        by rewrite Hf, prune_missing.
      * apply wp_ret. split; [done|]. split; [intros q; left; by rewrite Hf|by right].
Qed.
