(* ===== verification/Json.v ===== *)
(** * JSON

    What the program uses of [encoding/json]: the syntax accepted by
    [json.Unmarshal], the text produced by [json.Marshal] and
    [json.MarshalIndent(_, "", "  ")], string quoting included, and the rules
    for decoding into Go values (null, type mismatches, case-insensitive field
    names).  The nesting limit of 10000 is not modelled. *)

From S2P Require Import Prelude GoString.

Inductive json :=
| JNull
| JBool (b : bool)
| JNum (literal : string)
| JStr (s : string)
| JArr (l : list json)
| JObj (l : list (string * json)).

(** ** UTF-8 *)

Definition byte (n : N) : ascii := ascii_of_N n.

(** Number of continuation bytes of the well-formed sequence that starts with
    [a], given the bytes that follow; 0 when [a] starts none. *)
Definition utf8_width (a : ascii) (s : string) : nat :=
  let x := byte_of a in
  if (194 <=? x)%N && (x <=? 223)%N then
    match s with String b _ => if is_cont b then 1 else 0 | _ => 0 end
  else if (224 <=? x)%N && (x <=? 239)%N then
    match s with
    | String b (String c _) =>
        let lo := if (x =? 224)%N then 160%N else 128%N in
        let hi := if (x =? 237)%N then 159%N else 191%N in
        if (lo <=? byte_of b)%N && (byte_of b <=? hi)%N && is_cont c then 2 else 0
    | _ => 0
    end
  else if (240 <=? x)%N && (x <=? 244)%N then
    match s with
    | String b (String c (String d _)) =>
        let lo := if (x =? 240)%N then 144%N else 128%N in
        let hi := if (x =? 244)%N then 143%N else 191%N in
        if (lo <=? byte_of b)%N && (byte_of b <=? hi)%N && is_cont c && is_cont d then 3 else 0
    | _ => 0
    end
  else 0.

(** [skip] counts the continuation bytes still to pass. *)
Fixpoint valid_utf8_from (skip : nat) (s : string) : bool :=
  match s with
  | "" => true
  | String a s1 =>
      match skip with
      | S k => valid_utf8_from k s1
      | O =>
          if (byte_of a <? 128)%N then valid_utf8_from 0 s1
          else match utf8_width a s1 with O => false | w => valid_utf8_from w s1 end
      end
  end.

Definition valid_utf8 (s : string) : bool := valid_utf8_from 0 s.

(** [utf8.EncodeRune] *)
Definition encode_rune (r : N) : string :=
  if (r <? 128)%N then String (byte r) ""
  else if (r <? 2048)%N then
    String (byte (192 + r / 64)) (String (byte (128 + r mod 64)) "")
  else if (r <? 65536)%N then
    String (byte (224 + r / 4096)) (String (byte (128 + r / 64 mod 64))
      (String (byte (128 + r mod 64)) ""))
  else
    String (byte (240 + r / 262144)) (String (byte (128 + r / 4096 mod 64))
      (String (byte (128 + r / 64 mod 64)) (String (byte (128 + r mod 64)) ""))).

Definition replacement : string := encode_rune RuneError.

(** ** Quoting *)

Definition hex_digit (n : N) : ascii :=
  if (n <? 10)%N then byte (48 + n) else byte (87 + n).

Definition quote_byte (a : ascii) : string :=
  let x := byte_of a in
  if (x =? 34)%N || (x =? 92)%N then String "\" (String a "")
  else if (x =? 8)%N then "\b"
  else if (x =? 12)%N then "\f"
  else if (x =? 10)%N then "\n"
  else if (x =? 13)%N then "\r"
  else if (x =? 9)%N then "\t"
  else if (x <? 32)%N || (x =? 60)%N || (x =? 62)%N || (x =? 38)%N then
    "\u00" +:+ String (hex_digit (x / 16)) (String (hex_digit (x mod 16)) "")
  else String a "".

(** The body of a quoted string, HTML-sensitive characters escaped. *)
Fixpoint quote_from (skip : nat) (s : string) : string :=
  match s with
  | "" => ""
  | String a s1 =>
      match skip with
      | S k => String a (quote_from k s1)
      | O =>
          if (byte_of a <? 128)%N then quote_byte a +:+ quote_from 0 s1
          else match utf8_width a s1 with
               | O => "\ufffd" +:+ quote_from 0 s1
               | w =>
                   match s1 with
                   | String b (String c s3) =>
                       if (byte_of a =? 226)%N && (byte_of b =? 128)%N
                          && ((byte_of c =? 168)%N || (byte_of c =? 169)%N)
                       then "\u202" +:+ String (hex_digit (byte_of c mod 16)) (quote_from 0 s3)
                       else String a (quote_from w s1)
                   | _ => String a (quote_from w s1)
                   end
               end
      end
  end.

Definition dquote : ascii := "034".

Definition quote (s : string) : string := String dquote (quote_from 0 s +:+ String dquote "").

(** ** Printing *)

Fixpoint print (v : json) : string :=
  match v with
  | JNull => "null"
  | JBool true => "true"
  | JBool false => "false"
  | JNum n => n
  | JStr s => quote s
  | JArr l => "[" +:+ Join (map print l) "," +:+ "]"
  | JObj l => "{" +:+ Join (map (λ kv, quote kv.1 +:+ ":" +:+ print kv.2) l) "," +:+ "}"
  end.

Fixpoint indent (depth : nat) : string :=
  match depth with O => "" | S d => "  " +:+ indent d end.

Definition newline (depth : nat) : string := String "010" (indent depth).

Fixpoint print_indent (depth : nat) (v : json) : string :=
  match v with
  | JArr ((_ :: _) as l) =>
      "[" +:+ newline (S depth)
      +:+ Join (map (print_indent (S depth)) l) ("," +:+ newline (S depth))
      +:+ newline depth +:+ "]"
  | JObj ((_ :: _) as l) =>
      "{" +:+ newline (S depth)
      +:+ Join (map (λ kv, quote kv.1 +:+ ": " +:+ print_indent (S depth) kv.2) l)
               ("," +:+ newline (S depth))
      +:+ newline depth +:+ "}"
  | _ => print v
  end.

(** ** Lexing *)

Inductive token :=
| TLBrace | TRBrace | TLBrack | TRBrack | TColon | TComma
| TStr (s : string) | TNum (s : string) | TTrue | TFalse | TNull.

Definition hex_value (a : ascii) : option N :=
  let x := byte_of a in
  if in_range "0" "9" a then Some (x - 48)%N
  else if in_range "a" "f" a then Some (x - 87)%N
  else if in_range "A" "F" a then Some (x - 55)%N
  else None.

Definition hex4 (a b c d : ascii) : option N :=
  match hex_value a, hex_value b, hex_value c, hex_value d with
  | Some a, Some b, Some c, Some d => Some (((a * 16 + b) * 16 + c) * 16 + d)%N
  | _, _, _, _ => None
  end.

Definition is_surrogate (r : N) : bool := (55296 <=? r)%N && (r <? 57344)%N.

(** [utf16.DecodeRune]; [None] is the replacement character. *)
Definition surrogate_pair (r1 r2 : N) : option N :=
  if ((55296 <=? r1)%N && (r1 <? 56320)%N && (56320 <=? r2)%N && (r2 <? 57344)%N)
  then Some ((r1 - 55296) * 1024 + (r2 - 56320) + 65536)%N
  else None.

Definition prepend (p : string) (r : option (string * string)) : option (string * string) :=
  match r with Some (v, rest) => Some (p +:+ v, rest) | None => None end.

Definition simple_escape (e : ascii) : option string :=
  let x := byte_of e in
  if (x =? 34)%N || (x =? 92)%N || (x =? 47)%N then Some (String e "")
  else if (x =? 98)%N then Some (String (byte 8) "")
  else if (x =? 102)%N then Some (String (byte 12) "")
  else if (x =? 110)%N then Some (String (byte 10) "")
  else if (x =? 114)%N then Some (String (byte 13) "")
  else if (x =? 116)%N then Some (String (byte 9) "")
  else None.

(** The rest of a string literal after its opening quote: its value and what
    follows the closing quote. *)
Fixpoint lex_str (skip : nat) (s : string) : option (string * string) :=
  match s with
  | "" => None
  | String a s1 =>
      match skip with
      | S k => prepend (String a "") (lex_str k s1)
      | O =>
          if (byte_of a =? 34)%N then Some ("", s1)
          else if (byte_of a =? 92)%N then
            match s1 with
            | "" => None
            | String e s2 =>
                if (byte_of e =? 117)%N then
                  match s2 with
                  | String h1 (String h2 (String h3 (String h4 s6))) =>
                      match hex4 h1 h2 h3 h4 with
                      | None => None
                      | Some r =>
                          if is_surrogate r then
                            match s6 with
                            | String b (String u (String g1 (String g2 (String g3 (String g4 s12))))) =>
                                match (if (byte_of b =? 92)%N && (byte_of u =? 117)%N
                                       then hex4 g1 g2 g3 g4 else None) with
                                | Some r2 =>
                                    match surrogate_pair r r2 with
                                    | Some x => prepend (encode_rune x) (lex_str 0 s12)
                                    | None => prepend replacement (lex_str 0 s6)
                                    end
                                | None => prepend replacement (lex_str 0 s6)
                                end
                            | _ => prepend replacement (lex_str 0 s6)
                            end
                          else prepend (encode_rune r) (lex_str 0 s6)
                      end
                  | _ => None
                  end
                else match simple_escape e with
                     | Some p => prepend p (lex_str 0 s2)
                     | None => None
                     end
            end
          else if (byte_of a <? 32)%N then None
          else if (byte_of a <? 128)%N then prepend (String a "") (lex_str 0 s1)
          else match utf8_width a s1 with
               | O => prepend replacement (lex_str 0 s1)
               | w => prepend (String a "") (lex_str w s1)
               end
      end
  end.

(** Maximal run of digits and what follows. *)
Fixpoint span_digits (s : string) : string * string :=
  match s with
  | String a s' =>
      if is_digit a then let '(d, r) := span_digits s' in (String a d, r) else ("", s)
  | "" => ("", "")
  end.

Definition lex_int (s : string) : option (string * string) :=
  match s with
  | String a s' =>
      if bool_decide (a = "0"%char) then Some ("0", s')
      else if is_digit a then Some (span_digits s)
      else None
  | "" => None
  end.

Definition lex_frac (s : string) : option (string * string) :=
  match s with
  | String "." s' =>
      let '(d, r) := span_digits s' in
      if String.eqb d "" then None else Some ("." +:+ d, r)
  | _ => Some ("", s)
  end.

Definition lex_exp (s : string) : option (string * string) :=
  match s with
  | String a s' =>
      if bool_decide (a = "e"%char ∨ a = "E"%char) then
        let '(sign, s'') :=
          match s' with
          | String b t => if bool_decide (b = "+"%char ∨ b = "-"%char) then (String b "", t) else ("", s')
          | "" => ("", s')
          end in
        let '(d, r) := span_digits s'' in
        if String.eqb d "" then None else Some (String a (sign +:+ d), r)
      else Some ("", s)
  | "" => Some ("", s)
  end.

Definition lex_num (s : string) : option (string * string) :=
  let '(sign, s) := match s with String "-" s' => ("-", s') | _ => ("", s) end in
  match lex_int s with
  | None => None
  | Some (i, s) =>
      match lex_frac s with
      | None => None
      | Some (f, s) =>
          match lex_exp s with
          | None => None
          | Some (e, s) => Some (sign +:+ i +:+ f +:+ e, s)
          end
      end
  end.

Definition is_space (a : ascii) : bool :=
  let x := byte_of a in (x =? 32)%N || (x =? 9)%N || (x =? 10)%N || (x =? 13)%N.

Definition punctuation (a : ascii) : option token :=
  let x := byte_of a in
  if (x =? 123)%N then Some TLBrace
  else if (x =? 125)%N then Some TRBrace
  else if (x =? 91)%N then Some TLBrack
  else if (x =? 93)%N then Some TRBrack
  else if (x =? 58)%N then Some TColon
  else if (x =? 44)%N then Some TComma
  else None.

(** One token; [fuel] bounds the number of tokens and blanks. *)
Fixpoint lex_fuel (fuel : nat) (s : string) : option (list token) :=
  match fuel with
  | O => None
  | S n =>
      let emit t rest := match lex_fuel n rest with Some l => Some (t :: l) | None => None end in
      match s with
      | "" => Some []
      | String a s1 =>
          if is_space a then lex_fuel n s1
          else match punctuation a with
               | Some t => emit t s1
               | None =>
                   if (byte_of a =? 34)%N then
                     match lex_str 0 s1 with Some (v, rest) => emit (TStr v) rest | None => None end
                   else if HasPrefix s "null" then emit TNull (sdrop 4 s)
                   else if HasPrefix s "true" then emit TTrue (sdrop 4 s)
                   else if HasPrefix s "false" then emit TFalse (sdrop 5 s)
                   else match lex_num s with
                        | Some (v, rest) => emit (TNum v) rest
                        | None => None
                        end
               end
      end
  end.

Definition lex (s : string) : option (list token) := lex_fuel (S (slen s)) s.

(** ** Parsing *)

Fixpoint parse_value (fuel : nat) (ts : list token) : option (json * list token) :=
  match fuel with
  | O => None
  | S n =>
      match ts with
      | TNull :: r => Some (JNull, r)
      | TTrue :: r => Some (JBool true, r)
      | TFalse :: r => Some (JBool false, r)
      | TNum v :: r => Some (JNum v, r)
      | TStr v :: r => Some (JStr v, r)
      | TLBrack :: TRBrack :: r => Some (JArr [], r)
      | TLBrack :: r =>
          match parse_elements n r with Some (l, r) => Some (JArr l, r) | None => None end
      | TLBrace :: TRBrace :: r => Some (JObj [], r)
      | TLBrace :: r =>
          match parse_members n r with Some (l, r) => Some (JObj l, r) | None => None end
      | _ => None
      end
  end
with parse_elements (fuel : nat) (ts : list token) : option (list json * list token) :=
  match fuel with
  | O => None
  | S n =>
      match parse_value n ts with
      | Some (v, TComma :: r) =>
          match parse_elements n r with Some (l, r) => Some (v :: l, r) | None => None end
      | Some (v, TRBrack :: r) => Some ([v], r)
      | _ => None
      end
  end
with parse_members (fuel : nat) (ts : list token) : option (list (string * json) * list token) :=
  match fuel with
  | O => None
  | S n =>
      match ts with
      | TStr k :: TColon :: r =>
          match parse_value n r with
          | Some (v, TComma :: r) =>
              match parse_members n r with Some (l, r) => Some ((k, v) :: l, r) | None => None end
          | Some (v, TRBrace :: r) => Some ([(k, v)], r)
          | _ => None
          end
      | _ => None
      end
  end.

Definition parse (s : string) : option json :=
  match lex s with
  | None => None
  | Some ts =>
      match parse_value (2 * length ts + 2) ts with
      | Some (v, []) => Some v
      | _ => None
      end
  end.

Example parse_print_example :
  let v := JObj [("versions", JArr [JStr "1.0.0"; JStr "2.0.0-rc.1"]); ("metadata", JObj [("a<b", JNull)])] in
  parse (print_indent 0 v) = Some v ∧ parse (print v) = Some v.
Proof. vm_compute. done. Qed.
