(* ===== verification/JsonFacts.v ===== *)
(** * Round trips of JSON

    What [json.Marshal] and [json.MarshalIndent] print, [json.Unmarshal] reads
    back: for documents without numbers whose strings are valid UTF-8. *)

From S2P Require Import Prelude GoString Json.

(** ** Induction *)

Fixpoint json_ind' (P : json → Prop)
    (Hn : P JNull) (Hb : ∀ b, P (JBool b)) (Hnum : ∀ s, P (JNum s)) (Hs : ∀ s, P (JStr s))
    (Ha : ∀ l, Forall P l → P (JArr l)) (Ho : ∀ l, Forall (λ kv, P kv.2) l → P (JObj l))
    (v : json) : P v :=
  let rec := json_ind' P Hn Hb Hnum Hs Ha Ho in
  match v with
  | JNull => Hn
  | JBool b => Hb b
  | JNum s => Hnum s
  | JStr s => Hs s
  | JArr l => Ha l ((fix go l : Forall P l :=
      match l with [] => Forall_nil_2 _ | v :: l => Forall_cons_2 _ _ _ (rec v) (go l) end) l)
  | JObj l => Ho l ((fix go l : Forall (λ kv, P kv.2) l :=
      match l with [] => Forall_nil_2 _ | kv :: l => Forall_cons_2 (λ kv, P kv.2) _ _ (rec kv.2) (go l) end) l)
  end.

(** Documents made of nulls, booleans, valid strings, arrays and objects. *)
Inductive textual : json → Prop :=
| tx_null : textual JNull
| tx_bool b : textual (JBool b)
| tx_str s : valid_utf8 s = true → textual (JStr s)
| tx_arr l : Forall textual l → textual (JArr l)
| tx_obj l : Forall (λ kv, valid_utf8 kv.1 = true ∧ textual kv.2) l → textual (JObj l).

(** ** String literals *)

Lemma lex_quote_byte a s :
  (byte_of a < 128)%N →
  lex_str 0 (quote_byte a +:+ s) = prepend (String a "") (lex_str 0 s).
Proof.
  destruct a as [b0 b1 b2 b3 b4 b5 b6 b7].
  destruct b7; [intros H; exfalso; revert H; by destruct b0, b1, b2, b3, b4, b5, b6|].
  intros _. by destruct b0, b1, b2, b3, b4, b5, b6.
Qed.

Lemma lex_str_high a s :
  (128 ≤ byte_of a)%N →
  lex_str 0 (String a s) =
    match utf8_width a s with
    | O => prepend replacement (lex_str 0 s)
    | w => prepend (String a "") (lex_str w s)
    end.
Proof.
  intros H. cbn [lex_str].
  rewrite (proj2 (N.eqb_neq _ _)), (proj2 (N.eqb_neq _ _)) by lia.
  rewrite (proj2 (N.ltb_ge _ _)), (proj2 (N.ltb_ge _ _)) by lia. done.
Qed.

(** The width of a sequence depends on its bytes alone. *)
Lemma utf8_width_cases a s w :
  utf8_width a s = S w →
  (w = 0 ∧ ∃ b t, s = String b t ∧ ∀ t', utf8_width a (String b t') = 1) ∨
  (w = 1 ∧ ∃ b c t, s = String b (String c t) ∧ ∀ t', utf8_width a (String b (String c t')) = 2) ∨
  (w = 2 ∧ ∃ b c d t, s = String b (String c (String d t)) ∧
     ∀ t', utf8_width a (String b (String c (String d t'))) = 3).
Proof.
  unfold utf8_width. cbv zeta. intros H. revert H.
  destruct ((194 <=? byte_of a)%N && (byte_of a <=? 223)%N);
    [|destruct ((224 <=? byte_of a)%N && (byte_of a <=? 239)%N);
    [|destruct ((240 <=? byte_of a)%N && (byte_of a <=? 244)%N); [|done]]].
  - destruct s as [|b s]; [done|]. destruct (is_cont b) eqn:Eb; [|done]. intros [= <-].
    left. split; [done|]. exists b, s. by rewrite Eb.
  - destruct s as [|b [|c s]]; try done. destruct (_ && is_cont c) eqn:Eb; [|done]. intros [= <-].
    right. left. split; [done|]. exists b, c, s. by rewrite Eb.
  - destruct s as [|b [|c [|d s]]]; try done. destruct (_ && is_cont d) eqn:Eb; [|done].
    intros [= <-]. right. right. split; [done|]. exists b, c, d, s. by rewrite Eb.
Qed.

Lemma prepend_app p q r : prepend p (prepend q r) = prepend (p +:+ q) r.
Proof. destruct r as [[v t]|]; [|done]. simpl. by rewrite sapp_assoc. Qed.

Lemma utf8_width_226 a s : byte_of a = 226%N → utf8_width a s = 0 ∨ utf8_width a s = 2.
Proof.
  intros H. unfold utf8_width. rewrite H. cbn.
  destruct s as [|b [|c s]]; auto. destruct (_ && is_cont c); auto.
Qed.

Lemma byte_of_inj a n : byte_of a = n → a = ascii_of_N n.
Proof. intros <-. unfold byte_of. by rewrite ascii_N_embedding. Qed.

(** The line separators U+2028 and U+2029 are escaped. *)
Definition is_separator (a b c : ascii) : bool :=
  (byte_of a =? 226)%N && (byte_of b =? 128)%N && ((byte_of c =? 168)%N || (byte_of c =? 169)%N).

Lemma lex_separator a b c s :
  is_separator a b c = true →
  lex_str 0 ("\u202" +:+ String (hex_digit (byte_of c mod 16)) s) =
  prepend (String a (String b (String c ""))) (lex_str 0 s).
Proof.
  unfold is_separator. intros [[Ha Hb]%andb_true_iff Hc]%andb_true_iff. to_props.
  apply byte_of_inj in Ha as ->, Hb as ->. apply orb_true_iff in Hc as [Hc|Hc];
    apply N.eqb_eq, byte_of_inj in Hc as ->; reflexivity.
Qed.

(** A quoted string is read back. *)
Lemma lex_str_quote s rest :
  valid_utf8 s = true → lex_str 0 (quote_from 0 s +:+ String dquote rest) = Some (s, rest).
Proof.
  unfold valid_utf8. remember (slen s) as n eqn:En. revert s En.
  induction n as [n IH] using lt_wf_ind. intros s -> H.
  destruct s as [|a s]; [done|].
  cbn [quote_from valid_utf8_from] in *. destruct (byte_of a <? 128)%N eqn:Ea; to_props.
  { rewrite sapp_assoc, lex_quote_byte by done. rewrite (IH (slen s)); [done|simpl; lia|done|done]. }
  destruct (utf8_width a s) as [|w] eqn:Ew; [done|].
  assert (∀ t, slen t < slen (String a s) → valid_utf8_from 0 t = true →
    lex_str 0 (quote_from 0 t +:+ String dquote rest) = Some (t, rest)) as IHt.
  { intros t Ht Hv. by apply (IH (slen t)). }
  clear IH.
  destruct (utf8_width_cases a s w Ew) as [(-> & b & t & -> & Ht)|[(-> & b & c & t & -> & Ht)|
    (-> & b & c & d & t & -> & Ht)]]; cbn [valid_utf8_from] in H.
  - assert (byte_of a ≠ 226)%N as Hne.
    { intros E. destruct (utf8_width_226 a (String b t) E); congruence. }
    apply N.eqb_neq in Hne. rewrite Hne. cbn [andb].
    assert (lex_str 0 (String a (quote_from 1 (String b t)) +:+ String dquote rest) =
      Some (String a (String b t), rest)) as Hgoal.
    { cbn [quote_from]. rewrite !sapp_cons, lex_str_high, Ht by done. cbn [lex_str].
      by rewrite IHt by (done || simpl; lia). }
    by destruct t.
  - fold (is_separator a b c). destruct (is_separator a b c) eqn:Es.
    + rewrite sapp_assoc, (sapp_cons (hex_digit _)), (lex_separator a b c) by done.
      by rewrite IHt by (done || simpl; lia).
    + cbn [quote_from]. rewrite !sapp_cons, lex_str_high, Ht by done. cbn [lex_str].
      by rewrite IHt by (done || simpl; lia).
  - assert (byte_of a ≠ 226)%N as Hne.
    { intros E. destruct (utf8_width_226 a (String b (String c (String d t))) E); congruence. }
    apply N.eqb_neq in Hne. rewrite Hne. cbn [andb quote_from].
    rewrite !sapp_cons, lex_str_high, Ht by done. cbn [lex_str].
    by rewrite IHt by (done || simpl; lia).
Qed.

(** ** Lexing what is printed *)

Lemma lex_fuel_S n s ts : lex_fuel n s = Some ts → lex_fuel (S n) s = Some ts.
Proof.
  revert s ts. induction n as [|n IH]; intros s ts; [done|].
  assert (∀ t r ts, match lex_fuel n r with Some l => Some (t :: l) | None => None end = Some ts →
    match lex_fuel (S n) r with Some l => Some (t :: l) | None => None end = Some ts) as Hemit.
  { intros t r ts' H. destruct (lex_fuel n r) eqn:E; [|done]. by rewrite (IH _ _ E). }
  intros H. cbn [lex_fuel] in H. cbv zeta in H.
  change (lex_fuel (S (S n)) s) with
    (let emit t rest := match lex_fuel (S n) rest with Some l => Some (t :: l) | None => None end in
      match s with
      | "" => Some []
      | String a s1 =>
          if is_space a then lex_fuel (S n) s1
          else match punctuation a with
               | Some t => emit t s1
               | None =>
                   if (byte_of a =? 34)%N then
                     match lex_str 0 s1 with Some (v, rest) => emit (TStr v) rest | None => None end
                   else if HasPrefix s "null" then emit TNull (sdrop 4 s)
                   else if HasPrefix s "true" then emit TTrue (sdrop 4 s)
                   else if HasPrefix s "false" then emit TFalse (sdrop 5 s)
                   else match lex_num s with
                        | Some (v, rest) => emit (TNum v) rest
                        | None => None
                        end
               end
      end).
  cbv zeta. destruct s as [|a s1]; [done|]. destruct (is_space a); [by apply IH|].
  destruct (punctuation a); [by apply Hemit|]. destruct (_ =? 34)%N.
  { destruct (lex_str 0 s1) as [[v r]|]; [by apply Hemit|done]. }
  destruct (HasPrefix _ "null"); [by apply Hemit|]. destruct (HasPrefix _ "true"); [by apply Hemit|].
  destruct (HasPrefix _ "false"); [by apply Hemit|].
  destruct (lex_num _) as [[v r]|]; [by apply Hemit|done].
Qed.

Lemma lex_fuel_mono n m s ts : n ≤ m → lex_fuel n s = Some ts → lex_fuel m s = Some ts.
Proof. induction 1; [done|]. intros. apply lex_fuel_S; auto. Qed.

(** [s] is the text of [ts], whatever follows. *)
Definition lex_ok (s : string) (ts : list token) : Prop :=
  ∀ n rest ts', lex_fuel n rest = Some ts' → lex_fuel (slen s + n) (s +:+ rest) = Some (ts ++ ts').

Lemma lex_ok_app s1 t1 s2 t2 : lex_ok s1 t1 → lex_ok s2 t2 → lex_ok (s1 +:+ s2) (t1 ++ t2).
Proof.
  intros H1 H2 n rest ts' H. rewrite sapp_assoc, slen_app, <- app_assoc, <- Nat.add_assoc. auto.
Qed.

Lemma lex_ok_nil : lex_ok "" [].
Proof. by intros n rest ts' H. Qed.

Lemma lex_ok_space a s ts : is_space a = true → lex_ok s ts → lex_ok (String a s) ts.
Proof. intros Ha H n rest ts' Hr. simpl. rewrite Ha. by apply H. Qed.

Lemma lex_ok_punct a t s ts :
  is_space a = false → punctuation a = Some t → lex_ok s ts → lex_ok (String a s) (t :: ts).
Proof. intros Ha Hp H n rest ts' Hr. simpl. rewrite Ha, Hp. by rewrite (H n rest ts' Hr). Qed.

Lemma lex_fuel_quote m s :
  lex_fuel (S m) (String dquote s) =
    match lex_str 0 s with
    | Some (v, rest) => match lex_fuel m rest with Some l => Some (TStr v :: l) | None => None end
    | None => None
    end.
Proof. done. Qed.

Lemma lex_ok_quote s : valid_utf8 s = true → lex_ok (quote s) [TStr s].
Proof.
  intros Hs n rest ts' H. unfold quote.
  assert (n ≤ slen (quote_from 0 s +:+ String dquote "") + n) as Hn by lia. revert Hn.
  change (slen (String dquote ?x) + n) with (S (slen x + n)).
  generalize (slen (quote_from 0 s +:+ String dquote "") + n). intros m Hn.
  rewrite sapp_cons, lex_fuel_quote, sapp_assoc, sapp_cons, sapp_nil_l, lex_str_quote by done.
  by rewrite (lex_fuel_mono n m _ ts').
Qed.

(** A keyword: one token, however much fuel is left over. *)
Lemma lex_ok_word k s t :
  slen s = S k → (∀ m rest, lex_fuel (S m) (s +:+ rest) =
    match lex_fuel m rest with Some l => Some (t :: l) | None => None end) → lex_ok s [t].
Proof.
  intros Hs Hm n rest ts' H. rewrite Hs. cbn [Nat.add]. rewrite Hm.
  by rewrite (lex_fuel_mono n (k + n) rest ts') by (done || lia).
Qed.

Lemma lex_ok_null : lex_ok "null" [TNull].
Proof. by apply (lex_ok_word 3). Qed.
Lemma lex_ok_true : lex_ok "true" [TTrue].
Proof. by apply (lex_ok_word 3). Qed.
Lemma lex_ok_false : lex_ok "false" [TFalse].
Proof. by apply (lex_ok_word 4). Qed.

(** The tokens of a document. *)
Fixpoint join_tokens (l : list (list token)) : list token :=
  match l with [] => [] | [t] => t | t :: l => t ++ TComma :: join_tokens l end.

Fixpoint tokens (v : json) : list token :=
  match v with
  | JNull => [TNull]
  | JBool true => [TTrue]
  | JBool false => [TFalse]
  | JNum n => [TNum n]
  | JStr s => [TStr s]
  | JArr l => TLBrack :: join_tokens (map tokens l) ++ [TRBrack]
  | JObj l => TLBrace :: join_tokens (map (λ kv, TStr kv.1 :: TColon :: tokens kv.2) l) ++ [TRBrace]
  end.

Lemma lex_ok_Join sep strs tss :
  lex_ok sep [TComma] → Forall2 lex_ok strs tss → lex_ok (Join strs sep) (join_tokens tss).
Proof.
  intros Hsep H. induction H as [|s ts strs tss H1 H2 IH]; [by apply lex_ok_nil|].
  destruct H2 as [|s' ts' strs' tss' H2 H3]; [done|].
  rewrite Join_cons by done. cbn [join_tokens]. apply lex_ok_app; [done|].
  by apply (lex_ok_app sep [TComma]).
Qed.

Lemma lex_ok_indent d : lex_ok (indent d) [].
Proof.
  induction d as [|d IH]; [apply lex_ok_nil|]. cbn [indent].
  change ("  " +:+ indent d) with (String " " (String " " (indent d))).
  by do 2 (apply lex_ok_space; [done|]).
Qed.

Lemma lex_ok_newline d : lex_ok (newline d) [].
Proof. apply lex_ok_space; [done|apply lex_ok_indent]. Qed.

(** Both printers print the tokens of the document. *)
Lemma lex_ok_print v : textual v → lex_ok (print v) (tokens v).
Proof.
  induction v as [|[]|n|s|l IH|l IH] using json_ind'; intros Hv; inversion_clear Hv as [| |s' Hs|l' Hl|l' Hl].
  - apply lex_ok_null.
  - apply lex_ok_true.
  - apply lex_ok_false.
  - by apply lex_ok_quote.
  - cbn [print tokens]. change (JArr l) with (JArr l).
    change ("[" +:+ Join (map print l) "," +:+ "]") with (String "[" (Join (map print l) "," +:+ "]")).
    apply lex_ok_punct; [done|done|]. apply lex_ok_app.
    + apply lex_ok_Join; [by apply (lex_ok_punct "," TComma); [| |apply lex_ok_nil]|].
      apply Forall2_fmap, Forall_Forall2_diag. rewrite Forall_forall in *. auto.
    + apply (lex_ok_punct "]" TRBrack); [done|done|apply lex_ok_nil].
  - cbn [print tokens].
    change ("{" +:+ ?x +:+ "}") with (String "{" (x +:+ "}")).
    apply lex_ok_punct; [done|done|]. apply lex_ok_app.
    + apply lex_ok_Join; [by apply (lex_ok_punct "," TComma); [| |apply lex_ok_nil]|].
      apply Forall2_fmap, Forall_Forall2_diag. rewrite Forall_forall in *. intros kv Hkv.
      destruct (Hl kv Hkv) as [Hk Hv]. apply (lex_ok_app _ [_]); [by apply lex_ok_quote|].
      apply (lex_ok_punct ":" TColon); [done|done|]. by apply IH.
    + apply (lex_ok_punct "}" TRBrace); [done|done|apply lex_ok_nil].
Qed.

Lemma lex_ok_comma_newline d : lex_ok ("," +:+ newline d) [TComma].
Proof. apply (lex_ok_punct "," TComma); [done|done|apply lex_ok_newline]. Qed.

(** A bracketed, indented list. *)
Lemma lex_ok_block (o c : ascii) (to tc : token) d strs tss :
  is_space o = false → punctuation o = Some to → is_space c = false → punctuation c = Some tc →
  Forall2 lex_ok strs tss →
  lex_ok (String o (newline (S d) +:+ Join strs ("," +:+ newline (S d)) +:+ newline d +:+ String c ""))
         (to :: join_tokens tss ++ [tc]).
Proof.
  intros Ho Hto Hc Htc H. apply lex_ok_punct; [done|done|].
  apply (lex_ok_app _ []); [apply lex_ok_newline|]. apply lex_ok_app.
  - by apply lex_ok_Join; [apply lex_ok_comma_newline|].
  - apply (lex_ok_app _ []); [apply lex_ok_newline|].
    apply lex_ok_punct; [done|done|apply lex_ok_nil].
Qed.

Lemma lex_ok_print_indent d v : textual v → lex_ok (print_indent d v) (tokens v).
Proof.
  revert d. induction v as [|b|n|s|l IH|l IH] using json_ind'; intros d Hv;
    try (apply lex_ok_print; exact Hv); inversion_clear Hv as [| | |l' Hl|l' Hl];
    destruct l as [|x l]; try (apply lex_ok_print; by constructor).
  - apply (lex_ok_block "[" "]" TLBrack TRBrack); [done..|].
    apply Forall2_fmap, Forall_Forall2_diag. rewrite Forall_forall in *. auto.
  - apply (lex_ok_block "{" "}" TLBrace TRBrace); [done..|].
    apply Forall2_fmap, Forall_Forall2_diag. rewrite Forall_forall in *. intros kv Hkv.
    destruct (Hl kv Hkv) as [Hk Hv]. apply (lex_ok_app _ [_]); [by apply lex_ok_quote|].
    apply (lex_ok_punct ":" TColon); [done|done|]. apply lex_ok_space; [done|]. by apply IH.
Qed.

Lemma lex_ok_lex s ts : lex_ok s ts → lex s = Some ts.
Proof.
  intros H. specialize (H 1 "" [] eq_refl). rewrite sapp_nil_r, app_nil_r in H.
  unfold lex. by rewrite <- Nat.add_1_r.
Qed.

(** ** Parsing the tokens *)

Lemma tokens_head v : ∃ t ts, tokens v = t :: ts ∧ t ≠ TRBrack.
Proof. destruct v as [|[]| | | |]; simpl; by do 2 eexists. Qed.

Definition parse_ok (v : json) : Prop :=
  ∀ n rest, 2 * length (tokens v) ≤ n → parse_value n (tokens v ++ rest) = Some (v, rest).

Lemma parse_elements_tokens l n rest :
  l ≠ [] → Forall parse_ok l → 2 * length (join_tokens (map tokens l)) + 2 ≤ n →
  parse_elements n (join_tokens (map tokens l) ++ TRBrack :: rest) = Some (l, rest).
Proof.
  intros Hl H. revert n. induction H as [|v l Hv H IH]; intros n Hn; [done|].
  destruct n as [|n]; [lia|]. destruct l as [|v' l].
  - simpl in *. rewrite Hv by lia. done.
  - change (join_tokens (map tokens (v :: v' :: l))) with
      (tokens v ++ TComma :: join_tokens (map tokens (v' :: l))) in *.
    rewrite length_app, length_cons in Hn.
    cbn [parse_elements]. rewrite <- app_assoc, Hv by lia. cbn [app].
    rewrite IH; [done|done|]. lia.
Qed.

Definition member_tokens (kv : string * json) : list token := TStr kv.1 :: TColon :: tokens kv.2.

Lemma parse_members_tokens l n rest :
  l ≠ [] → Forall (λ kv, parse_ok kv.2) l →
  2 * length (join_tokens (map member_tokens l)) + 2 ≤ n →
  parse_members n (join_tokens (map member_tokens l) ++ TRBrace :: rest) = Some (l, rest).
Proof.
  intros Hl H. revert n. induction H as [|[k v] l Hv H IH]; intros n Hn; [done|]. simpl in Hv.
  destruct n as [|n]; [lia|]. destruct l as [|kv' l].
  - simpl in *. rewrite Hv by lia. done.
  - change (join_tokens (map member_tokens ((k, v) :: kv' :: l))) with
      (TStr k :: TColon :: tokens v ++ TComma :: join_tokens (map member_tokens (kv' :: l))) in *.
    rewrite !length_cons, length_app, length_cons in Hn.
    cbn [parse_members app]. rewrite <- app_assoc, Hv by lia. cbn [app].
    rewrite IH; [done|done|]. lia.
Qed.

Lemma parse_value_tokens v : textual v → parse_ok v.
Proof.
  induction v as [|[]|s|s|l IH|l IH] using json_ind'; intros Hv; inversion_clear Hv as [| | |l' Hl|l' Hl];
    intros n rest Hn; (destruct n as [|n]; [simpl in Hn; lia|]); try done.
  - cbn [tokens] in *. simpl length in Hn. rewrite length_app in Hn. simpl in Hn.
    destruct l as [|v l]; [done|].
    assert (parse_elements n (join_tokens (map tokens (v :: l)) ++ TRBrack :: rest) = Some (v :: l, rest)) as HE.
    { apply parse_elements_tokens; [done| |lia]. rewrite Forall_forall in *. auto. }
    destruct (tokens_head v) as (t & ts & Et & Ht).
    assert (∃ ts', join_tokens (map tokens (v :: l)) = t :: ts') as [ts' Ej].
    { destruct l as [|v' l]; simpl; rewrite Et; by eexists. }
    rewrite <- app_comm_cons, <- app_assoc. cbn [app]. rewrite Ej in *. cbn [app] in *.
    cbn [parse_value]. rewrite HE. by destruct t.
  - cbn [tokens] in *. simpl length in Hn. rewrite length_app in Hn. simpl in Hn.
    destruct l as [|[k v] l]; [done|].
    assert (parse_members n (join_tokens (map member_tokens ((k, v) :: l)) ++ TRBrace :: rest) =
      Some ((k, v) :: l, rest)) as HE.
    { apply parse_members_tokens; [done| |].
      - rewrite Forall_forall in *. intros kv Hkv. apply IH; [done|]. by apply Hl.
      - change (map member_tokens ((k, v) :: l)) with
          (map (λ kv, TStr kv.1 :: TColon :: tokens kv.2) ((k, v) :: l)). simpl in *. lia. }
    assert (∃ ts', join_tokens (map member_tokens ((k, v) :: l)) = TStr k :: ts') as [ts' Ej].
    { destruct l as [|kv' l]; by eexists. }
    change (map (λ kv, TStr kv.1 :: TColon :: tokens kv.2) ((k, v) :: l)) with
      (map member_tokens ((k, v) :: l)).
    rewrite <- app_comm_cons, <- app_assoc. cbn [app]. rewrite Ej in *. cbn [app] in *.
    cbn [parse_value]. by rewrite HE.
Qed.

Lemma parse_tokens s v : textual v → lex_ok s (tokens v) → parse s = Some v.
Proof.
  intros Hv Hs. unfold parse. rewrite (lex_ok_lex _ _ Hs).
  rewrite <- (app_nil_r (tokens v)) at 2. rewrite parse_value_tokens by (done || lia). done.
Qed.

Lemma parse_print v : textual v → parse (print v) = Some v.
Proof. intros Hv. by apply parse_tokens, lex_ok_print. Qed.

Lemma parse_print_indent v : textual v → parse (print_indent 0 v) = Some v.
Proof. intros Hv. by apply parse_tokens, lex_ok_print_indent. Qed.

(** What is printed is read back: for every document without numbers whose
    strings are valid UTF-8, decoding the compact or the indented text gives
    the document itself. *)
Theorem json_round_trip v :
  textual v → parse (print v) = Some v ∧ parse (print_indent 0 v) = Some v.
Proof.
  intros Hv. split; [by apply parse_print|by apply parse_print_indent].
Qed.

Lemma json_round_trip_witness :
  let v := JObj [("versions", JArr [JStr "1.0.0"]); ("a<b", JBool true)] in
  textual v ∧ parse (print_indent 0 v) = Some v.
Proof.
  assert (textual (JObj [("versions", JArr [JStr "1.0.0"]); ("a<b", JBool true)])) as Hv.
  { constructor. repeat (constructor; [split; [reflexivity|]; repeat constructor|]). constructor. }
  split; [exact Hv|]. apply (json_round_trip _ Hv).
Defined.
