(* ===== verification/Utf8Facts.v ===== *)
(** * Decoded strings are well formed

    Every string [json.Unmarshal] produces is valid UTF-8: escapes of
    characters are encoded, ill-formed bytes are replaced. *)

From S2P Require Import Prelude GoString Json JsonFacts.

Ltac Zify.zify_post_hook ::= Z.to_euclidean_division_equations.

(** Unicode scalar values. *)
Definition scalar (r : N) : Prop := (r < 1114112 ∧ ¬ (55296 ≤ r < 57344))%N.

Lemma scalar_RuneError : scalar RuneError.
Proof. unfold scalar, RuneError. lia. Qed.

Lemma byte_of_byte n : (n < 256)%N → byte_of (byte n) = n.
Proof. apply N_ascii_embedding. Qed.

Lemma is_cont_byte n : (128 ≤ n ≤ 191)%N → is_cont (byte n) = true.
Proof.
  intros H. unfold is_cont. rewrite byte_of_byte by lia.
  by rewrite (proj2 (N.leb_le _ _)), (proj2 (N.leb_le _ _)) by lia.
Qed.

Lemma valid_utf8_high a s :
  (128 ≤ byte_of a)%N →
  valid_utf8_from 0 (String a s) = match utf8_width a s with O => false | w => valid_utf8_from w s end.
Proof. intros H. cbn [valid_utf8_from]. by rewrite (proj2 (N.ltb_ge _ _)) by lia. Qed.

Lemma utf8_width_2 x y s : (194 ≤ x ≤ 223)%N → (128 ≤ y ≤ 191)%N →
  utf8_width (byte x) (String (byte y) s) = 1.
Proof.
  intros Hx Hy. unfold utf8_width. rewrite byte_of_byte by lia.
  rewrite !(proj2 (N.leb_le _ _)) by lia. simpl. by rewrite is_cont_byte.
Qed.

Lemma utf8_width_3 x y z s : (224 ≤ x ≤ 239)%N → (128 ≤ y ≤ 191)%N → (128 ≤ z ≤ 191)%N →
  (x = 224 → 160 ≤ y)%N → (x = 237 → y ≤ 159)%N →
  utf8_width (byte x) (String (byte y) (String (byte z) s)) = 2.
Proof.
  intros Hx Hy Hz H1 H2. unfold utf8_width. rewrite !byte_of_byte by lia.
  rewrite (proj2 (N.leb_gt x 223)) by lia. rewrite andb_false_r.
  rewrite (proj2 (N.leb_le 224 x)), (proj2 (N.leb_le x 239)) by lia. cbn [andb].
  rewrite is_cont_byte by done.
  destruct (N.eqb_spec x 224), (N.eqb_spec x 237); rewrite !(proj2 (N.leb_le _ _)) by lia; done.
Qed.

Lemma utf8_width_4 x y z t s : (240 ≤ x ≤ 244)%N → (128 ≤ y ≤ 191)%N → (128 ≤ z ≤ 191)%N →
  (128 ≤ t ≤ 191)%N → (x = 240 → 144 ≤ y)%N → (x = 244 → y ≤ 143)%N →
  utf8_width (byte x) (String (byte y) (String (byte z) (String (byte t) s))) = 3.
Proof.
  intros Hx Hy Hz Ht H1 H2. unfold utf8_width. rewrite !byte_of_byte by lia.
  rewrite (proj2 (N.leb_gt x 223)), (proj2 (N.leb_gt x 239)) by lia. rewrite !andb_false_r.
  rewrite (proj2 (N.leb_le 240 x)), (proj2 (N.leb_le x 244)) by lia. cbn [andb].
  rewrite !is_cont_byte by done.
  destruct (N.eqb_spec x 240), (N.eqb_spec x 244); rewrite !(proj2 (N.leb_le _ _)) by lia; done.
Qed.

Lemma valid_utf8_ascii n v : (n < 128)%N → valid_utf8 (String (byte n) v) = valid_utf8 v.
Proof.
  intros H. unfold valid_utf8. cbn [valid_utf8_from].
  by rewrite byte_of_byte, (proj2 (N.ltb_lt _ _)) by lia.
Qed.

Lemma valid_utf8_encode r v : scalar r → valid_utf8 (encode_rune r +:+ v) = valid_utf8 v.
Proof.
  intros [Hr Hs]. unfold encode_rune.
  destruct (r <? 128)%N eqn:E1; to_props.
  { rewrite sapp_cons, sapp_nil_l. by apply valid_utf8_ascii. }
  unfold valid_utf8.
  destruct (r <? 2048)%N eqn:E2; to_props.
  { rewrite !sapp_cons, sapp_nil_l, valid_utf8_high, utf8_width_2
      by (rewrite ?byte_of_byte; lia). done. }
  destruct (r <? 65536)%N eqn:E3; to_props.
  { rewrite !sapp_cons, sapp_nil_l, valid_utf8_high, utf8_width_3
      by (rewrite ?byte_of_byte; lia). done. }
  rewrite !sapp_cons, sapp_nil_l, valid_utf8_high, utf8_width_4 by (rewrite ?byte_of_byte; lia). done.
Qed.

Lemma hex_value_bound a n : hex_value a = Some n → (n < 16)%N.
Proof.
  unfold hex_value, in_range. pose proof (N_ascii_bounded a). fold (byte_of a) in H.
  cbv beta. change (byte_of "0") with 48%N. change (byte_of "9") with 57%N.
  change (byte_of "a") with 97%N. change (byte_of "f") with 102%N.
  change (byte_of "A") with 65%N. change (byte_of "F") with 70%N.
  intros Hh. dmatches Hh; to_props; lia.
Qed.

Lemma hex4_bound a b c d n : hex4 a b c d = Some n → (n < 65536)%N.
Proof.
  unfold hex4. destruct (hex_value a) eqn:Ea, (hex_value b) eqn:Eb, (hex_value c) eqn:Ec,
    (hex_value d) eqn:Ed; try done.
  apply hex_value_bound in Ea, Eb, Ec, Ed. intros [= <-]. lia.
Qed.

Lemma surrogate_scalar r1 r2 x : surrogate_pair r1 r2 = Some x → scalar x.
Proof.
  unfold surrogate_pair, scalar. destruct (_ && _) eqn:E; [|done]. intros [= <-]. to_props. lia.
Qed.

Lemma byte_byte_of a : byte (byte_of a) = a.
Proof. apply ascii_N_embedding. Qed.

Lemma simple_escape_valid e p v : simple_escape e = Some p → valid_utf8 (p +:+ v) = valid_utf8 v.
Proof.
  unfold simple_escape. intros H.
  assert (∃ n, (n < 128)%N ∧ p = String (byte n) "") as (n & Hn & ->).
  { dmatches H; try (eexists; split; [|reflexivity]; lia).
    exists (byte_of e). rewrite byte_byte_of. split; [|done].
    repeat match goal with H : _ || _ = true |- _ => apply orb_true_iff in H as [H|H] end; to_props; lia. }
  rewrite sapp_cons, sapp_nil_l. by apply valid_utf8_ascii.
Qed.

Lemma prepend_some p r v rest : prepend p r = Some (v, rest) → ∃ v', r = Some (v', rest) ∧ v = p +:+ v'.
Proof. destruct r as [[v' t]|]; [|done]. intros [= <- <-]. by exists v'. Qed.

(** The shape of a step of [lex_str]: it ends the literal, or emits the
    encoding [p] of one character and goes on with a shorter text. *)
Definition emits (s : string) (r : option (string * string)) : Prop :=
  (∃ rest, r = Some ("", rest)) ∨ r = None ∨
  ∃ p t, r = prepend p (lex_str 0 t) ∧ slen t < slen s ∧
    ∀ v, valid_utf8 (p +:+ v) = valid_utf8 v.

Lemma emits_rune r t s : scalar r → slen t < slen s → emits s (prepend (encode_rune r) (lex_str 0 t)).
Proof. right. right. exists (encode_rune r), t. split_and!; try done. intros. by apply valid_utf8_encode. Qed.

Lemma lex_str_high_emits a s : (128 ≤ byte_of a)%N → emits (String a s) (lex_str 0 (String a s)).
Proof.
  intros Ha. rewrite lex_str_high by done.
  destruct (utf8_width a s) as [|w] eqn:Ew; [apply (emits_rune RuneError); [exact scalar_RuneError|simpl; lia]|].
  right. right.
  destruct (utf8_width_cases a s w Ew) as [(-> & b & t & -> & Ht)|[(-> & b & c & t & -> & Ht)|
      (-> & b & c & d & t & -> & Ht)]]; cbn [lex_str]; rewrite !prepend_app;
    (eexists _, t; split; [reflexivity|]; split; [simpl; lia|]); intros v; unfold valid_utf8;
    repeat first [rewrite sapp_cons | rewrite sapp_nil_l]; rewrite valid_utf8_high by done; by rewrite Ht.
Qed.

Lemma lex_unicode_emits s s2 : slen s2 < slen s →
  emits s match s2 with
  | String h1 (String h2 (String h3 (String h4 s6))) =>
      match hex4 h1 h2 h3 h4 with
      | None => None
      | Some r =>
          if is_surrogate r then
            match s6 with
            | String b (String u (String g1 (String g2 (String g3 (String g4 s12))))) =>
                match (if (byte_of b =? 92)%N && (byte_of u =? 117)%N
                       then hex4 g1 g2 g3 g4 else None) with
                | Some r2 =>
                    match surrogate_pair r r2 with
                    | Some x => prepend (encode_rune x) (lex_str 0 s12)
                    | None => prepend replacement (lex_str 0 s6)
                    end
                | None => prepend replacement (lex_str 0 s6)
                end
            | _ => prepend replacement (lex_str 0 s6)
            end
          else prepend (encode_rune r) (lex_str 0 s6)
      end
  | _ => None
  end.
Proof.
  intros Hs. assert (emits s None) as Hn by (right; by left).
  destruct s2 as [|h1 [|h2 [|h3 [|h4 s6]]]]; try done.
  destruct (hex4 h1 h2 h3 h4) as [r|] eqn:Hr; [|done]. simpl in Hs.
  destruct (is_surrogate r) eqn:Hu.
  - assert (emits s (prepend replacement (lex_str 0 s6))) as HR by (apply (emits_rune RuneError); [exact scalar_RuneError|lia]).
    destruct s6 as [|b [|u [|g1 [|g2 [|g3 [|g4 s12]]]]]]; try exact HR.
    destruct (_ && _); [|exact HR]. destruct (hex4 g1 g2 g3 g4) as [r2|]; [|exact HR].
    destruct (surrogate_pair r r2) as [x|] eqn:Hx; [|exact HR]. simpl in Hs.
    apply emits_rune; [by eapply surrogate_scalar|lia].
  - apply emits_rune; [|lia]. apply hex4_bound in Hr. unfold is_surrogate in Hu. unfold scalar.
    apply andb_false_iff in Hu as [Hu|Hu]; to_props; lia.
Qed.

Lemma lex_str_emits s : emits s (lex_str 0 s).
Proof.
  assert (∀ s, emits s None) as Hn by (intros; right; by left).
  destruct s as [|a s]; [done|].
  destruct (128 <=? byte_of a)%N eqn:Ea; to_props; [by apply lex_str_high_emits|].
  cbn [lex_str]. destruct (byte_of a =? 34)%N; [left; by eexists|].
  destruct (byte_of a =? 92)%N.
  - destruct s as [|e s]; [done|]. destruct (byte_of e =? 117)%N; [apply lex_unicode_emits; simpl; lia|].
    destruct (simple_escape e) as [p|] eqn:Hp; [|done]. right. right. exists p, s.
    split_and!; [done|simpl; lia|]. intros. by eapply simple_escape_valid.
  - destruct (byte_of a <? 32)%N; [done|]. rewrite (proj2 (N.ltb_lt _ _)) by lia.
    right. right. exists (String a ""), s. split_and!; [done|simpl; lia|]. intros v.
    rewrite sapp_cons, sapp_nil_l, <- (byte_byte_of a). by apply valid_utf8_ascii.
Qed.

Lemma lex_str_valid s v rest : lex_str 0 s = Some (v, rest) → valid_utf8 v = true.
Proof.
  remember (slen s) as n eqn:En. revert s v En.
  induction n as [n IH] using lt_wf_ind. intros s v -> H.
  destruct (lex_str_emits s) as [(r & E)|[E|(p & t & E & Ht & Hp)]]; rewrite E in H.
  - by simplify_eq.
  - done.
  - apply prepend_some in H as (v' & H & ->). rewrite Hp. by eapply IH.
Qed.

(** ** Parsed values *)

(** Every string of a value, keys included, is valid UTF-8. *)
Fixpoint well_encoded (v : json) : bool :=
  match v with
  | JStr s => valid_utf8 s
  | JArr l => forallb well_encoded l
  | JObj l => forallb (λ kv, valid_utf8 kv.1 && well_encoded kv.2) l
  | _ => true
  end.

Definition token_encoded (t : token) : bool := match t with TStr s => valid_utf8 s | _ => true end.

Lemma lex_fuel_encoded n s ts : lex_fuel n s = Some ts → forallb token_encoded ts = true.
Proof.
  revert s ts. induction n as [|n IH]; intros s ts H; [done|].
  assert (∀ t rest, token_encoded t = true →
    match lex_fuel n rest with Some l => Some (t :: l) | None => None end = Some ts →
    forallb token_encoded ts = true) as Hemit.
  { intros t rest Ht E. destruct (lex_fuel n rest) eqn:E'; simplify_eq/=. rewrite Ht. by eapply IH. }
  destruct s as [|a s]; [by injection H as <-|]. cbn [lex_fuel] in H. cbv zeta in H.
  destruct (is_space a); [by eapply IH|].
  destruct (punctuation a) as [t|] eqn:Hp.
  { eapply Hemit; [|exact H]. unfold punctuation in Hp. by dmatches Hp. }
  destruct (byte_of a =? 34)%N.
  { destruct (lex_str 0 s) as [[v rest]|] eqn:Hl; [|done]. eapply Hemit; [|exact H]. by eapply lex_str_valid. }
  destruct (HasPrefix (String a s) "null"); [eapply Hemit; [|exact H]; done|].
  destruct (HasPrefix (String a s) "true"); [eapply Hemit; [|exact H]; done|].
  destruct (HasPrefix (String a s) "false"); [eapply Hemit; [|exact H]; done|].
  destruct (lex_num (String a s)) as [[v rest]|]; [eapply Hemit; [|exact H]; done|done].
Qed.

Definition rest_encoded {A} (ok : A → bool) (r : option (A * list token)) : Prop :=
  ∀ a ts, r = Some (a, ts) → ok a = true ∧ forallb token_encoded ts = true.

Lemma parse_encoded n ts : forallb token_encoded ts = true →
  rest_encoded well_encoded (parse_value n ts) ∧
  rest_encoded (forallb well_encoded) (parse_elements n ts) ∧
  rest_encoded (forallb (λ kv, valid_utf8 kv.1 && well_encoded kv.2)) (parse_members n ts).
Proof.
  revert ts. induction n as [|n IH]; intros ts Hts; [by split_and!; intros ???|].
  split_and!; intros a r H.
  - cbn [parse_value] in H. dmatches H; simpl in Hts; to_props; simpl; try done;
      match goal with
      | E : parse_elements n ?t = _ |- _ => apply (proj1 (proj2 (IH t ltac:(simpl; to_props; auto with bool)))) in E
      | E : parse_members n ?t = _ |- _ => apply (proj2 (proj2 (IH t ltac:(simpl; to_props; auto with bool)))) in E
      end; done.
  - cbn [parse_elements] in H. destruct (parse_value n ts) as [[v [|[] r1]]|] eqn:Ev; try done;
      apply (proj1 (IH ts Hts)) in Ev as [Hv Hr]; simpl in Hr.
    + simplify_eq. simpl. by rewrite Hv.
    + destruct (parse_elements n r1) as [[l r2]|] eqn:El; simplify_eq.
      apply (proj1 (proj2 (IH r1 Hr))) in El as [Hl Hr2]. simpl. by rewrite Hv.
  - cbn [parse_members] in H. destruct ts as [|[] [|[] r1]]; try done. simpl in Hts. to_props.
    destruct (parse_value n r1) as [[v [|[] r2]]|] eqn:Ev; try done;
      apply (proj1 (IH r1 ltac:(done))) in Ev as [Hv Hr]; simpl in Hr.
    + simplify_eq. simpl. split; [|done]. by rewrite Hv, H0.
    + destruct (parse_members n r2) as [[l r3]|] eqn:El; simplify_eq.
      apply (proj2 (proj2 (IH r2 Hr))) in El as [Hl Hr2]. simpl. by rewrite Hv, H0.
Qed.

Lemma parse_well_encoded s v : parse s = Some v → well_encoded v = true.
Proof.
  unfold parse, lex. intros H. dmatches H. eapply parse_encoded; [|eassumption].
  by eapply lex_fuel_encoded.
Qed.
