(* ===== verification/Quote.v ===== *)
(** * Quoted strings (strconv.Quote)

    The text [fmt.Sprintf("%q", s)] makes of a Go string, and what two readers
    make of that text: a reader of Go string literals gets the string back,
    whatever it is; [json.Unmarshal] gets it back when no character needs an
    escape that JSON does not have, and rejects the text otherwise.  Which
    characters from U+0100 on are printable is a table of the Unicode version
    of the Go release, and a parameter. *)

From S2P Require Import Prelude GoString Json JsonFacts Utf8Facts.

(** ** Characters of a string *)

(** A well-formed character, or a byte that begins none. *)
Inductive piece := PRune (r : N) | PByte (a : ascii).

(** [utf8.DecodeRuneInString]: the character and the number of bytes after its
    first; [None] is [(RuneError, 1)]. *)
Definition decode_rune (a : ascii) (s : string) : option (N * nat) :=
  let x := byte_of a in
  if (x <? 128)%N then Some (x, 0)
  else match utf8_width a s, s with
       | 1, String b _ => Some (((x - 192) * 64 + (byte_of b - 128))%N, 1)
       | 2, String b (String c _) => Some (((x - 224) * 4096 + (byte_of b - 128) * 64 + (byte_of c - 128))%N, 2)
       | 3, String b (String c (String d _)) =>
           Some (((x - 240) * 262144 + (byte_of b - 128) * 4096 + (byte_of c - 128) * 64 + (byte_of d - 128))%N, 3)
       | _, _ => None
       end.

(** [skip] counts the bytes of a character still to pass. *)
Fixpoint pieces_from (skip : nat) (s : string) : list piece :=
  match s with
  | "" => []
  | String a s1 =>
      match skip with
      | S k => pieces_from k s1
      | O => match decode_rune a s1 with
             | Some (r, k) => PRune r :: pieces_from k s1
             | None => PByte a :: pieces_from 0 s1
             end
      end
  end.

Definition pieces (s : string) : list piece := pieces_from 0 s.

(** ** Quoting *)

Section quote.
Context (IsPrint_high : N → bool).

(** [strconv.IsPrint] *)
Definition IsPrint (r : N) : bool :=
  if (r <=? 255)%N then (32 <=? r)%N && (r <? 127)%N || (161 <=? r)%N && negb (r =? 173)%N
  else IsPrint_high r.

Definition hex_digits (n : nat) (r : N) : string :=
  (fix go n := match n with
               | O => ""
               | S k => String (hex_digit (r / 16 ^ N.of_nat k mod 16)) (go k)
               end) n.

(** [appendEscapedRune] *)
Definition escape_rune (r : N) : string :=
  if (r =? 34)%N || (r =? 92)%N then String "\" (String (byte r) "")
  else if IsPrint r then encode_rune r
  else if (r =? 7)%N then "\a"
  else if (r =? 8)%N then "\b"
  else if (r =? 12)%N then "\f"
  else if (r =? 10)%N then "\n"
  else if (r =? 13)%N then "\r"
  else if (r =? 9)%N then "\t"
  else if (r =? 11)%N then "\v"
  else if (r <? 32)%N || (r =? 127)%N then "\x" +:+ hex_digits 2 r
  else if (r <? 65536)%N then "\u" +:+ hex_digits 4 r
  else "\U" +:+ hex_digits 8 r.

Definition escape_piece (p : piece) : string :=
  match p with PRune r => escape_rune r | PByte a => "\x" +:+ hex_digits 2 (byte_of a) end.

Fixpoint escape_pieces (l : list piece) : string :=
  match l with [] => "" | p :: l => escape_piece p +:+ escape_pieces l end.

(** [strconv.Quote] *)
Definition Quote (s : string) : string := String dquote (escape_pieces (pieces s) +:+ String dquote "").

End quote.

(** ** A string is its characters *)

Definition bytes_of (p : piece) : string := match p with PRune r => encode_rune r | PByte a => String a "" end.

Fixpoint assemble (l : list piece) : string :=
  match l with [] => "" | p :: l => bytes_of p +:+ assemble l end.

(** What [pieces] produces. *)
Definition proper (p : piece) : Prop :=
  match p with PRune r => scalar r | PByte a => (128 ≤ byte_of a)%N end.

#[local] Ltac byte_is a := match goal with |- context [byte ?n] => replace n with (byte_of a) by lia; rewrite byte_byte_of end.

Lemma encode_rune_2 a b : (194 ≤ byte_of a ≤ 223)%N → is_cont b = true →
  let r := ((byte_of a - 192) * 64 + (byte_of b - 128))%N in
  scalar r ∧ (128 ≤ r)%N ∧ ∀ s, String a (String b s) = encode_rune r +:+ s.
Proof.
  intros Ha Hb r. unfold is_cont, scalar in *. to_props. split; [lia|]. split; [lia|]. intros s. unfold encode_rune.
  rewrite (proj2 (N.ltb_ge r 128)), (proj2 (N.ltb_lt r 2048)) by lia. rewrite !sapp_cons, sapp_nil_l.
  byte_is a. by byte_is b.
Qed.

Lemma encode_rune_3 a b c : (224 ≤ byte_of a ≤ 239)%N → (128 ≤ byte_of b ≤ 191)%N → is_cont c = true →
  (byte_of a = 224 → 160 ≤ byte_of b)%N → (byte_of a = 237 → byte_of b ≤ 159)%N →
  let r := ((byte_of a - 224) * 4096 + (byte_of b - 128) * 64 + (byte_of c - 128))%N in
  scalar r ∧ (128 ≤ r)%N ∧ ∀ s, String a (String b (String c s)) = encode_rune r +:+ s.
Proof.
  intros Ha Hb Hc H1 H2 r. unfold is_cont, scalar in *. to_props. split; [lia|]. split; [lia|]. intros s. unfold encode_rune.
  rewrite (proj2 (N.ltb_ge r 128)), (proj2 (N.ltb_ge r 2048)), (proj2 (N.ltb_lt r 65536)) by lia.
  rewrite !sapp_cons, sapp_nil_l. byte_is a. byte_is b. by byte_is c.
Qed.

Lemma encode_rune_4 a b c d : (240 ≤ byte_of a ≤ 244)%N → (128 ≤ byte_of b ≤ 191)%N → is_cont c = true → is_cont d = true →
  (byte_of a = 240 → 144 ≤ byte_of b)%N → (byte_of a = 244 → byte_of b ≤ 143)%N →
  let r := ((byte_of a - 240) * 262144 + (byte_of b - 128) * 4096 + (byte_of c - 128) * 64 + (byte_of d - 128))%N in
  scalar r ∧ (128 ≤ r)%N ∧ ∀ s, String a (String b (String c (String d s))) = encode_rune r +:+ s.
Proof.
  intros Ha Hb Hc Hd H1 H2 r. unfold is_cont, scalar in *. to_props. split; [lia|]. split; [lia|]. intros s. unfold encode_rune.
  rewrite (proj2 (N.ltb_ge r 128)), (proj2 (N.ltb_ge r 2048)), (proj2 (N.ltb_ge r 65536)) by lia.
  rewrite !sapp_cons, sapp_nil_l. byte_is a. byte_is b. byte_is c. by byte_is d.
Qed.

Lemma decode_rune_some a s r k : decode_rune a s = Some (r, k) →
  scalar r ∧ ∃ t, String a s = encode_rune r +:+ t ∧ pieces_from k s = pieces t.
Proof.
  unfold decode_rune. destruct (N.ltb_spec (byte_of a) 128) as [Ha|Ha].
  { intros [= <- <-]. split; [unfold scalar; lia|]. exists s. unfold encode_rune.
    rewrite (proj2 (N.ltb_lt _ _)) by lia. by rewrite byte_byte_of. }
  unfold utf8_width. intros H.
  destruct ((194 <=? byte_of a)%N && (byte_of a <=? 223)%N) eqn:E1; to_props.
  { destruct s as [|b t]; [done|]. destruct (is_cont b) eqn:Eb; [|done]. injection H as <- <-.
    destruct (encode_rune_2 a b) as (? & _ & E); [done|done|]. split; [done|]. by exists t. }
  destruct ((224 <=? byte_of a)%N && (byte_of a <=? 239)%N) eqn:E2; to_props.
  { destruct s as [|b [|c t]]; [done|done|]. destruct (_ && is_cont c) eqn:Eb; [|done]. injection H as <- <-.
    to_props. destruct (encode_rune_3 a b c) as (? & _ & E); [done| |done| | |];
      try (destruct (N.eqb_spec (byte_of a) 224), (N.eqb_spec (byte_of a) 237); lia). split; [done|]. by exists t. }
  destruct ((240 <=? byte_of a)%N && (byte_of a <=? 244)%N) eqn:E3; to_props; [|done].
  destruct s as [|b [|c [|d t]]]; [done..|]. destruct (_ && is_cont d) eqn:Eb; [|done]. injection H as <- <-.
  to_props. destruct (encode_rune_4 a b c d) as (? & _ & E); [done| |done|done| | |];
    try (destruct (N.eqb_spec (byte_of a) 240), (N.eqb_spec (byte_of a) 244); lia). split; [done|]. by exists t.
Qed.

Lemma decode_rune_none a s : decode_rune a s = None → (128 ≤ byte_of a)%N.
Proof. unfold decode_rune. by destruct (N.ltb_spec (byte_of a) 128). Qed.

(** Induction on a string by its characters. *)
Lemma pieces_ind (P : string → list piece → Prop) : P "" [] →
  (∀ p s, proper p → P s (pieces s) → P (bytes_of p +:+ s) (p :: pieces s)) → ∀ s, P s (pieces s).
Proof.
  intros H0 H s. remember (slen s) as n eqn:En. revert s En.
  induction n as [n IH] using lt_wf_ind. intros [|a s] ->; [done|]. unfold pieces. cbn [pieces_from].
  destruct (decode_rune a s) as [[r k]|] eqn:E.
  - apply decode_rune_some in E as (Hr & t & E & ->). rewrite E. apply (H (PRune r)); [done|].
    eapply IH; [|done]. apply (f_equal slen) in E. rewrite slen_app in E. simpl in E |- *.
    assert (0 < slen (encode_rune r)) by (unfold encode_rune; repeat case_match; simpl; lia). lia.
  - apply decode_rune_none in E. apply (H (PByte a) s E). eapply IH; [|done]. simpl. lia.
Qed.

Lemma assemble_pieces s : assemble (pieces s) = s.
Proof. apply (pieces_ind (λ s l, assemble l = s)); [done|]. intros p t _ IH. cbn [assemble]. by rewrite IH. Qed.

Lemma pieces_proper s : Forall proper (pieces s).
Proof. apply (pieces_ind (λ _, Forall proper)); [done|]. by constructor. Qed.

(** ** Reading a Go string literal *)

(** The single-character escapes but the quote and the backslash. *)
Definition go_escape (e : ascii) : option N :=
  let x := byte_of e in
  if (x =? 34)%N || (x =? 92)%N then Some x
  else if (x =? 97)%N then Some 7%N
  else if (x =? 98)%N then Some 8%N
  else if (x =? 102)%N then Some 12%N
  else if (x =? 110)%N then Some 10%N
  else if (x =? 114)%N then Some 13%N
  else if (x =? 116)%N then Some 9%N
  else if (x =? 118)%N then Some 11%N
  else None.

Definition emit (r : option string) (rest : option (string * string)) : option (string * string) :=
  match r with Some p => prepend p rest | None => None end.

(** The rest of an interpreted string literal of the Go specification after
    its opening quote: its value and what follows. *)
Fixpoint unquote (s : string) : option (string * string) :=
  match s with
  | "" => None
  | String a s1 =>
      if (byte_of a =? 34)%N then Some ("", s1)
      else if (byte_of a =? 92)%N then
        match s1 with
        | "" => None
        | String e s2 =>
            if (byte_of e =? 120)%N then
              match s2 with
              | String g (String h s3) => emit ((λ r, String (byte r) "") <$> hex4 "0" "0" g h) (unquote s3)
              | _ => None
              end
            else if (byte_of e =? 117)%N then
              match s2 with
              | String g1 (String g2 (String g3 (String g4 s3))) => emit (encode_rune <$> hex4 g1 g2 g3 g4) (unquote s3)
              | _ => None
              end
            else if (byte_of e =? 85)%N then
              match s2 with
              | String g1 (String g2 (String g3 (String g4 (String h1 (String h2 (String h3 (String h4 s3))))))) =>
                  emit (hi ← hex4 g1 g2 g3 g4; lo ← hex4 h1 h2 h3 h4; Some (encode_rune (hi * 65536 + lo))) (unquote s3)
              | _ => None
              end
            else emit ((λ r, String (byte r) "") <$> go_escape e) (unquote s2)
        end
      else prepend (String a "") (unquote s1)
  end.

(** ** What the readers make of one character *)

Lemma hex_value_digit n : (n < 16)%N → hex_value (hex_digit n) = Some n.
Proof.
  intros H. rewrite <- (N2Nat.id n) in *. assert (N.to_nat n < 16) as Hn by lia. revert Hn. generalize (N.to_nat n). clear.
  intros n Hn. do 16 (destruct n as [|n]; [reflexivity|]). lia.
Qed.

Lemma hex_digits_2 r : hex_digits 2 r = String (hex_digit (r / 16 mod 16)) (String (hex_digit (r mod 16)) "").
Proof. unfold hex_digits. change (16 ^ N.of_nat 1)%N with 16%N. change (16 ^ N.of_nat 0)%N with 1%N. by rewrite N.div_1_r. Qed.

Lemma hex_digits_4 r : hex_digits 4 r =
  String (hex_digit (r / 4096 mod 16)) (String (hex_digit (r / 256 mod 16))
    (String (hex_digit (r / 16 mod 16)) (String (hex_digit (r mod 16)) ""))).
Proof.
  change (hex_digits 4 r) with (String (hex_digit (r / 4096 mod 16)) (String (hex_digit (r / 256 mod 16)) (hex_digits 2 r))).
  by rewrite hex_digits_2.
Qed.

Lemma hex_digits_8 r : (r < 2 ^ 32)%N → hex_digits 8 r = hex_digits 4 (r / 65536) +:+ hex_digits 4 r.
Proof.
  intros H. change (hex_digits 8 r) with (String (hex_digit (r / 268435456 mod 16)) (String (hex_digit (r / 16777216 mod 16))
    (String (hex_digit (r / 1048576 mod 16)) (String (hex_digit (r / 65536 mod 16)) (hex_digits 4 r))))).
  rewrite (hex_digits_4 (r / 65536)), !N.Div0.div_div. done.
Qed.

Lemma hex4_digits r :
  hex4 (hex_digit (r / 4096 mod 16)) (hex_digit (r / 256 mod 16)) (hex_digit (r / 16 mod 16)) (hex_digit (r mod 16)) =
  Some (r mod 65536)%N.
Proof.
  unfold hex4. rewrite !hex_value_digit by lia. f_equal. replace 4096%N with (16 * 16 * 16)%N by done. replace 256%N with (16 * 16)%N by done.
  rewrite <- !N.Div0.div_div. apply (N.mod_unique _ _ (r / 16 / 16 / 16 / 16)); lia.
Qed.

Lemma hex4_two r : hex4 "0" "0" (hex_digit (r / 16 mod 16)) (hex_digit (r mod 16)) = Some (r mod 256)%N.
Proof.
  unfold hex4. rewrite !hex_value_digit by lia. change (hex_value "0") with (Some 0%N). cbv iota beta. f_equal.
  apply (N.mod_unique _ _ (r / 16 / 16)); lia.
Qed.

(** The two long escapes, as each reader takes them. *)
Lemma unquote_u g1 g2 g3 g4 t : unquote (String "\" (String "u" (String g1 (String g2 (String g3 (String g4 t)))))) =
  emit (encode_rune <$> hex4 g1 g2 g3 g4) (unquote t).
Proof. done. Qed.

Lemma unquote_U g1 g2 g3 g4 h1 h2 h3 h4 t :
  unquote (String "\" (String "U" (String g1 (String g2 (String g3 (String g4 (String h1 (String h2 (String h3 (String h4 t)))))))))) =
  emit (hi ← hex4 g1 g2 g3 g4; lo ← hex4 h1 h2 h3 h4; Some (encode_rune (hi * 65536 + lo))) (unquote t).
Proof. done. Qed.

Lemma unquote_x g h t : unquote (String "\" (String "x" (String g (String h t)))) =
  emit ((λ r, String (byte r) "") <$> hex4 "0" "0" g h) (unquote t).
Proof. done. Qed.

Lemma lex_str_u g1 g2 g3 g4 r t : hex4 g1 g2 g3 g4 = Some r → is_surrogate r = false →
  lex_str 0 (String "\" (String "u" (String g1 (String g2 (String g3 (String g4 t)))))) = prepend (encode_rune r) (lex_str 0 t).
Proof.
  intros H Hs. change (lex_str 0 (String "\" (String "u" (String g1 (String g2 (String g3 (String g4 t))))))) with
    (match hex4 g1 g2 g3 g4 with
     | None => None
     | Some r => if is_surrogate r then
         match t with
         | String b (String u (String g1 (String g2 (String g3 (String g4 s12))))) =>
             match (if (byte_of b =? 92)%N && (byte_of u =? 117)%N then hex4 g1 g2 g3 g4 else None) with
             | Some r2 => match surrogate_pair r r2 with
                          | Some x => prepend (encode_rune x) (lex_str 0 s12)
                          | None => prepend replacement (lex_str 0 t)
                          end
             | None => prepend replacement (lex_str 0 t)
             end
         | _ => prepend replacement (lex_str 0 t)
         end
         else prepend (encode_rune r) (lex_str 0 t)
     end). by rewrite H, Hs.
Qed.

(** Escapes JSON does not have. *)
Lemma lex_str_bad e t : byte_of e ≠ 117%N → simple_escape e = None → lex_str 0 (String "\" (String e t)) = None.
Proof.
  intros Hu He.
  cbn [lex_str]. rewrite (proj2 (N.eqb_neq (byte_of e) 117)) by done. by rewrite He.
Qed.

Lemma unquote_high a t : (128 ≤ byte_of a)%N → unquote (String a t) = prepend (String a "") (unquote t).
Proof. intros H. cbn [unquote]. by rewrite !(proj2 (N.eqb_neq _ _)) by lia. Qed.

Lemma unquote_encode r t : (128 ≤ r)%N → scalar r → unquote (encode_rune r +:+ t) = prepend (encode_rune r) (unquote t).
Proof.
  unfold scalar. intros H Hr. unfold encode_rune. rewrite (proj2 (N.ltb_ge r 128)) by lia.
  repeat case_match; to_props; repeat first [rewrite sapp_cons|rewrite sapp_nil_l];
    rewrite !unquote_high by (rewrite byte_of_byte; lia); by rewrite !prepend_app.
Qed.

Lemma lex_str_encode r t : (128 ≤ r)%N → scalar r → lex_str 0 (encode_rune r +:+ t) = prepend (encode_rune r) (lex_str 0 t).
Proof.
  unfold scalar. intros H Hr. unfold encode_rune. rewrite (proj2 (N.ltb_ge r 128)) by lia.
  destruct (r <? 2048)%N eqn:E2; to_props.
  { rewrite !sapp_cons, sapp_nil_l, lex_str_high, utf8_width_2 by (rewrite ?byte_of_byte; lia).
    cbn [lex_str]. by rewrite !prepend_app. }
  destruct (r <? 65536)%N eqn:E3; to_props.
  { rewrite !sapp_cons, sapp_nil_l, lex_str_high, utf8_width_3 by (rewrite ?byte_of_byte; lia).
    cbn [lex_str]. by rewrite !prepend_app. }
  rewrite !sapp_cons, sapp_nil_l, lex_str_high, utf8_width_4 by (rewrite ?byte_of_byte; lia).
  cbn [lex_str]. by rewrite !prepend_app.
Qed.

(** Concatenations written out. *)
#[local] Ltac flat := repeat first [rewrite sapp_assoc | rewrite sapp_cons | rewrite sapp_nil_l].

Section readers.
Context (IsPrint_high : N → bool).
#[local] Abbreviation IsPrint := (IsPrint IsPrint_high).
#[local] Abbreviation escape_rune := (escape_rune IsPrint_high).
#[local] Abbreviation escape_piece := (escape_piece IsPrint_high).
#[local] Abbreviation escape_pieces := (escape_pieces IsPrint_high).
#[local] Abbreviation Quote := (Quote IsPrint_high).

(** Characters whose escape JSON knows. *)
Definition json_safe (p : piece) : bool :=
  match p with
  | PRune r => IsPrint r || bool_decide (r ∈ [8; 9; 10; 12; 13]%N) || (128 <=? r)%N && (r <? 65536)%N
  | PByte _ => false
  end.

(** What [reader] makes of every ASCII character. *)
Lemma unquote_ascii a t : (byte_of a < 128)%N →
  unquote (escape_rune (byte_of a) +:+ t) = prepend (String a "") (unquote t).
Proof.
  destruct a as [b0 b1 b2 b3 b4 b5 b6 b7].
  destruct b7; [intros H; exfalso; revert H; by destruct b0, b1, b2, b3, b4, b5, b6|].
  intros _. by destruct b0, b1, b2, b3, b4, b5, b6.
Qed.

Lemma lex_str_ascii a t : (byte_of a < 128)%N →
  lex_str 0 (escape_rune (byte_of a) +:+ t) =
  if json_safe (PRune (byte_of a)) then prepend (String a "") (lex_str 0 t) else None.
Proof.
  destruct a as [b0 b1 b2 b3 b4 b5 b6 b7].
  destruct b7; [intros H; exfalso; revert H; by destruct b0, b1, b2, b3, b4, b5, b6|].
  intros _. by destruct b0, b1, b2, b3, b4, b5, b6.
Qed.

(** The escape of a character beyond ASCII. *)
Lemma escape_rune_high r : (128 ≤ r)%N → escape_rune r =
  if IsPrint r then encode_rune r else if (r <? 65536)%N then "\u" +:+ hex_digits 4 r else "\U" +:+ hex_digits 8 r.
Proof.
  intros H. unfold Quote.escape_rune. rewrite !(proj2 (N.eqb_neq r _)) by lia. by rewrite (proj2 (N.ltb_ge r 32)) by lia.
Qed.

Lemma encode_rune_byte a : (byte_of a < 128)%N → encode_rune (byte_of a) = String a "".
Proof. intros H. unfold encode_rune. by rewrite (proj2 (N.ltb_lt _ _)), byte_byte_of by lia. Qed.

Lemma unquote_piece p t : proper p → unquote (escape_piece p +:+ t) = prepend (bytes_of p) (unquote t).
Proof.
  destruct p as [r|a]; cbn [proper Quote.escape_piece bytes_of]; intros Hp.
  - destruct (N.ltb_spec r 128) as [Hr|Hr].
    { replace r with (byte_of (byte r)) by (apply byte_of_byte; lia).
      rewrite encode_rune_byte, unquote_ascii by (rewrite byte_of_byte; lia). done. }
    rewrite escape_rune_high by done. destruct (IsPrint r); [by apply unquote_encode|].
    destruct (N.ltb_spec r 65536) as [H2|H2].
    { rewrite hex_digits_4. flat. rewrite unquote_u, hex4_digits, N.mod_small by done. done. }
    destruct Hp as [Hp _]. rewrite hex_digits_8, !hex_digits_4 by lia.
    flat. rewrite unquote_U, !hex4_digits. cbn [mbind option_bind emit].
    replace (r / 65536 mod 65536 * 65536 + r mod 65536)%N with r by lia. done.
  - rewrite hex_digits_2. flat. rewrite unquote_x, hex4_two. cbn.
    rewrite N.mod_small, byte_byte_of by apply N_ascii_bounded. done.
Qed.

Lemma lex_str_piece p t : proper p →
  lex_str 0 (escape_piece p +:+ t) = if json_safe p then prepend (bytes_of p) (lex_str 0 t) else None.
Proof.
  destruct p as [r|a]; intros Hp; [|done].
  cbn [proper Quote.escape_piece bytes_of] in *. destruct (N.ltb_spec r 128) as [Hr|Hr].
  { replace r with (byte_of (byte r)) by (apply byte_of_byte; lia).
    rewrite encode_rune_byte, lex_str_ascii by (rewrite byte_of_byte; lia). done. }
  rewrite escape_rune_high by done. unfold json_safe. rewrite bool_decide_eq_false_2.
  2:{ rewrite !elem_of_cons, elem_of_nil. lia. }
  rewrite (proj2 (N.leb_le 128 r)) by done. destruct (IsPrint r); [by apply lex_str_encode|].
  destruct (N.ltb_spec r 65536) as [H2|H2]; [|done].
  rewrite hex_digits_4. flat. apply lex_str_u.
  - by rewrite hex4_digits, N.mod_small.
  - unfold is_surrogate. destruct Hp as [_ Hp]. apply andb_false_iff.
    destruct (N.leb_spec 55296 r), (N.ltb_spec r 57344); auto. exfalso. apply Hp. lia.
Qed.

(** ** What they make of a string *)

Lemma unquote_pieces l t : Forall proper l → unquote (escape_pieces l +:+ t) = prepend (assemble l) (unquote t).
Proof.
  intros H. induction H as [|p l Hp _ IH]; [change (unquote t = prepend "" (unquote t)); by destruct (unquote t) as [[]|]|].
  cbn [Quote.escape_pieces assemble]. by rewrite sapp_assoc, unquote_piece, IH, prepend_app.
Qed.

Lemma lex_str_pieces l t : Forall proper l →
  lex_str 0 (escape_pieces l +:+ t) = if forallb json_safe l then prepend (assemble l) (lex_str 0 t) else None.
Proof.
  intros H. induction H as [|p l Hp _ IH]; [change (lex_str 0 t = prepend "" (lex_str 0 t)); by destruct (lex_str 0 t) as [[]|]|].
  cbn [Quote.escape_pieces assemble forallb]. rewrite sapp_assoc, lex_str_piece by done.
  destruct (json_safe p); [|done]. cbn [andb]. rewrite IH. destruct (forallb json_safe l); [by rewrite prepend_app|done].
Qed.

(** A quoted string is read back by a reader of Go literals, whatever it is and
    whatever follows. *)
Lemma unquote_Quote s t : unquote (sdrop 1 (Quote s) +:+ t) = Some (s, t).
Proof.
  cbn [Quote.Quote sdrop]. rewrite sapp_assoc, sapp_cons, sapp_nil_l, unquote_pieces by apply pieces_proper.
  rewrite assemble_pieces. change (prepend s (Some ("", t)) = Some (s, t)). unfold prepend. by rewrite sapp_nil_r.
Qed.

(** The strings a JSON reader gets back. *)
Definition json_plain (s : string) : bool := forallb json_safe (pieces s).

Lemma lex_str_Quote s t : lex_str 0 (sdrop 1 (Quote s) +:+ t) = if json_plain s then Some (s, t) else None.
Proof.
  cbn [Quote.Quote sdrop]. rewrite sapp_assoc, sapp_cons, sapp_nil_l, lex_str_pieces by apply pieces_proper.
  rewrite assemble_pieces. unfold json_plain. destruct (forallb _ _); [|done].
  change (prepend s (Some ("", t)) = Some (s, t)). unfold prepend. by rewrite sapp_nil_r.
Qed.

(** Nothing a quoted string contains ends a line. *)
Lemma no_newline_hex n r : no_char "010" (hex_digits n r).
Proof.
  induction n as [|n IH]; [done|]. cbn [hex_digits]. apply no_char_cons. split; [|exact IH].
  intros H. assert (hex_value (hex_digit (r / 16 ^ N.of_nat n mod 16)) = hex_value "010") as E by (by rewrite H).
  rewrite hex_value_digit in E by lia. by vm_compute in E.
Qed.

Lemma no_newline_encode r : scalar r → r ≠ 10%N → no_char "010" (encode_rune r).
Proof.
  intros [Hr Hs] Hn. unfold encode_rune. repeat case_match; to_props; repeat (apply no_char_cons; split); try done;
    intros E; apply (f_equal byte_of) in E; rewrite byte_of_byte in E by lia; cbn in E; lia.
Qed.

Lemma Quote_one_line s : no_char "010" (Quote s).
Proof.
  apply no_char_cons. split; [done|]. apply no_char_app. split; [|done].
  pose proof (pieces_proper s) as H. induction H as [|p l Hp _ IH]; [done|]. cbn [Quote.escape_pieces].
  apply no_char_app. split; [|exact IH]. destruct p as [r|a]; cbn [Quote.escape_piece].
  - destruct (N.eqb_spec r 10) as [->|Hn]; [done|]. unfold Quote.escape_rune.
    repeat case_match; try done; try (by apply no_newline_encode); try (apply no_char_app; split; [done|apply no_newline_hex]).
    apply orb_true_iff in H as [H|H]; apply N.eqb_eq in H; by subst.
  - apply no_char_app. split; [done|apply no_newline_hex].
Qed.

End readers.
