(* ===== verification/Decode.v ===== *)
(** * Decoding JSON into Go values

    [json.Unmarshal] into the struct types of the program.  A syntax error
    leaves the destination alone; a value of the wrong type leaves that field
    alone, is reported at the end and does not stop the rest; [null] clears a
    slice or map and leaves anything else; later duplicates win; unknown names
    are ignored.  (A slice decoded a second time within one document keeps the
    elements of the first where the second has [null]; elements beyond the
    first's length are taken to be zero.) *)

From S2P Require Import Prelude GoString Json.

(** The new value, and whether no error was met. *)
Definition decoder (A : Type) : Type := A → json → A * bool.

Definition dec_string : decoder string := λ cur v,
  match v with JStr s => (s, true) | JNull => (cur, true) | _ => (cur, false) end.

Definition dec_bool : decoder bool := λ cur v,
  match v with JBool b => (b, true) | JNull => (cur, true) | _ => (cur, false) end.

Fixpoint dec_elements {A} (zero : A) (d : decoder A) (cur : list A) (l : list json) : list A * bool :=
  match l with
  | [] => ([], true)
  | v :: l =>
      let '(x, ok) := d (hd zero cur) v in
      let '(xs, oks) := dec_elements zero d (tl cur) l in
      (x :: xs, ok && oks)
  end.

(** A slice; [None] is nil. *)
Definition dec_slice {A} (zero : A) (d : decoder A) : decoder (option (list A)) := λ cur v,
  match v with
  | JArr l => let '(xs, ok) := dec_elements zero d (default [] cur) l in (Some xs, ok)
  | JNull => (None, true)
  | _ => (cur, false)
  end.

Abbreviation string_map := (gmap string string).

Fixpoint dec_entries (m : string_map) (l : list (string * json)) : string_map * bool :=
  match l with
  | [] => (m, true)
  | (k, v) :: l =>
      let '(x, ok) := dec_string "" v in
      let '(m', oks) := dec_entries (<[k := x]> m) l in
      (m', ok && oks)
  end.

(** A [map[string]string]; [None] is nil. *)
Definition dec_map : decoder (option string_map) := λ cur v,
  match v with
  | JObj l => let '(m, ok) := dec_entries (default ∅ cur) l in (Some m, ok)
  | JNull => (None, true)
  | _ => (cur, false)
  end.

(** ** Structs *)

Definition upper (a : ascii) : ascii :=
  if in_range "a" "z" a then ascii_of_N (byte_of a - 32) else a.

(** [foldName] on names that can match an ASCII field name: letters are
    upper-cased, U+017F folds to S and U+212A to K. *)
Fixpoint fold_name (s : string) : string :=
  match s with
  | String a ((String b s2) as s1) =>
      if (byte_of a =? 197)%N && (byte_of b =? 191)%N then String "S" (fold_name s2)
      else if (byte_of a =? 226)%N && (byte_of b =? 132)%N then
        match s2 with
        | String c s3 => if (byte_of c =? 170)%N then String "K" (fold_name s3)
                         else String a (fold_name s1)
        | "" => String a (fold_name s1)
        end
      else String (upper a) (fold_name s1)
  | String a "" => String (upper a) ""
  | "" => ""
  end.

Definition fields (T : Type) : Type := list (string * decoder T).

Definition field {T A} (get : T → A) (set : A → T → T) (d : decoder A) : decoder T := λ t v,
  let '(x, ok) := d (get t) v in (set x t, ok).

(** The exact name, else the first field that matches up to case. *)
Definition find_field {T} (fs : fields T) (k : string) : option (decoder T) :=
  match List.find (λ f, String.eqb f.1 k) fs with
  | Some f => Some f.2
  | None => snd <$> List.find (λ f, String.eqb (fold_name f.1) (fold_name k)) fs
  end.

Fixpoint dec_members {T} (fs : fields T) (t : T) (l : list (string * json)) : T * bool :=
  match l with
  | [] => (t, true)
  | (k, v) :: l =>
      let '(t, ok) := match find_field fs k with Some d => d t v | None => (t, true) end in
      let '(t, oks) := dec_members fs t l in
      (t, ok && oks)
  end.

Definition dec_struct {T} (fs : fields T) : decoder T := λ t v,
  match v with
  | JObj l => dec_members fs t l
  | JNull => (t, true)
  | _ => (t, false)
  end.

(** [json.Unmarshal(data, &t)]: the resulting [t] and whether it returned nil. *)
Definition Unmarshal {T} (d : decoder T) (data : string) (t : T) : T * bool :=
  match parse data with Some v => d t v | None => (t, false) end.

(** ** Encoding *)

(** The entries of a map, sorted by key. *)
Definition key_le (a b : string * string) : Prop := String.le a.1 b.1.
#[export] Instance key_le_dec : RelDecision key_le.
Proof. intros a b. unfold key_le. apply _. Defined.

Definition enc_map (m : string_map) : json :=
  JObj (map (λ kv, (kv.1, JStr kv.2)) (merge_sort key_le (map_to_list m))).

Definition enc_strings (l : list string) : json := JArr (map JStr l).

(** [json:",omitempty"] *)
Definition opt_field (b : bool) (k : string) (v : json) : list (string * json) :=
  if b then [] else [(k, v)].

Definition opt_string (k s : string) : list (string * json) :=
  opt_field (String.eqb s "") k (JStr s).

Definition opt_map (k : string) (m : option string_map) : list (string * json) :=
  let m := default ∅ m in opt_field (bool_decide (m = ∅)) k (enc_map m).
