(* ===== verification/DecodeFacts.v ===== *)
(** * Decoding what was encoded

    The decoders of maps and slices invert the encoders, and what is decoded
    from any text is valid UTF-8. *)

From S2P Require Import Prelude GoString Json JsonFacts Utf8Facts Decode.

(** ** Slices of strings *)

Lemma dec_elements_strings cur l :
  dec_elements "" dec_string cur (map JStr l) = (l, true).
Proof. revert cur. induction l as [|x l IH]; intros cur; simpl; [done|]. by rewrite IH. Qed.

Lemma dec_slice_strings cur l : dec_slice "" dec_string cur (enc_strings l) = (Some l, true).
Proof. unfold dec_slice, enc_strings. by rewrite dec_elements_strings. Qed.

Lemma textual_strings l : Forall (λ s, valid_utf8 s = true) l → textual (enc_strings l).
Proof. intros H. constructor. induction H; constructor; [by constructor|done]. Qed.

(** ** Maps *)

Lemma dec_entries_list m0 (l : list (string * string)) :
  NoDup l.*1 →
  dec_entries m0 (map (λ kv, (kv.1, JStr kv.2)) l) = (list_to_map l ∪ m0, true).
Proof.
  revert m0. induction l as [|[k v] l IH]; intros m0 Hnd; cbn [map dec_entries].
  - simpl. by rewrite (left_id_L ∅ (∪)).
  - apply NoDup_cons in Hnd as [Hk Hnd]. cbn [dec_string fst snd]. rewrite IH by done. simpl.
    by rewrite <- insert_union_r, insert_union_l by (by apply not_elem_of_list_to_map_1).
Qed.

Lemma sorted_entries_NoDup (m : string_map) : NoDup (merge_sort key_le (map_to_list m)).*1.
Proof. rewrite merge_sort_Permutation. apply NoDup_fst_map_to_list. Qed.

Lemma dec_map_enc (m : string_map) : dec_map None (enc_map m) = (Some m, true).
Proof.
  unfold dec_map, enc_map. simpl. rewrite dec_entries_list by apply sorted_entries_NoDup.
  rewrite (right_id_L ∅ (∪)). do 2 f_equal.
  rewrite (list_to_map_proper _ (map_to_list m)); [apply list_to_map_to_list|apply sorted_entries_NoDup|].
  apply merge_sort_Permutation.
Qed.

Definition valid_entries (m : string_map) : Prop :=
  map_Forall (λ k v, valid_utf8 k = true ∧ valid_utf8 v = true) m.

Lemma textual_map m : valid_entries m → textual (enc_map m).
Proof.
  intros H. constructor. apply Forall_forall. intros kv (x & -> & Hx)%list_elem_of_fmap.
  rewrite merge_sort_Permutation in Hx. destruct x as [k v]. apply elem_of_map_to_list, H in Hx as [??].
  split; [done|by constructor].
Qed.

(** ** Members of objects *)

Lemma textual_obj l : Forall (λ kv, valid_utf8 kv.1 = true ∧ textual kv.2) l → textual (JObj l).
Proof. by constructor. Qed.

Definition members_ok (l : list (string * json)) : Prop :=
  Forall (λ kv, valid_utf8 kv.1 = true ∧ textual kv.2) l.

Lemma members_app l k : members_ok l → members_ok k → members_ok (l ++ k).
Proof. intros. by apply Forall_app. Qed.

Lemma members_opt b k v : valid_utf8 k = true → textual v → members_ok (opt_field b k v).
Proof. intros Hk Hv. destruct b; by repeat constructor. Qed.

Lemma members_opt_map k m : valid_utf8 k = true → valid_entries (default ∅ m) → members_ok (opt_map k m).
Proof. intros Hk Hm. apply members_opt; [done|by apply textual_map]. Qed.

Lemma members_opt_string k s : valid_utf8 k = true → valid_utf8 s = true → members_ok (opt_string k s).
Proof. intros Hk Hs. apply members_opt; [done|by constructor]. Qed.

(** Decoding an object member by member. *)
Lemma dec_step {T} (fs : fields T) t t1 k v l d :
  find_field fs k = Some d → d t v = (t1, true) → dec_members fs t ((k, v) :: l) = dec_members fs t1 l.
Proof. intros Hf Hd. cbn [dec_members]. rewrite Hf, Hd. by destruct (dec_members fs t1 l). Qed.

Lemma dec_opt {T} (fs : fields T) t t1 (b : bool) k v l d :
  find_field fs k = Some d → (if b then t1 = t else d t v = (t1, true)) →
  dec_members fs t (opt_field b k v ++ l) = dec_members fs t1 l.
Proof. intros Hf Hd. destruct b; [by subst|]. by eapply dec_step. Qed.

Lemma dec_field {T A} (get : T → A) (set : A → T → T) (d : decoder A) (t : T) (v : json) (x : A) :
  d (get t) v = (x, true) → field get set d t v = (set x t, true).
Proof. intros H. unfold field. by rewrite H. Qed.

(** ** What decoding preserves *)

(** Decoding well-encoded values keeps [P]. *)
Definition preserves {T} (P : T → Prop) (d : decoder T) : Prop :=
  ∀ t v, P t → well_encoded v = true → P (d t v).1.

Lemma preserves_string : preserves (λ s, valid_utf8 s = true) dec_string.
Proof. intros t [] Ht Hv; done. Qed.

Lemma preserves_bool : preserves (λ _, True) dec_bool.
Proof. done. Qed.

Lemma preserves_slice {A} (zero : A) (P : A → Prop) d :
  P zero → preserves P d → preserves (λ l, Forall P (default [] l)) (dec_slice zero d).
Proof.
  intros Hz Hd t [| | | |l|] Ht Hv; try done. simpl in *.
  assert (Forall P (dec_elements zero d (default [] t) l).1) as H.
  { revert Ht Hv. generalize (default [] t). induction l as [|v l IH]; intros cur Hcur Hv; simpl; [done|].
    simpl in Hv. apply andb_true_iff in Hv as [Hv Hl].
    assert (P (d (hd zero cur) v).1) as H1 by (apply Hd; [by destruct Hcur|done]).
    assert (Forall P (dec_elements zero d (tl cur) l).1) as H2 by (apply IH; [by destruct Hcur|done]).
    destruct (d (hd zero cur) v), (dec_elements zero d (tl cur) l). by constructor. }
  by destruct (dec_elements zero d (default [] t) l).
Qed.

Lemma preserves_map : preserves (λ m, valid_entries (default ∅ m)) dec_map.
Proof.
  intros t [| | | | |l] Ht Hv; try done; simpl in *.
  assert (valid_entries (dec_entries (default ∅ t) l).1) as H.
  { revert Ht Hv. generalize (default ∅ t). induction l as [|[k v] l IH]; intros m Hm Hv; [done|].
      simpl in Hv. to_props. cbn [dec_entries]. destruct (dec_string "" v) as [x ok] eqn:Ex.
      assert (valid_utf8 x = true) as Hx.
      { pose proof (preserves_string "" v eq_refl ltac:(done)) as Hp. by rewrite Ex in Hp. }
      specialize (IH (<[k:=x]> m)). destruct (dec_entries (<[k:=x]> m) l) as [m' oks]. simpl in *.
      apply IH; [|done]. by apply map_Forall_insert_2. }
  by destruct (dec_entries (default ∅ t) l).
Qed.

Lemma preserves_field {T A} (P : T → Prop) (Q : A → Prop) get set d :
  (∀ t, P t → Q (get t)) → (∀ x t, Q x → P t → P (set x t)) → preserves Q d → preserves P (field get set d).
Proof.
  intros Hg Hs Hd t v Ht Hv. specialize (Hd (get t) v (Hg t Ht) Hv). unfold field.
  destruct (d (get t) v) as [x ok]. by apply Hs.
Qed.

Lemma find_field_in {T} (fs : fields T) k d : find_field fs k = Some d → ∃ f, f ∈ fs ∧ d = f.2.
Proof.
  unfold find_field. destruct (List.find _ fs) as [f|] eqn:E.
  - intros [= <-]. apply find_some in E as [E _]. exists f. split; [by apply list_elem_of_In|done].
  - destruct (List.find (λ f, String.eqb (fold_name f.1) (fold_name k)) fs) as [f|] eqn:E'; [|done].
    intros [= <-]. apply find_some in E' as [E' _]. exists f. split; [by apply list_elem_of_In|done].
Qed.

Lemma preserves_struct {T} (P : T → Prop) (fs : fields T) :
  Forall (λ f, preserves P f.2) fs → preserves P (dec_struct fs).
Proof.
  intros Hfs t [| | | | |l] Ht Hv; try done. simpl in *. revert t Ht.
  induction l as [|[k v] l IH]; intros t Ht; [done|]. simpl in Hv. to_props. cbn [dec_members].
  destruct (match find_field fs k with Some d => d t v | None => (t, true) end) as [t1 ok] eqn:E.
  assert (P t1) as Ht1.
  { destruct (find_field fs k) as [d|] eqn:Ef; [|by injection E as <-].
    apply find_field_in in Ef as (f & Hf & ->). rewrite Forall_forall in Hfs.
    specialize (Hfs f Hf t v Ht ltac:(done)). by rewrite E in Hfs. }
  specialize (IH ltac:(done) t1 Ht1). by destruct (dec_members fs t1 l).
Qed.

Lemma preserves_Unmarshal {T} (P : T → Prop) d data t : preserves P d → P t → P (Unmarshal d data t).1.
Proof.
  intros Hd Ht. unfold Unmarshal. destruct (parse data) as [v|] eqn:E; [|done].
  apply Hd; [done|]. by eapply parse_well_encoded.
Qed.

(** Reading back a document that was printed. *)
Lemma Unmarshal_indent {T} (d : decoder T) v t : textual v → Unmarshal d (print_indent 0 v) t = d t v.
Proof. intros H. unfold Unmarshal. by rewrite parse_print_indent. Qed.
Lemma Unmarshal_print {T} (d : decoder T) v t : textual v → Unmarshal d (print v) t = d t v.
Proof. intros H. unfold Unmarshal. by rewrite parse_print. Qed.
