(* ===== verification/Store.v ===== *)
(** * The file store (storage.go)

    Keys are slash-separated strings confined to the root directory; writes go
    through temporary files that are renamed into place.  Each function follows
    its Go body call by call; deferred calls run on every exit. *)

From S2P Require Import Prelude GoString GoPath Os.

(** [Store]; the lock table is part of the world ([w_locks]) and the logger is
    left out. *)
Record Store := mkStore { basePath : path; baseURL : string }.

(** [filepath.Abs] *)
Definition filepath_Abs (cwd : path) (s : string) : path :=
  clean_parts true (if IsAbs s then Split s "/" else cwd ++ Split s "/").

(** Create each directory in turn. *)
Fixpoint make_dirs (l : list path) : M (result error unit) :=
  match l with
  | [] => mret (Ok ())
  | d :: l => _ ←! os_MkdirAll d wrapping "create directory"; make_dirs l
  end.

Definition NewStore (cwd : path) (base url : string) : M (result error Store) :=
  let absBase := filepath_Abs cwd base in
  _ ←! os_MkdirAll absBase wrapping "create storage root";
  root ←! EvalSymlinks absBase wrapping "resolve storage root symlinks";
  _ ←! make_dirs (map (λ d, root ++ [d]) ["providers"; "modules"; "keys"; "tmp"]);
  mret (Ok (mkStore root (TrimRight url "/"))).

(** ** Confinement *)

(** [rejectSymlinkEscape], on the reversed path. *)
Fixpoint reject_rev (base rp : path) : M (result error unit) :=
  r ← EvalSymlinks (reverse rp);
  match r with
  | Ok resolved =>
      mret (if escapes (Rel base resolved)
            then Err (EText "storage path escapes root through symlink") else Ok ())
  | Err e =>
      if negb (os_IsNotExist e) then mret (Err (EWrap "resolve storage path" e))
      else match rp with
           | [] => mret (Err (EText "cannot resolve storage path"))
           | _ :: rp' => reject_rev base rp'
           end
  end.

Definition rejectSymlinkEscape (s : Store) (p : path) : M (result error unit) :=
  reject_rev (basePath s) (reverse p).

Definition resolve (s : Store) (key : string) : M (result error path) :=
  if String.eqb key "" || String.eqb key "." then mret (Ok (basePath s))
  else if IsAbs key || Contains key "\" then mret (Err (EText "invalid storage key"))
  else
    let clean := Clean key in
    if String.eqb clean ".." || HasPrefix clean "../" then
      mret (Err (EText "storage key escapes root"))
    else
      let p := join_parts (basePath s) (Split clean "/") in
      if escapes (Rel (basePath s) p) then mret (Err (EText "storage key escapes root"))
      else
        _ ←! rejectSymlinkEscape s p;
        mret (Ok p).

(** ** Reading *)

Definition Get (s : Store) (key : string) : M (result error string) :=
  p ←! resolve s key; os_ReadFile p.

Definition Open (s : Store) (key : string) : M (result error node) :=
  p ←! resolve s key; os_Open p.

Definition Exists (s : Store) (key : string) : M bool :=
  r ← resolve s key;
  match r with
  | Err _ => mret false
  | Ok p => st ← os_Stat p; mret (is_ok st)
  end.

Definition DownloadURL (s : Store) (key : string) : string :=
  baseURL s +:+ "/download/" +:+ key.

(** ** Writing *)

(** Run [cleanup] and return an error: the error exits of [putUnlocked]. *)
Definition fail_after {A B} (cleanup : M B) (e : error) : M (result error A) :=
  _ ← cleanup; mret (Err e).

(** The end of [putUnlocked], once the temporary file is open. *)
Definition write_and_rename (tmp f p : path) (data : string) : M (result error unit) :=
  wr ← f_Write f data;
  match wr with
  | Err e => fail_after (_ ← f_Close f; os_Remove tmp) (EWrap "write" e)
  | Ok _ =>
      sy ← f_Sync f;
      match sy with
      | Err e => fail_after (_ ← f_Close f; os_Remove tmp) (EWrap "sync" e)
      | Ok _ =>
          cl ← f_Close f;
          match cl with
          | Err e => fail_after (os_Remove tmp) (EWrap "close" e)
          | Ok _ =>
              rn ← os_Rename tmp p;
              match rn with
              | Err e => fail_after (os_Remove tmp) (EWrap "rename" e)
              | Ok _ => mret (Ok ())
              end
          end
      end
  end.

Definition putUnlocked (s : Store) (key data : string) : M (result error unit) :=
  p ←! resolve s key;
  _ ←! os_MkdirAll (parent p) wrapping "mkdir";
  let tmp := parent p ++ [".tmp-" +:+ base_name p] in
  f ←! os_OpenTrunc tmp wrapping "open temp";
  write_and_rename tmp f p data.

Definition Put (s : Store) (key data : string) : M (result error unit) :=
  with_lock key (putUnlocked s key data).

(** A reader delivers [r_data] and then end of file, or [r_err]. *)
Record reader := Reader { r_data : string; r_err : option error }.

Definition int64_wrap (x : Z) : Z := ((x + 2^63) mod 2^64 - 2^63)%Z.

(** [io.Copy(f, &io.LimitedReader{R: r, N: limit})]: at most [limit] bytes are
    asked for; the source's error is seen only when it comes before that. *)
Definition copy_limited (h : path) (r : reader) (limit : Z) : M (result error Z) :=
  let n := Z.to_nat limit in
  let data := stake n (r_data r) in
  _ ←! f_Write h data;
  match r_err r with
  | Some e => if slen (r_data r) <? n then mret (Err e) else mret (Ok (Z.of_nat (slen data)))
  | None => mret (Ok (Z.of_nat (slen data)))
  end.

(** [validate(f, n)] reads the file it is given; the validators of the program
    report an error of that read like any other defect of the archive. *)
Definition run_validate {A} (validate : string → Z → result error A) (h : path) (n : Z) : M (result error A) :=
  data ← f_ReadAll h;
  mret (match data with
        | Ok data => validate data n
        | Err e => Err (EInvalidArchive e)
        end).

(** Run [body], then [cleanup]: a deferred call. *)
Definition deferred {A B} (cleanup : A → M B) (body : M A) : M A :=
  r ← body; _ ← cleanup r; mret r.

Definition remove_unless_ok {A} (h tmp : path) (r : result error A) : M unit :=
  _ ← f_Close h;
  match r with Ok _ => mret () | Err _ => _ ← os_Remove tmp; mret () end.

Definition PutStreamValidated (s : Store) (key : string) (r : reader) (maxSize : Z)
    (validate : option (string → Z → result error unit)) : M (result error Z) :=
  with_lock key (
    p ←! resolve s key;
    _ ←! os_MkdirAll (parent p) wrapping "mkdir";
    '(tmp, f) ←! os_CreateTemp (parent p) (".tmp-" +:+ base_name p +:+ "-") wrapping "open temp";
    deferred (remove_unless_ok f tmp) (
      _ ←! f_Chmod f wrapping "chmod temp";
      n ←! copy_limited f r (int64_wrap (maxSize + 1)) wrapping "copy";
      if (maxSize <? n)%Z then mret (Err (EUploadTooLarge maxSize))
      else
        _ ←! f_Sync f wrapping "sync";
        _ ←! match validate with
             | None => mret (Ok ())
             | Some v => _ ←! f_Seek f wrapping "seek temp"; run_validate v f n
             end;
        _ ←! f_Close f wrapping "close";
        _ ←! os_Rename tmp p wrapping "rename";
        mret (Ok n))).

Definition PutStream (s : Store) (key : string) (r : reader) (maxSize : Z) : M (result error Z) :=
  PutStreamValidated s key r maxSize None.

(** What [PutStreamImmutable] returns: size, key, and whether the object was
    already there. *)
Record stored := mkStored { st_size : Z; st_key : string; st_existed : bool }.

(** The end of [PutStreamImmutable], under the lock of the destination key. *)
Definition publish_immutable (tmp f destination : path) (n : Z) (key : string) : M (result error stored) :=
  st ← os_Stat destination;
  match st with
  | Ok _ => mret (Ok (mkStored n key true))
  | Err e =>
      if negb (os_IsNotExist e) then mret (Err e)
      else
        _ ←! os_MkdirAll (parent destination) wrapping "mkdir";
        _ ←! f_Close f wrapping "close";
        _ ←! os_Rename tmp destination wrapping "rename";
        mret (Ok (mkStored n key false))
  end.

(** The key is computed from the bytes that went through the hash. *)
Definition PutStreamImmutable (s : Store) (r : reader) (maxSize : Z)
    (validate : option (string → Z → result error unit)) (key : string → string)
    : M (result error stored) :=
  '(tmp, f) ←! os_CreateTemp (basePath s) ".tmp-upload-" wrapping "open temp";
  deferred (λ _, _ ← f_Close f; os_Remove tmp) (
    _ ←! f_Chmod f wrapping "chmod temp";
    n ←! copy_limited f r (int64_wrap (maxSize + 1)) wrapping "copy";
    if (maxSize <? n)%Z then mret (Err (EUploadTooLarge maxSize))
    else
      _ ←! f_Sync f wrapping "sync";
      _ ←! f_Seek f wrapping "seek temp";
      _ ←! match validate with None => mret (Ok ()) | Some v => run_validate v f n end;
      let destinationKey := key (stake (Z.to_nat n) (r_data r)) in
      destination ←! resolve s destinationKey;
      with_lock destinationKey (publish_immutable tmp f destination n destinationKey)).

(** ** Deleting *)

(** The directory is renamed out of the way; [sd_path] and [sd_trash] are what
    the two returned closures capture. *)
Record staged := mkStaged { sd_path : path; sd_trash : path }.

Definition StageDeleteTree (s : Store) (key : string) : M (result error staged) :=
  p ←! resolve s (TrimSuffix key "/");
  _ ←! os_Stat p;
  '(trash, marker) ←! os_CreateTemp (parent p) (".trash-" +:+ base_name p +:+ "-");
  cl ← f_Close marker;
  match cl with
  | Err e => fail_after (os_Remove trash) e
  | Ok _ =>
      _ ←! os_Remove trash;
      _ ←! os_Rename p trash;
      mret (Ok (mkStaged p trash))
  end.

Definition rollback (d : staged) : M (result error unit) := os_Rename (sd_trash d) (sd_path d).
Definition commit (d : staged) : M (result error unit) := os_RemoveAll (sd_trash d).

Definition diverge {A} : M A := λ _, None.

(** The clean-up loop of [Delete], on the reversed directory; it does not end
    when it passes the file system's root. *)
Fixpoint clean_empty_dirs (base rdir : path) : M unit :=
  if bool_decide (reverse rdir = base) then mret ()
  else
    entries ← os_ReadDir (reverse rdir);
    match entries with
    | Ok [] =>
        _ ← os_Remove (reverse rdir);
        match rdir with
        | [] => diverge
        | _ :: rdir' => clean_empty_dirs base rdir'
        end
    | _ => mret ()
    end.

Definition Delete (s : Store) (key : string) : M (result error unit) :=
  with_lock key (
    p ←! resolve s key;
    rm ← os_Remove p;
    let clean := clean_empty_dirs (basePath s) (reverse (parent p));; mret (Ok ()) in
    match rm with
    | Ok _ => clean
    | Err e => if os_IsNotExist e then clean else mret (Err e)
    end).

(** ** Listing *)

(** The two results of [List]: objects and prefixes. *)
Definition List_ (s : Store) (prefix delimiter : string)
    : M (result error (list string * list string)) :=
  searchPath ←! resolve s prefix;
  if negb (String.eqb delimiter "") then
    entries ← os_ReadDir searchPath;
    match entries with
    | Err e => if os_IsNotExist e then mret (Ok ([], [])) else mret (Err e)
    | Ok l =>
        let rel (e : string * bool) := Join2 prefix e.1 in
        mret (Ok (map rel (List.filter (λ e, negb e.2) l),
                  map (λ e, rel e +:+ "/") (List.filter snd l)))
    end
  else
    '(visited, werr) ← filepath_Walk searchPath;
    let objects := map (λ qn, Join (Rel (basePath s) qn.1) "/")
                       (List.filter (λ qn, negb (is_dir qn.2)) visited) in
    match werr with
    | Some e => if os_IsNotExist e then mret (Ok (objects, [])) else mret (Err e)
    | None => mret (Ok (objects, []))
    end.

(** ** Maintenance *)

Definition HealthCheck (s : Store) : M (result error unit) :=
  '(name, f) ←! os_CreateTemp (basePath s) ".health-";
  deferred (λ _, os_Remove name) (
    _ ←! f_Close f;
    os_Remove name).

(** [time.Hour] in nanoseconds *)
Definition one_hour : Z := 3600 * 10 ^ 9.

Definition mtime (n : node) : Z :=
  match n with NFile _ t | NLink _ _ t => t | NDir => 0 end.

(** The test of the walk: a stale temporary entry. *)
Definition stale (cutoff : Z) (qn : path * node) : bool :=
  negb (is_dir qn.2) && HasPrefix (base_name qn.1) ".tmp-" && (mtime qn.2 <? cutoff)%Z.

Fixpoint gc_visit (cutoff : Z) (removed : Z) (l : list (path * node)) : M (Z * option error) :=
  match l with
  | [] => mret (removed, None)
  | qn :: l =>
      if stale cutoff qn then
        rm ← os_Remove qn.1;
        match rm with
        | Err e => if os_IsNotExist e then gc_visit cutoff (removed + 1) l
                   else mret (removed, Some e)
        | Ok _ => gc_visit cutoff (removed + 1) l
        end
      else gc_visit cutoff removed l
  end.

(** The count is returned along with the error. *)
Definition GarbageCollect (s : Store) : M (Z * option error) :=
  now ← time_Now;
  let cutoff := (now - one_hour)%Z in
  '(visited, werr) ← filepath_Walk (basePath s);
  '(removed, rerr) ← gc_visit cutoff 0 visited;
  mret (removed, match rerr with Some e => Some e | None => werr end).
