(* ===== verification/StoreFacts.v ===== *)
(** * What the store guarantees

    The store as a map from keys to contents: temporary files are invisible,
    and whatever I/O faults happen a write either takes effect completely or
    not at all. *)

From S2P Require Import Prelude GoString GoPath Os OsFacts Store.

(** ** The visible part of the file system *)

Definition hidden (c : string) : bool := HasPrefix c ".tmp-".

(** Everything but the temporary entries under the root. *)
Definition seen (base p : path) : Prop := ∀ r, p = base ++ r → Forall (λ c, hidden c = false) r.

(** The same files, as far as can be seen. *)
Definition agree (base : path) (f f' : fs) : Prop := ∀ p, seen base p → file f' p = file f p.

#[export] Instance agree_equiv base : Equivalence (agree base).
Proof.
  split; [done|intros f f' H p Hp; symmetry; auto|].
  intros f1 f2 f3 H1 H2 p Hp. by rewrite H2, H1.
Qed.

(** Nothing seen has changed, not even a directory, except on the way to [p]. *)
Definition untouched (base p : path) (f f' : fs) : Prop :=
  ∀ q, seen base q → ¬ q `prefix_of` p → f' !! q = f !! q.

#[export] Instance untouched_preorder base p : PreOrder (untouched base p).
Proof. split; [done|]. intros f1 f2 f3 H1 H2 q Hq Hp. by rewrite H2, H1. Qed.

(** [f'] is [f] with the file [p] set to [v], as far as can be seen. *)
Definition updated (base : path) (f f' : fs) (p : path) (v : option string) : Prop :=
  file f' p = v ∧ ∀ q, seen base q → q ≠ p → file f' q = file f q.

#[export] Instance updated_proper base :
  Proper (agree base ==> eq ==> eq ==> eq ==> iff) (updated base).
Proof.
  intros f1 f2 Hf f' ? <- p ? <- v ? <-. unfold updated.
  split; intros [H1 H2]; split; auto; intros q Hq Hne; rewrite H2 by done;
    [symmetry|]; by apply Hf.
Qed.

Lemma updated_agree base f f' p : updated base f f' p (file f p) → agree base f f'.
Proof. intros [H1 H2] q Hq. destruct (decide (q = p)) as [->|]; auto. Qed.

(** A file system fit for a store: no links, the root is a directory, and no
    directory has the name of a temporary file. *)
Record store_fs (base : path) (f : fs) : Prop := {
  sf_clean : clean_fs f;
  sf_root : f !! base = Some NDir;
  sf_tmp : ∀ p c, base `prefix_of` p → HasPrefix c ".tmp-" = true → f !! (p ++ [c]) ≠ Some NDir
}.

Lemma sf_base base f : store_fs base f → Forall plain base.
Proof. intros H. by eapply cf_plain; [apply H|apply (sf_root _ _ H)]. Qed.

(** ** Keys *)

(** A component of a key: an ordinary visible name. *)
Definition key_part (c : string) : Prop :=
  plain c ∧ no_char "/" c ∧ no_char "\" c ∧ hidden c = false.
#[export] Instance key_part_dec c : Decision (key_part c).
Proof. unfold key_part, no_char. apply _. Defined.

Definition good_key (l : list string) : Prop := l ≠ [] ∧ Forall key_part l.

Lemma good_plain l : Forall key_part l → Forall plain l.
Proof. intros H. eapply Forall_impl; [exact H|]. by intros c []. Qed.

Lemma good_visible l : Forall key_part l → Forall (λ c, hidden c = false) l.
Proof. intros H. eapply Forall_impl; [exact H|]. by intros c (_ & _ & _ & ?). Qed.

Lemma good_slash l : Forall key_part l → Forall (no_char "/") l.
Proof. intros H. eapply Forall_impl; [exact H|]. by intros c (_ & ? & _). Qed.

Lemma good_seen base l : Forall key_part l → seen base (base ++ l).
Proof. intros H r E. apply app_inv_head in E as <-. by apply good_visible. Qed.

Lemma good_nonempty l : good_key l → Join l "/" ≠ "".
Proof.
  intros [Hn H]. destruct H as [|c l [(Hc & _) _] _]; [done|]. destruct l; [done|].
  rewrite Join_cons by done. intros E. apply (f_equal slen) in E. rewrite slen_app in E.
  destruct c; [done|]. simpl in E. lia.
Qed.

Lemma good_relative l : good_key l → IsAbs (Join l "/") = false.
Proof.
  intros [Hn H]. destruct H as [|c l ((Hc & _) & Hs & _) _]; [done|].
  destruct c as [|a c]; [done|]. apply no_char_cons in Hs as [Ha _].
  unfold IsAbs. destruct l as [|d l]; [simpl; by rewrite bool_decide_eq_false_2|].
  rewrite Join_cons by done. simpl. by rewrite bool_decide_eq_false_2.
Qed.

Lemma good_rel_parts l : good_key l → rel_parts (Join l "/") = l.
Proof.
  intros [Hn H]. unfold rel_parts. rewrite Split_Join by (done || by apply good_slash).
  by apply clean_parts_plain, good_plain.
Qed.

Lemma good_backslash l : good_key l → Contains (Join l "/") "\" = false.
Proof.
  intros [_ H]. apply Contains_char. induction H as [|c l (_ & _ & Hc & _) H IH]; [done|].
  destruct l as [|d l]; [done|]. rewrite Join_cons by done. by rewrite !no_char_app.
Qed.

Lemma escapes_plain l : Forall plain l → escapes l = false.
Proof. intros H. destruct H as [|c l (_ & _ & Hc) _]; [done|]. simpl. by apply String.eqb_neq. Qed.

(** ** Resolving a key *)

Definition key_error (base l : path) (w w' : world) (e : error) : Prop :=
  os_IsNotExist e = false ∧ (faulted w w' ∨ ¬ way (w_fs w) (parent (base ++ l))).

Lemma wp_reject base l w :
  store_fs base (w_fs w) → Forall plain l →
  wp (reject_rev base (reverse (base ++ l)))
     (λ r w', same w w' ∧ match r with Ok _ => True | Err e => key_error base l w w' e end) w.
Proof.
  intros Hs Hl. pose proof (sf_base _ _ Hs) as Hb. pose proof (sf_clean _ _ Hs) as Hc.
  revert w Hs Hb Hc. induction l as [|c l IH] using rev_ind; intros w Hs Hb Hc.
  - rewrite app_nil_r. destruct (reverse base) as [|c rb] eqn:Erb; cbn [reject_rev];
      rewrite <- ?Erb, ?reverse_involutive;
      [assert (base = []) as -> by by rewrite <- (reverse_involutive base), Erb|];
      apply wp_bind; (eapply wp_mono; [by apply wp_evalsymlinks|]); intros [q|e] w1 [Hsm H1].
    all: try (destruct H1 as [-> _]; apply wp_ret; split; [done|]).
    all: try (destruct H1 as [[Hft ->]|[HN _]]; [|by rewrite (sf_root _ _ Hs) in HN];
              apply wp_ret; split; [done|]; split; [done|by left]).
    + done.
    + pose proof (Rel_app base []) as E. rewrite app_nil_r in E. by rewrite E.
  - apply Forall_app in Hl as [Hl Hc'].
    assert (Forall plain (base ++ l ++ [c])) as Hp by (by rewrite !Forall_app).
    assert (reverse (base ++ l ++ [c]) = c :: reverse (base ++ l)) as Erev
      by by rewrite app_assoc, reverse_app.
    rewrite Erev. cbn [reject_rev]. rewrite <- Erev, reverse_involutive.
    apply wp_bind. eapply wp_mono; [by apply wp_evalsymlinks|]. intros [q|e] w1 [Hsm H1].
    + destruct H1 as [-> _]. apply wp_ret. split; [done|].
      rewrite Rel_app, escapes_plain; [done|]. by apply Forall_app.
    + destruct H1 as [[Hft ->]|[HN [->|[-> Hw]]]].
      * apply wp_ret. split; [done|]. split; [done|by left].
      * simpl. destruct Hsm as [He Hf].
        eapply wp_mono; [apply IH; [done|by rewrite Hf|done|by rewrite Hf]|].
        intros r w2 [Hsm2 Hr]. split; [by transitivity w1|]. destruct r as [|e2]; [done|].
        destruct Hr as [Hne Hr]. split; [done|]. rewrite Hf in Hr.
        destruct Hr as [?|Hr]; [left; by eapply faulted_r|right]. intros Hw. apply Hr.
        rewrite app_assoc, parent_app in Hw. by apply way_parent.
      * apply wp_ret. split; [done|]. split; [done|by right].
Qed.

(** A string that names the key [l], maybe with slashes to spare. *)
Record names_key (key : string) (l : list string) : Prop := {
  nk_nonempty : key ≠ "";
  nk_relative : IsAbs key = false;
  nk_backslash : Contains key "\" = false;
  nk_parts : rel_parts key = l
}.

Lemma slash_names l : good_key l → names_key (Join l "/") l.
Proof.
  intros Hg. split; [by apply good_nonempty|by apply good_relative|by apply good_backslash|by apply good_rel_parts].
Qed.

(** The prefix under which a directory is listed. *)
Lemma slash_end l : l ≠ [] → Join (l ++ [""]) "/" = Join l "/" +:+ "/".
Proof.
  induction l as [|c l IH]; intros Hn; [done|]. destruct l as [|d l]; [done|].
  change ((c :: d :: l) ++ [""]) with (c :: ((d :: l) ++ [""])). rewrite !Join_cons by done.
  rewrite IH by done. by rewrite !sapp_assoc.
Qed.

Lemma slash_end_names l : good_key l → names_key (Join (l ++ [""]) "/") l.
Proof.
  intros Hg. destruct (Hg) as [Hn Hp]. pose proof (good_relative l Hg) as Hr.
  pose proof (good_nonempty l Hg) as Hne. split.
  - rewrite slash_end by done. by destruct (Join l "/").
  - rewrite slash_end by done. by destruct (Join l "/").
  - rewrite slash_end by done. apply Contains_char. apply no_char_app. split; [|done].
    apply Contains_char. by apply good_backslash.
  - unfold rel_parts. rewrite Split_Join; [|by destruct l|].
    + unfold clean_parts. rewrite foldl_app. apply clean_parts_plain, good_plain, Hp.
    + apply Forall_app. split; [by apply good_slash|]. by constructor.
Qed.

(** It resolves to its place under the root. *)
Lemma wp_resolve_key s key l w :
  store_fs (basePath s) (w_fs w) → good_key l → names_key key l →
  wp (resolve s key) (λ r w', same w w' ∧
    match r with
    | Ok p => p = basePath s ++ l
    | Err e => key_error (basePath s) l w w' e
    end) w.
Proof.
  intros Hs Hg [Hne Hr Hb' Hl']. pose proof (sf_base _ _ Hs) as Hb. destruct (Hg) as [Hn Hparts].
  pose proof (good_plain l Hparts) as Hl. unfold resolve.
  rewrite (proj2 (String.eqb_neq _ _)) by done.
  assert (String.eqb key "." = false) as ->.
  { apply String.eqb_neq. intros ->. change (rel_parts ".") with (@nil string) in Hl'. congruence. }
  rewrite Hr, Hb'. cbn [orb]. rewrite escape_test, Hl', (escapes_plain l) by done.
  assert (Clean key = Join l "/") as ->.
  { rewrite Clean_rel, Hl' by done. by destruct l. }
  rewrite Split_Join, join_parts_plain by (done || by apply good_slash).
  rewrite Rel_app, (escapes_plain l) by done.
  apply wp_try. eapply wp_mono; [by apply wp_reject|].
  intros [[]|e] w1 [Hsm H1]; [by apply wp_ret|done].
Qed.

Lemma wp_resolve s l w :
  store_fs (basePath s) (w_fs w) → good_key l →
  wp (resolve s (Join l "/")) (λ r w', same w w' ∧
    match r with
    | Ok p => p = basePath s ++ l
    | Err e => key_error (basePath s) l w w' e
    end) w.
Proof. intros Hs Hg. apply wp_resolve_key; [done..|by apply slash_names]. Qed.

(** ** Invisible changes *)

(** Only what cannot be seen changed, and directories on the way to [p]. *)
Definition held (base p : path) (w w' : world) : Prop :=
  env w w' ∧ store_fs base (w_fs w') ∧ agree base (w_fs w) (w_fs w') ∧
  untouched base p (w_fs w) (w_fs w').

Lemma held_trans base p w1 w2 w3 : held base p w1 w2 → held base p w2 w3 → held base p w1 w3.
Proof.
  intros (? & _ & ? & ?) (? & ? & ? & ?). split_and!; [by etransitivity|done|by etransitivity..].
Qed.

Lemma held_same base p w w' : store_fs base (w_fs w) → same w w' → held base p w w'.
Proof. intros Hs [He Hf]. split_and!; [done|by rewrite Hf..]. Qed.

Lemma hidden_unseen base l c : hidden c = true → ¬ seen base (base ++ l ++ [c]).
Proof.
  intros Hc Hs. specialize (Hs _ eq_refl). apply Forall_app in Hs as [_ [H _]%Forall_cons]. congruence.
Qed.

Lemma agree_insert base f p n : ¬ seen base p → agree base f (<[p := n]> f).
Proof.
  intros Hp q Hq. unfold file. rewrite lookup_insert_ne; [done|]. by intros ->.
Qed.

Lemma agree_delete base f p : ¬ seen base p → agree base f (delete p f).
Proof.
  intros Hp q Hq. unfold file. rewrite lookup_delete_ne; [done|]. by intros ->.
Qed.

Lemma untouched_insert base p q n f : ¬ seen base q → untouched base p f (<[q := n]> f).
Proof. intros Hq q' Hs _. rewrite lookup_insert_ne; [done|]. by intros ->. Qed.

Lemma untouched_delete base p q f : ¬ seen base q → untouched base p f (delete q f).
Proof. intros Hq q' Hs _. rewrite lookup_delete_ne; [done|]. by intros ->. Qed.

Lemma untouched_extends base p q f f' : q `prefix_of` p → extends q f f' → untouched base p f f'.
Proof.
  intros Hq H q' _ Hp. destruct (H q') as [?|(_ & _ & Hx)]; [done|].
  destruct Hp. by etransitivity.
Qed.

Lemma agree_extends base p f f' : extends p f f' → agree base f f'.
Proof. intros H q _. by eapply extends_file. Qed.

Lemma file_insert f p d t q : file (<[p := NFile d t]> f) q = if decide (q = p) then Some d else file f q.
Proof.
  unfold file. destruct (decide (q = p)) as [->|]; [by rewrite lookup_insert_eq|].
  by rewrite lookup_insert_ne.
Qed.

Lemma file_delete f p q : file (delete p f) q = if decide (q = p) then None else file f q.
Proof.
  unfold file. destruct (decide (q = p)) as [->|]; [by rewrite lookup_delete_eq|].
  by rewrite lookup_delete_ne.
Qed.

Lemma store_insert_file base f p d t :
  store_fs base f → Forall plain p → p ≠ [] → f !! parent p = Some NDir → f !! p ≠ Some NDir →
  store_fs base (<[p := NFile d t]> f).
Proof.
  intros [Hc Hr Ht] Hp Hn Hd Hf. split.
  - by apply clean_insert_file.
  - rewrite lookup_insert_ne; [done|]. congruence.
  - intros q c Hq Hh. destruct (decide (p = q ++ [c])) as [->|]; [by rewrite lookup_insert_eq|].
    rewrite lookup_insert_ne by done. by apply Ht.
Qed.

Lemma store_delete base f p :
  store_fs base f → p ≠ [] → f !! p ≠ None → p ≠ base → (∀ c, f !! (p ++ [c]) = None) →
  store_fs base (delete p f).
Proof.
  intros [Hc Hr Ht] Hn Hex Hb Hch. split.
  - by apply clean_delete.
  - by rewrite lookup_delete_ne.
  - intros q c Hq Hh. destruct (decide (p = q ++ [c])) as [->|]; [by rewrite lookup_delete_eq|].
    rewrite lookup_delete_ne by done. by apply Ht.
Qed.

Lemma store_delete_file base f p d t :
  store_fs base f → f !! p = Some (NFile d t) → store_fs base (delete p f).
Proof.
  intros Hs Hf. pose proof (sf_clean _ _ Hs) as Hc. apply store_delete; [done|..].
  - intros ->. by rewrite (cf_root _ Hc) in Hf.
  - by rewrite Hf.
  - intros ->. by rewrite (sf_root _ _ Hs) in Hf.
  - intros c. by eapply file_no_children.
Qed.

Lemma store_extends base l f f' :
  store_fs base f → Forall (λ c, hidden c = false) l → extends (base ++ l) f f' → clean_fs f' →
  store_fs base f'.
Proof.
  intros [Hc Hr Ht] Hl He Hc'. split; [done|by eapply extends_lookup|].
  intros q c [r ->] Hh. destruct (He ((base ++ r) ++ [c])) as [->|(_ & _ & Hp)].
  - apply Ht; [by eexists|done].
  - exfalso. destruct Hp as [x E]. rewrite <- !app_assoc in E. apply app_inv_head in E. subst l.
    apply Forall_app in Hl as [_ [Hc0 _]%Forall_cons]. unfold hidden in Hc0. congruence.
Qed.

Lemma seen_base base : seen base base.
Proof. intros r E. rewrite <- (app_nil_r base) in E at 1. by apply app_inv_head in E as <-. Qed.

(** Removing something invisible. *)
Lemma wp_remove_unseen base k p (w : world) :
  store_fs base (w_fs w) → Forall plain p → ¬ seen base p →
  wp (os_Remove p) (λ _ w', held base k w w') w.
Proof.
  intros Hs Hp Hns. eapply wp_mono; [by apply wp_remove; [apply Hs|]|].
  intros [[]|e] w' (He & _ & H).
  - destruct H as (Hf & Hn & Hex & Hch). split; [done|]. rewrite Hf.
    split; [|split; [by apply agree_delete|by apply untouched_delete]].
    apply store_delete; try done. intros ->. by apply Hns, seen_base.
  - destruct H as [Hf _]. by apply held_same.
Qed.

Lemma updated_held base k f p v w1 w2 :
  seen base p → updated base f (w_fs w1) p v → held base k w1 w2 → updated base f (w_fs w2) p v.
Proof.
  intros Hp [H1 H2] (_ & _ & Ha & _). split; [by rewrite Ha|]. intros q Hq Hne. rewrite Ha by done. auto.
Qed.

(** ** A temporary file being written *)

(** Since the file system was [f0], only the invisible file [tmp] has changed,
    and it holds [d]; all that differs from the start [w] is invisible. *)
Definition writing (base k tmp : path) (f0 : fs) (w : world) (d : string) (w1 : world) : Prop :=
  held base k w w1 ∧ ¬ seen base tmp ∧ (∃ t, w_fs w1 !! tmp = Some (NFile d t)) ∧
  ∀ q, q ≠ tmp → w_fs w1 !! q = f0 !! q.

(** The start: the temporary file has just been created in [w1]. *)
Lemma writing_start base k tmp w w1 w2 n :
  held base k w w1 → ¬ seen base tmp → Forall plain tmp → tmp ≠ [] → env w1 w2 →
  w_fs w1 !! parent tmp = Some NDir → w_fs w1 !! tmp ≠ Some NDir →
  w_fs w2 = <[tmp := NFile "" n]> (w_fs w1) →
  writing base k tmp (w_fs w1) w "" w2.
Proof.
  intros Hh Hns Hp Hn He Hd Hdir Hf. split; [|split; [done|split]].
  - eapply held_trans; [exact Hh|]. destruct Hh as (_ & Hs & _).
    split; [done|]. rewrite Hf.
    split; [by apply store_insert_file|split; [by apply agree_insert|by apply untouched_insert]].
  - exists n. by rewrite Hf, lookup_insert_eq.
  - intros q Hq. by rewrite Hf, lookup_insert_ne.
Qed.

Section writing.
Context (base k tmp : path) (f0 : fs) (w : world).

Lemma writing_same d w1 w2 : writing base k tmp f0 w d w1 → same w1 w2 → writing base k tmp f0 w d w2.
Proof using Type.
  intros (Hh & Hns & Ht & Hq) Hsm. split.
  - eapply held_trans; [exact Hh|]. apply held_same; [apply Hh|done].
  - destruct Hsm as [_ ->]. done.
Qed.

Lemma writing_faulted d w1 w2 : writing base k tmp f0 w d w1 → faulted w1 w2 → faulted w w2.
Proof using Type. intros ((He & _) & _). by apply faulted_r. Qed.

Lemma writing_plain d w1 : writing base k tmp f0 w d w1 →
  Forall plain tmp ∧ tmp ≠ [] ∧ w_fs w1 !! parent tmp = Some NDir.
Proof using Type.
  intros ((_ & Hs & _) & _ & (t & Hf) & _). pose proof (sf_clean _ _ Hs) as Hc.
  assert (tmp ≠ []) as Hn by (intros ->; by rewrite (cf_root _ Hc) in Hf).
  split; [by eapply cf_plain|]. split; [done|]. by eapply clean_parent_dir.
Qed.

Lemma wp_writing_remove d w1 : writing base k tmp f0 w d w1 →
  wp (os_Remove tmp) (λ _ w2, held base k w w2 ∧ env w1 w2) w1.
Proof using Type.
  intros Hw. destruct (writing_plain _ _ Hw) as (Hp & _). destruct Hw as (Hh & Hns & _).
  eapply wp_mono; [apply (wp_remove_unseen base k); [apply Hh|done|done]|].
  intros r w2 Hh2. split; [by eapply held_trans|apply Hh2].
Qed.

Lemma wp_writing_noop d w1 : writing base k tmp f0 w d w1 →
  wp (f_noop tmp) (λ r w2, writing base k tmp f0 w d w2 ∧ env w1 w2 ∧ (is_ok r = false → faulted w w2)) w1.
Proof using Type.
  intros Hw. eapply wp_mono; [apply wp_f_noop|]. intros r w2 [Hsm Hr].
  split; [by eapply writing_same|]. split; [apply Hsm|]. intros Hx. by eapply writing_faulted; [|apply Hr].
Qed.

Lemma wp_writing_write d data w1 : writing base k tmp f0 w d w1 →
  wp (f_Write tmp data) (λ r w2, env w1 w2 ∧
    match r with
    | Ok _ => writing base k tmp f0 w (d +:+ data) w2
    | Err _ => faulted w w2 ∧ ∃ d', writing base k tmp f0 w d' w2
    end) w1.
Proof using Type.
  intros Hw. destruct (writing_plain _ _ Hw) as (Hp & Hn & Hd).
  destruct (Hw) as (Hh & Hns & (t & Hf) & Hq). destruct (Hh) as (He & Hs & Ha & Hut).
  assert (∀ w2 d', env w1 w2 → w_fs w2 = <[tmp := NFile d' (w_now w1)]> (w_fs w1) →
    writing base k tmp f0 w d' w2) as Hnew.
  { intros w2 d' He2 H2. split; [|split; [done|split]].
    - eapply held_trans; [exact Hh|]. split; [done|]. rewrite H2.
      split; [|split; [by apply agree_insert|by apply untouched_insert]].
      apply store_insert_file; [done..|]. by rewrite Hf.
    - exists (w_now w1). by rewrite H2, lookup_insert_eq.
    - intros q Hne. rewrite H2, lookup_insert_ne by done. by apply Hq. }
  eapply wp_mono; [by apply (wp_write _ _ _ d t)|]. intros [[]|e] w2 [He2 H2].
  - split; [done|]. by apply Hnew.
  - split; [done|]. destruct H2 as [Hft [d' H2]]. split; [by eapply writing_faulted|].
    exists d'. by apply Hnew.
Qed.

Lemma wp_writing_read d w1 : writing base k tmp f0 w d w1 →
  wp (f_ReadAll tmp) (λ r w2, writing base k tmp f0 w d w2 ∧ env w1 w2 ∧
    (r = Ok d ∨ ∃ e, r = Err e ∧ faulted w w2)) w1.
Proof using Type.
  intros Hw. destruct (Hw) as (_ & _ & (t & Hf) & _).
  eapply wp_mono; [by apply wp_readall; eapply file_lookup|]. intros r w2 [Hsm Hr].
  split; [by eapply writing_same|]. split; [apply Hsm|].
  destruct Hr as [->|(e & -> & Hft & _)]; [by left|right]. exists e. split; [done|].
  by eapply writing_faulted.
Qed.

(** Publication: the temporary file replaces [p]. *)
Lemma wp_writing_rename d w1 p : writing base k tmp f0 w d w1 →
  Forall plain p → p ≠ [] → seen base p → seen base (parent p) → p `prefix_of` k → f0 !! parent p = Some NDir →
  wp (os_Rename tmp p) (λ r w2, env w w2 ∧
    match r with
    | Ok _ => store_fs base (w_fs w2) ∧ updated base (w_fs w) (w_fs w2) p (Some d) ∧
              untouched base k (w_fs w) (w_fs w2)
    | Err e => writing base k tmp f0 w d w2 ∧ (faulted w w2 ∨ f0 !! p = Some NDir)
    end) w1.
Proof using Type.
  intros Hw Hp Hn Hseen Hseend Hk Hd. destruct (Hw) as (Hh & Hns & (t & Hf) & Hq).
  destruct (Hh) as (He & Hs & Ha & Hut). pose proof (sf_clean _ _ Hs) as Hc.
  assert (p ≠ tmp) as Hne by by intros ->.
  rewrite <- Hq in Hd by (intros E; by rewrite E in Hseend). rewrite <- (Hq p Hne).
  destruct (decide (w_fs w1 !! p = Some NDir)) as [Hdir|Hdir].
  - assert (∀ w2, same w1 w2 → env w w2 ∧ writing base k tmp f0 w d w2) as Hkeep.
    { intros w2 Hsm. split; [transitivity w1; [done|apply Hsm]|by eapply writing_same]. }
    apply wp_syscall; [intros w2 ???; destruct (Hkeep w2); [done|]; split_and!; auto|].
    intros w2 He2 Hf2 _ _. unfold rename_fs. rewrite Hf2.
    rewrite (locate_found _ tmp) by (done || by eapply writing_plain). simpl. rewrite Hf.
    rewrite (locate_found _ p) by done. simpl. rewrite Hdir. simpl.
    destruct (Hkeep w2); [done|]. auto.
  - eapply wp_mono; [by apply (wp_rename_file _ _ d t)|]. intros [[]|e] w2 [He2 H2].
    + split; [by etransitivity|]. rewrite H2. split; [|split].
      * apply store_insert_file; [by eapply store_delete_file|done|done|..];
          rewrite lookup_delete_ne; try done. congruence.
      * split; [by rewrite file_insert, decide_True|]. intros q Hqs Hqp.
        rewrite file_insert, decide_False, file_delete, decide_False by (done || by intros ->).
        by apply Ha.
      * etransitivity; [exact Hut|]. intros q Hqs Hqk.
        rewrite lookup_insert_ne, lookup_delete_ne; [done|by intros ->|by intros ->].
    + destruct H2 as [H2 [Hft ->]]. split; [by etransitivity|].
      split; [by eapply writing_same|]. left. by eapply faulted_r.
Qed.

End writing.

Lemma wp_fail_after {A B} (m : M B) (e : error) Q w :
  wp m (λ _ w', Q (Err e) w') w → wp (fail_after m e : M (result error A)) Q w.
Proof. intros H. apply wp_bind. eapply wp_mono; [exact H|]. by intros b w'. Qed.

(** ** Paths of good keys *)

Lemma tmp_plain c : plain (".tmp-" +:+ c).
Proof. by split_and!. Qed.
Lemma trash_plain c : plain (".trash-" +:+ c).
Proof. by split_and!. Qed.

Section key.
Context (base : path) (l : list string) (Hg : good_key l).

Lemma key_nonempty : base ++ l ≠ [].
Proof using Hg. destruct Hg as [Hn _]. by intros [_ ?]%app_eq_nil. Qed.

Lemma key_parent : parent (base ++ l) = base ++ removelast l.
Proof using Hg. destruct Hg as [Hn _]. by apply removelast_app. Qed.

Lemma key_plain f : store_fs base f → Forall plain (base ++ l).
Proof using Hg. intros Hs. apply Forall_app. split; [by eapply sf_base|by apply good_plain, Hg]. Qed.

Lemma key_seen : seen base (base ++ l).
Proof using Hg. apply good_seen, Hg. Qed.

Lemma removelast_good : Forall key_part (removelast l).
Proof using Hg.
  destruct Hg as [Hn H]. rewrite (app_removelast_last "" Hn) in H. by apply Forall_app in H as [? _].
Qed.

Lemma key_parent_seen : seen base (parent (base ++ l)).
Proof using Hg. rewrite key_parent. apply good_seen, removelast_good. Qed.

Lemma tmp_unseen c : HasPrefix c ".tmp-" = true → ¬ seen base (parent (base ++ l) ++ [c]).
Proof using Hg.
  intros Hc. rewrite key_parent, <- app_assoc. apply hidden_unseen. unfold hidden. by rewrite Hc.
Qed.

(** What stops a write to the key besides faults: a file on the way or a
    directory in its place. *)
Definition blocked (f : fs) : Prop :=
  ¬ way f (parent (base ++ l)) ∨ f !! (base ++ l) = Some NDir.

(** Making the directory of the key. *)
Lemma wp_key_dir w :
  store_fs base (w_fs w) →
  wp (os_MkdirAll (parent (base ++ l))) (λ r w', held base (base ++ l) w w' ∧
    (w_fs w' !! (base ++ l) = w_fs w !! (base ++ l) ∧
     ∀ q n, w_fs w !! q = Some n → w_fs w' !! q = Some n) ∧
    match r with
    | Ok _ => w_fs w' !! parent (base ++ l) = Some NDir
    | Err _ => faulted w w' ∨ blocked (w_fs w)
    end) w.
Proof using Hg.
  intros Hs. eapply wp_mono; [apply wp_mkdirall; [apply Hs|by eapply plain_parent, key_plain]|].
  intros r w1 (He & Hc & Hx & Hr). split.
  - split; [done|]. split.
    + rewrite key_parent in Hx.
      eapply store_extends; [done|by apply good_visible, removelast_good|done|done].
    + split; [by eapply agree_extends|]. eapply untouched_extends; [apply parent_prefix|exact Hx].
  - split; [split; [|intros q n; by eapply extends_lookup]|].
    + destruct (Hx (base ++ l)) as [?|(_ & _ & [x Hpre])]; [done|].
      pose proof (f_equal length (parent_base (base ++ l) key_nonempty)) as Hlen.
      apply (f_equal length) in Hpre. rewrite !length_app in *. simpl in *. lia.
    + destruct r; [done|]. destruct Hr as [?|Hw]; [by left|right; by left].
Qed.

End key.

(** ** Put *)

Section put.
Context (s : Store) (l : list string) (Hg : good_key l).
#[local] Abbreviation base := (basePath s).
#[local] Abbreviation p := (basePath s ++ l).

(** All or nothing. *)
Definition put_post (data : string) (w : world) (r : result error unit) (w' : world) : Prop :=
  store_fs base (w_fs w') ∧ untouched base p (w_fs w) (w_fs w') ∧
  match r with
  | Ok _ => updated base (w_fs w) (w_fs w') p (Some data)
  | Err _ => agree base (w_fs w) (w_fs w') ∧ (faulted w w' ∨ blocked base l (w_fs w))
  end.

Lemma put_failed data w w1 e :
  held base p w w1 → faulted w w1 ∨ blocked base l (w_fs w) → env w w1 ∧ put_post data w (Err e) w1.
Proof using Type. intros (? & ? & ? & ?) Hx. by split_and!. Qed.

(** Giving up: the temporary file is removed, or left behind invisible. *)
Lemma wp_put_discard data tmp f0 w d w1 e :
  writing base p tmp f0 w d w1 → faulted w w1 ∨ blocked base l (w_fs w) →
  wp (fail_after (os_Remove tmp) e) (λ r w2, env w w2 ∧ put_post data w r w2) w1 ∧
  wp (fail_after (_ ← f_Close tmp; os_Remove tmp) e) (λ r w2, env w w2 ∧ put_post data w r w2) w1.
Proof using Type.
  intros Hw Hx.
  assert (∀ w1, writing base p tmp f0 w d w1 → faulted w w1 ∨ blocked base l (w_fs w) →
    wp (os_Remove tmp) (λ _ w2, env w w2 ∧ put_post data w (Err e) w2) w1) as Hr.
  { intros w' Hw' Hx'. eapply wp_mono; [by eapply wp_writing_remove|]. intros _ w2 [Hh He2].
    apply put_failed; [done|]. destruct Hx' as [?|?]; [left; by eapply faulted_l|by right]. }
  split; apply wp_fail_after; [by apply Hr|]. apply wp_bind.
  eapply wp_mono; [by eapply wp_writing_noop|]. intros _ w2 (Hw2 & He2 & _). apply Hr; [done|].
  destruct Hx as [?|?]; [left; by eapply faulted_l|by right].
Qed.

Lemma wp_write_and_rename data tmp f0 w w1 :
  writing base p tmp f0 w "" w1 → store_fs base (w_fs w) → f0 !! parent p = Some NDir →
  f0 !! p = w_fs w !! p →
  wp (write_and_rename tmp tmp p data) (λ r w2, env w w2 ∧ put_post data w r w2) w1.
Proof using Hg.
  intros Hw Hs Hd Hf0. unfold write_and_rename. apply wp_bind.
  eapply wp_mono; [by eapply wp_writing_write|]. intros [[]|e] w2 [_ H2].
  2:{ destruct H2 as [Hft [d' Hw2]]. eapply wp_put_discard; [exact Hw2|by left]. }
  apply wp_bind. eapply wp_mono; [by eapply wp_writing_noop|]. intros [[]|e] w3 (Hw3 & _ & Hft).
  2:{ eapply wp_put_discard; [exact Hw3|left; by apply Hft]. }
  apply wp_bind. eapply wp_mono; [by eapply wp_writing_noop|]. intros [[]|e] w4 (Hw4 & _ & Hft').
  2:{ eapply wp_put_discard; [exact Hw4|left; by apply Hft']. }
  apply wp_bind. eapply wp_mono.
  { eapply (wp_writing_rename _ _ _ _ _ _ _ p Hw4);
      [by eapply key_plain|by apply key_nonempty|by apply key_seen|by apply key_parent_seen|done|done]. }
  intros [[]|e] w5 [He5 H5].
  - apply wp_ret. split; [done|]. by destruct H5 as (? & ? & ?).
  - destruct H5 as [Hw5 H5]. eapply wp_put_discard; [exact Hw5|].
    destruct H5 as [?|H5]; [by left|right; right; congruence].
Qed.

(** [putUnlocked] on a good key. *)
Lemma wp_putUnlocked data w :
  store_fs base (w_fs w) →
  wp (putUnlocked s (Join l "/") data) (λ r w', env w w' ∧ put_post data w r w') w.
Proof using Hg.
  intros Hs. apply wp_try. eapply wp_mono; [by apply wp_resolve|]. intros [q|e] w1 [Hsm H1].
  2:{ apply put_failed; [by apply held_same|]. destruct H1 as [_ [?|?]]; [by left|right; by left]. }
  subst q. destruct (Hsm) as [He1 Hf1]. apply wp_try.
  eapply wp_mono; [apply (wp_key_dir base l Hg); by rewrite Hf1|].
  rewrite Hf1. intros r w2 (Hh2 & [Hp2 _] & H2).
  assert (held base p w w2) as Hh by exact (held_trans _ _ _ _ _ (held_same _ _ _ _ Hs Hsm) Hh2).
  destruct r as [[]|e].
  2:{ apply put_failed; [done|]. destruct H2 as [?|?]; [left; by eapply faulted_r|by right]. }
  destruct (Hh) as (He2 & Hs2 & _ & _).
  set (tmp := parent p ++ [".tmp-" +:+ base_name p]). apply wp_try.
  assert (parent tmp = parent p) as Epar by apply parent_app.
  assert (Forall plain tmp) as Htp.
  { apply Forall_app. split; [by eapply plain_parent, key_plain|].
    constructor; [apply tmp_plain|done]. }
  assert (tmp ≠ []) as Htn by by (unfold tmp; destruct (parent p)).
  assert (¬ seen base tmp) as Hns by by apply tmp_unseen.
  assert (w_fs w2 !! tmp ≠ Some NDir) as Hnd.
  { unfold tmp. rewrite (key_parent _ _ Hg). by apply (sf_tmp _ _ Hs2); [eexists|]. }
  eapply wp_mono; [apply wp_opentrunc; [apply Hs2|done|done]|]. intros [h|e] w3 [He3 H3].
  - destruct H3 as (-> & _ & _ & Hf3). apply (wp_write_and_rename _ _ (w_fs w2)); [|done..].
    eapply writing_start; [exact Hh|done|done|done|exact He3|by rewrite Epar|done|exact Hf3].
  - destruct H3 as [Hf3 H3]. rewrite Epar in H3.
    apply put_failed; [exact (held_trans _ _ _ _ _ Hh (held_same _ _ _ _ Hs2 (conj He3 Hf3)))|].
    left. destruct H3 as [?|[?|?]]; [by eapply faulted_r|done..].
Qed.

Lemma put_post_locks data w w1 r w2 w3 :
  same_but_locks w w1 → same_but_locks w2 w3 → put_post data w1 r w2 → put_post data w r w3.
Proof using Type.
  intros Hl Hl' (Hs & Hut & H). unfold put_post. rewrite (proj1 Hl), (proj1 Hl') in *.
  split; [done|]. split; [done|]. destruct r; [done|]. destruct H as [? [Hft|?]]; (split; [done|]); [left|by right].
  by apply (same_but_locks_faulted w w1 w2 w3).
Qed.

Lemma wp_Put data w :
  store_fs base (w_fs w) → unlocked w →
  wp (Put s (Join l "/") data) (λ r w', env w w' ∧ unlocked w' ∧ put_post data w r w') w.
Proof using Hg.
  intros Hs Hu. apply wp_with_lock; [done|..].
  - intros w1 Hl. eapply wp_mono; [apply wp_putUnlocked; by rewrite (proj1 Hl)|].
    intros r w2 [He H2]. split; [done|]. by eapply put_post_locks.
  - intros r w2 w3 Hl. by apply put_post_locks.
Qed.

End put.

(** ** Get, Exists *)

Lemma not_way_none f p : clean_fs f → ¬ way f (parent p) → f !! p = None.
Proof.
  intros Hc Hw. destruct (f !! p) as [n|] eqn:E; [|done]. destruct Hw.
  destruct (decide (p = [])) as [->|Hn]; [intros d x Ed; right|].
  - symmetry in Ed. apply app_eq_nil in Ed as [-> ->]. by apply cf_root.
  - apply clean_parent_dir in E; [|done|done]. by apply way_dir.
Qed.

Section read.
Context (s : Store) (l : list string) (Hg : good_key l) (w : world).
Context (Hs : store_fs (basePath s) (w_fs w)).
#[local] Abbreviation p := (basePath s ++ l).

Lemma wp_Get : wp (Get s (Join l "/")) (λ r w', same w w' ∧
  match r with
  | Ok d => file (w_fs w) p = Some d
  | Err e => faulted w w' ∧ os_IsNotExist e = false ∨
             file (w_fs w) p = None ∧
             (os_IsNotExist e = true ∧ w_fs w !! p = None ∨
              os_IsNotExist e = false ∧ blocked (basePath s) l (w_fs w))
  end) w.
Proof using Hg Hs.
  pose proof (sf_clean _ _ Hs) as Hc. apply wp_try. eapply wp_mono; [by apply wp_resolve|].
  intros [q|e] w1 [Hsm H1].
  - subst q. destruct (Hsm) as [He Hf].
    eapply wp_mono; [apply wp_readfile; [by rewrite Hf|by eapply key_plain]|]. rewrite Hf.
    intros [d|e] w2 [Hsm2 H2]; (split; [by transitivity w1|]); [done|].
    destruct H2 as [[Hft ->]|[[HN Hm]|[-> Hd]]].
    + left. split; [by eapply faulted_r|done].
    + right. split; [by apply file_none|]. destruct Hm as [->|[-> Hw]]; [by left|right].
      split; [done|by left].
    + right. split; [unfold file; by rewrite Hd|]. right. split; [done|by right].
  - split; [done|]. destruct H1 as [Hne H1]. unfold id. rewrite Hne.
    destruct H1 as [?|Hw]; [by left|right]. split; [apply file_none; by apply not_way_none|].
    right. split; [done|by left].
Qed.

Lemma wp_Exists : wp (Exists s (Join l "/")) (λ b w', same w w' ∧
  if b then w_fs w !! p ≠ None else faulted w w' ∨ w_fs w !! p = None) w.
Proof using Hg Hs.
  pose proof (sf_clean _ _ Hs) as Hc. apply wp_bind. eapply wp_mono; [by apply wp_resolve|].
  intros [q|e] w1 [Hsm H1].
  - subst q. destruct (Hsm) as [He Hf]. apply wp_bind.
    eapply wp_mono; [apply wp_stat; [by rewrite Hf|by eapply key_plain]|]. rewrite Hf.
    intros [n|e] w2 [Hsm2 H2]; apply wp_ret; (split; [by transitivity w1|]); simpl; [congruence|].
    destruct H2 as [[Hft ->]|[HN _]]; [left; by eapply faulted_r|by right].
  - apply wp_ret. split; [done|]. destruct H1 as [_ [?|?]]; [by left|right; by apply not_way_none].
Qed.

End read.

(** ** Delete *)

Lemma clean_empty_dirs_unfold base rdir :
  clean_empty_dirs base rdir =
    if bool_decide (reverse rdir = base) then mret ()
    else
      entries ← os_ReadDir (reverse rdir);
      match entries with
      | Ok [] => _ ← os_Remove (reverse rdir);
                 match rdir with [] => diverge | _ :: rdir' => clean_empty_dirs base rdir' end
      | _ => mret ()
      end.
Proof. by destruct rdir. Qed.

(** Removing a directory cannot be seen either. *)
Lemma wp_remove_dir base k p w :
  store_fs base (w_fs w) → Forall plain p → p ≠ base → p `prefix_of` k → w_fs w !! p = Some NDir →
  wp (os_Remove p) (λ _ w', held base k w w') w.
Proof.
  intros Hs Hp Hb Hk Hd. eapply wp_mono; [by apply wp_remove; [apply Hs|]|].
  intros [[]|e] w' (He & _ & H).
  - destruct H as (Hf & Hn & Hex & Hch). split; [done|]. rewrite Hf.
    split; [by apply store_delete|]. split.
    + intros q _. rewrite file_delete. destruct (decide (q = p)) as [->|]; [|done].
      unfold file. by rewrite Hd.
    + intros q _ Hq. rewrite lookup_delete_ne; [done|]. by intros ->.
  - destruct H as [Hf _]. by apply held_same.
Qed.

(** The loop ends at the root of the store at the latest, and what it removes
    cannot be seen. *)
Lemma wp_clean_empty_dirs base k l w :
  store_fs base (w_fs w) → Forall plain l → base ++ l `prefix_of` k →
  wp (clean_empty_dirs base (reverse (base ++ l))) (λ _ w', held base k w w') w.
Proof.
  revert w. induction l as [|c l IH] using rev_ind; intros w Hs Hl Hk;
    rewrite clean_empty_dirs_unfold, reverse_involutive.
  - rewrite app_nil_r, bool_decide_eq_true_2 by done. apply wp_ret. by apply held_same.
  - assert (base ++ l ++ [c] ≠ base) as Hne.
    { intros E. rewrite <- (app_nil_r base) in E at 2. apply app_inv_head in E. by destruct l. }
    assert (Forall plain (base ++ l ++ [c])) as Hp
      by (apply Forall_app; split; [by eapply sf_base|done]).
    rewrite bool_decide_eq_false_2 by done. apply wp_bind.
    eapply wp_mono; [by apply wp_readdir; [apply Hs|]|]. intros r w1 [Hsm H1].
    assert (held base k w w1) as Hh by by apply held_same.
    destruct r as [[|x es]|e]; [|by apply wp_ret|by apply wp_ret].
    destruct H1 as [Hd _]. destruct (Hsm) as [_ Hf]. apply wp_bind.
    eapply wp_mono; [apply (wp_remove_dir base k); rewrite ?Hf; done|]. intros r2 w2 Hh2.
    rewrite app_assoc, reverse_app. simpl.
    apply Forall_app in Hl as [Hl _].
    eapply wp_mono; [apply IH; [apply Hh2|done|]|].
    { etransitivity; [|exact Hk]. rewrite app_assoc. by eexists. } intros r3 w3 Hh3.
    exact (held_trans _ _ _ _ _ Hh (held_trans _ _ _ _ _ Hh2 Hh3)).
Qed.

Section delete.
Context (s : Store) (l : list string) (Hg : good_key l).
#[local] Abbreviation base := (basePath s).
#[local] Abbreviation p := (basePath s ++ l).

Definition delete_post (w : world) (r : result error unit) (w' : world) : Prop :=
  store_fs base (w_fs w') ∧ untouched base p (w_fs w) (w_fs w') ∧
  match r with
  | Ok _ => updated base (w_fs w) (w_fs w') p None
  | Err _ => agree base (w_fs w) (w_fs w') ∧ (faulted w w' ∨ blocked base l (w_fs w))
  end.

Lemma delete_post_locks w w1 r w2 w3 :
  same_but_locks w w1 → same_but_locks w2 w3 → delete_post w1 r w2 → delete_post w r w3.
Proof using Type.
  intros Hl Hl' (Hs & Hut & H). unfold delete_post. rewrite (proj1 Hl), (proj1 Hl') in *.
  split; [done|]. split; [done|]. destruct r; [done|]. destruct H as [? [Hft|?]]; (split; [done|]); [left|by right].
  by apply (same_but_locks_faulted w w1 w2 w3).
Qed.

Lemma wp_Delete w :
  store_fs base (w_fs w) → unlocked w →
  wp (Delete s (Join l "/")) (λ r w', env w w' ∧ unlocked w' ∧ delete_post w r w') w.
Proof using Hg.
  intros Hs Hu. apply wp_with_lock; [done| |intros r w2 w3 Hl; by apply delete_post_locks].
  intros w1 Hl. rewrite <- (proj1 Hl) in Hs.
  cut (wp (p0 ←! resolve s (Join l "/");
    rm ← os_Remove p0;
    let clean := clean_empty_dirs base (reverse (parent p0));; mret (Ok ()) in
    match rm with
    | Ok _ => clean
    | Err e => if os_IsNotExist e then clean else mret (Err e)
    end) (λ r w', env w1 w' ∧ delete_post w1 r w') w1).
  { intros H. eapply wp_mono; [exact H|]. intros r w2 [He H2]. split; [done|].
    by eapply delete_post_locks. }
  clear Hu Hl w. rename w1 into w. apply wp_try. eapply wp_mono; [by apply wp_resolve|].
  intros [q|e] w1 [Hsm H1].
  2:{ split; [apply Hsm|]. unfold delete_post. rewrite (proj2 Hsm).
      do 3 (split; [done|]). destruct H1 as [_ [?|?]]; [by left|right; by left]. }
  subst q. destruct (Hsm) as [He Hf]. cbv zeta. rewrite (key_parent _ _ Hg).
  assert (∀ w2, env w w2 → store_fs base (w_fs w2) → untouched base p (w_fs w) (w_fs w2) →
    updated base (w_fs w) (w_fs w2) p None →
    wp (clean_empty_dirs base (reverse (base ++ removelast l));; mret (Ok ()))
       (λ r w', env w w' ∧ delete_post w r w') w2) as Hclean.
  { intros w2 He2 Hs2 Hut Hup. apply wp_bind. eapply wp_mono.
    { apply (wp_clean_empty_dirs base p); [done|by apply good_plain, removelast_good|].
      rewrite <- (key_parent base _ Hg). apply parent_prefix. }
    intros r3 w3 Hh. apply wp_ret. split; [etransitivity; [exact He2|apply Hh]|].
    split; [apply Hh|]. split; [etransitivity; [exact Hut|apply Hh]|]. eapply updated_held; [by apply key_seen|exact Hup|exact Hh]. }
  apply wp_bind. eapply wp_mono; [apply wp_remove; [by rewrite Hf; apply Hs|by eapply key_plain]|].
  unfold remove_post. rewrite Hf. intros [[]|e] w2 (He2 & Hc2 & H2).
  - destruct H2 as (Hf2 & Hn & Hex & Hch). apply Hclean; [by etransitivity|..]; rewrite Hf2.
    + apply store_delete; try done. intros E. destruct Hg as [Hnl _].
      rewrite <- (app_nil_r base) in E at 2. by apply app_inv_head in E.
    + intros q _ Hq. rewrite lookup_delete_ne; [done|]. by intros <-.
    + split; [by rewrite file_delete, decide_True|]. intros q _ Hq. by rewrite file_delete, decide_False.
  - destruct H2 as [Hf2 H2]. assert (same w w2) as Hsm2 by (split; [by etransitivity|done]).
    destruct (os_IsNotExist e) eqn:En.
    + apply Hclean; [by etransitivity|by rewrite Hf2..|]. rewrite Hf2. split; [|done].
      destruct H2 as [[_ ->]|[[HN _]|[Hne _]]]; [done|by apply file_none|].
      destruct e as [[]| | | | |]; done.
    + apply wp_ret. split; [by etransitivity|]. unfold delete_post. rewrite Hf2.
      do 3 (split; [done|]). destruct H2 as [[Hft _]|[[HN [->|[_ Hw]]]|[_ Hd]]];
        [left; by eapply faulted_r|done|right; by left|right; by right].
Qed.

End delete.

(** ** PutStreamImmutable *)

Lemma stake_all n s : slen s ≤ n → stake n s = s.
Proof.
  revert s. induction n as [|n IH]; intros [|a s] H; simpl in *; try done; [lia|].
  rewrite IH by lia. done.
Qed.

Lemma copy_limit_wrap maxSize : (0 ≤ maxSize < 2^63 - 1)%Z → int64_wrap (maxSize + 1) = (maxSize + 1)%Z.
Proof. intros H. unfold int64_wrap. rewrite Z.mod_small by lia. lia. Qed.

Lemma wp_createtemp base k dir prefix w :
  store_fs base (w_fs w) → w_fs w !! dir = Some NDir → (∀ n : N, plain (prefix +:+ pretty n)) →
  (∀ n : N, ¬ seen base (dir ++ [prefix +:+ pretty n])) →
  wp (os_CreateTemp dir prefix) (λ r w', env w w' ∧
    match r with
    | Ok (tmp, h) => tmp = h ∧ (∃ n : N, h = dir ++ [prefix +:+ pretty n]) ∧
                     writing base k tmp (w_fs w) w "" w' ∧ w_fs w !! tmp = None
    | Err _ => same w w' ∧ (faulted w w' ∨ ¬ temp_room w dir prefix)
    end) w.
Proof.
  intros Hs Hd Hpl Hns. pose proof (sf_clean _ _ Hs) as Hc.
  eapply wp_mono; [apply wp_create_temp; [done|by eapply cf_plain|done]|].
  intros [[tmp h]|e] w' [He H]; (split; [done|]).
  - destruct H as (-> & n & -> & HN & _ & Hf). split; [done|]. split; [by exists n|]. split; [|done].
    apply (writing_start _ _ _ _ _ _ (w_now w)); [by apply held_same|done| | |done| |by rewrite HN|done].
    + apply Forall_app. split; [by eapply cf_plain|by constructor].
    + by destruct dir.
    + by rewrite parent_app.
  - destruct H as [Hf [?|[?|Hroom]]]; (split; [done|]); [by left|done|right].
    intros Hr. apply Hroom. by apply (temp_room_at w).
Qed.

Section immutable.
Context (s : Store) (r : reader) (maxSize : Z).
Context (validate : option (string → Z → result error unit)) (key : string → list string).
#[local] Abbreviation base := (basePath s).
#[local] Abbreviation D := (r_data r).
#[local] Abbreviation size := (Z.of_nat (slen (r_data r))).
#[local] Abbreviation p := (basePath s ++ key (r_data r)).

(** Reasons to refuse an upload, apart from I/O. *)
Definition acceptable : Prop :=
  r_err r = None ∧ (size ≤ maxSize)%Z ∧
  match validate with Some v => v D size = Ok () | None => True end.

(** The object is published whole under its key, or was there before. *)
Definition published (w : world) (st : stored) (w' : world) : Prop :=
  st_size st = size ∧ st_key st = Join (key D) "/" ∧
  if st_existed st then agree base (w_fs w) (w_fs w') ∧ w_fs w !! p ≠ None
  else w_fs w !! p = None ∧ updated base (w_fs w) (w_fs w') p (Some D).

Definition publish_post (w : world) (res : result error stored) (w' : world) : Prop :=
  store_fs base (w_fs w') ∧ untouched base p (w_fs w) (w_fs w') ∧
  match res with
  | Ok st => published w st w'
  | Err e => agree base (w_fs w) (w_fs w') ∧ (faulted w w' ∨ blocked base (key D) (w_fs w))
  end.

Definition immutable_post (w : world) (res : result error stored) (w' : world) : Prop :=
  store_fs base (w_fs w') ∧ untouched base p (w_fs w) (w_fs w') ∧
  match res with
  | Ok st => acceptable ∧ published w st w'
  | Err e =>
      agree base (w_fs w) (w_fs w') ∧
      (faulted w w' ∨ ¬ acceptable ∨ blocked base (key D) (w_fs w) ∨
       ¬ temp_room w base ".tmp-upload-")
  end.

Lemma wp_copy_limited tmp f0 w w1 :
  (0 ≤ maxSize < 2^63 - 1)%Z → writing base p tmp f0 w "" w1 →
  wp (copy_limited tmp r (int64_wrap (maxSize + 1))) (λ res w2,
    (∃ d, writing base p tmp f0 w d w2) ∧
    match res with
    | Ok n => n = Z.of_nat (slen (stake (Z.to_nat (maxSize + 1)) D)) ∧
              ((n ≤ maxSize)%Z → r_err r = None ∧ n = size ∧ writing base p tmp f0 w D w2)
    | Err e => faulted w w2 ∨ r_err r = Some e
    end) w1.
Proof using Type.
  intros Hm Hw. rewrite copy_limit_wrap by done. unfold copy_limited.
  set (n := Z.to_nat (maxSize + 1)). apply wp_try.
  eapply wp_mono; [by eapply wp_writing_write|]. intros [[]|e] w2 [_ H2].
  2:{ destruct H2 as [? [d' ?]]. split; [by exists d'|by left]. }
  rewrite sapp_nil_l in H2.
  assert (∃ d, writing base p tmp f0 w d w2) as Hex by by eexists.
  assert ((Z.of_nat (slen (stake n D)) ≤ maxSize)%Z → slen D < n) as Hlt
    by (rewrite slen_stake; unfold n; lia).
  assert (slen D < n → stake n D = D) as Hall by (intros; apply stake_all; lia).
  destruct (r_err r) as [e|] eqn:Er.
  - destruct (slen D <? n) eqn:Elt; to_props; apply wp_ret; (split; [done|]); [by right|].
    split; [done|]. intros Hle. specialize (Hlt Hle). lia.
  - apply wp_ret. split; [done|]. split; [done|]. intros Hle.
    assert (stake n D = D) as E by auto. by rewrite E in *.
Qed.

Lemma wp_run_validate tmp f0 w w1 :
  writing base p tmp f0 w D w1 →
  wp (match validate with None => mret (Ok ()) | Some v => run_validate v tmp size end) (λ res w2,
    writing base p tmp f0 w D w2 ∧
    match res with
    | Ok _ => match validate with Some v => v D size = Ok () | None => True end
    | Err e => faulted w w2 ∨ ¬ match validate with Some v => v D size = Ok () | None => True end
    end) w1.
Proof using Type.
  intros Hw. destruct validate as [v|]; [|by apply wp_ret]. apply wp_bind.
  eapply wp_mono; [by eapply wp_writing_read|]. intros res w2 (Hw2 & _ & H2). apply wp_ret.
  split; [done|]. destruct H2 as [->|(e & -> & Hft)]; [|by left]. destruct (v D size) as [[]|e]; [done|]. by right.
Qed.

(** Under the lock of the key. *)
Lemma wp_publish tmp w :
  good_key (key D) → store_fs base (w_fs w) → ¬ seen base tmp →
  (∃ t, w_fs w !! tmp = Some (NFile D t)) →
  wp (publish_immutable tmp tmp p size (Join (key D) "/")) (λ res w',
    env w w' ∧ publish_post w res w') w.
Proof using Type.
  intros Hg Hs Hns Ht. pose proof (sf_clean _ _ Hs) as Hc.
  assert (∀ w1 e, held base p w w1 → faulted w w1 ∨ blocked base (key D) (w_fs w) →
    env w w1 ∧ publish_post w (Err e) w1) as Hfail.
  { intros w1 e (? & ? & ? & ?) Hx. by split_and!. }
  apply wp_bind. eapply wp_mono; [apply wp_stat; [done|by eapply key_plain]|].
  intros [n|e] w1 [Hsm H1].
  { apply wp_ret. destruct (Hsm) as [He Hf]. split; [done|]. unfold publish_post, published. rewrite Hf.
    split; [done|]. simpl. split_and!; [done..|]. congruence. }
  assert (held base p w w1) as Hh1 by by apply held_same.
  destruct (os_IsNotExist e) eqn:En; simpl.
  2:{ apply wp_ret. apply Hfail; [done|].
      destruct H1 as [[Hft _]|[_ [->|[_ Hw]]]]; [by left|done|right; by left]. }
  assert (w_fs w !! p = None) as HN by (destruct H1 as [[_ ->]|[HN _]]; done).
  destruct (Hsm) as [He1 Hf1]. apply wp_try.
  eapply wp_mono; [apply (wp_key_dir base (key D) Hg); by rewrite Hf1|].
  rewrite Hf1. intros rd w2 (Hh2 & [Hp2 Hkeep] & H2).
  pose proof (held_trans _ _ _ _ _ Hh1 Hh2) as Hh.
  destruct rd as [[]|e2].
  2:{ apply Hfail; [done|]. destruct H2 as [?|?]; [left; by eapply faulted_r|by right]. }
  assert (writing base p tmp (w_fs w2) w D w2) as Hw2.
  { split; [done|]. split; [done|]. split; [|done]. destruct Ht as [t Ht]. exists t. by apply Hkeep. }
  apply wp_try. eapply wp_mono; [by eapply wp_writing_noop|]. intros [[]|e3] w3 (Hw3 & _ & Hft).
  2:{ apply Hfail; [apply Hw3|left; by apply Hft]. }
  apply wp_try. eapply wp_mono.
  { eapply (wp_writing_rename _ _ _ _ _ _ _ p Hw3);
      [by eapply key_plain|by apply key_nonempty|by apply key_seen|by apply key_parent_seen|done|done]. }
  intros [[]|e4] w4 [He4 H4].
  - apply wp_ret. split; [done|]. destruct H4 as (Hs4 & Hup & ?). by split_and!.
  - destruct H4 as [Hw4 H4]. apply Hfail; [apply Hw4|].
    destruct H4 as [?|H4]; [by left|]. rewrite Hp2, HN in H4. done.
Qed.

Lemma publish_post_locks w w1 r0 w2 w3 :
  same_but_locks w w1 → same_but_locks w2 w3 → publish_post w1 r0 w2 → publish_post w r0 w3.
Proof using Type.
  intros Hl Hl' (Hs & Hut & H). unfold publish_post, published in *. rewrite (proj1 Hl), (proj1 Hl') in *.
  split; [done|]. split; [done|]. destruct r0; [done|]. destruct H as [? [Hft|?]]; (split; [done|]); [left|by right].
  by apply (same_but_locks_faulted w w1 w2 w3).
Qed.

Lemma seen_prefix q x : seen base (q ++ x) → seen base q.
Proof using Type.
  intros H r0 ->. specialize (H (r0 ++ x)). rewrite <- app_assoc in H.
  specialize (H eq_refl). by apply Forall_app in H as [? _].
Qed.

(** From the temporary file's creation to the publication nothing that matters
    to it changed. *)
Lemma publish_post_start tmp d w w1 res w2 :
  good_key (key D) → writing base p tmp (w_fs w) w d w1 → env w1 w2 →
  publish_post w1 res w2 → publish_post w res w2.
Proof using Type.
  intros Hg (Hh & Hns & _ & Hq) He (Hs & Hut & H).
  assert (∀ q x, p = q ++ x → w_fs w1 !! q = w_fs w !! q) as Hpre.
  { intros q x E. apply Hq. intros ->. apply Hns. apply (seen_prefix tmp x). rewrite <- E.
    by apply key_seen. }
  assert (w_fs w1 !! p = w_fs w !! p) as Hp by (apply (Hpre _ []); by rewrite app_nil_r).
  destruct Hh as (Hew & _ & Ha & Hut1). split; [done|]. split; [by etransitivity|].
  destruct res as [st|e].
  - unfold published in *. rewrite Hp in H. destruct H as (? & ? & H). split; [done|]. split; [done|].
    destruct (st_existed st).
    + destruct H as [H ?]. split; [by etransitivity|done].
    + destruct H as [? H]. split; [done|by apply (updated_proper _ _ _ Ha _ _ eq_refl _ _ eq_refl _ _ eq_refl)].
  - destruct H as [H Hx]. split; [by etransitivity|]. destruct Hx as [?|[Hw|Hd]].
    + left. by eapply faulted_r.
    + right. left. intros Hw'. apply Hw. intros q x Eq. rewrite (Hpre q (x ++ [base_name p])).
      * by eapply Hw'.
      * rewrite app_assoc, <- Eq. by apply parent_base, key_nonempty.
    + right. right. congruence.
Qed.

Lemma immutable_post_held w res w1 w2 :
  good_key (key D) → immutable_post w res w1 → held base p w1 w2 → immutable_post w res w2.
Proof using Type.
  intros Hg (Hs & Hut & H) Hh. destruct (Hh) as (He & Hs2 & Ha & Hut2).
  split; [done|]. split; [by etransitivity|]. destruct res as [st|e].
  - destruct H as [? (? & ? & H)]. split; [done|]. split; [done|]. split; [done|].
    destruct (st_existed st); destruct H as [H ?]; [split; [by etransitivity|done]|split; [done|]].
    eapply updated_held; [by apply key_seen|done|done].
  - destruct H as [H Hx]. split; [by etransitivity|].
    destruct Hx as [?|?]; [left; by eapply faulted_l|by right].
Qed.

Lemma immutable_failed tmp d w w1 e :
  writing base p tmp (w_fs w) w d w1 →
  faulted w w1 ∨ ¬ acceptable ∨ blocked base (key D) (w_fs w) →
  env w w1 ∧ immutable_post w (Err e) w1.
Proof using Type. intros ((? & ? & ? & ?) & _) Hx. do 4 (split; [done|]). tauto. Qed.

(** The body, before the deferred clean-up. *)
Lemma wp_immutable_body tmp w w1 :
  good_key (key D) → unlocked w → (0 ≤ maxSize < 2^63 - 1)%Z →
  writing base p tmp (w_fs w) w "" w1 →
  wp (_ ←! f_Chmod tmp wrapping "chmod temp";
      n ←! copy_limited tmp r (int64_wrap (maxSize + 1)) wrapping "copy";
      if (maxSize <? n)%Z then mret (Err (EUploadTooLarge maxSize))
      else
        _ ←! f_Sync tmp wrapping "sync";
        _ ←! f_Seek tmp wrapping "seek temp";
        _ ←! match validate with None => mret (Ok ()) | Some v => run_validate v tmp n end;
        let destinationKey := Join (key (stake (Z.to_nat n) D)) "/" in
        destination ←! resolve s destinationKey;
        with_lock destinationKey (publish_immutable tmp tmp destination n destinationKey))
     (λ res w2, env w w2 ∧ immutable_post w res w2) w1.
Proof using Type.
  intros Hg Hu Hm Hw1. apply wp_try.
  eapply wp_mono; [by eapply wp_writing_noop|]. intros [[]|e] w2 (Hw2 & _ & Hft).
  2:{ apply (immutable_failed _ _ _ _ _ Hw2). left. by apply Hft. }
  apply wp_try. eapply wp_mono; [by eapply wp_copy_limited|]. intros [n|e] w3 ([d Hw3] & H3).
  2:{ apply (immutable_failed _ _ _ _ _ Hw3). destruct H3 as [?|H3]; [by left|right; left].
      intros [? _]. congruence. }
  destruct H3 as [En H3]. destruct (maxSize <? n)%Z eqn:Elt; to_props.
  { apply wp_ret. apply (immutable_failed _ _ _ _ _ Hw3). right. left. intros (_ & Hle & _).
    rewrite En, slen_stake in Elt. lia. }
  clear d Hw3. destruct (H3 Elt) as (Her & -> & Hw3).
  apply wp_try. eapply wp_mono; [by eapply wp_writing_noop|]. intros [[]|e] w4 (Hw4 & _ & Hft4).
  2:{ apply (immutable_failed _ _ _ _ _ Hw4). left. by apply Hft4. }
  apply wp_try. eapply wp_mono; [by eapply wp_writing_noop|]. intros [[]|e] w5 (Hw5 & _ & Hft5).
  2:{ apply (immutable_failed _ _ _ _ _ Hw5). left. by apply Hft5. }
  apply wp_try. eapply wp_mono; [by eapply wp_run_validate|]. intros [[]|e] w6 (Hw6 & H6).
  2:{ apply (immutable_failed _ _ _ _ _ Hw6). destruct H6 as [?|H6]; [by left|right; left].
      by intros (_ & _ & ?). }
  assert (acceptable) as Hacc by done. cbv zeta. rewrite Nat2Z.id, stake_all by done.
  assert (∀ w7 res w8, writing base p tmp (w_fs w) w D w7 → env w7 w8 →
    publish_post w7 res w8 → env w w8 ∧ immutable_post w res w8) as Hend.
  { intros w7 res w8 Hw7 He H8. split; [etransitivity; [apply Hw7|done]|].
    apply (publish_post_start tmp D w) in H8; [|done..].
    destruct H8 as (? & ? & H8). do 2 (split; [done|]). destruct res; [done|]. tauto. }
  destruct (Hw6) as ((He6 & Hs6 & _) & _). apply wp_try.
  eapply wp_mono; [by apply wp_resolve|]. intros res w7 [Hsm H7].
  pose proof (writing_same _ _ _ _ _ _ _ _ Hw6 Hsm) as Hw7. destruct res as [q|e].
  2:{ apply (Hend w6); [done|apply Hsm|]. unfold publish_post. rewrite (proj2 Hsm).
      do 3 (split; [done|]). destruct H7 as [_ [?|?]]; [by left|right; by left]. }
  subst q. destruct (Hw7) as ((He7 & Hs7 & _) & Hns & _ & _). eapply wp_mono.
  { apply (wp_with_lock _ _ (publish_post w7)).
    - by eapply env_unlocked.
    - intros w8 Hl. rewrite <- (proj1 Hl) in Hs7.
      eapply wp_mono; [apply wp_publish; [done|done|done|rewrite (proj1 Hl); apply Hw7]|].
      intros r1 w9 [? ?]. split; [done|]. by eapply publish_post_locks.
    - intros r1 w8 w9 Hl. by apply publish_post_locks. }
  intros res w8 (He8 & _ & H8). by apply (Hend w7).
Qed.

Lemma wp_PutStreamImmutable w :
  good_key (key D) → store_fs base (w_fs w) → unlocked w → (0 ≤ maxSize < 2^63 - 1)%Z →
  wp (PutStreamImmutable s r maxSize validate (λ d, Join (key d) "/")) (λ res w',
    env w w' ∧ unlocked w' ∧ immutable_post w res w') w.
Proof using Type.
  intros Hg Hs Hu Hm.
  cut (wp (PutStreamImmutable s r maxSize validate (λ d, Join (key d) "/")) (λ res w',
    env w w' ∧ immutable_post w res w') w).
  { intros H. eapply wp_mono; [exact H|]. intros res w' [He ?].
    split; [done|]. split; [by eapply env_unlocked|done]. }
  apply wp_try. eapply wp_mono.
  { apply (wp_createtemp base p); [done|apply (sf_root _ _ Hs)|intros n; apply tmp_plain|].
    intros n. apply (hidden_unseen base []). done. }
  intros [[tmp h]|e] w1 [He1 H1].
  - destruct H1 as (-> & _ & Hw1 & _). apply wp_bind.
    eapply wp_mono; [by apply wp_immutable_body|]. intros res w2 [He2 H2].
    apply wp_bind, wp_bind. eapply wp_mono; [apply wp_f_noop|]. intros _ w3 [Hsm3 _].
    destruct (writing_plain _ _ _ _ _ _ _ Hw1) as [Hpl _]. destruct Hw1 as (_ & Hns & _).
    eapply wp_mono; [apply (wp_remove_unseen base p); [by rewrite (proj2 Hsm3); apply H2|done|done]|].
    intros r0 w4 Hh4. apply wp_ret.
    assert (held base p w2 w4) as Hh by (eapply held_trans; [by apply held_same; [apply H2|]|done]).
    split; [etransitivity; [exact He2|apply Hh]|]. by eapply immutable_post_held.
  - destruct H1 as [Hsm H1]. split; [done|]. unfold immutable_post. rewrite (proj2 Hsm).
    do 3 (split; [done|]). tauto.
Qed.

End immutable.
