(* ===== verification/StageFacts.v ===== *)
(** * Staged deletion of a version directory

    [StageDeleteTree] moves a tree to a trash name; [rollback] moves it back
    and [commit] erases it. *)

From S2P Require Import Prelude GoString GoPath Os OsFacts Store StoreFacts.

(** ** Keys have no trailing slash *)

Lemma no_char_ends_not c t : t ≠ "" → no_char c t → ends_not c t.
Proof.
  induction t as [|a t IH]; [done|]. intros _ [Ha Ht]%no_char_cons.
  destruct t as [|b t]; [by exists "", a|].
  destruct IH as (u & x & E & Hx); [done|done|]. exists (String a u), x. by rewrite E.
Qed.

Lemma good_ends l : good_key l → ends_not "/" (Join l "/").
Proof.
  intros [Hn H]. induction H as [|c l ((Hc & _) & Hs & _) H IH]; [done|].
  destruct l as [|d l]; [by apply no_char_ends_not|].
  rewrite Join_cons by done. by apply ends_not_app, ends_not_app, IH.
Qed.

Lemma TrimSuffix_good l : good_key l → TrimSuffix (Join l "/") "/" = Join l "/".
Proof.
  intros Hg. unfold TrimSuffix. destruct (HasSuffix (Join l "/") "/") eqn:E; [|done].
  apply HasSuffix_iff in E as [t E]. destruct (good_ends l Hg) as (u & a & Eu & Ha).
  rewrite Eu in E. by apply sapp_inj_suffix in E as [_ [= ->]].
Qed.

(** ** Trees *)

(** [q] lies at or below [p]. *)
Lemma move_back f p q :
  clean_fs f → f !! q = None → ¬ p `prefix_of` q → ¬ q `prefix_of` p →
  move q p (move p q f) = f.
Proof.
  intros Hc HN Hpq Hqp. apply map_eq. intros x. apply option_eq. intros n.
  rewrite lookup_move by done. setoid_rewrite lookup_move; [|done..]. split.
  - intros [(r & -> & [(r' & E & H)|(_ & Hx & _)])|(Hx1 & Hx2 & [(r & -> & _)|(_ & _ & H)])].
    + by apply app_inv_head in E as ->.
    + destruct Hx. by eexists.
    + destruct Hx1. by eexists.
    + done.
  - intros H. destruct (decide (p `prefix_of` x)) as [[r ->]|Hpx].
    + left. exists r. split; [done|]. left. by exists r.
    + assert (¬ q `prefix_of` x) by (intros Hx; by apply (prefix_exists f q x n) in Hx).
      right. split_and!; [done|done|]. right. done.
Qed.

Section stage.
Context (s : Store) (l : list string) (Hg : good_key l).
#[local] Abbreviation base := (basePath s).
#[local] Abbreviation p := (basePath s ++ l).

(** The name a staged tree is moved to. *)
Definition trash_name (n : N) : path :=
  parent p ++ [(".trash-" +:+ base_name p +:+ "-") +:+ pretty n].

Definition stage_prefix : string := ".trash-" +:+ base_name p +:+ "-".

(** On success the tree has moved, and nothing else changed at all; on failure
    no file changed (an empty marker may be left). *)
Definition stage_post (w : world) (r : result error staged) (w' : world) : Prop :=
  match r with
  | Ok d => ∃ n, d = mkStaged p (trash_name n) ∧ w_fs w !! p ≠ None ∧
              w_fs w !! trash_name n = None ∧ w_fs w' = move p (trash_name n) (w_fs w)
  | Err _ =>
      (w_fs w' = w_fs w ∨
       ∃ n d t, w_fs w !! parent p = Some NDir ∧ w_fs w !! trash_name n = None ∧
         w_fs w' = <[trash_name n := NFile d t]> (w_fs w)) ∧
      (faulted w w' ∨ w_fs w !! p = None ∨ ¬ temp_room w (parent p) stage_prefix)
  end.

Lemma trash_neq n : ¬ p `prefix_of` trash_name n.
Proof using Hg.
  intros [x E]. unfold trash_name in E.
  pose proof (parent_base p (key_nonempty _ _ Hg)) as Ep.
  generalize dependent (parent p). generalize dependent (base_name p). intros b q E Ep.
  rewrite Ep, <- app_assoc in E. apply app_inv_head in E. simpl in E. injection E as E _.
  apply (f_equal slen) in E. rewrite !slen_app in E. simpl in E. lia.
Qed.

Lemma trash_plain_path n f : store_fs base f → Forall plain (trash_name n).
Proof using Hg.
  intros Hs. apply Forall_app. split; [by eapply plain_parent, key_plain|].
  constructor; [by split_and!|done].
Qed.

Lemma trash_parent n : parent (trash_name n) = parent p.
Proof using Type. apply parent_app. Qed.

Lemma trash_nonempty n : trash_name n ≠ [].
Proof using Type. unfold trash_name. by destruct (parent p). Qed.

(** The steps after the marker file has been created. *)
Lemma wp_stage_body n t w w1 :
  store_fs base (w_fs w) → env w w1 → w_fs w !! p ≠ None → w_fs w !! trash_name n = None →
  w_fs w !! parent p = Some NDir →
  w_fs w1 = <[trash_name n := NFile "" t]> (w_fs w) →
  wp (cl ← f_Close (trash_name n);
      match cl with
      | Err e => fail_after (os_Remove (trash_name n)) e
      | Ok _ => _ ←! os_Remove (trash_name n); _ ←! os_Rename p (trash_name n);
                mret (Ok (mkStaged p (trash_name n)))
      end) (λ r w', env w w' ∧ stage_post w r w') w1.
Proof using Hg.
  intros Hs He Hex HN Hd Hf. pose proof (sf_clean _ _ Hs) as Hc.
  pose proof (trash_plain_path n _ Hs) as Hpl.
  assert (clean_fs (w_fs w1)) as Hc1.
  { rewrite Hf. apply clean_insert_file; [done|done|apply trash_nonempty|by rewrite trash_parent|].
    by rewrite HN. }
  assert (∀ w2 r, env w1 w2 → faulted w1 w2 → is_ok r = false →
    (w_fs w2 = w_fs w1 ∨ w_fs w2 = w_fs w) → env w w2 ∧ stage_post w r w2) as Hfail.
  { intros w2 r He2 Hft Hr H2. split; [by etransitivity|]. destruct r; [done|].
    split; [|left; by eapply faulted_r]. destruct H2 as [H2|H2]; [right|by left].
    exists n, "", t. split_and!; [done..|]. by rewrite H2. }
  assert (delete (trash_name n) (w_fs w1) = w_fs w) as Hdel by (rewrite Hf; by apply delete_insert_id).
  assert (w_fs w1 !! trash_name n = Some (NFile "" t)) as Ht by by rewrite Hf, lookup_insert_eq.
  apply wp_bind. eapply wp_mono; [apply wp_f_noop|]. intros [[]|e] w2 [[He2 Hf2] Hft].
  2:{ apply wp_fail_after. eapply wp_mono.
      { apply (wp_remove_file _ "" t); by rewrite ?Hf2. }
      intros r w3 [He3 H3]. apply Hfail; [by etransitivity|eapply faulted_l; [by apply Hft|done]|done|].
      rewrite Hf2, Hdel in H3. destruct r; [by right|left]. by destruct H3. }
  apply wp_try. eapply wp_mono.
  { apply (wp_remove_file _ "" t); by rewrite ?Hf2. }
  intros r w3 [He3 H3]. rewrite Hf2, Hdel in H3. destruct r as [[]|e].
  2:{ destruct H3 as [H3 [Hft3 _]]. apply Hfail; [by etransitivity|by eapply faulted_r|done|].
      left. congruence. }
  destruct (w_fs w !! p) as [nd|] eqn:Ep; [|done]. apply wp_try. eapply wp_mono.
  { apply (wp_rename_free _ _ nd); rewrite ?H3; [done|apply trash_nonempty|done|done| |apply trash_neq].
    by rewrite trash_parent. }
  intros r w4 [He4 H4]. rewrite H3 in H4. destruct r as [[]|e].
  - apply wp_ret. split; [by do 3 (etransitivity; [done|])|]. exists n. by rewrite Ep.
  - destruct H4 as [H4 [Hft4 _]]. apply Hfail; [by do 2 (etransitivity; [done|])| |done|right; congruence].
    eapply faulted_r; [|exact Hft4]. by etransitivity.
Qed.

Lemma wp_StageDeleteTree w :
  store_fs base (w_fs w) →
  wp (StageDeleteTree s (Join l "/")) (λ r w', env w w' ∧ stage_post w r w') w.
Proof using Hg.
  intros Hs. pose proof (sf_clean _ _ Hs) as Hc. unfold StageDeleteTree. rewrite TrimSuffix_good by done.
  apply wp_try. eapply wp_mono; [by apply wp_resolve|]. intros [q|e] w1 [[He1 Hf1] H1].
  2:{ split; [done|]. split; [by left|]. destruct H1 as [_ [?|Hw]]; [by left|right; left].
      by apply not_way_none. }
  subst q. apply wp_try.
  eapply wp_mono; [apply wp_stat; [by rewrite Hf1|by eapply key_plain]|]. rewrite Hf1.
  intros [nd|e] w2 [[He2 Hf2] H2].
  2:{ split; [by etransitivity|]. split; [left; congruence|].
      destruct H2 as [[Hft _]|[HN _]]; [left; by eapply faulted_r|by right; left]. }
  assert (w_fs w !! parent p = Some NDir) as Hd.
  { eapply clean_parent_dir; [done|by apply key_nonempty|done]. }
  assert (w_fs w2 = w_fs w) as Hfs by congruence.
  apply wp_try. eapply wp_mono.
  { apply (wp_create_temp (pred max_tries) (parent p) stage_prefix); rewrite ?Hfs;
      [done|by eapply plain_parent, key_plain|intros n; by split_and!]. }
  unfold createtemp_post, tempfile_post. rewrite Hfs. intros [[tr m]|e] w3 [He3 H3].
  - destruct H3 as (-> & n & -> & HN & _ & Hf3).
    apply (wp_stage_body n (w_now w2) w w3); [done| |congruence|done|done|done].
    etransitivity; [exact He1|]. by etransitivity.
  - destruct H3 as [Hf3 H3]. split; [etransitivity; [exact He1|]; by etransitivity|].
    split; [left; congruence|]. destruct H3 as [?|[?|Hroom]]; [|done|].
    + left. eapply faulted_r; [exact He1|]. by eapply faulted_r.
    + right. right. intros Hr. apply Hroom. apply (temp_room_at w); [|done|done]. by etransitivity.
Qed.

(** ** After the move *)

Section moved.
Context (n : N) (f : fs) (Hs : store_fs base f).
Context (Hex : f !! p ≠ None) (HN : f !! trash_name n = None).

Lemma trash_not_above : ¬ trash_name n `prefix_of` p.
Proof using Hs Hex HN.
  pose proof (sf_clean _ _ Hs) as Hc. intros Hp. destruct (f !! p) eqn:E; [|done].
  by apply (prefix_exists f (trash_name n)) in E.
Qed.

Lemma store_moved : store_fs base (move p (trash_name n) f).
Proof using Hg Hs Hex HN.
  pose proof (sf_clean _ _ Hs) as Hc. pose proof trash_not_above as Htp.
  pose proof (trash_neq n) as Hpt. pose proof (key_nonempty base _ Hg) as Hne.
  destruct (f !! p) as [nd|] eqn:Ep; [|done]. split.
  - apply clean_move; auto using trash_nonempty; [by eapply trash_plain_path|].
    rewrite trash_parent. by eapply clean_parent_dir.
  - apply lookup_move; [done|done|]. right. split_and!; [| |apply (sf_root _ _ Hs)].
    + intros [x E]. destruct Hg as [Hl _]. rewrite <- app_assoc in E.
      rewrite <- (app_nil_r base) in E at 1. apply app_inv_head in E. by destruct l.
    + intros [x E]. apply Htp. exists (x ++ l). by rewrite app_assoc, <- E.
  - intros q c Hq Hh. rewrite lookup_move by done. intros [(r & E & Hr)|(_ & _ & Hr)].
    + destruct r as [|d r _] using rev_ind.
      * rewrite app_nil_r in E. unfold trash_name in E. apply app_inj_tail in E as [_ ->]. done.
      * rewrite app_assoc in E. apply app_inj_tail in E as [-> ->]. rewrite app_assoc in Hr.
        apply (sf_tmp _ _ Hs) in Hr; [done| |done]. exists (l ++ r). by rewrite app_assoc.
    + by apply (sf_tmp _ _ Hs) in Hr.
Qed.

(** What is seen after the move. *)
Lemma file_moved q :
  file (move p (trash_name n) f) q =
    match strip (trash_name n) q with
    | Some r => file f (p ++ r)
    | None => if decide (p `prefix_of` q) then None else file f q
    end.
Proof using Hg Hs Hex HN.
  pose proof trash_not_above as Htp. pose proof (trash_neq n) as Hpt. unfold file.
  destruct (strip (trash_name n) q) as [r|] eqn:E.
  - apply strip_some in E as ->. by rewrite lookup_move_in.
  - apply strip_none in E. case_decide as Hp; [by rewrite lookup_move_gone|by rewrite lookup_move_out].
Qed.

(** Moving the tree back restores every file, when nothing near it changed in
    the meantime. *)
Lemma wp_rollback k w2 :
  store_fs base (w_fs w2) → agree base (move p (trash_name n) f) (w_fs w2) →
  untouched base k (move p (trash_name n) f) (w_fs w2) →
  ¬ p `prefix_of` k → ¬ trash_name n `prefix_of` k →
  wp (rollback (mkStaged p (trash_name n))) (λ r w', env w2 w' ∧
    match r with
    | Ok _ => agree base f (w_fs w')
    | Err _ => w_fs w' = w_fs w2 ∧ faulted w2 w'
    end) w2.
Proof using Hg Hs Hex HN.
  intros Hs2 Ha Hut Hpk Htk. pose proof (sf_clean _ _ Hs2) as Hc2.
  pose proof trash_not_above as Htp. pose proof (trash_neq n) as Hpt.
  assert (∃ nd, f !! p = Some nd) as [nd Ep] by (destruct (f !! p); [by eexists|done]).
  assert (∀ r, seen base (p ++ r) → seen base (trash_name n ++ r)) as Hseen.
  { intros r Hr x E. unfold trash_name in E. rewrite (key_parent _ _ Hg), <- !app_assoc in E.
    apply app_inv_head in E as <-. specialize (Hr (l ++ r)). rewrite <- app_assoc in Hr.
    specialize (Hr eq_refl). apply Forall_app in Hr as [Hl Hr].
    apply Forall_app. split; [by apply good_visible, removelast_good|].
    apply Forall_app. split; [|done]. by constructor. }
  assert (∀ r, seen base (p ++ r) → w_fs w2 !! (trash_name n ++ r) = f !! (p ++ r)) as Htree.
  { intros r Hr. rewrite Hut; [by apply lookup_move_in|by apply Hseen|].
    intros Hx. apply Htk. etransitivity; [|exact Hx]. by eexists. }
  assert (w_fs w2 !! trash_name n = Some nd) as Ht2.
  { specialize (Htree []). rewrite !app_nil_r in Htree. rewrite Htree; [done|by apply key_seen]. }
  assert (w_fs w2 !! p = None) as Hp2.
  { rewrite Hut; [by apply lookup_move_gone|by apply key_seen|done]. }
  eapply wp_mono.
  { apply (wp_rename_free _ _ nd); [done|by apply key_nonempty|done|done| |done].
    simpl. apply clean_parent_dir in Ht2; [|done|apply trash_nonempty]. by rewrite trash_parent in Ht2. }
  intros r w3 [He3 H3]. split; [done|]. destruct r as [[]|e]; [|by destruct H3 as [? [? _]]].
  simpl in H3. rewrite H3. intros q Hq. unfold file.
  destruct (decide (p `prefix_of` q)) as [[r ->]|Hpq]; [by rewrite lookup_move_in, Htree|].
  destruct (decide (trash_name n `prefix_of` q)) as [Htq|Htq].
  - rewrite lookup_move_gone by done. change (None = file f q). symmetry. apply file_none.
    destruct (f !! q) eqn:E; [|done]. by apply (prefix_exists _ (trash_name n)) in E; [|apply Hs|].
  - rewrite lookup_move_out by done. change (file (w_fs w2) q = file f q). rewrite Ha by done.
    rewrite file_moved, (proj2 (strip_none _ _)) by done. by rewrite decide_False.
Qed.

End moved.

End stage.
