(* ===== verification/KeyValue.v ===== *)
(** * The store as a map from keys to contents

    The interface [KeyValue] is what the index, the handlers and the protocol
    rely on: reads, atomic writes and deletions of a map whose keys are lists
    of names.  The file store of [Store] implements it. *)

From S2P Require Import Prelude GoString GoPath Os OsFacts Store StoreFacts.

(** ** The interface *)

Section relations.
Context (value : world → list string → option string) (dir : world → list string → Prop).

(** No value and no directory changed, except the value of [k] and the
    directories on the way to it. *)
Definition kept (k : list string) (w w' : world) : Prop :=
  (∀ l, good_key l → l ≠ k → value w' l = value w l) ∧
  (∀ l, good_key l → ¬ l `prefix_of` k → (dir w' l ↔ dir w l)).

(** What stops a write to [k]: a value in place of one of its directories, or
    a directory in its place. *)
Definition barred (w : world) (k : list string) : Prop :=
  (∃ d x, k = d ++ x ∧ x ≠ [] ∧ value w d ≠ None) ∨ dir w k.

(** What a write of [v] to [k] has done. *)
Definition wrote (k : list string) (v : option string) (w : world) (r : result error unit) (w' : world) : Prop :=
  kept k w w' ∧
  match r with
  | Ok _ => value w' k = v
  | Err _ => value w' k = value w k ∧ (faulted w w' ∨ barred w k)
  end.

(** What the publication of an immutable object has done. *)
Definition has_published (r : reader) (maxSize : Z) (validate : option (string → Z → result error unit))
    (k : list string) (w : world) (res : result error stored) (w' : world) : Prop :=
  kept k w w' ∧
  match res with
  | Ok st =>
      acceptable r maxSize validate ∧
      st_size st = Z.of_nat (slen (r_data r)) ∧ st_key st = slash k ∧
      (if st_existed st then value w' k = value w k ∧ (value w k ≠ None ∨ dir w k)
       else value w k = None ∧ value w' k = Some (r_data r))
  | Err _ =>
      value w' k = value w k ∧
      (faulted w w' ∨ ¬ acceptable r maxSize validate ∨ barred w k ∨ ∃ d p, ¬ temp_room w d p)
  end.

End relations.

(** Worlds in [ok] hold a map [value] of keys to contents, and directories. *)
Class KeyValue (s : Store) (ok : world → Prop) (value : world → list string → option string)
    (dir : world → list string → Prop) : Prop := {
  kv_frame w w' : w_fs w' = w_fs w →
    (ok w → ok w') ∧ (∀ l, value w' l = value w l) ∧ (∀ l, dir w' l ↔ dir w l);
  kv_root w : ok w → value w [] = None;
  kv_tree w d x : ok w → value w (d ++ x) ≠ None → ¬ barred value dir w (d ++ x);
  kv_get l w : ok w → good_key l → wp (Get s (slash l)) (λ r w', same w w' ∧
    match r with
    | Ok d => value w l = Some d
    | Err e =>
        faulted w w' ∧ os_IsNotExist e = false ∨
        value w l = None ∧ (os_IsNotExist e = true ∨ os_IsNotExist e = false ∧ barred value dir w l)
    end) w;
  kv_exists l w : ok w → good_key l → wp (Exists s (slash l)) (λ b w', same w w' ∧
    if b then value w l ≠ None ∨ dir w l else faulted w w' ∨ (value w l = None ∧ ¬ dir w l)) w;
  kv_putUnlocked l data w : ok w → good_key l → wp (putUnlocked s (slash l) data) (λ r w',
    env w w' ∧ ok w' ∧ wrote value dir l (Some data) w r w') w;
  kv_put l data w : ok w → unlocked w → good_key l → wp (Put s (slash l) data) (λ r w',
    env w w' ∧ unlocked w' ∧ ok w' ∧ wrote value dir l (Some data) w r w') w;
  kv_delete l w : ok w → unlocked w → good_key l → wp (Delete s (slash l)) (λ r w',
    env w w' ∧ unlocked w' ∧ ok w' ∧ wrote value dir l None w r w') w;
  kv_publish r maxSize validate key w :
    ok w → unlocked w → good_key (key (r_data r)) → (0 ≤ maxSize < 2^63 - 1)%Z →
    wp (PutStreamImmutable s r maxSize validate (λ d, slash (key d))) (λ res w',
      env w w' ∧ unlocked w' ∧ ok w' ∧
      has_published value dir r maxSize validate (key (r_data r)) w res w') w
}.

(** ** What follows from the interface *)

Section facts.
Context {s ok value dir} {KV : KeyValue s ok value dir}.

Lemma kept_refl k w w' : w_fs w' = w_fs w → kept value dir k w w'.
Proof using KV. intros E. destruct (kv_frame w w' E) as (_ & Hv & Hd). by split. Qed.

Lemma kept_trans k w1 w2 w3 : kept value dir k w1 w2 → kept value dir k w2 w3 → kept value dir k w1 w3.
Proof using Type.
  intros [H1 D1] [H2 D2]. split.
  - intros l Hl Hk. by rewrite H2, H1.
  - intros l Hl Hk. by rewrite D2, D1.
Qed.

Lemma same_ok w w' : same w w' → ok w → ok w'.
Proof using KV. intros [_ E]. by destruct (kv_frame w w' E) as (? & ? & ?). Qed.

Lemma same_value w w' l : same w w' → value w' l = value w l.
Proof using KV. intros [_ E]. by destruct (kv_frame w w' E) as (? & ? & ?). Qed.

Lemma same_dir w w' l : same w w' → (dir w' l ↔ dir w l).
Proof using KV. intros [_ E]. by destruct (kv_frame w w' E) as (? & ? & ?). Qed.

Lemma barred_frame w w' k : w_fs w' = w_fs w → barred value dir w' k ↔ barred value dir w k.
Proof using KV.
  intros E. destruct (kv_frame w w' E) as (_ & Hv & Hd). unfold barred. rewrite Hd.
  by setoid_rewrite Hv.
Qed.

(** What follows a change of what matters follows it when only mutexes differ. *)
Lemma kept_frame k w w1 w2 w3 : w_fs w1 = w_fs w → w_fs w3 = w_fs w2 →
  kept value dir k w1 w2 → kept value dir k w w3.
Proof using KV.
  intros E1 E2 H. eapply kept_trans; [by apply kept_refl|]. eapply kept_trans; [exact H|]. by apply kept_refl.
Qed.

Lemma value_not_dir w l : ok w → value w l ≠ None → ¬ dir w l.
Proof using KV.
  intros H Hv Hd. apply (kv_tree w l []); rewrite ?app_nil_r; [done..|]. by right.
Qed.

Lemma value_not_barred w l : ok w → value w l ≠ None → ¬ barred value dir w l.
Proof using KV. intros H Hv. rewrite <- (app_nil_r l). apply kv_tree; by rewrite ?app_nil_r. Qed.

(** A critical section, for what does not depend on the mutexes. *)
Lemma wp_locked {A} key (body : M A) (R : A → world → world → Prop) w :
  ok w → unlocked w →
  (∀ a w0 w1 w2 w3, same_but_locks w0 w1 → same_but_locks w2 w3 → R a w1 w2 → R a w0 w3) →
  (∀ w1, ok w1 → wp body (λ a w2, env w1 w2 ∧ ok w2 ∧ R a w1 w2) w1) →
  wp (with_lock key body) (λ a w', env w w' ∧ unlocked w' ∧ ok w' ∧ R a w w') w.
Proof using KV.
  intros Hok Hu HR HB.
  apply (wp_with_lock key body (λ a w', ok w' ∧ R a w w')); [done|..].
  - intros w1 Hl. assert (ok w1) as Hok1 by (by apply (kv_frame w w1 (proj1 Hl))).
    eapply wp_mono; [by apply HB|]. intros a w2 (He & Hok2 & H). do 2 (split; [done|]).
    by apply (HR a w w1 w2 w2).
  - intros a w2 w3 Hl [Hok2 H]. split; [by apply (kv_frame w2 w3 (proj1 Hl))|].
    by apply (HR a w w w2 w3).
Qed.

Lemma wrote_frame k v r w w1 w2 w3 :
  same_but_locks w w1 → same_but_locks w2 w3 → wrote value dir k v w1 r w2 → wrote value dir k v w r w3.
Proof using KV.
  intros Hl1 Hl2 [Hk H]. destruct (kv_frame w w1 (proj1 Hl1)) as (_ & Hv1 & _).
  destruct (kv_frame w2 w3 (proj1 Hl2)) as (_ & Hv2 & _).
  split; [by apply (kept_frame k w w1 w2 w3); [apply Hl1|apply Hl2|]|]. rewrite Hv2. destruct r; [done|].
  rewrite Hv1 in H. destruct H as [? [?|Hb]]; (split; [done|]);
    [left; by eapply same_but_locks_faulted|right; by apply (barred_frame w w1 k (proj1 Hl1))].
Qed.

End facts.

(** ** The file store *)

(** The content of a key, and the directories. *)
Definition value (s : Store) (w : world) (l : list string) : option string :=
  file (w_fs w) (basePath s ++ l).
Definition dir (s : Store) (w : world) (l : list string) : Prop :=
  w_fs w !! (basePath s ++ l) = Some NDir.
Definition ready (s : Store) (w : world) : Prop := store_fs (basePath s) (w_fs w).

Section implementation.
Context (s : Store).
#[local] Abbreviation base := (basePath s).

Lemma base_prefix l k : base ++ l `prefix_of` base ++ k ↔ l `prefix_of` k.
Proof using Type.
  split; [|intros [x ->]; exists x; by rewrite app_assoc].
  intros [x E]. exists x. rewrite <- app_assoc in E. by apply app_inv_head in E.
Qed.

Lemma kept_agree k w w' : agree base (w_fs w) (w_fs w') → untouched base (base ++ k) (w_fs w) (w_fs w') →
  kept (value s) (dir s) k w w'.
Proof using Type.
  intros Ha Hu. split.
  - intros l [_ Hl] _. by apply Ha, good_seen.
  - intros l [_ Hl] Hk. unfold dir. rewrite Hu; [done|by apply good_seen|by rewrite base_prefix].
Qed.

Lemma kept_updated k v w w' :
  updated base (w_fs w) (w_fs w') (base ++ k) v → untouched base (base ++ k) (w_fs w) (w_fs w') →
  kept (value s) (dir s) k w w'.
Proof using Type.
  intros Ha Hu. split.
  - intros l [_ Hl] Hk. apply Ha; [by apply good_seen|]. by intros E%app_inv_head.
  - intros l [_ Hl] Hk. unfold dir. rewrite Hu; [done|by apply good_seen|by rewrite base_prefix].
Qed.

(** A path is free or has a file on it. *)
Lemma way_or_file f p : clean_fs f → way f p ∨ ∃ d x, p = d ++ x ∧ file f d ≠ None.
Proof using Type.
  intros Hc. induction p as [|c p IH] using rev_ind.
  - left. intros d x E. symmetry in E. apply app_eq_nil in E as [-> ->]. right. by apply cf_root.
  - destruct IH as [Hw|(d & x & -> & Hd)]; [|right; exists d, (x ++ [c]); by rewrite app_assoc].
    destruct (file f (p ++ [c])) eqn:Ef; [right; exists (p ++ [c]), []; by rewrite app_nil_r, Ef|].
    left. intros d x E. destruct x as [|c' x _] using rev_ind.
    + rewrite app_nil_r in E. subst d. unfold file in Ef.
      destruct (f !! (p ++ [c])) as [[| |b t m]|] eqn:El; [done|by right| |by left].
      by destruct (cf_nolink _ Hc _ _ _ _ El).
    + rewrite app_assoc in E. apply app_inj_tail in E as [-> ->]. by eapply Hw.
Qed.

(** In a file system without links what blocks a key is a file on the way. *)
Lemma blocked_barred l w : store_fs base (w_fs w) → good_key l →
  blocked base l (w_fs w) → barred (value s) (dir s) w l.
Proof using Type.
  intros Hs Hg [Hw|Hd]; [left|by right]. pose proof (sf_clean _ _ Hs) as Hc.
  rewrite (key_parent _ _ Hg) in Hw.
  assert (∃ d x, removelast l = d ++ x ∧ value s w d ≠ None) as (d & x & E & Hv).
  { destruct (way_or_file (w_fs w) (base ++ removelast l)) as [?|(d & x & E & Hd)]; [done..|].
    assert (base `prefix_of` d ∨ d `prefix_of` base) as [[r ->]|[r Er]].
    { apply (prefix_weak_total base d (base ++ removelast l)); [by eexists|rewrite E; by eexists]. }
    - rewrite <- app_assoc in E. apply app_inv_head in E. by exists r, x.
    - pose proof (sf_root _ _ Hs) as Hr. rewrite Er in Hr. unfold file in Hd.
      destruct r as [|c0 r]; [rewrite app_nil_r in Hr; by rewrite Hr in Hd|].
      apply clean_prefix in Hr; [by rewrite Hr in Hd|done|done]. }
  exists d, (x ++ [List.last l ""]). split; [|split; [by destruct x|done]].
  destruct Hg as [Hn _]. rewrite app_assoc, <- E. by apply app_removelast_last.
Qed.

Lemma value_tree w d x : ready s w → value s w (d ++ x) ≠ None → ¬ barred (value s) (dir s) w (d ++ x).
Proof using Type.
  intros Hs Hv. generalize dependent (d ++ x). intros l Hv [(d' & x' & -> & Hx & Hd)|Hd].
  - pose proof (sf_clean _ _ Hs) as Hc. unfold value, file in *. rewrite app_assoc in Hv.
    destruct (w_fs w !! ((base ++ d') ++ x')) eqn:E; [|done].
    apply clean_prefix in E; [|done|done]. by rewrite E in Hd.
  - unfold value, file, dir in *. by rewrite Hd in Hv.
Qed.

Lemma wrote_of l v w (r : result error unit) w' :
  ready s w → good_key l → untouched base (base ++ l) (w_fs w) (w_fs w') →
  match r with
  | Ok _ => updated base (w_fs w) (w_fs w') (base ++ l) v
  | Err _ => agree base (w_fs w) (w_fs w') ∧ (faulted w w' ∨ blocked base l (w_fs w))
  end → wrote (value s) (dir s) l v w r w'.
Proof using Type.
  intros Hs Hg Hu H. destruct r as [[]|e].
  - split; [by eapply kept_updated|]. apply H.
  - destruct H as [Ha Hx]. split; [by apply kept_agree|]. split; [by apply Ha, key_seen|].
    destruct Hx as [?|?]; [by left|right; by apply blocked_barred].
Qed.

Lemma lookup_value w l : ready s w → w_fs w !! (base ++ l) ≠ None ↔ value s w l ≠ None ∨ dir s w l.
Proof using Type.
  intros Hs. unfold value, dir, file. destruct (w_fs w !! (base ++ l)) as [[]|] eqn:E; try naive_solver.
  by destruct (cf_nolink _ (sf_clean _ _ Hs) _ _ _ _ E).
Qed.

#[export] Instance file_store : KeyValue s (ready s) (value s) (dir s).
Proof using Type.
  split.
  - intros w w' E. unfold ready, value, dir. by rewrite E.
  - intros w Hs. unfold value, file. by rewrite app_nil_r, (sf_root _ _ Hs).
  - intros w d x. apply value_tree.
  - intros l w Hs Hg. eapply wp_mono; [by apply wp_Get|]. intros [d|e] w' [Hsm H]; (split; [done|]); [done|].
    destruct H as [?|[HN [[? _]|[? ?]]]]; [by left|right; split; [done|by left]|right].
    split; [done|]. right. split; [done|by apply blocked_barred].
  - intros l w Hs Hg. eapply wp_mono; [by apply wp_Exists|]. intros b w' [Hsm H]. split; [done|].
    pose proof (lookup_value w l Hs) as Hiff. destruct b; [by apply Hiff|].
    destruct H as [?|H]; [by left|right]. split.
    + by apply file_none.
    + unfold dir. by rewrite H.
  - intros l data w Hs Hg. eapply wp_mono; [by apply wp_putUnlocked|].
    intros r w' (He & Hs' & Hu & H). split; [done|]. split; [done|]. by apply wrote_of.
  - intros l data w Hs Hul Hg. eapply wp_mono; [by apply wp_Put|].
    intros r w' (He & Hul' & Hs' & Hu & H). do 3 (split; [done|]). by apply wrote_of.
  - intros l w Hs Hul Hg. eapply wp_mono; [by apply wp_Delete|].
    intros r w' (He & Hul' & Hs' & Hu & H). do 3 (split; [done|]). by apply wrote_of.
  - intros r maxSize validate key w Hs Hul Hg Hm. eapply wp_mono.
    { apply (wp_PutStreamImmutable s r maxSize validate key w); done. }
    intros res w' (He & Hul' & Hs' & Hu & H). do 3 (split; [done|]).
    pose proof (lookup_value w (key (r_data r)) Hs) as Hiff. destruct res as [st|e].
    + destruct H as [Hacc (Hsz & Hk & H)]. destruct (st_existed st) eqn:Ex.
      * destruct H as [Ha Hex]. split; [by apply kept_agree|]. rewrite Ex. split_and!; [done..| |by apply Hiff].
        by apply Ha, key_seen.
      * destruct H as [HN Hup]. split; [by eapply kept_updated|]. rewrite Ex.
        split_and!; [done..|by apply file_none|apply Hup].
    + destruct H as [Ha Hx]. split; [by apply kept_agree|]. split; [by apply Ha, key_seen|].
      destruct Hx as [?|[?|[Hb|Hx]]]; [by left|right; by left|right; right; left; by apply blocked_barred|].
      right. right. right. by exists base, ".tmp-upload-".
Qed.

End implementation.
