(* ===== verification/Confine.v ===== *)
(** * Confinement of reads

    In a file system with arbitrary symbolic links, whatever a key resolves to
    is read from inside the root of the store. *)

From S2P Require Import Prelude GoString GoPath Os OsFacts Store.

(** ** Path resolution *)

(** The induction principle of [walk]: an invariant of the directory reached
    holds of the result. *)
Lemma walk_invariant f (P : path → Prop) k here todo q n :
  (∀ d, P d → P (parent d)) → P [] →
  (∀ d c, P d → c ≠ "" → c ≠ "." → c ≠ ".." → f !! (d ++ [c]) ≠ None → P (d ++ [c])) →
  P here → walk f k here todo = WDone q n → P q ∧ f !! q = Some n.
Proof.
  intros Hup Hroot Hdown. revert here todo. induction k as [k IHk] using lt_wf_ind.
  intros here todo. revert here. induction todo as [|c rest IH]; intros here Hh H.
  - destruct k; simpl in H; destruct (f !! here) eqn:E; simplify_eq; done.
  - destruct k; simpl in H; destruct (f !! here) as [[| |]|] eqn:E; try done;
      (destruct (String.eqb_spec c ""); [by apply IH in H|]);
      (destruct (String.eqb_spec c "."); [by apply IH in H|]); simpl in H;
      (destruct (String.eqb_spec c ".."); [apply IH in H; auto|]);
      destruct (f !! (here ++ [c])) as [[| |b t m]|] eqn:Ec; try done;
      try (apply IH in H; [done|]; apply Hdown; [done..|by rewrite Ec]).
    apply (IHk k) in H; [done|lia|]. by destruct b.
Qed.

Lemma walk_plain f k here todo q n :
  Forall plain here → walk f k here todo = WDone q n → Forall plain q ∧ f !! q = Some n.
Proof.
  apply walk_invariant; [apply plain_parent|done|].
  intros d c Hd ??? _. apply Forall_app. split; [done|]. constructor; [by split_and!|done].
Qed.

(** More links allowed, same result. *)
Lemma walk_more f k k' here todo q n :
  k ≤ k' → walk f k here todo = WDone q n → walk f k' here todo = WDone q n.
Proof.
  revert k' here todo. induction k as [k IHk] using lt_wf_ind.
  intros k' here todo Hle. revert here. induction todo as [|c rest IH]; intros here H.
  - destruct k, k'; simpl in *; done.
  - destruct k as [|k], k' as [|k']; try lia; simpl in *; destruct (f !! here) as [[| |]|]; try done;
      (destruct (String.eqb c "" || String.eqb c "."); [by apply IH|]);
      (destruct (String.eqb c ".."); [by apply IH|]);
      destruct (f !! (here ++ [c])) as [[| |b t m]|]; try done; try (by apply IH).
    apply (IHk k); [lia|lia|done].
Qed.

Lemma stat_eval f p q n : stat f p = Ok (q, n) → walk f max_eval_links [] p = WDone q n.
Proof.
  unfold stat. intros H. destruct (walk f max_links [] p) eqn:E; simplify_eq.
  eapply walk_more; [|exact E]. unfold max_links, max_eval_links. lia.
Qed.

Lemma stat_plain f p q n : stat f p = Ok (q, n) → Forall plain q ∧ f !! q = Some n.
Proof. intros H%stat_eval. by apply walk_plain in H. Qed.

(** ** Calls that only read *)

Lemma query_fs {A} (q : fs → result error A) w r w' : query q w = Some (r, w') → w_fs w' = w_fs w.
Proof.
  intros H. unfold query, syscall, mbind, M_bind, next_fault in H.
  destruct (w_faults w) as [|[k|] l]; simpl in H; unfold get_world, put_fs, mret, M_ret in H;
    simpl in H; [destruct (q (w_fs w)); simpl in H| |destruct (q (w_fs w)); simpl in H];
    by injection H as <- <-.
Qed.

Lemma query_ok {A} (q : fs → result error A) w a w' : query q w = Some (Ok a, w') → q (w_fs w) = Ok a.
Proof.
  intros H. unfold query, syscall, mbind, M_bind, next_fault in H.
  destruct (w_faults w) as [|[k|] l]; simpl in H; unfold get_world, put_fs, mret, M_ret in H;
    simpl in H; (destruct (q (w_fs w)); simpl in H; by simplify_eq).
Qed.

Lemma query_err {A} (q : fs → result error A) w e w' : query q w = Some (Err e, w') →
  e = EOS EIO ∨ q (w_fs w) = Err e.
Proof.
  intros H. unfold query, syscall, mbind, M_bind, next_fault in H.
  destruct (w_faults w) as [|[k|] l]; simpl in H; unfold get_world, put_fs, mret, M_ret in H;
    simpl in H; [destruct (q (w_fs w)); simpl in H| |destruct (q (w_fs w)); simpl in H];
    simplify_eq; auto.
Qed.

Lemma try_inv {A B} wrap (k : A → M (result error B)) m w r w' :
  try_bind wrap k m w = Some (r, w') →
  (∃ a w1, m w = Some (Ok a, w1) ∧ k a w1 = Some (r, w')) ∨
  (∃ e, m w = Some (Err e, w') ∧ r = Err (wrap e)).
Proof.
  unfold try_bind, mbind, M_bind. destruct (m w) as [[[a|e] w1]|]; [|intros H; injection H as <- <-|done].
  - intros H. left. by exists a, w1.
  - right. by exists e.
Qed.

(** ** The symlink check *)

Lemma reject_rev_ok base rp w w' q n :
  reject_rev base rp w = Some (Ok (), w') → stat (w_fs w) (reverse rp) = Ok (q, n) → base `prefix_of` q.
Proof.
  intros H Hs. pose proof (stat_plain _ _ _ _ Hs) as [Hq _]. apply stat_eval in Hs.
  assert (∃ r w1, EvalSymlinks (reverse rp) w = Some (r, w1) ∧
    match r with
    | Ok resolved => Ok () = (if escapes (Rel base resolved) then Err (EText "storage path escapes root through symlink") else Ok ())
    | Err e => os_IsNotExist e = true
    end) as (r & w1 & E & Hr).
  { destruct rp as [|c rp]; cbn [reject_rev] in H; unfold mbind, M_bind in H;
      (destruct (EvalSymlinks _ w) as [[[x|e] w1]|];
       [exists (Ok x), w1; split; [done|]; by injection H as H _
       |exists (Err e), w1; split; [done|]; by destruct (os_IsNotExist e)|done]). }
  destruct r as [x|e].
  - apply query_ok in E. rewrite Hs in E. injection E as <-.
    destruct (escapes (Rel base q)) eqn:Ee; [done|]. by apply Rel_escapes.
  - apply query_err in E as [->|E]; [done|]. by rewrite Hs in E.
Qed.

Lemma reject_rev_fs base rp w r w' : reject_rev base rp w = Some (r, w') → w_fs w' = w_fs w.
Proof.
  revert w. induction rp as [|c rp IH]; intros w H; cbn [reject_rev] in H; unfold mbind, M_bind in H;
    (destruct (EvalSymlinks _ w) as [[[x|e] w1]|] eqn:E; [|..|done]; apply query_fs in E;
     [by injection H as _ <-|]; destruct (os_IsNotExist e); simpl in H; try (by injection H as _ <-)).
  apply IH in H. congruence.
Qed.

Lemma resolve_fs s key w r w' : resolve s key w = Some (r, w') → w_fs w' = w_fs w.
Proof.
  unfold resolve. intros H. destruct (_ || _); [by injection H as _ <-|].
  destruct (_ || _); [by injection H as _ <-|]. destruct (_ || _); [by injection H as _ <-|].
  destruct (escapes _); [by injection H as _ <-|].
  apply try_inv in H as [(a & w1 & H1 & H)|(e & H & _)].
  - apply reject_rev_fs in H1. injection H as _ <-. done.
  - by apply reject_rev_fs in H.
Qed.

(** The root of a store is a directory and is reached by its own name. *)
Definition rooted (s : Store) (f : fs) : Prop := stat f (basePath s) = Ok (basePath s, NDir).

Lemma resolve_inside s key w p w' q n :
  rooted s (w_fs w) → resolve s key w = Some (Ok p, w') → stat (w_fs w) p = Ok (q, n) →
  basePath s `prefix_of` q.
Proof.
  unfold resolve. intros Hroot H Hs. destruct (_ || _).
  { injection H as <- <-. rewrite Hroot in Hs. by injection Hs as <- _. }
  destruct (_ || _); [done|]. destruct (_ || _); [done|]. destruct (escapes _); [done|].
  apply try_inv in H as [([] & w1 & H1 & H)|(e & H & ?)]; [|done]. injection H as <- <-.
  unfold rejectSymlinkEscape in H1. eapply reject_rev_ok; [exact H1|]. by rewrite reverse_involutive.
Qed.

(** C10. Confinement of reads: for every key whatever (absolute, with [..], with
    links planted anywhere in the tree) and every fault, the bytes [Get]
    returns are the content of a regular file whose canonical path lies under
    the root. *)
Theorem Get_confined (s : Store) (key : string) (w w' : world) (d : string) :
  rooted s (w_fs w) → Get s key w = Some (Ok d, w') →
  ∃ r t, w_fs w !! (basePath s ++ r) = Some (NFile d t).
Proof.
  intros Hroot H. unfold Get in H. apply try_inv in H as [(p & w1 & H1 & H)|(e & _ & ?)]; [|done].
  pose proof (resolve_fs _ _ _ _ _ H1) as Hf. apply query_ok in H. rewrite Hf in H.
  destruct (stat (w_fs w) p) as [[q [c t| |]]|] eqn:Es; simplify_eq.
  destruct (resolve_inside _ _ _ _ _ _ _ Hroot H1 Es) as [r ->].
  apply stat_plain in Es as [_ Es]. by exists r, t.
Qed.

(** A root with a link that leaves it, one that stays and a secret outside. *)
Definition trap_fs : fs := list_to_map [
  ([], NDir); (["srv"], NDir); (["srv"; "a"], NDir); (["srv"; "a"; "x"], NFile "inside" 0);
  (["etc"], NDir); (["etc"; "key"], NFile "secret" 0);
  (["srv"; "out"], NLink true ["etc"] 0); (["srv"; "in"], NLink false [".."; "srv"; "a"] 0)].

Definition world_of (f : fs) (faults : list (option nat)) : world :=
  World f faults (λ n, N.of_nat n) 0 (10 ^ 18) ∅ false.

Definition srv : Store := mkStore ["srv"] "http://localhost:8080".

Example trap_reads :
  map (λ k, fst <$> Get srv k (world_of trap_fs [])) ["in/x"; "out/key"; "a/../../etc/key"; "/etc/key"] =
  [Some (Ok "inside"); Some (Err (EText "storage path escapes root through symlink"));
   Some (Err (EText "storage key escapes root")); Some (Err (EText "invalid storage key"))].
Proof. vm_compute. done. Qed.

Lemma Get_confined_witness :
  ∃ r t, trap_fs !! (basePath srv ++ r) = Some (NFile "inside" t).
Proof.
  apply (Get_confined srv "in/x" (world_of trap_fs []) (world_of trap_fs []) "inside").
  - vm_compute. reflexivity.
  - vm_compute. reflexivity.
Defined.

(** The confinement does not extend to writes: the temporary file of a write is
    not checked, so a link with its name is followed out of the root, and its
    target is overwritten. *)
Definition link_fs : fs := <[["srv"; "a"; ".tmp-x"] := NLink true ["etc"; "key"] 0]> trap_fs.

Example Put_follows_link :
  match Put srv "a/x" "data" (world_of link_fs []) with
  | Some (r, w) => r = Ok () ∧ file link_fs ["etc"; "key"] = Some "secret" ∧ file (w_fs w) ["etc"; "key"] = Some "data"
  | None => False
  end.
Proof. vm_compute. split_and!; reflexivity. Qed.
