(* ===== verification/StoreSpec.v ===== *)
(** * Specification of the file store

    What each operation of [Store] does to the map of keys to contents,
    whatever system calls fail, and the refinement of sequences of operations
    to an abstract map. *)

From S2P Require Import Prelude GoString GoPath Os OsFacts Store StoreFacts StageFacts KeyValue Confine.

(** A world in which the store can be used: no links, no directory named like
    a temporary file, and no mutex held. *)
Definition serving (s : Store) (w : world) : Prop := ready s w ∧ unlocked w.

(** ** A concrete store for the witnesses *)

Definition demo_fs : fs := list_to_map [
  ([], NDir); (["srv"], NDir); (["srv"; "providers"], NDir); (["srv"; "providers"; "a"], NDir);
  (["srv"; "providers"; "a"; "x"], NFile "old" 0);
  (["srv"; ".tmp-upload-7"], NFile "part" 0); (["srv"; "providers"; "a"; ".tmp-x"], NFile "new" (10 ^ 18))].

(** A list of entries is a file system fit for a store when this holds. *)
Definition store_fs_check (base : path) (l : list (path * node)) : bool :=
  let f : fs := list_to_map l in
  bool_decide (f !! [] = Some NDir) && bool_decide (f !! base = Some NDir) &&
  forallb (λ pn, bool_decide (Forall plain pn.1) &&
    bool_decide (pn.1 = [] ∨ f !! parent pn.1 = Some NDir) &&
    match pn.2 with NLink _ _ _ => false | NDir => negb (HasPrefix (base_name pn.1) ".tmp-") | _ => true end) l.

Lemma store_fs_checked base l : store_fs_check base l = true → store_fs base (list_to_map l).
Proof.
  unfold store_fs_check. intros H. apply andb_true_iff in H as [H Hl]. apply andb_true_iff in H as [H1 H2].
  apply bool_decide_eq_true in H1, H2. rewrite forallb_forall in Hl.
  assert (∀ p n, (list_to_map l : fs) !! p = Some n →
    Forall plain p ∧ (p = [] ∨ (list_to_map l : fs) !! parent p = Some NDir) ∧
    match n with NLink _ _ _ => False | NDir => HasPrefix (base_name p) ".tmp-" = false | _ => True end) as Hall.
  { intros p n Hp. apply elem_of_list_to_map_2, list_elem_of_In, Hl in Hp. simpl in Hp.
    apply andb_true_iff in Hp as [Hp Hn]. apply andb_true_iff in Hp as [Hp Hd].
    apply bool_decide_eq_true in Hp, Hd. split_and!; [done..|]. destruct n; [done| |done]. by apply negb_true_iff. }
  split; [split| |]; [done| | | |done|].
  - intros p c n Hp. apply Hall in Hp as (_ & [?|Hd] & _); [by destruct p|]. by rewrite parent_app in Hd.
  - intros p b t m Hp. by apply Hall in Hp as (_ & _ & ?).
  - intros p n Hp. by apply Hall in Hp as (? & _ & _).
  - intros p c _ Hc Hd. apply Hall in Hd as (_ & _ & Hh).
    unfold base_name in Hh. rewrite List.last_last in Hh. congruence.
Qed.

Lemma demo_serving faults : serving srv (world_of demo_fs faults).
Proof.
  split; [apply store_fs_checked; vm_compute; reflexivity|]. intros k. simpl. by rewrite lookup_empty.
Qed.

(** Nothing bars a key when this holds. *)
Definition unbarred_check (s : Store) (w : world) (k : list string) : bool :=
  forallb (λ n, bool_decide (value s w (take n k) = None)) (seq 0 (length k)) &&
  bool_decide (w_fs w !! (basePath s ++ k) ≠ Some NDir).

Lemma unbarred_checked s w k : unbarred_check s w k = true → ¬ barred (value s) (dir s) w k.
Proof.
  unfold unbarred_check. intros [H Hd]%andb_true_iff [(d & x & -> & Hx & Hv)|H'].
  - rewrite forallb_forall in H. apply Hv. rewrite <- (take_app_length d x).
    specialize (H (length d)). apply bool_decide_eq_true in H; [done|]. apply in_seq. rewrite length_app.
    destruct x; [done|]. simpl. lia.
  - by apply bool_decide_eq_true in Hd.
Qed.

Lemma wp_serving {A} (m : M A) Q s w :
  serving s w → wp m (λ r w', env w w' ∧ unlocked w' ∧ ready s w' ∧ Q r w') w →
  ∃ r w', m w = Some (r, w') ∧ serving s w' ∧ Q r w'.
Proof.
  intros _ H. apply wp_total in H as (r & w' & E & _ & ? & ? & ?). exists r, w'. by split_and!.
Qed.

(** ** Atomic operations *)

(** Every write through [Put] is all or nothing, whatever system calls
    fail: it terminates, releases the key's mutex and leaves a usable store;
    when it reports success the key holds exactly the new content, when it
    reports an error the key holds what it held; every other key is unchanged
    either way; and it reports an error only if a system call failed, or a
    file lies on the way to the key, or a directory in its place. *)
Theorem Put_atomic (s : Store) (k : list string) (data : string) (w : world) :
  serving s w → good_key k →
  ∃ r w', Put s (slash k) data w = Some (r, w') ∧ serving s w' ∧
    (∀ l, good_key l → l ≠ k → value s w' l = value s w l) ∧
    match r with
    | Ok _ => value s w' k = Some data
    | Err _ => value s w' k = value s w k ∧ (faulted w w' ∨ barred (value s) (dir s) w k)
    end.
Proof.
  intros Hw Hg. apply (wp_serving _ _ s w Hw). destruct Hw as [Hrd Hul].
  eapply wp_mono; [by apply kv_put|]. intros r w' (? & ? & ? & [[? _] ?]). by split_and!.
Qed.

Definition ax : list string := ["providers"; "a"; "x"].

Lemma good_ax : good_key ax.
Proof. split; [done|]. repeat constructor; by vm_compute. Qed.

Lemma Put_atomic_witness :
  ∃ r w', Put srv (slash ax) "new" (world_of demo_fs [None; None; Some 2]) = Some (r, w') ∧ serving srv w' ∧
    (∀ l, good_key l → l ≠ ax → value srv w' l = value srv (world_of demo_fs [None; None; Some 2]) l) ∧
    match r with
    | Ok _ => value srv w' ax = Some "new"
    | Err _ => value srv w' ax = value srv (world_of demo_fs [None; None; Some 2]) ax ∧
        (faulted (world_of demo_fs [None; None; Some 2]) w' ∨
         barred (value srv) (dir srv) (world_of demo_fs [None; None; Some 2]) ax)
    end.
Proof. apply (Put_atomic srv ax "new"); [apply demo_serving|apply good_ax]. Defined.

(** [Delete] removes exactly one key: it terminates (the clean-up of empty
    directories stops at the root of the store at the latest), and on success
    the key is gone and no other key is touched; on an error nothing is, and a
    system call failed or the key was blocked. *)
Theorem Delete_atomic (s : Store) (k : list string) (w : world) :
  serving s w → good_key k →
  ∃ r w', Delete s (slash k) w = Some (r, w') ∧ serving s w' ∧
    (∀ l, good_key l → l ≠ k → value s w' l = value s w l) ∧
    match r with
    | Ok _ => value s w' k = None
    | Err _ => value s w' k = value s w k ∧ (faulted w w' ∨ barred (value s) (dir s) w k)
    end.
Proof.
  intros Hw Hg. apply (wp_serving _ _ s w Hw). destruct Hw as [Hrd Hul].
  eapply wp_mono; [by apply kv_delete|]. intros r w' (? & ? & ? & [[? _] ?]). by split_and!.
Qed.

Lemma Delete_atomic_witness :
  ∃ r w', Delete srv (slash ax) (world_of demo_fs []) = Some (r, w') ∧ serving srv w' ∧
    (∀ l, good_key l → l ≠ ax → value srv w' l = value srv (world_of demo_fs []) l) ∧
    match r with
    | Ok _ => value srv w' ax = None
    | Err _ => value srv w' ax = value srv (world_of demo_fs []) ax ∧
        (faulted (world_of demo_fs []) w' ∨ barred (value srv) (dir srv) (world_of demo_fs []) ax)
    end.
Proof. apply (Delete_atomic srv ax); [apply demo_serving|apply good_ax]. Defined.

(** C28. [PutStreamImmutable] publishes an upload only whole and only when it
    is acceptable: on success the source ended without an error, is within the
    size limit and passed the validator, and the key computed from its bytes
    holds exactly those bytes, or was already taken and keeps what it held; on
    an error no key has changed; and no other key changes in any case. *)
Theorem PutStreamImmutable_safe (s : Store) (r : reader) (maxSize : Z)
    (validate : option (string → Z → result error unit)) (key : string → list string) (w : world) :
  serving s w → good_key (key (r_data r)) → (0 ≤ maxSize < 2^63 - 1)%Z →
  let k := key (r_data r) in
  ∃ res w', PutStreamImmutable s r maxSize validate (λ d, slash (key d)) w = Some (res, w') ∧
    serving s w' ∧ (∀ l, good_key l → l ≠ k → value s w' l = value s w l) ∧
    match res with
    | Ok st =>
        r_err r = None ∧ (Z.of_nat (slen (r_data r)) ≤ maxSize)%Z ∧
        (∀ v, validate = Some v → v (r_data r) (Z.of_nat (slen (r_data r))) = Ok ()) ∧
        st = mkStored (Z.of_nat (slen (r_data r))) (slash k) (st_existed st) ∧
        if st_existed st then value s w' k = value s w k
        else value s w k = None ∧ value s w' k = Some (r_data r)
    | Err _ => value s w' k = value s w k
    end.
Proof.
  intros Hw Hg Hm. apply (wp_serving _ _ s w Hw). destruct Hw as [Hrd Hul].
  eapply wp_mono; [by apply kv_publish|]. intros res w1 (He1 & Hu1 & Hr1 & [[Hk1 _] H]). do 4 (split; [done|]).
  destruct res as [[n kk ex]|e]; [|by destruct H]. destruct H as ((? & ? & Hv) & Hn & Hk & H).
  simpl in *. subst. split_and!; [done|done| |done|]; [by intros v ->|].
  by destruct ex; [destruct H|].
Qed.

Definition store_key (d : string) : list string := ["providers"; "a"; "f" +:+ d].

Lemma PutStreamImmutable_safe_witness :
  let w := world_of demo_fs [] in
  let k := store_key "zz" in
  ∃ res w', PutStreamImmutable srv (Reader "zz" None) 10 (Some (λ _ _, Ok ())) (λ d, slash (store_key d)) w = Some (res, w') ∧
    serving srv w' ∧ (∀ l, good_key l → l ≠ k → value srv w' l = value srv w l) ∧
    match res with
    | Ok st =>
        @None error = None ∧ (2 ≤ 10)%Z ∧
        (∀ v, Some (λ _ _, Ok ()) = Some v → v "zz" 2%Z = @Ok error unit ()) ∧
        st = mkStored 2 (slash k) (st_existed st) ∧
        if st_existed st then value srv w' k = value srv w k
        else value srv w k = None ∧ value srv w' k = Some "zz"
    | Err _ => value srv w' k = value srv w k
    end.
Proof.
  apply (PutStreamImmutable_safe srv (Reader "zz" None) 10 (Some (λ _ _, Ok ())) store_key).
  - apply demo_serving.
  - split; [done|]. repeat constructor; by vm_compute.
  - split; vm_compute; [discriminate|reflexivity].
Defined.

(** ** Refinement to an abstract map *)

Inductive operation :=
| OpGet (k : list string)
| OpPut (k : list string) (data : string)
| OpDelete (k : list string).

Definition op_key (o : operation) : list string :=
  match o with OpGet k | OpPut k _ | OpDelete k => k end.

(** An operation of the store. *)
Definition perform (s : Store) (o : operation) : M (result error (option string)) :=
  match o with
  | OpGet k => d ←! Get s (slash k); mret (Ok (Some d))
  | OpPut k data => _ ←! Put s (slash k) data; mret (Ok None)
  | OpDelete k => _ ←! Delete s (slash k); mret (Ok None)
  end.

Fixpoint perform_all (s : Store) (ops : list operation) : M (list (result error (option string))) :=
  match ops with
  | [] => mret []
  | o :: ops => r ← perform s o; rs ← perform_all s ops; mret (r :: rs)
  end.

(** The abstract state: a finite map, and which keys are directories. *)
Record astate := AState { a_map : gmap (list string) string; a_dir : list string → Prop }.

Definition a_barred (a : astate) (k : list string) : Prop :=
  (∃ d x, k = d ++ x ∧ d ≠ [] ∧ x ≠ [] ∧ a_map a !! d ≠ None) ∨ a_dir a k.

(** Directories on the way to a key that is written may come and go. *)
Definition a_moved (k : list string) (a a' : astate) : Prop :=
  ∀ l, good_key l → ¬ l `prefix_of` k → (a_dir a' l ↔ a_dir a l).

(** One abstract step; without faults ([calm]) an operation is refused for a
    reason the abstract state shows. *)
Inductive answers (calm : Prop) (a : astate) : operation → result error (option string) → astate → Prop :=
| get_found k d : a_map a !! k = Some d → answers calm a (OpGet k) (Ok (Some d)) a
| get_refused k e : (calm → a_map a !! k = None) → (os_IsNotExist e = true → a_map a !! k = None) →
    answers calm a (OpGet k) (Err e) a
| put_done k d a' : a_map a' = <[k := d]> (a_map a) → a_moved k a a' → answers calm a (OpPut k d) (Ok None) a'
| put_refused k d e a' : (calm → a_barred a k) → a_map a' = a_map a → a_moved k a a' →
    answers calm a (OpPut k d) (Err e) a'
| delete_done k a' : a_map a' = delete k (a_map a) → a_moved k a a' → answers calm a (OpDelete k) (Ok None) a'
| delete_refused k e a' : (calm → a_barred a k) → a_map a' = a_map a → a_moved k a a' →
    answers calm a (OpDelete k) (Err e) a'.

Inductive spec_run (calm : Prop) (a : astate) : list operation → list (result error (option string)) → astate → Prop :=
| run_nil : spec_run calm a [] [] a
| run_cons o r a1 ops rs a2 : answers calm a o r a1 → spec_run calm a1 ops rs a2 →
    spec_run calm a (o :: ops) (r :: rs) a2.

Definition represents (s : Store) (w : world) (a : astate) : Prop :=
  (∀ l, good_key l → value s w l = a_map a !! l) ∧ (∀ l, good_key l → (dir s w l ↔ a_dir a l)).

Section refinement.
Context (s : Store).

Lemma good_prefix (d x : list string) : good_key (d ++ x) → d ≠ [] → good_key d.
Proof using Type. intros [_ H] Hd. split; [done|]. by apply Forall_app in H as [? _]. Qed.

Lemma represents_barred w a k : ready s w → good_key k → represents s w a →
  barred (value s) (dir s) w k → a_barred a k.
Proof using Type.
  intros Hs Hg [Hv Hd] [(d & x & -> & Hx & H)|H]; [left|right; by apply Hd].
  assert (d ≠ []) as Hne.
  { intros ->. unfold value, file in H. rewrite app_nil_r, (sf_root _ _ Hs) in H. done. }
  exists d, x. rewrite <- Hv; [done|by eapply good_prefix].
Qed.

(** The abstract state after a write. *)
Lemma represents_wrote w w' a k v (r : result error unit) :
  ready s w → good_key k → represents s w a → wrote (value s) (dir s) k v w r w' →
  let m := match r with Ok _ => partial_alter (λ _, v) k (a_map a) | Err _ => a_map a end in
  let a' := AState m (dir s w') in
  represents s w' a' ∧ a_moved k a a' ∧ (is_ok r = false → ¬ faulted w w' → a_barred a k).
Proof using Type.
  intros Hs Hg Ha [[Hk Hd] H]. destruct (Ha) as [Hv Had]. split_and!.
  - split; [|done]. intros l Hl. simpl. destruct (decide (l = k)) as [->|Hne].
    + destruct r; [by rewrite lookup_partial_alter_eq|]. destruct H as [-> _]. by apply Hv.
    + rewrite Hk by done. destruct r; [rewrite lookup_partial_alter_ne by done|]; by apply Hv.
  - intros l Hl Hp. simpl. rewrite Hd by done. by apply Had.
  - intros Hr Hnf. destruct r; [done|]. destruct H as [_ [?|?]]; [done|]. by eapply represents_barred.
Qed.

Lemma perform_answers w a o :
  serving s w → good_key (op_key o) → represents s w a →
  wp (perform s o) (λ r w', env w w' ∧ serving s w' ∧
    ∃ a', answers (¬ faulted w w') a o r a' ∧ represents s w' a') w.
Proof using Type.
  intros [Hs Hu] Hg Ha. destruct o as [k|k data|k]; simpl in Hg |- *; apply wp_try.
  - eapply wp_mono; [by apply kv_get|]. intros [d|e] w' [Hsm H]; [apply wp_ret|];
      (split; [apply Hsm|]); (split; [split; [by eapply same_ok|eapply env_unlocked; [apply Hsm|done]]|]);
      exists a; (split; [|split; intros l Hl; [rewrite (same_value (s := s) w w')|rewrite (same_dir (s := s) w w')]; try done; by apply Ha]).
    + constructor. rewrite <- H. symmetry. by apply Ha.
    + destruct Ha as [Hv _]. rewrite Hv in H by done. apply get_refused; intros Hx; destruct H as [[? Hne]|[? _]]; unfold id in *; done || congruence.
  - eapply wp_mono; [by apply kv_put|]. intros r w' (He & Hu' & Hs' & Hw).
    destruct (represents_wrote _ _ _ _ _ _ Hs Hg Ha Hw) as (Ha' & Hm & Hx).
    destruct r as [[]|e]; [apply wp_ret|]; (split; [done|]); (split; [done|]); eexists; (split; [|exact Ha']).
    + by constructor.
    + constructor; [by apply Hx|done..].
  - eapply wp_mono; [by apply kv_delete|]. intros r w' (He & Hu' & Hs' & Hw).
    destruct (represents_wrote _ _ _ _ _ _ Hs Hg Ha Hw) as (Ha' & Hm & Hx).
    destruct r as [[]|e]; [apply wp_ret|]; (split; [done|]); (split; [done|]); eexists; (split; [|exact Ha']).
    + by constructor.
    + constructor; [by apply Hx|done..].
Qed.

Lemma answers_mono (P Q : Prop) a o r a' : (Q → P) → answers P a o r a' → answers Q a o r a'.
Proof using Type. intros HPQ. destruct 1; constructor; auto. Qed.

Lemma perform_all_spec (calm : Prop) w a ops :
  (calm → faults_left w = 0) → serving s w → Forall (λ o, good_key (op_key o)) ops → represents s w a →
  wp (perform_all s ops) (λ rs w', serving s w' ∧ ∃ a', spec_run calm a ops rs a' ∧ represents s w' a') w.
Proof using Type.
  intros Hc Hw Hops. revert w a Hc Hw. induction Hops as [|o ops Ho Hops IH]; intros w a Hc Hw Ha.
  { apply wp_ret. split; [done|]. exists a. split; [constructor|done]. }
  apply wp_bind. eapply wp_mono; [by apply perform_answers|].
  intros r w1 (He & Hw1 & a1 & H1 & Ha1). apply wp_bind.
  eapply wp_mono; [apply (IH w1 a1); [|done|done]|].
  { intros Hcalm. specialize (Hc Hcalm). pose proof (env_faults _ _ He). lia. }
  intros rs w2 (Hw2 & a2 & H2 & Ha2). apply wp_ret. split; [done|]. exists a2. split; [|done].
  econstructor; [|exact H2]. eapply answers_mono; [|exact H1].
  intros Hcalm Hf. specialize (Hc Hcalm). unfold faulted in Hf. lia.
Qed.

End refinement.

(** The abstract state of a world. *)
Definition abstract (s : Store) (w : world) : astate :=
  AState (list_to_map (omap (λ pn, match strip (basePath s) pn.1, pn.2 with
                                   | Some r, NFile d _ => Some (r, d)
                                   | _, _ => None
                                   end) (map_to_list (w_fs w))))
         (dir s w).

Lemma abstract_represents s w : represents s w (abstract s w).
Proof.
  split; [|done]. intros l _. simpl.
  set (g := λ pn : path * node, match strip (basePath s) pn.1, pn.2 with
    | Some r, NFile d _ => Some (r, d) | _, _ => None end).
  assert (∀ d, (l, d) ∈ omap g (map_to_list (w_fs w)) ↔ value s w l = Some d) as Hin.
  { intros d. rewrite list_elem_of_omap. unfold value. split.
    - intros ([p n] & Hp%elem_of_map_to_list & E). unfold g in E. simpl in E.
      destruct (strip (basePath s) p) as [r|] eqn:Er; [|done]. apply strip_some in Er as ->.
      destruct n; simplify_eq. by eapply file_lookup.
    - intros (t & H)%file_some. exists (basePath s ++ l, NFile d t).
      split; [by apply elem_of_map_to_list|]. unfold g. simpl.
      by rewrite (proj2 (strip_some _ _ l)). }
  apply option_eq. intros d. split; intros H.
  - apply elem_of_list_to_map_1'; [intros d' H'; apply Hin in H'; congruence|by apply Hin].
  - by apply elem_of_list_to_map_2, Hin in H.
Qed.

(** C1. Refinement: every sequence of reads, writes and deletions on the file
    store, whatever system calls fail, terminates and returns what a finite
    map updated by the same operations returns, failed operations having no
    effect; and when no system call fails an operation is refused only because
    the map has no such key (a read) or a key conflicts with a file or
    directory on its path (a write or deletion). *)
Theorem store_refines_map (s : Store) (w : world) (ops : list operation) :
  serving s w → Forall (λ o, good_key (op_key o)) ops →
  ∃ rs w' a', perform_all s ops w = Some (rs, w') ∧ serving s w' ∧
    spec_run (faults_left w = 0) (abstract s w) ops rs a' ∧ represents s w' a'.
Proof.
  intros Hw Ho. pose proof (abstract_represents s w) as Ha.
  destruct (wp_total _ _ _ (perform_all_spec s (faults_left w = 0) w _ ops id Hw Ho Ha))
    as (rs & w' & E & Hw' & a' & H & Ha'). by exists rs, w', a'.
Qed.

Definition demo_ops : list operation := [OpGet ax; OpPut ax "n"; OpGet ax; OpDelete ax; OpGet ax].

Example demo_ops_run :
  fst <$> perform_all srv demo_ops (world_of demo_fs []) =
  Some [Ok (Some "old"); Ok None; Ok (Some "n"); Ok None; Err (EOS ENOENT)].
Proof. vm_compute. done. Qed.

Lemma store_refines_map_witness :
  ∃ rs w' a', perform_all srv demo_ops (world_of demo_fs []) = Some (rs, w') ∧ serving srv w' ∧
    spec_run (0 = 0) (abstract srv (world_of demo_fs [])) demo_ops rs a' ∧ represents srv w' a'.
Proof.
  apply (store_refines_map srv (world_of demo_fs []) demo_ops).
  - apply demo_serving.
  - repeat (apply Forall_cons; split; [exact good_ax|]). apply Forall_nil. done.
Defined.

(** ** Staged deletion *)

(** Nothing of the store has changed but below [k]. *)
Definition same_outside (s : Store) (k : list string) (w w' : world) : Prop :=
  ∀ l, good_key l → ¬ k `prefix_of` l → value s w' l = value s w l.

(** The key of the directory a staged tree has been moved to. *)
Definition trash_key (k : list string) (n : N) : list string :=
  removelast k ++ [(".trash-" +:+ base_name k +:+ "-") +:+ pretty n].

Section staged.
Context (s : Store) (k : list string) (Hg : good_key k).
#[local] Abbreviation base := (basePath s).

Lemma base_name_key : base_name (base ++ k) = base_name k.
Proof using Hg.
  destruct Hg as [Hn _]. unfold base_name. rewrite (app_removelast_last "" Hn).
  by rewrite app_assoc, !List.last_last.
Qed.

Lemma trash_name_key n : trash_name s k n = base ++ trash_key k n.
Proof using Hg. unfold trash_name, trash_key. by rewrite (key_parent _ _ Hg), base_name_key, app_assoc. Qed.

Lemma value_moved n w w' l :
  ready s w → w_fs w !! (base ++ k) ≠ None → w_fs w !! trash_name s k n = None →
  w_fs w' = move (base ++ k) (trash_name s k n) (w_fs w) →
  value s w' l = match strip (trash_key k n) l with
                 | Some r => value s w (k ++ r)
                 | None => if decide (k `prefix_of` l) then None else value s w l
                 end.
Proof using Hg.
  intros Hs Hex HN E. unfold value. rewrite E, (file_moved s k Hg n (w_fs w) Hs Hex HN).
  rewrite trash_name_key. destruct (strip (trash_key k n) l) as [r|] eqn:Er.
  - apply strip_some in Er as ->. rewrite app_assoc, (proj2 (strip_some _ _ r)) by done.
    by rewrite app_assoc.
  - rewrite (proj2 (strip_none _ _)) by (rewrite base_prefix; by apply strip_none).
    by rewrite (decide_ext _ (k `prefix_of` l)) by apply base_prefix.
Qed.

Lemma wp_commit n w :
  store_fs base (w_fs w) → Forall plain (trash_name s k n) →
  wp (commit (mkStaged (base ++ k) (trash_name s k n))) (λ r w', env w w' ∧
    (∀ q, w_fs w' !! q = w_fs w !! q ∨ w_fs w' !! q = None ∧ trash_name s k n `prefix_of` q) ∧
    (is_ok r = true → ∀ q, trash_name s k n `prefix_of` q → w_fs w' !! q = None) ∧
    (is_ok r = false → faulted w w' ∨ ¬ way (w_fs w) (parent (trash_name s k n)))) w.
Proof using Type.
  intros Hs Hp. eapply wp_mono; [apply wp_removeall; [apply Hs|done]|].
  intros r w' (He & Hq & H). split_and!; [done|done| |by destruct r].
  intros Hr q Hpre. destruct r as [[]|]; [|done]. rewrite H.
  apply eq_None_not_Some. intros [m Hm]. by apply lookup_prune in Hm as [_ ?].
Qed.

End staged.

(** A key none of whose names is that of a trash directory. *)
Definition ordinary (l : list string) : Prop :=
  good_key l ∧ Forall (λ c, HasPrefix c ".trash-" = false) l.

Lemma ordinary_not_trash l k n : ordinary l → ¬ trash_key k n `prefix_of` l.
Proof.
  intros [_ H] [x ->]. unfold trash_key in H. rewrite !Forall_app in H.
  destruct H as [[_ [H _]%Forall_cons] _]. done.
Qed.

Lemma trash_key_neq k n : good_key k → trash_key k n ≠ k.
Proof.
  intros Hg E. apply (trash_neq srv k Hg n). rewrite trash_name_key, E by done. done.
Qed.

(** After staging the store is usable, and only the staged tree and trash have
    changed. *)
Lemma stage_serving s k w r w' : serving s w → good_key k → env w w' → stage_post s k w r w' → serving s w'.
Proof.
  intros [Hs Hu] Hg He H. split; [|by eapply env_unlocked]. unfold ready in *. destruct r as [d|e].
  - destruct H as (n & _ & Hex & HN & ->). by apply store_moved.
  - destruct H as [[->|(n & d & t & Hd & HN & ->)] Hx]; [done|].
    apply store_insert_file; [done|by eapply trash_plain_path|apply trash_nonempty| |by rewrite HN].
    by rewrite trash_parent.
Qed.

Lemma stage_err_values s k w e w' l :
  good_key k → ordinary l → stage_post s k w (Err e) w' → value s w' l = value s w l.
Proof.
  intros Hg Hl [[E|(n & d & t & _ & _ & E)] _]; unfold value; rewrite E; [done|].
  rewrite file_insert, decide_False; [done|]. rewrite trash_name_key by done.
  intros El%app_inv_head. by apply (ordinary_not_trash l k n); rewrite <- ?El.
Qed.

Lemma stage_ok_values s k w n w' l :
  ready s w → good_key k → w_fs w !! (basePath s ++ k) ≠ None → w_fs w !! trash_name s k n = None →
  w_fs w' = move (basePath s ++ k) (trash_name s k n) (w_fs w) → ordinary l →
  value s w' l = if decide (k `prefix_of` l) then None else value s w l.
Proof.
  intros Hs Hg Hex HN E Hl. rewrite (value_moved s k Hg n w w' l) by done.
  rewrite (proj2 (strip_none _ _)); [done|]. by apply ordinary_not_trash.
Qed.

(** What rolling back and what committing do, from the world [w1] that staging
    reached from [w]. *)
Definition rolls_back (s : Store) (d : staged) (w w1 : world) : Prop :=
  ∃ r w2, rollback d w1 = Some (r, w2) ∧
    match r with
    | Ok _ => ∀ l, good_key l → value s w2 l = value s w l
    | Err _ => faulted w1 w2 ∧ ∀ l, value s w2 l = value s w1 l
    end.

Definition commits (s : Store) (k : list string) (d : staged) (w1 : world) : Prop :=
  ∃ r w2, commit d w1 = Some (r, w2) ∧
    (∀ l, ordinary l → value s w2 l = value s w1 l) ∧
    match r with Ok _ => w_fs w2 !! sd_trash d = None | Err _ => faulted w1 w2 end.

Lemma stage_rolls_back s k n w w1 :
  ready s w → good_key k → w_fs w !! (basePath s ++ k) ≠ None → w_fs w !! trash_name s k n = None →
  w_fs w1 = move (basePath s ++ k) (trash_name s k n) (w_fs w) → ready s w1 →
  rolls_back s (mkStaged (basePath s ++ k) (trash_name s k n)) w w1.
Proof.
  intros Hs Hg Hex HN E Hs1.
  assert (wp (rollback (mkStaged (basePath s ++ k) (trash_name s k n))) (λ r w', env w1 w' ∧
    match r with
    | Ok _ => agree (basePath s) (w_fs w) (w_fs w')
    | Err _ => w_fs w' = w_fs w1 ∧ faulted w1 w'
    end) w1) as H.
  { apply (wp_rollback s k Hg n (w_fs w) Hs Hex HN []); rewrite ?E; try done; rewrite <- ?E; [done|..].
    - intros [x Ex]. destruct Hg as [Hn _]. by destruct (basePath s), k.
    - intros [x Ex]. by destruct (trash_nonempty s k n), (trash_name s k n). }
  apply wp_total in H as (r & w2 & Er & _ & H). exists r, w2. split; [done|]. destruct r as [[]|e].
  - intros l [_ Hl]. by apply H, good_seen.
  - destruct H as [Ef Hft]. split; [done|]. intros l. unfold value. by rewrite Ef.
Qed.

Lemma stage_commits s k n w1 : good_key k → ready s w1 → w_fs w1 !! trash_name s k n ≠ None →
  commits s k (mkStaged (basePath s ++ k) (trash_name s k n)) w1.
Proof.
  intros Hg Hs1 Hex. destruct (wp_total _ _ _ (wp_commit s k n w1 Hs1 (trash_plain_path s k Hg n _ Hs1)))
    as (r & w2 & E & _ & Hq & Hok & Herr). exists r, w2. split; [done|]. split.
  - intros l Hl. unfold value, file. destruct (Hq (basePath s ++ l)) as [->|[_ Hp]]; [done|].
    rewrite trash_name_key in Hp by done. by apply base_prefix, ordinary_not_trash in Hp.
  - destruct r; [by apply Hok|]. destruct (Herr eq_refl) as [?|Hw]; [done|]. destruct Hw.
    destruct (w_fs w1 !! trash_name s k n) as [nd|] eqn:En; [|done].
    apply way_dir; [apply Hs1|]. eapply clean_parent_dir; [apply Hs1|apply trash_nonempty|done].
Qed.

(** C29. Staged deletion of a tree of keys: [StageDeleteTree] either fails and
    changes no published key, or hides exactly the keys at and below the tree;
    from there [rollback] restores every key exactly as it was, and [commit]
    erases the moved tree without touching any other key; either of them fails
    only when a system call does, and a failed rollback changes nothing. *)
Theorem StageDeleteTree_reversible (s : Store) (k : list string) (w : world) :
  serving s w → good_key k →
  ∃ r w1, StageDeleteTree s (slash k) w = Some (r, w1) ∧ serving s w1 ∧
    match r with
    | Err _ => ∀ l, ordinary l → value s w1 l = value s w l
    | Ok d =>
        (∀ l, ordinary l → value s w1 l = if decide (k `prefix_of` l) then None else value s w l) ∧
        rolls_back s d w w1 ∧ commits s k d w1
    end.
Proof.
  intros Hw Hg. destruct (wp_total _ _ _ (wp_StageDeleteTree s k Hg w (proj1 Hw))) as (r & w1 & E & He & H).
  pose proof (stage_serving _ _ _ _ _ Hw Hg He H) as Hw1. exists r, w1. do 2 (split; [done|]).
  destruct r as [d|e]; [|intros l Hl; by eapply stage_err_values].
  destruct Hw as [Hs _], Hw1 as [Hs1 _]. destruct H as (n & -> & Hex & HN & Ef). split_and!.
  - intros l Hl. by eapply stage_ok_values.
  - by apply stage_rolls_back.
  - apply stage_commits; [done|done|]. rewrite Ef.
    pose proof (lookup_move_in (basePath s ++ k) (trash_name s k n) (w_fs w)) as Hm.
    specialize (Hm (trash_neq s k Hg n) (trash_not_above s k n (w_fs w) Hs Hex HN) []).
    rewrite !app_nil_r in Hm. by rewrite Hm.
Qed.

Definition a_dir_key : list string := ["providers"; "a"].

Lemma StageDeleteTree_reversible_witness :
  ∃ r w1, StageDeleteTree srv (slash a_dir_key) (world_of demo_fs []) = Some (r, w1) ∧ serving srv w1 ∧
    match r with
    | Err _ => ∀ l, ordinary l → value srv w1 l = value srv (world_of demo_fs []) l
    | Ok d =>
        (∀ l, ordinary l → value srv w1 l =
           if decide (a_dir_key `prefix_of` l) then None else value srv (world_of demo_fs []) l) ∧
        rolls_back srv d (world_of demo_fs []) w1 ∧ commits srv a_dir_key d w1
    end.
Proof.
  apply (StageDeleteTree_reversible srv a_dir_key); [apply demo_serving|].
  split; [done|]. repeat constructor; by vm_compute.
Defined.

(** The trash of a staged deletion outlives a failed commit: later scans list
    it as a version, and garbage collection leaves it. *)
Example trash_left_behind :
  let w := world_of demo_fs [] in
  match StageDeleteTree srv (slash a_dir_key) w with
  | Some (Ok d, w1) =>
      match commit d (set_faults [Some 0] w1) with
      | Some (Err _, w2) =>
          match GarbageCollect srv w2 with
          | Some ((_, None), w3) => w_fs w3 !! sd_trash d = Some NDir
          | _ => False
          end
      | _ => False
      end
  | _ => False
  end.
Proof. vm_compute. done. Qed.

(** ** Garbage collection *)

Section gc.
Context (s : Store).
#[local] Abbreviation base := (basePath s).

Lemma NoDup_filter_fst {A B} (g : A * B → bool) (l : list (A * B)) :
  NoDup l.*1 → NoDup (List.filter g l).*1.
Proof using Type.
  induction l as [|qn l IH]; simpl; [done|]. intros [Hn Hd]%NoDup_cons.
  destruct (g qn); simpl; [|by apply IH]. apply NoDup_cons. split; [|by apply IH].
  intros (y & E & Hin)%list_elem_of_fmap. apply Hn. apply list_elem_of_fmap. exists y.
  split; [done|]. apply list_elem_of_In, filter_In in Hin as [Hin _]. by apply list_elem_of_In.
Qed.

Lemma tree_NoDup f p : NoDup (tree f p).*1.
Proof using Type.
  unfold tree. rewrite merge_sort_Permutation. apply NoDup_filter_fst, NoDup_fst_map_to_list.
Qed.

Lemma wp_walk p w n :
  clean_fs (w_fs w) → w_fs w !! p = Some n →
  wp (filepath_Walk p) (λ r w', same w w' ∧
    ((r.2 = None ∧ r.1 = tree (w_fs w) p) ∨
     ∃ e, r.2 = Some e ∧ faulted w w' ∧ ∃ j, r.1 = take j (tree (w_fs w) p))) w.
Proof using Type.
  intros Hc Hp. assert (Forall plain p) as Hpl by by eapply cf_plain.
  assert (lstat (w_fs w) p = Ok (p, n)) as Hl.
  { unfold lstat. destruct (decide (p = [])) as [->|Hn]; [simpl; by rewrite Hp|].
    rewrite locate_found; [simpl; by rewrite Hp|done|done|]. by eapply clean_parent_dir. }
  assert (map (λ rn, (p ++ drop (length p) rn.1, rn.2)) (tree (w_fs w) p) = tree (w_fs w) p) as Hmap.
  { rewrite <- (map_id (tree (w_fs w) p)) at 2. apply map_ext_in. intros [q m] Hq%list_elem_of_In.
    apply elem_of_tree in Hq as [[x ->] _]. simpl. by rewrite drop_app_length. }
  apply wp_bind, wp_next_fault.
  - intros w' k He Hf _ _ Hft. apply wp_bind, wp_get. rewrite Hf, Hl. apply wp_ret. cbv zeta. rewrite Hmap.
    split; [done|]. right. eexists. split_and!; [done..|]. by exists k.
  - intros w' He Hf _ _. apply wp_bind, wp_get. rewrite Hf, Hl. apply wp_ret. cbv zeta. rewrite Hmap.
    split; [done|]. by left.
Qed.

(** Only the stale entries of [l] are removed; all of them when no call fails. *)
Definition collected (cutoff : Z) (l : list (path * node)) (w w' : world) : Prop :=
  ∀ q, w_fs w' !! q = w_fs w !! q ∨
       (w_fs w' !! q = None ∧ ∃ n, (q, n) ∈ l ∧ stale cutoff (q, n) = true).

Lemma wp_gc_visit cutoff removed l w :
  ready s w → NoDup l.*1 → (∀ q n, (q, n) ∈ l → w_fs w !! q = Some n) →
  wp (gc_visit cutoff removed l) (λ r w', env w w' ∧ ready s w' ∧ collected cutoff l w w' ∧
    match r.2 with
    | None => r.1 = (removed + Z.of_nat (length (List.filter (stale cutoff) l)))%Z ∧
              ∀ q n, (q, n) ∈ l → stale cutoff (q, n) = true → w_fs w' !! q = None
    | Some _ => faulted w w'
    end) w.
Proof using Type.
  revert removed w. induction l as [|[q n] l IH]; intros removed w Hs Hnd Hl.
  { apply wp_ret. split; [done|]. split; [done|]. split; [by left|]. simpl. split; [lia|].
    intros q n H. by apply elem_of_nil in H. }
  apply NoDup_cons in Hnd as [Hq Hnd]. cbn [gc_visit]. destruct (stale cutoff (q, n)) eqn:Est.
  2:{ eapply wp_mono; [apply (IH removed w Hs Hnd); intros; apply Hl; by right|].
      intros [r oe] w' (He & Hs' & Hc & H). split; [done|]. split; [done|]. split.
      - intros q'. destruct (Hc q') as [?|(? & m & Hm & ?)]; [by left|right]. split; [done|].
        exists m. split; [by right|done].
      - simpl in *. rewrite Est. destruct oe; [done|]. destruct H as [? H]. split; [done|].
        intros q' m [[= -> ->]|Hin]%elem_of_cons; [congruence|]. by apply H. }
  assert (∃ d t, n = NFile d t) as (d & t & ->).
  { assert (w_fs w !! q = Some n) as Hn by (apply Hl; by left).
    unfold stale in Est. destruct n as [d t| |b tg m]; [by eauto|done|].
    by destruct (cf_nolink _ (sf_clean _ _ Hs) _ _ _ _ Hn). }
  assert (w_fs w !! q = Some (NFile d t)) as Hn by (apply Hl; by left).
  assert (Forall plain q) as Hpl by (eapply cf_plain; [apply Hs|done]).
  apply wp_bind. eapply wp_mono; [by apply (wp_remove_file q d t); [apply Hs|..]|].
  intros r w1 [He1 H1]. destruct r as [[]|e].
  - assert (ready s w1) as Hs1 by (unfold ready; rewrite H1; by eapply store_delete_file).
    eapply wp_mono; [apply (IH (removed + 1)%Z w1 Hs1 Hnd)|].
    { intros q' m Hin. rewrite H1, lookup_delete_ne; [apply Hl; by right|]. intros <-.
      apply Hq. apply list_elem_of_fmap. by exists (q, m). }
    intros [r oe] w' (He & Hs' & Hc & H). split; [by etransitivity|]. split; [done|].
    assert (w_fs w' !! q = None) as HqN.
    { destruct (Hc q) as [->|[? _]]; [by rewrite H1, lookup_delete_eq|done]. }
    split.
    + intros q'. destruct (decide (q' = q)) as [->|Hne].
      { right. split; [done|]. exists (NFile d t). split; [by left|done]. }
      destruct (Hc q') as [->|(? & m & Hm & ?)]; [left; by rewrite H1, lookup_delete_ne|right].
      split; [done|]. exists m. split; [by right|done].
    + simpl in *. rewrite Est. destruct oe; [by eapply faulted_r|]. destruct H as [-> H].
      split; [simpl; lia|]. intros q' m [[= -> ->]|Hin]%elem_of_cons Hst; [done|]. by eapply H.
  - destruct H1 as [H1 [Hft ->]]. apply wp_ret. split; [done|]. unfold ready. rewrite H1.
    split; [done|]. split; [intros q'; left; by rewrite H1|done].
Qed.

Lemma wp_GarbageCollect w :
  ready s w →
  let cutoff := (w_now w - one_hour)%Z in
  let l := tree (w_fs w) base in
  wp (GarbageCollect s) (λ r w', env w w' ∧ ready s w' ∧ collected cutoff l w w' ∧
    match r.2 with
    | None => r.1 = Z.of_nat (length (List.filter (stale cutoff) l)) ∧
              ∀ q n, (q, n) ∈ l → stale cutoff (q, n) = true → w_fs w' !! q = None
    | Some _ => faulted w w'
    end) w.
Proof using Type.
  intros Hs cutoff l. apply wp_bind. unfold wp at 1, time_Now.
  apply wp_bind. eapply wp_mono; [apply (wp_walk base w NDir); apply Hs|].
  intros [visited werr] w1 [Hsm H1]. destruct (Hsm) as [He1 Hf1]. simpl in H1.
  assert (∃ j, visited = take j l) as [j ->].
  { destruct H1 as [[_ ->]|(e & _ & _ & j & ->)]; [|by exists j]. exists (length l). by rewrite firstn_all. }
  assert (∀ x, x ∈ take j l → x ∈ l) as Hsub.
  { intros x Hx. rewrite <- (take_drop j l). apply elem_of_app. by left. }
  apply wp_bind. eapply wp_mono.
  { apply (wp_gc_visit cutoff 0 (take j l)).
    - unfold ready. by rewrite Hf1.
    - rewrite fmap_take. apply (sublist_NoDup _ l.*1); [apply tree_NoDup|apply sublist_take].
    - intros q n Hq. rewrite Hf1. by apply Hsub, elem_of_tree in Hq as [_ ?]. }
  intros [removed rerr] w2 (He2 & Hs2 & Hc & H2). apply wp_ret. simpl in *.
  split; [by etransitivity|]. split; [done|]. split.
  - intros q. destruct (Hc q) as [->|(? & m & Hm & ?)]; [left; by rewrite Hf1|right].
    split; [done|]. exists m. split; [by apply Hsub|done].
  - destruct rerr as [e|]; [by eapply faulted_r|]. destruct H1 as [[-> Hl]|(e & -> & Hft & _)].
    + by rewrite Hl in H2.
    + by eapply faulted_l.
Qed.

End gc.

(** A stale temporary file: a regular file under the root named [.tmp-...] and
    last written more than an hour before now. *)
Definition stale_file (s : Store) (w : world) (p : path) : Prop :=
  ∃ r c d t, p = basePath s ++ r ++ [c] ∧ w_fs w !! p = Some (NFile d t) ∧
             HasPrefix c ".tmp-" = true ∧ (t < w_now w - 3600 * 10 ^ 9)%Z.

Lemma stale_iff s w p x : ready s w →
  ((p, x) ∈ tree (w_fs w) (basePath s) ∧ stale (w_now w - one_hour) (p, x) = true) ↔
  (w_fs w !! p = Some x ∧ stale_file s w p).
Proof.
  intros Hs. rewrite elem_of_tree. unfold stale, stale_file. simpl. split.
  - intros [[[r ->] Hx] H]. split; [done|]. to_props.
    destruct x as [d t| |b tg m]; [|done|by destruct (cf_nolink _ (sf_clean _ _ Hs) _ _ _ _ Hx)].
    destruct r as [|c r _] using rev_ind.
    { rewrite app_nil_r, (sf_root _ _ Hs) in Hx. done. }
    exists r, c, d, t. split_and!; [done|done| |].
    + unfold base_name in *. by rewrite app_assoc, List.last_last in *.
    + unfold one_hour in *. simpl in *. lia.
  - intros [Hx (r & c & d & t & -> & Hn & Hc & Ht)]. rewrite Hn in Hx. injection Hx as <-.
    split; [split; [by eexists|done]|]. unfold base_name. rewrite app_assoc, List.last_last, Hc. simpl.
    apply Z.ltb_lt. unfold one_hour. lia.
Qed.

(** C30. Garbage collection removes nothing but stale temporary files: every
    entry that disappears is a regular file under the root named [.tmp-...]
    last written more than an hour before now, so no published key and no
    recent write is lost, whatever system calls fail; when it reports success
    all such files are gone and the count is their number, and it reports an
    error only if a system call failed. *)
Theorem GarbageCollect_exact (s : Store) (w : world) :
  serving s w →
  ∃ n oe w', GarbageCollect s w = Some ((n, oe), w') ∧ serving s w' ∧
    (∀ p, w_fs w' !! p = w_fs w !! p ∨ (w_fs w' !! p = None ∧ stale_file s w p)) ∧
    (∀ l, good_key l → value s w' l = value s w l) ∧
    match oe with
    | None => (∀ p, stale_file s w p → w_fs w' !! p = None) ∧
              ∃ l, n = Z.of_nat (length l) ∧ NoDup l ∧ ∀ p, p ∈ l ↔ stale_file s w p
    | Some _ => faulted w w'
    end.
Proof.
  intros [Hs Hu].
  destruct (wp_total _ _ _ (wp_GarbageCollect s w Hs)) as ([n oe] & w' & E & He & Hs' & Hc & H).
  exists n, oe, w'. split; [done|]. split; [split; [done|by eapply env_unlocked]|].
  assert (∀ p, w_fs w' !! p = w_fs w !! p ∨ (w_fs w' !! p = None ∧ stale_file s w p)) as Hc'.
  { intros p. destruct (Hc p) as [?|(? & x & ?)]; [by left|right]. split; [done|].
    by apply (stale_iff s w p x). }
  split; [done|]. split.
  { intros l [_ Hl]. unfold value, file. destruct (Hc' (basePath s ++ l)) as [->|[_ (r & c & d & t & Ep & _ & Ht & _)]]; [done|].
    apply app_inv_head in Ep as ->. apply Forall_app in Hl as [_ [(_ & _ & _ & Hh) _]%Forall_cons].
    unfold hidden in Hh. congruence. }
  simpl in H. destruct oe as [e|]; [done|]. destruct H as [-> H]. split.
  - intros p Hp. pose proof Hp as (r & c & d & t & _ & Hn & _).
    destruct (proj2 (stale_iff s w p _ Hs) (conj Hn Hp)) as [Hin Hst]. by eapply H.
  - exists (List.filter (stale (w_now w - one_hour)) (tree (w_fs w) (basePath s))).*1.
    split; [by rewrite length_fmap|]. split.
    + apply NoDup_filter_fst, tree_NoDup.
    + intros p. rewrite list_elem_of_fmap. split.
      * intros ([q x] & -> & Hin%list_elem_of_In%filter_In). destruct Hin as [Hin Hst].
        apply list_elem_of_In in Hin. by apply (stale_iff s w q x).
      * intros Hp. pose proof Hp as (r & c & d & t & _ & Hn & _).
        destruct (proj2 (stale_iff s w p _ Hs) (conj Hn Hp)) as [Hin Hst].
        exists (p, NFile d t). split; [done|]. apply list_elem_of_In, filter_In. by rewrite <- list_elem_of_In.
Qed.

Lemma GarbageCollect_exact_witness :
  let w := world_of demo_fs [] in
  ∃ n oe w', GarbageCollect srv w = Some ((n, oe), w') ∧ serving srv w' ∧
    (∀ p, w_fs w' !! p = w_fs w !! p ∨ (w_fs w' !! p = None ∧ stale_file srv w p)) ∧
    (∀ l, good_key l → value srv w' l = value srv w l) ∧
    match oe with
    | None => (∀ p, stale_file srv w p → w_fs w' !! p = None) ∧
              ∃ l, n = Z.of_nat (length l) ∧ NoDup l ∧ ∀ p, p ∈ l ↔ stale_file srv w p
    | Some _ => faulted w w'
    end.
Proof. apply (GarbageCollect_exact srv). apply demo_serving. Defined.

(** The demonstration store has one stale file of its two temporary ones. *)
Example demo_collect :
  match GarbageCollect srv (world_of demo_fs []) with
  | Some ((n, None), w') =>
      n = 1%Z ∧ w_fs w' !! ["srv"; ".tmp-upload-7"] = None ∧
      w_fs w' !! ["srv"; "providers"; "a"; ".tmp-x"] = Some (NFile "new" (10 ^ 18))
  | _ => False
  end.
Proof. vm_compute. done. Qed.
