(* ===== verification/Index.v ===== *)
(** * Version indexes and metadata (storage.go)

    The JSON documents kept beside the artifacts and the operations on them. *)

From S2P Require Import Prelude GoString SemVer GoPath Os Json Decode Store.

(** ** The documents *)

Record Index := mkIndex { Versions : option (list string); Idx_Metadata : option string_map }.

Record PlatformMeta := mkPlatformMeta {
  OS : string; Arch : string; Filename : string; Shasum : string;
  Protocols : option (list string)
}.

Record VersionMetadata := mkVersionMetadata {
  Version : string; Description : string; Deprecated : bool; Deprecation : string;
  GPGKeyID : string; GPGKeyArmor : string;
  Platforms : option (list PlatformMeta); Metadata : option string_map
}.

Definition zero_Index : Index := mkIndex None None.
Definition zero_PlatformMeta : PlatformMeta := mkPlatformMeta "" "" "" "" None.
Definition zero_VersionMetadata : VersionMetadata :=
  mkVersionMetadata "" "" false "" "" "" None None.

#[export] Instance PlatformMeta_eq_dec : EqDecision PlatformMeta.
Proof. solve_decision. Defined.

Definition dec_Index : decoder Index := dec_struct [
  ("versions", field Versions (λ x t, mkIndex x (Idx_Metadata t)) (dec_slice "" dec_string));
  ("metadata", field Idx_Metadata (λ x t, mkIndex (Versions t) x) dec_map)].

Definition enc_Index (t : Index) : json := JObj (
  ("versions", match Versions t with Some l => enc_strings l | None => JNull end)
  :: opt_map "metadata" (Idx_Metadata t)).

Definition dec_PlatformMeta : decoder PlatformMeta := dec_struct [
  ("os", field OS (λ x t, mkPlatformMeta x (Arch t) (Filename t) (Shasum t) (Protocols t)) dec_string);
  ("arch", field Arch (λ x t, mkPlatformMeta (OS t) x (Filename t) (Shasum t) (Protocols t)) dec_string);
  ("filename", field Filename (λ x t, mkPlatformMeta (OS t) (Arch t) x (Shasum t) (Protocols t)) dec_string);
  ("shasum", field Shasum (λ x t, mkPlatformMeta (OS t) (Arch t) (Filename t) x (Protocols t)) dec_string);
  ("protocols", field Protocols (λ x t, mkPlatformMeta (OS t) (Arch t) (Filename t) (Shasum t) x)
                  (dec_slice "" dec_string))].

Definition opt_strings (k : string) (l : option (list string)) : list (string * json) :=
  let l := default [] l in opt_field (bool_decide (l = [])) k (enc_strings l).

Definition enc_PlatformMeta (t : PlatformMeta) : json := JObj (
  [("os", JStr (OS t)); ("arch", JStr (Arch t)); ("filename", JStr (Filename t));
   ("shasum", JStr (Shasum t))] ++ opt_strings "protocols" (Protocols t)).

Definition dec_VersionMetadata : decoder VersionMetadata := dec_struct [
  ("version", field Version (λ x t, mkVersionMetadata x (Description t) (Deprecated t) (Deprecation t)
      (GPGKeyID t) (GPGKeyArmor t) (Platforms t) (Metadata t)) dec_string);
  ("description", field Description (λ x t, mkVersionMetadata (Version t) x (Deprecated t) (Deprecation t)
      (GPGKeyID t) (GPGKeyArmor t) (Platforms t) (Metadata t)) dec_string);
  ("deprecated", field Deprecated (λ x t, mkVersionMetadata (Version t) (Description t) x (Deprecation t)
      (GPGKeyID t) (GPGKeyArmor t) (Platforms t) (Metadata t)) dec_bool);
  ("deprecation_message", field Deprecation (λ x t, mkVersionMetadata (Version t) (Description t)
      (Deprecated t) x (GPGKeyID t) (GPGKeyArmor t) (Platforms t) (Metadata t)) dec_string);
  ("gpg_key_id", field GPGKeyID (λ x t, mkVersionMetadata (Version t) (Description t) (Deprecated t)
      (Deprecation t) x (GPGKeyArmor t) (Platforms t) (Metadata t)) dec_string);
  ("gpg_key_armor", field GPGKeyArmor (λ x t, mkVersionMetadata (Version t) (Description t) (Deprecated t)
      (Deprecation t) (GPGKeyID t) x (Platforms t) (Metadata t)) dec_string);
  ("platforms", field Platforms (λ x t, mkVersionMetadata (Version t) (Description t) (Deprecated t)
      (Deprecation t) (GPGKeyID t) (GPGKeyArmor t) x (Metadata t)) (dec_slice zero_PlatformMeta dec_PlatformMeta));
  ("metadata", field Metadata (λ x t, mkVersionMetadata (Version t) (Description t) (Deprecated t)
      (Deprecation t) (GPGKeyID t) (GPGKeyArmor t) (Platforms t) x) dec_map)].

Definition enc_VersionMetadata (t : VersionMetadata) : json := JObj (
  ("version", JStr (Version t))
  :: opt_string "description" (Description t)
  ++ opt_field (negb (Deprecated t)) "deprecated" (JBool (Deprecated t))
  ++ opt_string "deprecation_message" (Deprecation t)
  ++ opt_string "gpg_key_id" (GPGKeyID t)
  ++ opt_string "gpg_key_armor" (GPGKeyArmor t)
  ++ (let l := default [] (Platforms t) in
      opt_field (bool_decide (l = [])) "platforms" (JArr (map enc_PlatformMeta l)))
  ++ opt_map "metadata" (Metadata t)).

(** ** Keys *)

Definition provider_index_key (namespace name : string) : string :=
  slash ["providers"; namespace; name; "index.json"].
Definition module_index_key (namespace name provider : string) : string :=
  slash ["modules"; namespace; name; provider; "index.json"].
Definition provider_metadata_key (namespace name version : string) : string :=
  slash ["providers"; namespace; name; version; "metadata.json"].
Definition module_metadata_key (namespace name provider version : string) : string :=
  slash ["modules"; namespace; name; provider; version; "metadata.json"].

(** ** Index operations *)

Definition getIndex (s : Store) (key : string) : M (result error Index) :=
  r ← Get s key;
  match r with
  | Err e => if os_IsNotExist e then mret (Ok (mkIndex (Some []) None)) else mret (Err e)
  | Ok data =>
      let '(idx, ok) := Unmarshal dec_Index data zero_Index in
      if negb ok then mret (Err (EWrap "corrupt index" (EText key)))
      else mret (Ok (mkIndex (Some (sortSemanticVersions (default [] (Versions idx))))
                             (Idx_Metadata idx)))
  end.

(** [indexHasVersion] of api.go; also the loop of [addVersionToIndex]. *)
Definition has_version (idx : Index) (version : string) : bool :=
  existsb (λ v, String.eqb v version) (default [] (Versions idx)).

Definition addVersionToIndex (s : Store) (key version : string) : M (result error unit) :=
  with_lock key (
    idx ←! getIndex s key;
    if has_version idx version then mret (Ok ())
    else
      let versions := sortSemanticVersions (default [] (Versions idx) ++ [version]) in
      putUnlocked s key (print_indent 0 (enc_Index (mkIndex (Some versions) (Idx_Metadata idx))))).

(** A nil slice when nothing is left. *)
Definition nil_if_empty {A} (l : list A) : option (list A) :=
  match l with [] => None | _ => Some l end.

Definition removeVersionFromIndex (s : Store) (key version : string) : M (result error unit) :=
  with_lock key (
    idx ←! getIndex s key;
    let filtered := List.filter (λ v, negb (String.eqb v version)) (default [] (Versions idx)) in
    putUnlocked s key (print_indent 0 (enc_Index (mkIndex (nil_if_empty filtered) (Idx_Metadata idx))))).

Definition deprecate (version message : string) (t : VersionMetadata) : VersionMetadata :=
  mkVersionMetadata version (Description t) true message (GPGKeyID t) (GPGKeyArmor t)
    (Platforms t) (Metadata t).

(** Errors of reading and decoding the old document are ignored; what was
    decoded is kept. *)
Definition setDeprecation (s : Store) (key version message : string) : M (result error unit) :=
  with_lock key (
    r ← Get s key;
    let meta := match r with
                | Ok data => (Unmarshal dec_VersionMetadata data zero_VersionMetadata).1
                | Err _ => zero_VersionMetadata
                end in
    putUnlocked s key (print_indent 0 (enc_VersionMetadata (deprecate version message meta)))).

Definition GetProviderIndex s namespace name := getIndex s (provider_index_key namespace name).
Definition GetModuleIndex s namespace name provider := getIndex s (module_index_key namespace name provider).
Definition AddProviderVersion s namespace name version :=
  addVersionToIndex s (provider_index_key namespace name) version.
Definition AddModuleVersion s namespace name provider version :=
  addVersionToIndex s (module_index_key namespace name provider) version.
Definition RemoveProviderVersion s namespace name version :=
  removeVersionFromIndex s (provider_index_key namespace name) version.
Definition RemoveModuleVersion s namespace name provider version :=
  removeVersionFromIndex s (module_index_key namespace name provider) version.
Definition DeprecateProviderVersion s namespace name version message :=
  setDeprecation s (provider_metadata_key namespace name version) version message.
Definition DeprecateModuleVersion s namespace name provider version message :=
  setDeprecation s (module_metadata_key namespace name provider version) version message.

Definition GetVersionMetadata (s : Store) (key : string) : M (result error VersionMetadata) :=
  data ←! Get s key;
  let '(meta, ok) := Unmarshal dec_VersionMetadata data zero_VersionMetadata in
  mret (if ok then Ok meta else Err (EText "json")).

(** ** Scans *)

(** The elements of index [n] of the prefixes' parts, in order. *)
Definition nth_parts (n : nat) (prefixes : list string) : list string :=
  omap (λ p, Split (TrimSuffix p "/") "/" !! n) prefixes.

(** Keep the first occurrence of each element. *)
Fixpoint first_seen (seen : list string) (l : list string) : list string :=
  match l with
  | [] => []
  | x :: l => if bool_decide (x ∈ seen) then first_seen seen l else x :: first_seen (x :: seen) l
  end.

Definition ScanProviderVersions (s : Store) (namespace name : string) : M (result error (list string)) :=
  '(_, prefixes) ←! List_ s (slash ["providers"; namespace; name; ""]) "/";
  let versions := first_seen [] (List.filter (λ v, negb (String.eqb v "index.json")) (nth_parts 3 prefixes)) in
  mret (Ok (sortSemanticVersions versions)).

Definition ScanModuleVersions (s : Store) (namespace name provider : string) : M (result error (list string)) :=
  '(_, prefixes) ←! List_ s (slash ["modules"; namespace; name; provider; ""]) "/";
  mret (Ok (sortSemanticVersions (nth_parts 4 prefixes))).

Definition is_platform_object (obj : string) : bool :=
  HasSuffix obj ".json" && negb (HasSuffix obj "index.json") && negb (HasSuffix obj "metadata.json").

(** The loop over the objects: unreadable and malformed ones are skipped. *)
Fixpoint collect_platforms (s : Store) (seen : list string) (objects : list string)
    : M (list PlatformMeta) :=
  match objects with
  | [] => mret []
  | obj :: objects =>
      if is_platform_object obj then
        r ← Get s obj;
        match r with
        | Err _ => collect_platforms s seen objects
        | Ok data =>
            let '(pm, ok) := Unmarshal dec_PlatformMeta data zero_PlatformMeta in
            let key := OS pm +:+ "/" +:+ Arch pm in
            if negb ok || bool_decide (key ∈ seen) then collect_platforms s seen objects
            else l ← collect_platforms s (key :: seen) objects; mret (pm :: l)
        end
      else collect_platforms s seen objects
  end.

Definition GetProviderPlatforms (s : Store) (namespace name version : string)
    : M (result error (list PlatformMeta)) :=
  '(objects, _) ←! List_ s (slash ["providers"; namespace; name; version; ""]) "";
  l ← collect_platforms s [] objects;
  mret (Ok l).
