(* ===== verification/IndexFacts.v ===== *)
(** * Correctness of the indexes

    The documents round-trip through their JSON text; adding and removing a
    version change the set of versions of an index and nothing else; marking a
    version deprecated keeps the rest of its metadata. *)

From S2P Require Import Prelude GoString SemVer GoPath Os OsFacts Json JsonFacts Utf8Facts Decode DecodeFacts.
From S2P Require Import Store StoreFacts KeyValue Confine StoreSpec Index.

(** ** Sorting keeps the elements *)

Lemma insert_stable_permutation {A} (less : A → A → bool) x acc : insert_stable less x acc ≡ₚ x :: acc.
Proof. induction acc as [|y acc IH]; simpl; [done|]. destruct (less x y); [|done]. rewrite IH. apply Permutation_swap. Qed.

Lemma foldl_insert_permutation {A} (less : A → A → bool) l acc :
  foldl (λ acc x, insert_stable less x acc) acc l ≡ₚ l ++ acc.
Proof.
  revert acc. induction l as [|x l IH]; intros acc; simpl; [done|].
  rewrite IH, insert_stable_permutation. symmetry. apply Permutation_middle.
Qed.

Lemma sortSemanticVersions_perm l : sortSemanticVersions l ≡ₚ l.
Proof.
  unfold sortSemanticVersions, SliceStable.
  by rewrite reverse_Permutation, foldl_insert_permutation, app_nil_r.
Qed.

(** ** Indexes *)

(** A document whose strings are valid UTF-8. *)
Record encodable_index (t : Index) : Prop := {
  ei_versions : Forall (λ v, valid_utf8 v = true) (default [] (Versions t));
  ei_metadata : valid_entries (default ∅ (Idx_Metadata t))
}.

Lemma preserves_Index : preserves encodable_index dec_Index.
Proof.
  apply preserves_struct. repeat apply Forall_cons_2; [..|apply Forall_nil_2].
  - eapply preserves_field; [| |apply preserves_slice; [|apply preserves_string]]; [by intros t []| |done].
    intros x t ? []. by split.
  - eapply preserves_field; [| |apply preserves_map]; [by intros t []|]. intros x t ? []. by split.
Qed.

(** What an omitted empty map is read back as. *)
Definition omitted_empty (m : option string_map) : option string_map :=
  if bool_decide (default ∅ m = ∅) then None else m.

Lemma default_omitted m : default ∅ (omitted_empty m) = default ∅ m.
Proof. unfold omitted_empty. case_bool_decide as H; [|done]. by rewrite H. Qed.

Lemma textual_Index t : encodable_index t → textual (enc_Index t).
Proof.
  intros [Hv Hm]. apply textual_obj. apply Forall_cons_2; [|by apply members_opt_map].
  split; [done|]. simpl. destruct (Versions t); [by apply textual_strings|constructor].
Qed.

(** An optional map decoded into a field that is nil. *)
Lemma dec_opt_map {T} (fs : fields T) (get : T → option string_map) set t k m l :
  find_field fs k = Some (field get set dec_map) → get t = None → set None t = t →
  dec_members fs t (opt_map k m ++ l) = dec_members fs (set (omitted_empty m) t) l.
Proof.
  intros Hf Hg Hs. unfold opt_map, omitted_empty. eapply dec_opt; [exact Hf|].
  case_bool_decide as Hm; [done|]. apply dec_field. rewrite Hg, dec_map_enc.
  destruct m as [m|]; done.
Qed.

Lemma dec_enc_Index t : dec_Index zero_Index (enc_Index t) =
  (mkIndex (Versions t) (omitted_empty (Idx_Metadata t)), true).
Proof.
  unfold enc_Index, dec_Index, dec_struct. rewrite <- (app_nil_r (opt_map _ _)).
  erewrite dec_step; [|reflexivity|apply (dec_field _ _ _ _ _ (Versions t))].
  - erewrite dec_opt_map; [|reflexivity..]. reflexivity.
  - destruct (Versions t); [apply dec_slice_strings|done].
Qed.

(** What the index stored under a key says: nothing stored is an empty index,
    a document that does not decode is no index. *)
Definition index_at (v : option string) : option Index :=
  match v with
  | None => Some (mkIndex (Some []) None)
  | Some data =>
      let '(idx, ok) := Unmarshal dec_Index data zero_Index in
      if ok then Some (mkIndex (Some (sortSemanticVersions (default [] (Versions idx)))) (Idx_Metadata idx))
      else None
  end.

Definition versions_of (idx : Index) : list string := default [] (Versions idx).

Lemma index_at_encodable v idx : index_at v = Some idx → encodable_index idx.
Proof.
  destruct v as [data|]; simpl; [|intros [= <-]; by split].
  pose proof (preserves_Unmarshal encodable_index dec_Index data zero_Index preserves_Index ltac:(by split)) as H.
  destruct (Unmarshal dec_Index data zero_Index) as [idx' []]; [|done]. intros [= <-].
  destruct H as [Hv Hm]. split; [|done]. simpl in *. by rewrite sortSemanticVersions_perm.
Qed.

(** An index that is written is read back, its versions sorted. *)
Lemma index_at_enc idx : encodable_index idx →
  index_at (Some (print_indent 0 (enc_Index idx))) =
  Some (mkIndex (Some (sortSemanticVersions (versions_of idx))) (omitted_empty (Idx_Metadata idx))).
Proof. intros H. unfold index_at. rewrite Unmarshal_indent by by apply textual_Index. by rewrite dec_enc_Index. Qed.

(** [idx'] has the versions [l], in some order, and the metadata of [idx]. *)
Definition reindexed (l : list string) (idx idx' : Index) : Prop :=
  versions_of idx' ≡ₚ l ∧ default ∅ (Idx_Metadata idx') = default ∅ (Idx_Metadata idx).

Lemma reindexed_enc l vs idx : encodable_index idx → Forall (λ v, valid_utf8 v = true) (default [] vs) →
  default [] vs ≡ₚ l →
  ∃ idx', index_at (Some (print_indent 0 (enc_Index (mkIndex vs (Idx_Metadata idx))))) = Some idx' ∧
          reindexed l idx idx'.
Proof.
  intros [_ Hm] Hvs Hl. rewrite index_at_enc by done. eexists. split; [done|]. split; simpl.
  - unfold versions_of. simpl. by rewrite sortSemanticVersions_perm.
  - apply default_omitted.
Qed.

Lemma has_version_spec idx v : has_version idx v = true ↔ v ∈ versions_of idx.
Proof.
  unfold has_version, versions_of. rewrite existsb_exists. setoid_rewrite String.eqb_eq.
  setoid_rewrite <- list_elem_of_In. split; [by intros (x & ? & ->)|by exists v].
Qed.

Lemma nil_if_empty_default {A} (l : list A) : default [] (nil_if_empty l) = l.
Proof. by destruct l. Qed.

(** ** Index operations *)

Section index.
Context {s ok value dir} {KV : KeyValue s ok value dir}.

Lemma wp_getIndex k w : ok w → good_key k → wp (getIndex s (slash k)) (λ r w', same w w' ∧
  match r with
  | Ok idx => index_at (value w k) = Some idx
  | Err e => faulted w w' ∨ index_at (value w k) = None ∨ barred value dir w k
  end) w.
Proof using KV.
  intros Hok Hg. apply wp_bind. eapply wp_mono; [by apply kv_get|]. intros [data|e] w' [Hsm H].
  - destruct (Unmarshal dec_Index data zero_Index) as [idx b] eqn:E.
    rewrite H. unfold index_at. rewrite E. destruct b; apply wp_ret; (split; [done|]); [done|].
    by right; left.
  - destruct (os_IsNotExist e) eqn:En; apply wp_ret; (split; [done|]).
    + destruct H as [[_ ?]|[-> _]]; done.
    + destruct H as [[? _]|[_ [?|[_ ?]]]]; [by left|done|by right; right].
Qed.

(** What an update of an index with [f] has done. *)
Definition index_updated (k : list string) (f : Index → list string) (w : world)
    (r : result error unit) (w' : world) : Prop :=
  kept value dir k w w' ∧
  match r with
  | Ok _ => ∃ idx idx', index_at (value w k) = Some idx ∧ index_at (value w' k) = Some idx' ∧
              reindexed (f idx) idx idx'
  | Err _ => value w' k = value w k ∧
              (faulted w w' ∨ index_at (value w k) = None ∨ barred value dir w k)
  end.

Lemma index_updated_frame k f r w w1 w2 w3 :
  same_but_locks w w1 → same_but_locks w2 w3 → index_updated k f w1 r w2 → index_updated k f w r w3.
Proof using KV.
  intros Hl1 Hl2 [Hk H]. destruct (kv_frame w w1 (proj1 Hl1)) as (_ & Hv1 & _).
  destruct (kv_frame w2 w3 (proj1 Hl2)) as (_ & Hv2 & _).
  split; [by apply (kept_frame k w w1 w2 w3); [apply Hl1|apply Hl2|]|]. rewrite Hv2, <- (Hv1 k).
  destruct r; [done|]. destruct H as [? [?|[?|Hb]]]; (split; [done|]);
    [left; by eapply same_but_locks_faulted|by right; left|right; right].
  by apply (barred_frame w w1 k (proj1 Hl1)).
Qed.

(** Writing the new document. *)
Lemma wp_put_index k f vs idx w w1 :
  ok w → good_key k → same w w1 → index_at (value w k) = Some idx →
  Forall (λ v, valid_utf8 v = true) (default [] vs) → default [] vs ≡ₚ f idx →
  wp (putUnlocked s (slash k) (print_indent 0 (enc_Index (mkIndex vs (Idx_Metadata idx)))))
     (λ r w2, env w w2 ∧ ok w2 ∧ index_updated k f w r w2) w1.
Proof using KV.
  intros Hok Hg Hsm Hidx Hvs Hf. eapply wp_mono; [apply kv_putUnlocked; [by eapply same_ok|done]|].
  intros r w2 (He & Hok2 & Hk & H). split; [etransitivity; [apply Hsm|done]|]. split; [done|].
  split; [eapply kept_trans; [apply kept_refl, Hsm|exact Hk]|]. destruct r as [[]|e].
  - destruct (reindexed_enc (f idx) vs idx) as (idx' & E & Hr); [by eapply index_at_encodable|done..|].
    exists idx, idx'. by rewrite H.
  - destruct H as [-> H]. split; [by apply same_value|].
    destruct H as [?|?]; [left; by eapply faulted_r; [apply Hsm|]|right; right].
    by apply (barred_frame w w1 k (proj2 Hsm)).
Qed.

Lemma index_read_failed k f e w w1 : same w w1 →
  faulted w w1 ∨ index_at (value w k) = None ∨ barred value dir w k → index_updated k f w (Err e) w1.
Proof using KV. intros Hsm H. split; [apply kept_refl, Hsm|]. split; [by apply same_value|done]. Qed.

Definition with_version (version : string) (idx : Index) : list string :=
  if bool_decide (version ∈ versions_of idx) then versions_of idx else version :: versions_of idx.

Definition without_version (version : string) (idx : Index) : list string :=
  filter (λ v, v ≠ version) (versions_of idx).

Lemma wp_addVersionToIndex k version w :
  ok w → unlocked w → good_key k → valid_utf8 version = true →
  wp (addVersionToIndex s (slash k) version) (λ r w', env w w' ∧ unlocked w' ∧ ok w' ∧
    index_updated k (with_version version) w r w') w.
Proof using KV.
  intros Hok Hu Hg Hv. apply (wp_locked (slash k) _ (λ r w w', index_updated k (with_version version) w r w'));
    [done..|by intros; eapply index_updated_frame|].
  clear w Hok Hu. intros w Hok. apply wp_try. eapply wp_mono; [by apply wp_getIndex|].
  intros [idx|e] w1 [Hsm H1].
  2:{ split; [apply Hsm|]. split; [by eapply same_ok|]. by apply index_read_failed. }
  destruct (has_version idx version) eqn:Eh.
  - apply has_version_spec in Eh. apply wp_ret. split; [apply Hsm|]. split; [by eapply same_ok|].
    split; [apply kept_refl, Hsm|]. exists idx, idx. rewrite (same_value w w1) by done.
    split; [done|]. split; [done|]. unfold with_version. by rewrite bool_decide_eq_true_2.
  - assert (version ∉ versions_of idx) as Hn by (rewrite <- has_version_spec; congruence).
    destruct (index_at_encodable _ _ H1) as [Hvs _]. apply wp_put_index; [done..| |]; simpl.
    + rewrite sortSemanticVersions_perm. apply Forall_app. by split; [|constructor].
    + unfold with_version. rewrite bool_decide_eq_false_2 by done.
      rewrite sortSemanticVersions_perm. symmetry. apply Permutation_cons_append.
Qed.

Lemma filter_neq version l :
  List.filter (λ v, negb (String.eqb v version)) l = filter (λ v, v ≠ version) l.
Proof using Type.
  induction l as [|x l IH]; [done|]. simpl. rewrite filter_cons, IH.
  destruct (String.eqb_spec x version); [by rewrite decide_False by auto|by rewrite decide_True].
Qed.

Lemma wp_removeVersionFromIndex k version w :
  ok w → unlocked w → good_key k →
  wp (removeVersionFromIndex s (slash k) version) (λ r w', env w w' ∧ unlocked w' ∧ ok w' ∧
    index_updated k (without_version version) w r w') w.
Proof using KV.
  intros Hok Hu Hg. apply (wp_locked (slash k) _ (λ r w w', index_updated k (without_version version) w r w'));
    [done..|by intros; eapply index_updated_frame|].
  clear w Hok Hu. intros w Hok. apply wp_try. eapply wp_mono; [by apply wp_getIndex|].
  intros [idx|e] w1 [Hsm H1].
  2:{ split; [apply Hsm|]. split; [by eapply same_ok|]. by apply index_read_failed. }
  destruct (index_at_encodable _ _ H1) as [Hvs _].
  apply wp_put_index; [done..| |]; rewrite nil_if_empty_default, filter_neq; [|done].
  apply Forall_forall. intros x [_ Hx]%list_elem_of_filter. rewrite Forall_forall in Hvs. by apply Hvs.
Qed.

End index.

(** ** Platform metadata *)

Record encodable_platform (t : PlatformMeta) : Prop := {
  ep_os : valid_utf8 (OS t) = true;
  ep_arch : valid_utf8 (Arch t) = true;
  ep_filename : valid_utf8 (Filename t) = true;
  ep_shasum : valid_utf8 (Shasum t) = true;
  ep_protocols : Forall (λ v, valid_utf8 v = true) (default [] (Protocols t))
}.

Definition omitted_nil {A} (l : option (list A)) : option (list A) :=
  match default [] l with [] => None | l => Some l end.

Definition read_platform (t : PlatformMeta) : PlatformMeta :=
  mkPlatformMeta (OS t) (Arch t) (Filename t) (Shasum t) (omitted_nil (Protocols t)).

Lemma zero_platform_encodable : encodable_platform zero_PlatformMeta.
Proof. by split. Qed.

Lemma preserves_PlatformMeta : preserves encodable_platform dec_PlatformMeta.
Proof.
  apply preserves_struct. repeat apply Forall_cons_2; [..|apply Forall_nil_2];
    (eapply preserves_field;
     [| |first [apply preserves_string|apply preserves_slice; [|apply preserves_string]]];
     first [by intros t []|intros x t ? []; by split|done]).
Qed.

Lemma textual_PlatformMeta t : encodable_platform t → textual (enc_PlatformMeta t).
Proof.
  intros [H1 H2 H3 H4 H5]. apply textual_obj, members_app.
  - by repeat (apply Forall_cons_2; [split; [done|by constructor]|]).
  - apply members_opt; [done|by apply textual_strings].
Qed.

(** An optional list decoded into a field that is nil. *)
Lemma dec_opt_list {T A} (fs : fields T) (get : T → option (list A)) set t k (b : bool) v l d x :
  find_field fs k = Some (field get set d) → get t = None → set None t = t →
  b = bool_decide (x = []) → d None v = (Some x, true) →
  dec_members fs t (opt_field b k v ++ l) = dec_members fs (set (omitted_nil (Some x)) t) l.
Proof.
  intros Hf Hg Hs -> Hd. eapply dec_opt; [exact Hf|]. unfold omitted_nil. simpl.
  destruct x as [|y x]; [rewrite bool_decide_eq_true_2 by done; done|].
  rewrite bool_decide_eq_false_2 by done. apply dec_field. by rewrite Hg.
Qed.

Lemma dec_enc_PlatformMeta t : dec_PlatformMeta zero_PlatformMeta (enc_PlatformMeta t) = (read_platform t, true).
Proof.
  destruct t as [o a f h p]. unfold enc_PlatformMeta, dec_PlatformMeta, dec_struct. cbn [OS Arch Filename Shasum Protocols].
  cbn [app]. do 4 (erewrite dec_step; [|reflexivity|reflexivity]). unfold opt_strings.
  rewrite <- (app_nil_r (opt_field _ _ _)).
  erewrite (dec_opt_list _ _ _ _ _ _ _ _ _ (default [] p)); [|reflexivity..|apply dec_slice_strings].
  unfold read_platform. simpl. by destruct p as [[|]|].
Qed.

Lemma dec_enc_platforms l :
  dec_slice zero_PlatformMeta dec_PlatformMeta None (JArr (map enc_PlatformMeta l)) =
  (Some (map read_platform l), true).
Proof.
  unfold dec_slice. simpl.
  assert (∀ cur, cur = [] → dec_elements zero_PlatformMeta dec_PlatformMeta cur (map enc_PlatformMeta l) =
    (map read_platform l, true)) as H; [|by rewrite H].
  induction l as [|x l IH]; intros cur ->; [done|]. cbn [map dec_elements hd tl].
  by rewrite dec_enc_PlatformMeta, IH.
Qed.

(** ** Version metadata *)

Record encodable_metadata (t : VersionMetadata) : Prop := {
  em_version : valid_utf8 (Version t) = true;
  em_description : valid_utf8 (Description t) = true;
  em_deprecation : valid_utf8 (Deprecation t) = true;
  em_key_id : valid_utf8 (GPGKeyID t) = true;
  em_key_armor : valid_utf8 (GPGKeyArmor t) = true;
  em_platforms : Forall encodable_platform (default [] (Platforms t));
  em_metadata : valid_entries (default ∅ (Metadata t))
}.

Lemma zero_metadata_encodable : encodable_metadata zero_VersionMetadata.
Proof. by split. Qed.

Lemma preserves_VersionMetadata : preserves encodable_metadata dec_VersionMetadata.
Proof.
  apply preserves_struct. repeat apply Forall_cons_2; [..|apply Forall_nil_2];
    (eapply preserves_field;
     [| |first [apply preserves_string|apply preserves_bool|apply preserves_map
               |apply preserves_slice; [|apply preserves_PlatformMeta]]];
     first [by intros t []|intros x t ? []; by split|apply zero_platform_encodable]).
Qed.

Lemma textual_VersionMetadata t : encodable_metadata t → textual (enc_VersionMetadata t).
Proof.
  intros []. apply textual_obj. apply Forall_cons_2; [split; [done|by constructor]|].
  repeat apply members_app; try (by apply members_opt_string); [..|by apply members_opt_map].
  - apply members_opt; [done|constructor].
  - apply members_opt; [done|]. constructor. apply Forall_forall. intros v (p & -> & Hp)%list_elem_of_fmap.
    apply textual_PlatformMeta. by eapply Forall_forall in Hp.
Qed.

(** What is read back: empty lists and maps become nil. *)
Definition read_metadata (t : VersionMetadata) : VersionMetadata :=
  mkVersionMetadata (Version t) (Description t) (Deprecated t) (Deprecation t) (GPGKeyID t) (GPGKeyArmor t)
    (omitted_nil (map read_platform <$> Platforms t)) (omitted_empty (Metadata t)).

Lemma dec_opt_string {T} (fs : fields T) (get : T → string) set t k x l :
  find_field fs k = Some (field get set dec_string) → set "" t = t →
  dec_members fs t (opt_string k x ++ l) = dec_members fs (set x t) l.
Proof.
  intros Hf Hs. unfold opt_string. eapply dec_opt; [exact Hf|].
  destruct (String.eqb_spec x "") as [->|]; [done|]. by apply dec_field.
Qed.

Lemma dec_enc_VersionMetadata t :
  dec_VersionMetadata zero_VersionMetadata (enc_VersionMetadata t) = (read_metadata t, true).
Proof.
  destruct t as [v d b msg kid arm ps m]. unfold enc_VersionMetadata, dec_VersionMetadata, dec_struct.
  cbn [Version Description Deprecated Deprecation GPGKeyID GPGKeyArmor Platforms Metadata].
  erewrite dec_step; [|reflexivity|reflexivity].
  erewrite dec_opt_string; [|reflexivity|reflexivity].
  erewrite (dec_opt _ _ (mkVersionMetadata v d b "" "" "" None None)); [|reflexivity|by destruct b].
  do 3 (erewrite dec_opt_string; [|reflexivity|reflexivity]).
  erewrite (dec_opt_list _ _ _ _ _ _ _ _ _ (map read_platform (default [] ps))); [|reflexivity..| |apply dec_enc_platforms].
  2:{ destruct ps as [[|]|]; done. }
  rewrite <- (app_nil_r (opt_map _ _)). erewrite dec_opt_map; [|reflexivity..].
  unfold read_metadata. simpl. by destruct ps as [[|]|].
Qed.

(** ** Deprecation *)

(** The metadata stored under a key, as far as it decodes. *)
Definition stored_metadata (v : option string) : VersionMetadata :=
  match v with
  | Some data => (Unmarshal dec_VersionMetadata data zero_VersionMetadata).1
  | None => zero_VersionMetadata
  end.

Lemma stored_metadata_encodable v : encodable_metadata (stored_metadata v).
Proof.
  destruct v as [data|]; [|apply zero_metadata_encodable].
  apply (preserves_Unmarshal encodable_metadata dec_VersionMetadata); [apply preserves_VersionMetadata|apply zero_metadata_encodable].
Qed.

Lemma deprecate_encodable version message t :
  valid_utf8 version = true → valid_utf8 message = true → encodable_metadata t →
  encodable_metadata (deprecate version message t).
Proof. intros Hv Hm []. by split. Qed.

Section deprecation.
Context {s ok value dir} {KV : KeyValue s ok value dir}.

(** The new metadata is the old one marked deprecated; if reading the old one
    failed, everything else in it is lost. *)
Definition deprecated_as (k : list string) (version message : string) (w : world)
    (r : result error unit) (w' : world) : Prop :=
  kept value dir k w w' ∧
  match r with
  | Ok _ => ∃ meta,
      (meta = stored_metadata (value w k) ∨ (faulted w w' ∧ meta = zero_VersionMetadata)) ∧
      ∃ data, value w' k = Some data ∧
        Unmarshal dec_VersionMetadata data zero_VersionMetadata =
          (read_metadata (deprecate version message meta), true)
  | Err _ => value w' k = value w k ∧ (faulted w w' ∨ barred value dir w k)
  end.

Lemma deprecated_as_frame k v m r w w1 w2 w3 :
  same_but_locks w w1 → same_but_locks w2 w3 → deprecated_as k v m w1 r w2 → deprecated_as k v m w r w3.
Proof using KV.
  intros Hl1 Hl2 [Hk H]. destruct (kv_frame w w1 (proj1 Hl1)) as (_ & Hv1 & _).
  destruct (kv_frame w2 w3 (proj1 Hl2)) as (_ & Hv2 & _).
  split; [by apply (kept_frame k w w1 w2 w3); [apply Hl1|apply Hl2|]|]. rewrite Hv2, <- (Hv1 k).
  destruct r as [[]|e].
  - destruct H as (meta & Hm & H). exists meta. split; [|done].
    destruct Hm as [?|[? ?]]; [by left|right]. split; [by eapply same_but_locks_faulted|done].
  - destruct H as [? [?|?]]; (split; [done|]); [left; by eapply same_but_locks_faulted|right].
    by apply (barred_frame w w1 k (proj1 Hl1)).
Qed.

Lemma wp_setDeprecation k version message w :
  ok w → unlocked w → good_key k → valid_utf8 version = true → valid_utf8 message = true →
  wp (setDeprecation s (slash k) version message) (λ r w', env w w' ∧ unlocked w' ∧ ok w' ∧
    deprecated_as k version message w r w') w.
Proof using KV.
  intros Hok Hu Hg Hv Hm. apply (wp_locked (slash k) _ (λ r w w', deprecated_as k version message w r w'));
    [done..|by intros; eapply deprecated_as_frame|].
  clear w Hok Hu. intros w Hok. apply wp_bind. eapply wp_mono; [by apply kv_get|].
  intros r w1 [Hsm H1]. cbv zeta.
  set (meta := match r with Ok data => (Unmarshal dec_VersionMetadata data zero_VersionMetadata).1
                          | Err _ => zero_VersionMetadata end).
  assert (encodable_metadata meta ∧ (meta = stored_metadata (value w k) ∨
            (faulted w w1 ∧ meta = zero_VersionMetadata))) as [Henc Hmeta].
  { destruct r as [data|e]; unfold meta.
    - split; [apply (stored_metadata_encodable (Some data))|]. left. by rewrite H1.
    - split; [apply zero_metadata_encodable|]. destruct H1 as [[? _]|[HN _]]; [by right|left]. by rewrite HN. }
  clearbody meta. eapply wp_mono; [apply kv_putUnlocked; [by eapply same_ok|done]|].
  intros r2 w2 (He & Hok2 & Hk & H). split; [etransitivity; [apply Hsm|done]|]. split; [done|].
  split; [eapply kept_trans; [apply kept_refl, Hsm|exact Hk]|]. destruct r2 as [[]|e].
  - exists meta. split; [destruct Hmeta as [?|[? ?]]; [by left|right; split; [by eapply faulted_l|done]]|].
    eexists. split; [exact H|]. rewrite Unmarshal_indent by by apply textual_VersionMetadata, deprecate_encodable.
    apply dec_enc_VersionMetadata.
  - destruct H as [-> H]. split; [by apply same_value|].
    destruct H as [?|?]; [left; by eapply faulted_r; [apply Hsm|]|right].
    by apply (barred_frame w w1 k (proj2 Hsm)).
Qed.

End deprecation.

(** ** The properties, on the file store *)

(** The documents round-trip: an index, platform metadata or version
    metadata that is written (indented or compact) is read back with every
    field as it was, empty optional lists and maps becoming nil. *)
Theorem documents_round_trip (idx : Index) (pm : PlatformMeta) (vm : VersionMetadata) :
  encodable_index idx → encodable_platform pm → encodable_metadata vm →
  Unmarshal dec_Index (print_indent 0 (enc_Index idx)) zero_Index =
    (mkIndex (Versions idx) (omitted_empty (Idx_Metadata idx)), true) ∧
  Unmarshal dec_PlatformMeta (print (enc_PlatformMeta pm)) zero_PlatformMeta = (read_platform pm, true) ∧
  Unmarshal dec_VersionMetadata (print_indent 0 (enc_VersionMetadata vm)) zero_VersionMetadata =
    (read_metadata vm, true).
Proof.
  intros H1 H2 H3. split_and!.
  - rewrite Unmarshal_indent by by apply textual_Index. apply dec_enc_Index.
  - rewrite Unmarshal_print by by apply textual_PlatformMeta. apply dec_enc_PlatformMeta.
  - rewrite Unmarshal_indent by by apply textual_VersionMetadata. apply dec_enc_VersionMetadata.
Qed.

Definition sample_index : Index := mkIndex (Some ["1.0.0"; "2.0.0-rc.1"]) (Some {["tier" := "a<b"]}).
Definition sample_platform : PlatformMeta := mkPlatformMeta "linux" "amd64" "p.zip" "00ff" (Some ["5.0"]).
Definition sample_metadata : VersionMetadata :=
  mkVersionMetadata "1.0.0" "d" false "" "K" "" (Some [sample_platform]) None.

Lemma documents_round_trip_witness :
  Unmarshal dec_Index (print_indent 0 (enc_Index sample_index)) zero_Index = (sample_index, true) ∧
  Unmarshal dec_PlatformMeta (print (enc_PlatformMeta sample_platform)) zero_PlatformMeta = (sample_platform, true) ∧
  Unmarshal dec_VersionMetadata (print_indent 0 (enc_VersionMetadata sample_metadata)) zero_VersionMetadata =
    (sample_metadata, true).
Proof.
  assert (encodable_platform sample_platform) as Hp.
  { split; try reflexivity. simpl. by repeat constructor. }
  apply (documents_round_trip sample_index sample_platform sample_metadata); [|exact Hp|].
  - split; [by repeat constructor|]. by apply map_Forall_singleton.
  - split; try reflexivity; [by constructor|]. apply map_Forall_empty.
Defined.

(** Adding a version to an index: on success the index lists exactly the
    versions it listed and the new one, once, with the same metadata; on an
    error it is unchanged (an index that does not decode is never overwritten),
    and a system call failed, or the index does not decode, or its key is
    blocked; no other key changes. *)
Theorem addVersionToIndex_adds (s : Store) (k : list string) (version : string) (w : world) :
  serving s w → good_key k → valid_utf8 version = true →
  ∃ r w', addVersionToIndex s (slash k) version w = Some (r, w') ∧ serving s w' ∧
    (∀ l, good_key l → l ≠ k → value s w' l = value s w l) ∧
    match r with
    | Ok _ => ∃ idx idx', index_at (value s w k) = Some idx ∧ index_at (value s w' k) = Some idx' ∧
        versions_of idx' ≡ₚ (if bool_decide (version ∈ versions_of idx) then versions_of idx
                             else version :: versions_of idx) ∧
        default ∅ (Idx_Metadata idx') = default ∅ (Idx_Metadata idx)
    | Err _ => value s w' k = value s w k ∧
        (faulted w w' ∨ index_at (value s w k) = None ∨ barred (value s) (dir s) w k)
    end.
Proof.
  intros Hw Hg Hv. apply (wp_serving _ _ s w Hw). destruct Hw as [Hrd Hul].
  eapply wp_mono; [by apply wp_addVersionToIndex|]. intros r w' (He & Hu & Hok & [[Hk _] H]). by split_and!.
Qed.

(** Removing a version from an index: on success the index lists exactly
    the other versions, with the same metadata; on an error it is unchanged,
    for one of the same reasons; no other key changes. *)
Theorem removeVersionFromIndex_removes (s : Store) (k : list string) (version : string) (w : world) :
  serving s w → good_key k →
  ∃ r w', removeVersionFromIndex s (slash k) version w = Some (r, w') ∧ serving s w' ∧
    (∀ l, good_key l → l ≠ k → value s w' l = value s w l) ∧
    match r with
    | Ok _ => ∃ idx idx', index_at (value s w k) = Some idx ∧ index_at (value s w' k) = Some idx' ∧
        versions_of idx' ≡ₚ filter (λ v, v ≠ version) (versions_of idx) ∧
        default ∅ (Idx_Metadata idx') = default ∅ (Idx_Metadata idx)
    | Err _ => value s w' k = value s w k ∧
        (faulted w w' ∨ index_at (value s w k) = None ∨ barred (value s) (dir s) w k)
    end.
Proof.
  intros Hw Hg. apply (wp_serving _ _ s w Hw). destruct Hw as [Hrd Hul].
  eapply wp_mono; [by apply wp_removeVersionFromIndex|]. intros r w' (He & Hu & Hok & [[Hk _] H]). by split_and!.
Qed.

(** Deprecating a version: on success the stored metadata is the old one
    with the version, the flag and the message set, except that it is blank
    otherwise when reading the old one failed; on an error it is unchanged; no
    other key changes. *)
Theorem setDeprecation_keeps (s : Store) (k : list string) (version message : string) (w : world) :
  serving s w → good_key k → valid_utf8 version = true → valid_utf8 message = true →
  ∃ r w', setDeprecation s (slash k) version message w = Some (r, w') ∧ serving s w' ∧
    (∀ l, good_key l → l ≠ k → value s w' l = value s w l) ∧
    match r with
    | Ok _ => ∃ meta data,
        (meta = stored_metadata (value s w k) ∨ (faulted w w' ∧ meta = zero_VersionMetadata)) ∧
        value s w' k = Some data ∧
        Unmarshal dec_VersionMetadata data zero_VersionMetadata =
          (read_metadata (deprecate version message meta), true)
    | Err _ => value s w' k = value s w k ∧ (faulted w w' ∨ barred (value s) (dir s) w k)
    end.
Proof.
  intros Hw Hg Hv Hm. apply (wp_serving _ _ s w Hw). destruct Hw as [Hrd Hul].
  eapply wp_mono; [by apply wp_setDeprecation|]. intros r w' (He & Hu & Hok & [[Hk _] H]).
  do 4 (split; [done|]). destruct r; [|done]. destruct H as (meta & ? & data & ? & ?). by exists meta, data.
Qed.

Definition index_key_a : list string := ["providers"; "a"; "index.json"].
Definition index_fs : list (path * node) := [
  ([], NDir); (["srv"], NDir); (["srv"; "providers"], NDir); (["srv"; "providers"; "a"], NDir);
  (["srv"; "providers"; "a"; "index.json"], NFile (print_indent 0 (enc_Index sample_index)) 0)].
Definition index_world (faults : list (option nat)) : world := world_of (list_to_map index_fs) faults.

Lemma index_serving faults : serving srv (index_world faults).
Proof.
  split; [apply (store_fs_checked ["srv"] index_fs); vm_compute; reflexivity|].
  intros k. simpl. by rewrite lookup_empty.
Qed.

Lemma good_index_key : good_key index_key_a.
Proof. split; [done|]. repeat constructor; by vm_compute. Qed.

Example index_add_remove :
  let run m := match m with Some (Ok tt, w) => versions_of <$> index_at (value srv w index_key_a) | _ => None end in
  run (addVersionToIndex srv (slash index_key_a) "1.5.0" (index_world [])) = Some ["1.0.0"; "1.5.0"; "2.0.0-rc.1"] ∧
  run (removeVersionFromIndex srv (slash index_key_a) "1.0.0" (index_world [])) = Some ["2.0.0-rc.1"].
Proof. vm_compute. done. Qed.

Lemma addVersionToIndex_adds_witness :
  let w := index_world [] in
  ∃ r w', addVersionToIndex srv (slash index_key_a) "1.5.0" w = Some (r, w') ∧ serving srv w' ∧
    (∀ l, good_key l → l ≠ index_key_a → value srv w' l = value srv w l) ∧
    match r with
    | Ok _ => ∃ idx idx', index_at (value srv w index_key_a) = Some idx ∧ index_at (value srv w' index_key_a) = Some idx' ∧
        versions_of idx' ≡ₚ (if bool_decide ("1.5.0" ∈ versions_of idx) then versions_of idx
                             else "1.5.0" :: versions_of idx) ∧
        default ∅ (Idx_Metadata idx') = default ∅ (Idx_Metadata idx)
    | Err _ => value srv w' index_key_a = value srv w index_key_a ∧
        (faulted w w' ∨ index_at (value srv w index_key_a) = None ∨ barred (value srv) (dir srv) w index_key_a)
    end.
Proof. apply (addVersionToIndex_adds srv index_key_a); [apply index_serving|apply good_index_key|reflexivity]. Defined.

Lemma removeVersionFromIndex_removes_witness :
  let w := index_world [Some 0] in
  ∃ r w', removeVersionFromIndex srv (slash index_key_a) "1.0.0" w = Some (r, w') ∧ serving srv w' ∧
    (∀ l, good_key l → l ≠ index_key_a → value srv w' l = value srv w l) ∧
    match r with
    | Ok _ => ∃ idx idx', index_at (value srv w index_key_a) = Some idx ∧ index_at (value srv w' index_key_a) = Some idx' ∧
        versions_of idx' ≡ₚ filter (λ v, v ≠ "1.0.0") (versions_of idx) ∧
        default ∅ (Idx_Metadata idx') = default ∅ (Idx_Metadata idx)
    | Err _ => value srv w' index_key_a = value srv w index_key_a ∧
        (faulted w w' ∨ index_at (value srv w index_key_a) = None ∨ barred (value srv) (dir srv) w index_key_a)
    end.
Proof. apply (removeVersionFromIndex_removes srv index_key_a); [apply index_serving|apply good_index_key]. Defined.

Lemma setDeprecation_keeps_witness :
  let w := index_world [] in
  let k := ["providers"; "a"; "x"; "1.0.0"; "metadata.json"] in
  ∃ r w', setDeprecation srv (slash k) "1.0.0" "old" w = Some (r, w') ∧ serving srv w' ∧
    (∀ l, good_key l → l ≠ k → value srv w' l = value srv w l) ∧
    match r with
    | Ok _ => ∃ meta data,
        (meta = stored_metadata (value srv w k) ∨ (faulted w w' ∧ meta = zero_VersionMetadata)) ∧
        value srv w' k = Some data ∧
        Unmarshal dec_VersionMetadata data zero_VersionMetadata =
          (read_metadata (deprecate "1.0.0" "old" meta), true)
    | Err _ => value srv w' k = value srv w k ∧ (faulted w w' ∨ barred (value srv) (dir srv) w k)
    end.
Proof.
  apply (setDeprecation_keeps srv ["providers"; "a"; "x"; "1.0.0"; "metadata.json"]);
    [apply index_serving| |reflexivity..].
  split; [done|]. repeat constructor; by vm_compute.
Defined.
