(* ===== verification/Archive.v ===== *)
(** * Archive validation (archive_validation.go)

    The readers of [archive/zip], [compress/gzip] and [archive/tar] are seen
    through what they return: the list of entries with, for each, what opening
    and draining it gives.  The functions that produce those from the bytes of
    a file are parameters of the handlers that use this file. *)

From S2P Require Import Prelude GoString GoPath SemVer Validation Os Store.

(** ** Entry names *)

Definition archivePathSafe (name : string) : bool :=
  if String.eqb name "" || Contains name "\" || HasPrefix name "/" then false
  else
    let clean := Clean name in
    if String.eqb clean "." then String.eqb name "." || String.eqb name "./"
    else negb (String.eqb clean "..") && negb (HasPrefix clean "../").

(** ** Sizes *)

Definition maxExpanded : Z := Z.shiftl 20 30.

Definition expandedArchiveLimit (uploadLimit : Z) : Z :=
  if (uploadLimit <=? 0)%Z || (maxExpanded / 20 <? uploadLimit)%Z then maxExpanded
  else int64_wrap (uploadLimit * 20).

(** ** Provider archives *)

(** What draining an entry's reader gives: bytes written, then the errors of
    [io.Copy] and [Close]. *)
Record drained := mkDrained { dr_written : Z; dr_copy : option error; dr_close : option error }.

(** A [*zip.File]: [zf_mode] is the result of [Mode()]. *)
Record zip_file := mkZipFile {
  zf_name : string; zf_mode : Z; zf_size64 : Z; zf_open : result error drained
}.

(** [fs.FileMode] *)
Definition ModeDir : Z := Z.shiftl 1 31.
Definition ModeSymlink : Z := Z.shiftl 1 27.
Definition ModeType : Z :=
  fold_right Z.lor 0%Z [ModeDir; ModeSymlink; Z.shiftl 1 26; Z.shiftl 1 25; Z.shiftl 1 24;
                        Z.shiftl 1 21; Z.shiftl 1 19].
Definition IsRegular (m : Z) : bool := (Z.land m ModeType =? 0)%Z.
Definition IsDir (m : Z) : bool := negb (Z.land m ModeDir =? 0)%Z.
Definition IsSymlink (m : Z) : bool := negb (Z.land m ModeSymlink =? 0)%Z.

Definition uint64_wrap (x : Z) : Z := (x mod 2^64)%Z.

Definition providerBinaryNameMatches (base prefix : string) : bool :=
  let base := TrimSuffix base ".exe" in
  if String.eqb base prefix then true
  else
    let '(version, found) := CutPrefix base (prefix +:+ "_v") in
    if negb found then false
    else
      let '(versionOnly, protocol, hasProtocol) := Cut version "_x" in
      if hasProtocol then
        if String.eqb protocol "" then false
        else if negb (forallb rune_digit (runes protocol)) then false
        else validVersion versionOnly
      else validVersion version.

(** One turn of the loop: the new [expanded], and whether the entry is the
    provider's binary. *)
Definition zip_entry_step (limit : Z) (binaryPrefix : string) (expanded : Z) (entry : zip_file)
    : result error (Z * bool) :=
  if negb (archivePathSafe (zf_name entry)) then Err (EText "invalid provider ZIP: unsafe path")
  else
    let mode := zf_mode entry in
    if IsSymlink mode || (negb (IsRegular mode) && negb (IsDir mode)) then
      Err (EText "invalid provider ZIP: unsupported entry")
    else if IsDir mode then Ok (expanded, false)
    else if (uint64_wrap (limit - expanded) <? zf_size64 entry)%Z then
      Err (EText "invalid provider ZIP: expanded size exceeds limit")
    else
      let expanded := int64_wrap (expanded + int64_wrap (zf_size64 entry)) in
      d ←? result_map_err (EWrap "invalid provider ZIP entry") (zf_open entry);
      match dr_copy d, dr_close d with
      | Some e, _ => Err (EWrap "invalid provider ZIP entry" e)
      | None, Some e => Err (EWrap "invalid provider ZIP entry" e)
      | None, None =>
          if negb (dr_written d =? int64_wrap (zf_size64 entry))%Z then
            Err (EText "invalid provider ZIP entry: unexpected expanded size")
          else Ok (expanded, providerBinaryNameMatches (Base (zf_name entry)) binaryPrefix)
      end.

Fixpoint zip_loop (limit : Z) (binaryPrefix : string) (expanded : Z) (foundBinary : bool)
    (l : list zip_file) : result error bool :=
  match l with
  | [] => Ok foundBinary
  | entry :: l =>
      '(expanded, found) ←? zip_entry_step limit binaryPrefix expanded entry;
      zip_loop limit binaryPrefix expanded (foundBinary || found) l
  end.

Definition validateProviderArchive (zr : result error (list zip_file)) (providerName : string)
    (uploadLimit : Z) : result error unit :=
  files ←? result_map_err (EWrap "invalid provider ZIP") zr;
  let binaryPrefix := "terraform-provider-" +:+ providerName in
  found ←? zip_loop (expandedArchiveLimit uploadLimit) binaryPrefix 0 false files;
  if found : bool then Ok () else Err (EText "invalid provider ZIP: missing binary").

(** ** Module archives *)

(** A [tar.Header] and the draining of its content. *)
Record tar_entry := mkTarEntry {
  te_name : string; te_typeflag : ascii; te_size : Z; te_written : Z; te_copy : option error
}.

(** The entries before [Next] ends with [io.EOF] ([ts_next = None]) or another
    error, then what draining and closing the gzip stream gives. *)
Record tar_stream := mkTarStream {
  ts_entries : list tar_entry; ts_next : option error;
  ts_trailer : option error; ts_close : option error
}.

Definition TypeReg : ascii := "0".
Definition TypeDir : ascii := "5".

Definition is_config (name : string) : bool :=
  HasSuffix (Base name) ".tf" || HasSuffix (Base name) ".tf.json".

Definition tar_entry_step (remaining : Z) (header : tar_entry) : result error (Z * bool) :=
  if negb (archivePathSafe (te_name header)) then Err (EText "invalid module tar.gz: unsafe path")
  else if bool_decide (te_typeflag header = TypeDir) then Ok (remaining, false)
  else if negb (bool_decide (te_typeflag header = TypeReg)) then
    Err (EText "invalid module tar.gz: links and special entries are not allowed")
  else if (te_size header <? 0)%Z || (remaining <? te_size header)%Z then
    Err (EText "invalid module tar.gz: expanded size exceeds limit")
  else
    match te_copy header with
    | Some e => Err (EWrap "invalid module tar.gz entry" e)
    | None =>
        if negb (te_written header =? te_size header)%Z then
          Err (EWrap "invalid module tar.gz entry" (EText "unexpected EOF"))
        else Ok (int64_wrap (remaining - te_written header), is_config (te_name header))
    end.

Fixpoint tar_loop (remaining : Z) (foundConfig : bool) (l : list tar_entry) : result error bool :=
  match l with
  | [] => Ok foundConfig
  | header :: l =>
      '(remaining, found) ←? tar_entry_step remaining header;
      tar_loop remaining (foundConfig || found) l
  end.

(** [if err != nil { return fmt.Errorf("msg: %w", err) }] *)
Definition unless_err (msg : string) (e : option error) (k : result error unit) : result error unit :=
  match e with Some e => Err (EWrap msg e) | None => k end.

Definition validateModuleArchive (gz : result error tar_stream) (uploadLimit : Z) : result error unit :=
  ts ←? result_map_err (EWrap "invalid module tar.gz") gz;
  found ←? tar_loop (expandedArchiveLimit uploadLimit) false (ts_entries ts);
  unless_err "invalid module tar.gz" (ts_next ts) (
  unless_err "invalid module tar.gz trailer" (ts_trailer ts) (
  unless_err "invalid module tar.gz" (ts_close ts) (
  if found : bool then Ok () else Err (EText "invalid module tar.gz: no Terraform configuration files")))).

(** * Properties *)

(** ** Entry names *)

(** An accepted entry name, joined to any extraction directory, stays at or
    below that directory and keeps all its components; everything that is
    rejected is empty, absolute, holds a backslash, climbs out with [".."], or
    is a roundabout way to write ["."]. *)
Theorem archivePathSafe_confined name :
  (archivePathSafe name = true → ∀ dest, Forall plain dest →
    join_parts dest (Split name "/") = dest ++ rel_parts name ∧ Forall plain (rel_parts name)) ∧
  (archivePathSafe name = false →
    name = "" ∨ IsAbs name = true ∨ ¬ no_char "\" name ∨ escapes (rel_parts name) = true ∨
    (rel_parts name = [] ∧ name ≠ "." ∧ name ≠ "./")).
Proof.
  unfold archivePathSafe. destruct (String.eqb_spec name "") as [|Hne]; [split; [done|by left]|].
  destruct (Contains name "\") eqn:Hb; cbn [orb].
  { split; [done|]. intros _. do 2 right. left. rewrite <- Contains_char. by rewrite Hb. }
  destruct (HasPrefix name "/") eqn:Ha; cbn [orb]; [split; [done|by right; left]|].
  change (IsAbs name = false) in Ha. pose proof (escape_test name Hne Ha) as He.
  assert (escapes (rel_parts name) = false → ∀ dest, Forall plain dest →
    join_parts dest (Split name "/") = dest ++ rel_parts name ∧ Forall plain (rel_parts name)) as Hok.
  { intros Hf dest Hd. split; [by apply clean_parts_below|by apply clean_parts_no_escape]. }
  destruct (String.eqb_spec (Clean name) ".") as [Hd|Hd].
  - apply Clean_dot in Hd; [|done..]. split; [intros _; apply Hok; by rewrite Hd|].
    intros [??]%orb_false_iff. to_props. do 4 right. by split_and!.
  - rewrite <- negb_orb, He. split; [by intros ?%negb_true_iff; apply Hok|].
    intros ?%negb_false_iff. do 3 right. by left.
Qed.

Lemma archivePathSafe_confined_witness :
  archivePathSafe "bin/../terraform-provider-x" = true ∧
  join_parts ["opt"; "x"] (Split "bin/../terraform-provider-x" "/") = ["opt"; "x"; "terraform-provider-x"].
Proof.
  split; [reflexivity|].
  destruct (archivePathSafe_confined "bin/../terraform-provider-x") as [H _].
  destruct (H eq_refl ["opt"; "x"]) as [-> _]; [by repeat constructor; vm_compute|reflexivity].
Defined.

(** ** Sizes *)

Lemma int64_wrap_id x : (- 2^63 ≤ x < 2^63)%Z → int64_wrap x = x.
Proof. intros H. unfold int64_wrap. rewrite Z.mod_small by lia. lia. Qed.

Lemma uint64_wrap_id x : (0 ≤ x < 2^64)%Z → uint64_wrap x = x.
Proof. intros H. unfold uint64_wrap. by rewrite Z.mod_small. Qed.

Lemma maxExpanded_value : maxExpanded = 21474836480%Z.
Proof. reflexivity. Qed.

(** The expansion limit is twenty times a positive upload limit, capped at
    20 GiB, without overflow; other upload limits give the cap. *)
Theorem expandedArchiveLimit_value uploadLimit :
  expandedArchiveLimit uploadLimit =
    (if 0 <? uploadLimit then (uploadLimit * 20) `min` maxExpanded else maxExpanded)%Z ∧
  (0 < expandedArchiveLimit uploadLimit ≤ maxExpanded)%Z.
Proof.
  unfold expandedArchiveLimit. rewrite maxExpanded_value.
  change (21474836480 / 20)%Z with 1073741824%Z.
  destruct (uploadLimit <=? 0)%Z eqn:E1; simpl; to_props.
  { rewrite (proj2 (Z.ltb_ge 0 uploadLimit)) by lia. lia. }
  rewrite (proj2 (Z.ltb_lt 0 uploadLimit)) by lia.
  destruct (1073741824 <? uploadLimit)%Z eqn:E2; to_props; [lia|].
  rewrite int64_wrap_id by lia. lia.
Qed.

Lemma limit_range u : (0 < expandedArchiveLimit u ≤ 21474836480)%Z.
Proof.
  unfold expandedArchiveLimit. rewrite maxExpanded_value. change (21474836480 / 20)%Z with 1073741824%Z.
  destruct (_ || _) eqn:E; to_props; [lia|]. rewrite int64_wrap_id; lia.
Qed.

(** ** Provider archives *)

Definition drained_ok (size : Z) (d : drained) : Prop :=
  dr_copy d = None ∧ dr_close d = None ∧ dr_written d = size.

(** What an acceptable entry is. *)
Definition zip_entry_ok (e : zip_file) : Prop :=
  archivePathSafe (zf_name e) = true ∧ IsSymlink (zf_mode e) = false ∧
  (IsDir (zf_mode e) = true ∨
   IsRegular (zf_mode e) = true ∧ ∃ d, zf_open e = Ok d ∧ drained_ok (zf_size64 e) d).

Definition expanded_size (e : zip_file) : Z := if IsDir (zf_mode e) then 0%Z else zf_size64 e.
Definition total_expanded (l : list zip_file) : Z := foldr (λ e t, (expanded_size e + t)%Z) 0%Z l.

Definition is_binary (prefix : string) (e : zip_file) : bool :=
  negb (IsDir (zf_mode e)) && providerBinaryNameMatches (Base (zf_name e)) prefix.

(** [UncompressedSize64] is a uint64. *)
Definition sizes_u64 (l : list zip_file) : Prop := Forall (λ e, 0 ≤ zf_size64 e < 2^64)%Z l.

Lemma zip_entry_step_ok limit prefix expanded e x :
  (0 ≤ expanded ≤ limit)%Z → (limit ≤ 21474836480)%Z → (0 ≤ zf_size64 e < 2^64)%Z →
  zip_entry_step limit prefix expanded e = Ok x ↔
  zip_entry_ok e ∧ (expanded + expanded_size e ≤ limit)%Z ∧
  x = ((expanded + expanded_size e)%Z, is_binary prefix e).
Proof.
  intros Hx Hl Hs. unfold zip_entry_step, zip_entry_ok, expanded_size, is_binary.
  destruct (archivePathSafe (zf_name e)); simpl; [|naive_solver].
  destruct (IsSymlink (zf_mode e)); simpl; [naive_solver|].
  destruct (IsDir (zf_mode e)); simpl;
    [rewrite andb_false_r; simpl; rewrite Z.add_0_r; intuition (try congruence; auto with lia)|].
  destruct (IsRegular (zf_mode e)); simpl; [|naive_solver].
  rewrite uint64_wrap_id by lia.
  destruct (limit - expanded <? zf_size64 e)%Z eqn:E; to_props; [naive_solver lia|].
  rewrite !int64_wrap_id by (rewrite ?int64_wrap_id; lia). unfold drained_ok.
  destruct (zf_open e) as [[wr [ce|] [cl|]]|]; simpl;
    [split; [done|]; intros ((_ & _ & [?|(_ & d & [= <-] & ? & ? & ?)]) & _); done..| |
     split; [done|]; intros ((_ & _ & [?|(_ & d & ? & _)]) & _); done].
  destruct (wr =? zf_size64 e)%Z eqn:Ew; to_props; simpl.
  - split; [intros [= <-]|by intros (_ & _ & ->)].
    split_and!; [done|done| |lia|done]. right. split; [done|]. by eexists.
  - split; [done|]. intros ((_ & _ & [?|(_ & d & [= <-] & ? & ? & ?)]) & _); done.
Qed.

Lemma zip_loop_ok limit prefix expanded fb l found :
  (0 ≤ expanded ≤ limit)%Z → (limit ≤ 21474836480)%Z → sizes_u64 l →
  zip_loop limit prefix expanded fb l = Ok found ↔
  Forall zip_entry_ok l ∧ (expanded + total_expanded l ≤ limit)%Z ∧
  found = fb || existsb (is_binary prefix) l.
Proof.
  intros Hx Hl Hs. revert expanded fb Hx.
  induction Hs as [|e l He Hs IH]; intros expanded fb Hx; simpl.
  { rewrite orb_false_r, Forall_nil. naive_solver lia. }
  rewrite result_bind_ok, Forall_cons.
  assert (0 ≤ expanded_size e)%Z by (unfold expanded_size; destruct (IsDir _); lia).
  assert (0 ≤ total_expanded l)%Z.
  { clear -Hs. induction Hs as [|e l He Hs IH]; simpl; [lia|].
    unfold expanded_size; destruct (IsDir _); lia. }
  setoid_rewrite zip_entry_step_ok; [|lia|done|done]. split.
  - intros ([ex b] & (Hok & Hle & [= -> ->]) & Hr). apply IH in Hr as (? & ? & ->); [|lia].
    split_and!; [done|done|lia|]. by rewrite orb_assoc.
  - intros ([Hok Hall] & Hle & ->). exists ((expanded + expanded_size e)%Z, is_binary prefix e).
    split; [split_and!; [done|lia|done]|]. apply IH; [lia|].
    split_and!; [done|lia|]. by rewrite orb_assoc.
Qed.

(** C38. A provider archive is accepted exactly when every entry has a confined
    name, is a directory or a regular file that unpacks without error to its
    declared size, the declared sizes together stay within the expansion limit
    (no overflow of the running total), and one of the files is the provider's
    binary. *)
Theorem validateProviderArchive_exact files name limit :
  sizes_u64 files →
  validateProviderArchive (Ok files) name limit = Ok () ↔
  Forall zip_entry_ok files ∧
  (total_expanded files ≤ expandedArchiveLimit limit)%Z ∧
  existsb (is_binary ("terraform-provider-" +:+ name)) files = true.
Proof.
  intros Hs. unfold validateProviderArchive. simpl. pose proof (limit_range limit).
  rewrite result_bind_ok. setoid_rewrite zip_loop_ok; [|lia|lia|done]. split.
  - intros (b & (? & ? & ->) & Hb). split_and!; [done|lia|]. by destruct (existsb _ _).
  - intros (? & ? & He). exists true. rewrite He. split_and!; done.
Qed.

(** A reader that takes nothing for a zip archive. *)
Definition no_zip (data : string) (n : Z) : result error (list zip_file) := Err (EText "zip: not a valid zip file").

(** A regular file of mode 0755. *)
Definition sample_zip : list zip_file :=
  [mkZipFile "README.md" 420 5 (Ok (mkDrained 5 None None));
   mkZipFile "terraform-provider-acme_v1.2.3_x5" 493 7 (Ok (mkDrained 7 None None))].

Lemma validateProviderArchive_exact_witness :
  sizes_u64 sample_zip ∧ validateProviderArchive (Ok sample_zip) "acme" 100 = Ok ().
Proof.
  assert (sizes_u64 sample_zip) as Hs by by repeat constructor.
  split; [exact Hs|]. apply (validateProviderArchive_exact sample_zip "acme" 100 Hs).
  split_and!; [|vm_compute; congruence|vm_compute; reflexivity].
  repeat (apply List.Forall_cons;
    [split; [reflexivity|]; split; [reflexivity|]; right; split; [reflexivity|];
     eexists; split; [reflexivity|]; by repeat split|]).
  apply List.Forall_nil.
Defined.

(** ** The binary's name *)

Lemma digits_runes s : forallb rune_digit (runes s) = sforall is_digit s.
Proof.
  rewrite runes_ascii_forall; [by apply sforall_ext|].
  intros r Hr. unfold rune_digit. apply andb_false_iff. right. apply N.leb_gt. lia.
Qed.

Lemma cut_at_x_none s : no_char "_" s → cut_at s "_x" = None.
Proof.
  intros Hs. destruct (cut_at s "_x") as [[b r]|] eqn:E; [|done].
  apply cut_at_some in E as ->. apply no_char_app in Hs as [_ Hs].
  by apply no_char_cons in Hs as [? _].
Qed.

Lemma cut_at_x b r : no_char "_" b → cut_at (b +:+ "_x" +:+ r) "_x" = Some (b, r).
Proof.
  induction b as [|a b IH]; intros Hb; [by destruct r|].
  apply no_char_cons in Hb as [Ha Hb]. rewrite sapp_cons. cbn [cut_at].
  specialize (IH Hb). change ("_x" +:+ r) with (String "_" (String "x" r)) in *.
  replace (HasPrefix (String a (b +:+ String "_" (String "x" r))) "_x") with false.
  - by rewrite IH.
  - cbn. by rewrite bool_decide_false.
Qed.

(** Apart from an [.exe] suffix, the accepted binary names are the prefix
    alone, or the prefix, [_v], a semantic version and optionally [_x] and a
    protocol number in decimal digits. *)
Theorem providerBinaryNameMatches_exact base prefix :
  providerBinaryNameMatches base prefix = true ↔
  let core := TrimSuffix base ".exe" in
  core = prefix ∨ ∃ v, validVersion v = true ∧
    (core = prefix +:+ "_v" +:+ v ∨
     ∃ p, p ≠ "" ∧ sforall is_digit p = true ∧ core = prefix +:+ "_v" +:+ v +:+ "_x" +:+ p).
Proof.
  unfold providerBinaryNameMatches. cbv zeta.
  generalize (TrimSuffix base ".exe"); clear base; intros core.
  destruct (String.eqb_spec core prefix) as [->|Hne]; [naive_solver|].
  unfold CutPrefix. destruct (HasPrefix core (prefix +:+ "_v")) eqn:HP; simpl.
  2:{ split; [done|]. intros [?|(v & Hv & Hc)]; [done|].
      apply not_true_iff_false in HP. destruct HP. apply HasPrefix_iff.
      destruct Hc as [->|(p & _ & _ & ->)]; [exists v|exists (v +:+ "_x" +:+ p)];
        by rewrite sapp_assoc. }
  apply HasPrefix_iff in HP as [t ->]. rewrite sdrop_app, sapp_assoc. rewrite sapp_assoc in Hne.
  assert (∀ u, prefix +:+ "_v" +:+ t = prefix +:+ "_v" +:+ u ↔ t = u) as Hinj.
  { intros u. split; [|by intros ->]. by intros [= ?]%sapp_inj_l. }
  assert (∀ v, validVersion v = true → no_char "_" v) as Hno by (intros v Hv; by apply version_no_char).
  unfold Cut. destruct (cut_at t "_x") as [[v p]|] eqn:E; simpl.
  - pose proof (cut_at_some _ _ _ _ E) as ->. rewrite digits_runes.
    transitivity (validVersion v = true ∧ p ≠ "" ∧ sforall is_digit p = true).
    { destruct (String.eqb_spec p ""), (sforall is_digit p); naive_solver. }
    split; [intros (? & ? & ?); right; exists v; split; [done|]; right; by exists p|].
    intros [?|(v' & Hv' & [Hc|(p' & ? & ? & Hc)])]; [done| |].
    + apply Hinj in Hc. rewrite Hc in E. by rewrite cut_at_x_none in E by auto.
    + apply Hinj in Hc. rewrite Hc, cut_at_x in E by auto. by injection E as <- <-.
  - split; [intros Hv; right; exists t; split; [done|by left]|].
    intros [?|(v' & Hv' & [Hc|(p' & ? & ? & Hc)])]; [done|by apply Hinj in Hc as ->|].
    apply Hinj in Hc as ->. by rewrite cut_at_x in E by auto.
Qed.

(** ** Module archives *)

Definition is_tar_dir (e : tar_entry) : bool := bool_decide (te_typeflag e = TypeDir).

Definition tar_entry_ok (e : tar_entry) : Prop :=
  archivePathSafe (te_name e) = true ∧
  (te_typeflag e = TypeDir ∨
   te_typeflag e = TypeReg ∧ (0 ≤ te_size e)%Z ∧ te_copy e = None ∧ te_written e = te_size e).

Definition tar_size (e : tar_entry) : Z := if is_tar_dir e then 0%Z else te_size e.
Definition total_tar (l : list tar_entry) : Z := foldr (λ e t, (tar_size e + t)%Z) 0%Z l.
Definition is_tar_config (e : tar_entry) : bool := negb (is_tar_dir e) && is_config (te_name e).

Lemma tar_entry_step_ok remaining e x :
  (0 ≤ remaining ≤ 21474836480)%Z →
  tar_entry_step remaining e = Ok x ↔
  tar_entry_ok e ∧ (tar_size e ≤ remaining)%Z ∧ x = ((remaining - tar_size e)%Z, is_tar_config e).
Proof.
  intros Hr. unfold tar_entry_step, tar_entry_ok, tar_size, is_tar_config, is_tar_dir.
  destruct (archivePathSafe (te_name e)); simpl; [|naive_solver].
  case_bool_decide as Hd; simpl; [rewrite Z.sub_0_r; naive_solver (auto with lia)|].
  case_bool_decide as Hf; simpl; [|naive_solver].
  destruct ((te_size e <? 0)%Z || (remaining <? te_size e)%Z) eqn:E; simpl.
  { apply orb_true_iff in E as [E|E]; to_props; naive_solver lia. }
  to_props. destruct (te_copy e); [naive_solver|].
  destruct (te_written e =? te_size e)%Z eqn:Ew; to_props; simpl; [|naive_solver].
  rewrite Ew, int64_wrap_id by lia. naive_solver.
Qed.

Lemma tar_loop_ok remaining fb l found :
  (0 ≤ remaining ≤ 21474836480)%Z →
  tar_loop remaining fb l = Ok found ↔
  Forall tar_entry_ok l ∧ (total_tar l ≤ remaining)%Z ∧ found = fb || existsb is_tar_config l.
Proof.
  revert remaining fb. induction l as [|e l IH]; intros remaining fb Hr; simpl.
  { rewrite orb_false_r, Forall_nil. naive_solver lia. }
  rewrite result_bind_ok, Forall_cons. setoid_rewrite tar_entry_step_ok; [|done].
  assert (tar_entry_ok e → 0 ≤ tar_size e)%Z as Hpos.
  { unfold tar_size, is_tar_dir. intros (_ & [->|(-> & ? & _)]); done. }
  assert (Forall tar_entry_ok l → 0 ≤ total_tar l)%Z as Htot.
  { clear. induction 1 as [|e l (_ & He) _ IH]; simpl; [lia|].
    unfold tar_size, is_tar_dir. destruct He as [->|(-> & ? & _)]; simpl; lia. }
  split.
  - intros ([r b] & (Hok & Hle & [= -> ->]) & Hl). specialize (Hpos Hok).
    apply IH in Hl as (? & ? & ->); [|lia]. rewrite orb_assoc. split_and!; [done..|lia|done].
  - intros ([Hok Hall] & Hle & ->). specialize (Hpos Hok). specialize (Htot Hall).
    exists ((remaining - tar_size e)%Z, is_tar_config e).
    split; [split_and!; [done|lia|done]|]. apply IH; [lia|]. rewrite orb_assoc. split_and!; [done|lia|done].
Qed.

(** C39. A module archive is accepted exactly when the gzip stream is sound to
    its end, every entry has a confined name and is a directory or a regular
    file of the size its header says, the sizes together stay within the
    expansion limit, and one of the files is a Terraform configuration. *)
Theorem validateModuleArchive_exact gz limit :
  validateModuleArchive gz limit = Ok () ↔
  ∃ l, gz = Ok (mkTarStream l None None None) ∧ Forall tar_entry_ok l ∧
    (total_tar l ≤ expandedArchiveLimit limit)%Z ∧ existsb is_tar_config l = true.
Proof.
  unfold validateModuleArchive. pose proof (limit_range limit).
  destruct gz as [[l n t c]|]; simpl; [|naive_solver]. rewrite result_bind_ok.
  setoid_rewrite tar_loop_ok; [|lia]. split.
  - intros (b & (? & ? & ->) & Hk). exists l.
    destruct n, t, c, (existsb is_tar_config l); simpl in Hk; done.
  - intros (l' & [= -> -> -> ->] & ? & ? & He). exists true. rewrite He. by split_and!.
Qed.
