(* ===== verification/Signing.v ===== *)
(** * Signed checksums (signing.go)

    The SHA256SUMS document of a provider version and its signature.  The
    signature itself is that of package openpgp, a third-party library: a
    [RegistrySigner] is any function from data to a signature. *)

From S2P Require Import Prelude GoString SemVer GoPath Os Json Decode Store Index.

Record RegistrySigner := mkSigner {
  KeyID : string; PublicArmor : string;
  Sign : string → result error string
}.

Definition providerChecksumsNames (name version : string) : string * string :=
  let base := "terraform-provider-" +:+ name +:+ "_" +:+ version +:+ "_SHA256SUMS" in
  (base, base +:+ ".sig").

(** A line per artifact: (file name, checksum). *)
Definition checksumEntry : Type := string * string.

Definition checksum_line (e : checksumEntry) : string := e.2 +:+ "  " +:+ e.1 +:+ String "010" "".

Definition filename_less (a b : checksumEntry) : bool := (Compare a.1 b.1 <? 0)%Z.

(** [sort.Slice] by file name (the order of equal names is that of an
    insertion sort), then one line each. *)
Definition checksums_document (entries : list checksumEntry) : string :=
  Join (map checksum_line (SliceStable filename_less entries)) "".

(** The platforms whose artifact exists. *)
Fixpoint existing_entries (s : Store) (namespace name version : string) (platforms : list PlatformMeta)
    : M (list checksumEntry) :=
  match platforms with
  | [] => mret []
  | platform :: platforms =>
      ex ← Exists s (slash ["providers"; namespace; name; version; Filename platform]);
      l ← existing_entries s namespace name version platforms;
      mret (if (ex : bool) then (Filename platform, Shasum platform) :: l else l)
  end.

Definition rebuildProviderChecksums (s : Store) (signer : option RegistrySigner)
    (namespace name version : string) : M (result error unit) :=
  match signer with
  | None => mret (Err (EText "registry signer is unavailable"))
  | Some signer =>
      platforms ←! GetProviderPlatforms s namespace name version;
      entries ← existing_entries s namespace name version platforms;
      match entries with
      | [] => mret (Err (EText "provider version has no published artifacts"))
      | _ =>
          let checksums := checksums_document entries in
          signature ←! mret (Sign signer checksums);
          let '(checksumsName, signatureName) := providerChecksumsNames name version in
          _ ←! Put s (slash ["providers"; namespace; name; version; checksumsName]) checksums;
          _ ←! Put s (slash ["providers"; namespace; name; version; signatureName]) signature;
          mret (Ok ())
      end
  end.

(** ** At start-up *)

(** The failures of one version, of one provider, of one namespace. *)
Fixpoint rebuild_versions (s : Store) (signer : option RegistrySigner) (namespace name : string)
    (versions : list string) : M (list error) :=
  match versions with
  | [] => mret []
  | version :: versions =>
      r ← rebuildProviderChecksums s signer namespace name version;
      l ← rebuild_versions s signer namespace name versions;
      mret (match r with
            | Ok _ => l
            | Err e => EWrap (namespace +:+ "/" +:+ name +:+ "@" +:+ version) e :: l
            end)
  end.

Fixpoint rebuild_providers (s : Store) (signer : option RegistrySigner) (namespace namespacePrefix : string)
    (providerPrefixes : list string) : M (list error) :=
  match providerPrefixes with
  | [] => mret []
  | providerPrefix :: rest =>
      let name := TrimSuffix (TrimPrefix providerPrefix namespacePrefix) "/" in
      r ← ScanProviderVersions s namespace name;
      l1 ← match r with
           | Err e => mret [e]
           | Ok versions => rebuild_versions s signer namespace name versions
           end;
      l2 ← rebuild_providers s signer namespace namespacePrefix rest;
      mret (l1 ++ l2)
  end.

Fixpoint rebuild_namespaces (s : Store) (signer : option RegistrySigner) (namespacePrefixes : list string)
    : M (list error) :=
  match namespacePrefixes with
  | [] => mret []
  | namespacePrefix :: rest =>
      let namespace := TrimSuffix (TrimPrefix namespacePrefix "providers/") "/" in
      r ← List_ s namespacePrefix "/";
      l1 ← match r with
           | Err e => mret [e]
           | Ok (_, providerPrefixes) => rebuild_providers s signer namespace namespacePrefix providerPrefixes
           end;
      l2 ← rebuild_namespaces s signer rest;
      mret (l1 ++ l2)
  end.

(** The failures joined into the returned error; none is nil. *)
Definition rebuildAllProviderChecksums (s : Store) (signer : option RegistrySigner) : M (list error) :=
  r ← List_ s "providers/" "/";
  match r with
  | Err e => mret [e]
  | Ok (_, namespacePrefixes) => rebuild_namespaces s signer namespacePrefixes
  end.
