(* ===== verification/Http.v ===== *)
(** * Requests and responses

    What the handlers see of [net/http]: the variables of the route, the first
    part of a multipart body, the reply.  Reading the network is not modelled:
    a body is the bytes it delivers and the error it ends with. *)

From S2P Require Import Prelude GoString Os Json Decode Store.

(** ** Requests *)

(** [mux.Vars(r)]; a missing variable reads as the empty string. *)
Definition Vars : Type := gmap string string.
Definition var (vars : Vars) (key : string) : string := default "" ((vars : gmap string string) !! key).

(** [r.MultipartReader()] and [NextPart()] on the body behind
    [http.MaxBytesReader], whose limit shows as the error [EMaxBytes]. *)
Inductive upload :=
| NotMultipart (e : error)
| NoPart (e : error)
| Part (FormName FileName : string) (content : reader).

(** [io.ReadFull(file, peek)] with a four-byte buffer: the bytes read. *)
Definition peeked (file : reader) : string := stake 4 (r_data file).

(** [textproto.CanonicalMIMEHeaderKey] on a name of token characters: the first
    letter and those after a hyphen in upper case, the others in lower case. *)
Definition lower (a : ascii) : ascii :=
  if in_range "A" "Z" a then ascii_of_N (byte_of a + 32) else a.

Fixpoint canonical_from (start : bool) (s : string) : string :=
  match s with
  | "" => ""
  | String a s =>
      String (if start then upper a else lower a) (canonical_from (bool_decide (a = "-"%char)) s)
  end.

Definition CanonicalHeaderKey (s : string) : string := canonical_from true s.

(** [*http.Request]: the method, [URL.Path], [RemoteAddr], the first value of
    each header under its canonical name, and the body in the two forms the
    handlers read it: as a multipart upload, and as the first JSON value. *)
Record request := mkRequest {
  r_Method : string;
  r_Path : string;
  r_RemoteAddr : string;
  r_Header : gmap string string;
  r_upload : upload;
  r_json : option json
}.

(** [r.Header.Get(key)] *)
Definition Header_Get (r : request) (key : string) : string :=
  default "" (r_Header r !! CanonicalHeaderKey key).

(** ** Responses *)

(** A message: a text, or a prefix followed by [err.Error()]. *)
Inductive message :=
| Msg (text : string)
| MsgErr (prefix : string) (e : error).

Inductive body :=
| BNone
| BText (s : string)                                      (* http.Error *)
| BError (prefix : string) (e : error)                    (* http.Error with an error's text *)
| BJson (v : json)
| BApi (Success : bool) (Message : message) (Data : option json)   (* APIResponse *)
| BFile (data : string) (mtime : Z).                      (* http.ServeContent *)

(** The counters of [RegistryMetrics] a handler increments. *)
Inductive counter := ProviderUploads | ProviderDownloads | ModuleUploads | ModuleDownloads
                   | AuthFailures | RateLimitHits.

Record response := mkResponse {
  status : Z;
  headers : list (string * string);
  content : body;
  counted : list counter
}.

Definition writeJSON (status : Z) (success : bool) (m : message) : response :=
  mkResponse status [("Content-Type", "application/json")] (BApi success m None) [].
Definition writeData (v : json) : response :=
  mkResponse 200 [("Content-Type", "application/json")] (BApi true (Msg "") (Some v)) [].
Definition http_Error (status : Z) (text : string) : response :=
  mkResponse status [("Content-Type", "text/plain; charset=utf-8"); ("X-Content-Type-Options", "nosniff")]
             (BText text) [].

Definition counting (c : counter) (r : response) : response :=
  mkResponse (status r) (headers r) (content r) (c :: counted r).
(** Headers set before the reply, which overrides them. *)
Definition with_headers (h : list (string * string)) (r : response) : response :=
  mkResponse (status r) (List.filter (λ kv, bool_decide (kv.1 ∉ (headers r).*1)) h ++ headers r)
             (content r) (counted r).

(** [err.Error()] of an upload too large, through its wrappers, is
    recognised by [errors.As] and [errors.Is]. *)
Definition isUploadTooLarge (e : error) : bool := is_max_bytes e || is_upload_too_large e.
