(* ===== verification/Auth.v ===== *)
(** * API keys (auth.go)

    The key store: the file of key hashes, its validation and migration, its
    reload when the file changes, and the questions the middleware asks it.
    [time.Time] values only pass through: how they are read from and written
    to RFC 3339 text is a parameter, and so is the instant a [Z] of
    nanoseconds stands for. *)

From S2P Require Import Prelude GoString GoPath Sha256 Os Json Decode Store Http.

(** ** Strings *)

(** [strings.ToLower] where it matters: no other rune is mapped to a
    hexadecimal digit, so a hash accepted below is ASCII. *)
Fixpoint ToLower (s : string) : string :=
  match s with "" => "" | String a s => String (lower a) (ToLower s) end.

(** The UTF-8 encodings of the runes [unicode.IsSpace] accepts. *)
Definition unicode_spaces : list string := map encode_rune
  [9; 10; 11; 12; 13; 32; 133; 160; 5760; 8192; 8193; 8194; 8195; 8196; 8197; 8198; 8199; 8200;
   8201; 8202; 8232; 8233; 8239; 8287; 12288]%N.

Fixpoint trim_left (fuel : nat) (s : string) : string :=
  match fuel with
  | O => s
  | S fuel =>
      match List.find (HasPrefix s) unicode_spaces with
      | Some sp => trim_left fuel (TrimPrefix s sp)
      | None => s
      end
  end.

Fixpoint trim_right (fuel : nat) (s : string) : string :=
  match fuel with
  | O => s
  | S fuel =>
      match List.find (HasSuffix s) unicode_spaces with
      | Some sp => trim_right fuel (TrimSuffix s sp)
      | None => s
      end
  end.

(** [strings.TrimSpace]; every step removes a byte, so the length is enough. *)
Definition TrimSpace (s : string) : string :=
  let t := trim_left (slen s) s in trim_right (slen t) t.

(** [hex.DecodeString], its error only. *)
Fixpoint hex_DecodeString (s : string) : option (list N) :=
  match s with
  | "" => Some []
  | String a (String b s) =>
      x ← hex_value a; y ← hex_value b; l ← hex_DecodeString s; Some ((16 * x + y)%N :: l)
  | _ => None
  end.

(** ** Permissions and keys *)

Abbreviation Permission := string.
Definition PermRead : Permission := "read".
Definition PermWrite : Permission := "write".
Definition PermAdmin : Permission := "admin".

Definition hashKey (key : string) : string := sha256_hex key.

Definition extractAPIKey (r : request) : string :=
  let key := Header_Get r "X-API-Key" in
  if negb (String.eqb key "") then key
  else
    let auth := Header_Get r "Authorization" in
    if HasPrefix auth "Bearer " then TrimPrefix auth "Bearer " else "".

Definition requiredPermission (r : request) : Permission :=
  if String.eqb (r_Path r) "/api/v1/gc" || Contains (r_Path r) "/waivers" then PermAdmin
  else if String.eqb (r_Method r) "DELETE" then PermAdmin
  else if String.eqb (r_Method r) "POST" || String.eqb (r_Method r) "PUT" || String.eqb (r_Method r) "PATCH"
  then PermWrite
  else PermRead.

Definition is_read (r : request) : bool := String.eqb (r_Method r) "GET" || String.eqb (r_Method r) "HEAD".

Definition privateSecurityRead (r : request) : bool :=
  if negb (is_read r) then false
  else
    let path := TrimSuffix (r_Path r) "/" in
    if String.eqb path "/api/v1/security/scans" || String.eqb path "/api/v1/security/health" then false
    else HasPrefix path "/api/v1/security/scans/".

(** What [HasPermission] asks of a valid key. *)
Definition permits (held required : Permission) : bool :=
  if String.eqb required PermRead then true
  else if String.eqb required PermWrite then String.eqb held PermWrite || String.eqb held PermAdmin
  else if String.eqb required PermAdmin then String.eqb held PermAdmin
  else false.

Definition httpJSONError (status : Z) (message : string) : response :=
  mkResponse status [("Content-Type", "application/json")]
    (BText ("{" +:+ quote "success" +:+ ":false," +:+ quote "message" +:+ ":" +:+ quote message +:+ "}")) [].

Section auth.
Context {Time : Type}.
Context (dec_time : decoder Time) (enc_time : Time → option json) (zero_time : Time) (time_of : Z → Time).

Record APIKey := mkAPIKey {
  ak_Key : string; ak_Hash : string; ak_Name : string; ak_Permission : Permission; ak_Enabled : bool;
  ak_CreatedAt : Time; ak_LastUsedAt : option Time; ak_Description : string
}.

Definition APIKeysConfig : Type := option (list APIKey).

Definition set_Key x k := mkAPIKey x (ak_Hash k) (ak_Name k) (ak_Permission k) (ak_Enabled k)
  (ak_CreatedAt k) (ak_LastUsedAt k) (ak_Description k).
Definition set_Hash x k := mkAPIKey (ak_Key k) x (ak_Name k) (ak_Permission k) (ak_Enabled k)
  (ak_CreatedAt k) (ak_LastUsedAt k) (ak_Description k).

Definition zero_APIKey : APIKey := mkAPIKey "" "" "" "" false zero_time None "".

(** A [*time.Time]: null clears it, anything else fills a fresh or the present
    one. *)
Definition dec_time_ptr : decoder (option Time) := λ cur v,
  match v with
  | JNull => (None, true)
  | _ => let '(t, ok) := dec_time (default zero_time cur) v in (Some t, ok)
  end.

Definition key_fields : fields APIKey := [
  ("key", field ak_Key set_Key dec_string);
  ("hash", field ak_Hash set_Hash dec_string);
  ("name", field ak_Name (λ x k, mkAPIKey (ak_Key k) (ak_Hash k) x (ak_Permission k) (ak_Enabled k)
             (ak_CreatedAt k) (ak_LastUsedAt k) (ak_Description k)) dec_string);
  ("permission", field ak_Permission (λ x k, mkAPIKey (ak_Key k) (ak_Hash k) (ak_Name k) x (ak_Enabled k)
             (ak_CreatedAt k) (ak_LastUsedAt k) (ak_Description k)) dec_string);
  ("enabled", field ak_Enabled (λ x k, mkAPIKey (ak_Key k) (ak_Hash k) (ak_Name k) (ak_Permission k) x
             (ak_CreatedAt k) (ak_LastUsedAt k) (ak_Description k)) dec_bool);
  ("created_at", field ak_CreatedAt (λ x k, mkAPIKey (ak_Key k) (ak_Hash k) (ak_Name k) (ak_Permission k)
             (ak_Enabled k) x (ak_LastUsedAt k) (ak_Description k)) dec_time);
  ("last_used_at", field ak_LastUsedAt (λ x k, mkAPIKey (ak_Key k) (ak_Hash k) (ak_Name k) (ak_Permission k)
             (ak_Enabled k) (ak_CreatedAt k) x (ak_Description k)) dec_time_ptr);
  ("description", field ak_Description (λ x k, mkAPIKey (ak_Key k) (ak_Hash k) (ak_Name k) (ak_Permission k)
             (ak_Enabled k) (ak_CreatedAt k) (ak_LastUsedAt k) x) dec_string)].

Definition dec_APIKey : decoder APIKey := dec_struct key_fields.

Definition dec_APIKeysConfig : decoder APIKeysConfig := dec_struct [
  ("keys", field id (λ x _, x) (dec_slice zero_APIKey dec_APIKey))].

(** A time outside the years 0 to 9999 cannot be encoded. *)
Definition enc_APIKey (k : APIKey) : option json :=
  created ← enc_time (ak_CreatedAt k);
  used ← match ak_LastUsedAt k with
         | None => Some []
         | Some t => v ← enc_time t; Some [("last_used_at", v)]
         end;
  Some (JObj (opt_string "key" (ak_Key k)
    ++ [("hash", JStr (ak_Hash k)); ("name", JStr (ak_Name k)); ("permission", JStr (ak_Permission k));
        ("enabled", JBool (ak_Enabled k)); ("created_at", created)]
    ++ used ++ opt_string "description" (ak_Description k))).

Definition enc_APIKeysConfig (c : APIKeysConfig) : option json :=
  match c with
  | None => Some (JObj [("keys", JNull)])
  | Some l => vs ← mapM enc_APIKey l; Some (JObj [("keys", JArr vs)])
  end.

(** ** The file *)

(** From [tmp.Chmod] to [os.Rename]. *)
Definition fill_and_rename (tmpName tmp path : path) (data : string) : M (result error unit) :=
  r ← f_Chmod tmp;
  match r with
  | Err e => fail_after (f_Close tmp) e
  | Ok _ =>
      r ← f_Write tmp data;
      match r with
      | Err e => fail_after (f_Close tmp) e
      | Ok _ =>
          r ← f_Sync tmp;
          match r with
          | Err e => fail_after (f_Close tmp) e
          | Ok _ => _ ←! f_Close tmp; os_Rename tmpName path
          end
      end
  end.

Definition writeKeysConfigAtomic (path : path) (config : APIKeysConfig) : M (result error unit) :=
  match enc_APIKeysConfig config with
  | None => mret (Err (EText "json: error calling MarshalJSON for type time.Time"))
  | Some v =>
      _ ←! os_MkdirAll (parent path);
      '(tmpName, tmp) ←! os_CreateTempSuffix (parent path) ".keys-" ".tmp";
      r ← fill_and_rename tmpName tmp path (print_indent 0 v);
      _ ← os_Remove tmpName;
      mret r
  end.

(** ** Loading *)

Record KeyStore := mkKeyStore {
  ks_path : path;
  ks_keys : gmap string APIKey;       (* hash -> key *)
  ks_keysList : list APIKey;
  ks_lastMod : Z
}.

(** An error about the key with this name. *)
Definition key_error (name what : string) : error := EWrap ("key " +:+ name) (EText what).

(** The plaintext of a legacy key gives its hash, and is cleared. *)
Definition clear_plaintext (k : APIKey) : APIKey * bool :=
  if String.eqb (ak_Key k) "" then (k, false)
  else
    let k := if String.eqb (ak_Hash k) "" then set_Hash (hashKey (ak_Key k)) k else k in
    (set_Key "" k, true).

Definition valid_permission (p : Permission) : bool :=
  String.eqb p PermRead || String.eqb p PermWrite || String.eqb p PermAdmin.

(** The loop over the keys: the keys as stored, the number of enabled ones
    and whether there was a plaintext. *)
Fixpoint check_keys (seen : gset string) (keys : list APIKey) : result error (list APIKey * nat * bool) :=
  match keys with
  | [] => Ok ([], 0, false)
  | k :: keys =>
      let '(k, migrated) := clear_plaintext k in
      let k := set_Hash (ToLower (TrimSpace (ak_Hash k))) k in
      match hex_DecodeString (ak_Hash k) with
      | None => Err (key_error (ak_Name k) "invalid SHA-256 hash")
      | Some decoded =>
          if negb (length decoded =? 32) then Err (key_error (ak_Name k) "invalid SHA-256 hash")
          else if negb (valid_permission (ak_Permission k)) then Err (key_error (ak_Name k) "invalid permission")
          else if bool_decide (ak_Hash k ∈ seen) then Err (key_error (ak_Name k) "duplicate API key hash")
          else
            '(l, enabled, m) ←? check_keys ({[ak_Hash k]} ∪ seen) keys;
            Ok (k :: l, (if ak_Enabled k then S enabled else enabled), migrated || m)
      end
  end.

(** The checks on a parsed file. *)
Definition check_config (c : APIKeysConfig) : result error (list APIKey * bool) :=
  match default [] c with
  | [] => Err (EText "keys file must contain at least one API key")
  | keys =>
      '(l, enabled, migrated) ←? check_keys ∅ keys;
      if enabled =? 0 then Err (EText "keys file must contain at least one enabled API key")
      else Ok (l, migrated)
  end.

(** [info.ModTime()]; the model gives directories none. *)
Definition ModTime (n : node) : option Z :=
  match n with NFile _ t => Some t | NLink _ _ t => Some t | NDir => None end.

Definition key_map (l : list APIKey) : gmap string APIKey :=
  foldl (λ m k, <[ak_Hash k := k]> m) ∅ l.

(** The new key store, and the error; the key store is unchanged on errors. *)
Definition reload (ks : KeyStore) : M (result error unit * KeyStore) :=
  r ← os_ReadFile (ks_path ks);
  match r with
  | Err e => mret (Err e, ks)
  | Ok data =>
      let '(config, ok) := Unmarshal dec_APIKeysConfig data None in
      if negb ok then mret (Err (EText "parse keys file"), ks)
      else match check_config config with
      | Err e => mret (Err e, ks)
      | Ok (keys, migrated) =>
          w ← (if (migrated : bool) then writeKeysConfigAtomic (ks_path ks) (Some keys) else mret (Ok ()));
          match w with
          | Err e => mret (Err (EWrap "remove legacy plaintext keys" e), ks)
          | Ok _ =>
              info ← os_Stat (ks_path ks);
              let lastMod := match info with Ok n => default (ks_lastMod ks) (ModTime n) | Err _ => ks_lastMod ks end in
              mret (Ok (), mkKeyStore (ks_path ks) (key_map keys) keys lastMod)
          end
      end
  end.

(** Reload errors are logged.  A directory in the place of the file counts as
    changed; reading it then fails. *)
Definition maybeReload (ks : KeyStore) : M KeyStore :=
  info ← os_Stat (ks_path ks);
  match info with
  | Err _ => mret ks
  | Ok n =>
      let needsReload := match ModTime n with Some t => (ks_lastMod ks <? t)%Z | None => true end in
      if needsReload then '(_, ks) ← reload ks; mret ks else mret ks
  end.

Definition createDefaultFile (path : path) (defaultKey : string) : M (result error unit) :=
  now ← time_Now;
  writeKeysConfigAtomic path
    (Some [mkAPIKey "" (hashKey defaultKey) "default-admin" PermAdmin true (time_of now) None ""]).

(** [generateRandomKey], on the bytes [rand.Read] delivers. *)
Definition generateRandomKey (random : list N) : string := hex random.

(** The zero [time.Time] is before any modification time of a file. *)
Definition year_one : Z := (-62135596800 * 10 ^ 9)%Z.

(** [env] is REGISTRY_API_KEY. *)
Definition NewKeyStore (path : path) (env : string) (random : list N) : M (result error KeyStore) :=
  let ks := mkKeyStore path ∅ [] year_one in
  st ← os_Stat path;
  created ← (if match st with Err e => os_IsNotExist e | Ok _ => false end then
               createDefaultFile path (if String.eqb env "" then generateRandomKey random else env)
             else mret (Ok ()));
  match created with
  | Err e => mret (Err (EWrap "create default keys file" e))
  | Ok _ =>
      '(r, ks) ← reload ks;
      mret (match r with Err e => Err (EWrap "load keys" e) | Ok _ => Ok ks end)
  end.

(** ** Questions *)

Definition HasKeys (ks : KeyStore) : bool := negb (bool_decide (ks_keys ks = ∅)).

(** The key that authenticates, in the keys loaded. *)
Definition find_key (ks : KeyStore) (key : string) : option APIKey :=
  let hash := hashKey key in
  List.find (λ ak, ak_Enabled ak && String.eqb (ak_Hash ak) hash) (ks_keysList ks).

Definition Validate (ks : KeyStore) (key : string) : M (option APIKey * KeyStore) :=
  if String.eqb key "" then mret (None, ks)
  else ks ← maybeReload ks; mret (find_key ks key, ks).

Definition HasPermission (ks : KeyStore) (key : string) (required : Permission) : M (bool * KeyStore) :=
  '(ak, ks) ← Validate ks key;
  mret (match ak with None => false | Some ak => permits (ak_Permission ak) required end, ks).

End auth.

Arguments APIKey : clear implicits.
Arguments KeyStore : clear implicits.
