(* ===== verification/Frame.v ===== *)
(** * What a computation keeps, in any world

    [keeps total P R m]: started in a world of [P], on any file system (links
    included) and under any faults, [m] ends in a world of [P] related by [R]
    to the first; when [total], it does end.  The rules follow the structure
    of the computation; [reads] is the case where nothing but the oracle of
    faults changes, [quiet] that where no mutex is touched, [serves] that where
    every mutex taken is released. *)

From S2P Require Import Prelude GoString GoPath Os OsFacts Store.

Definition keeps (total : bool) (P : world → Prop) (R : world → world → Prop) {A} (m : M A) : Prop :=
  ∀ w, P w → match m w with Some (_, w') => P w' ∧ R w w' | None => total = false end.

Section keeps.
Context (total : bool) (P : world → Prop) (R : world → world → Prop) `{!PreOrder R}.

Lemma keeps_ret {A} (a : A) : keeps total P R (mret a).
Proof. intros w Hw. by split. Qed.

Lemma keeps_bind {A B} (m : M A) (k : A → M B) :
  keeps total P R m → (∀ a, keeps total P R (k a)) → keeps total P R (m ≫= k).
Proof.
  intros Hm Hk w Hw. specialize (Hm w Hw). unfold mbind, M_bind. destruct (m w) as [[a w1]|]; [|done].
  destruct Hm as [Hw1 H1]. specialize (Hk a w1 Hw1). destruct (k a w1) as [[b w2]|]; [|done].
  destruct Hk. split; [done|by etransitivity].
Qed.

Lemma keeps_fmap {A B} (f : A → B) (m : M A) : keeps total P R m → keeps total P R (f <$> m).
Proof. intros Hm. apply keeps_bind; [done|]. intros. apply keeps_ret. Qed.

Lemma keeps_try {A B} wrap (k : A → M (result error B)) m :
  keeps total P R m → (∀ a, keeps total P R (k a)) → keeps total P R (try_bind wrap k m).
Proof. intros Hm Hk. apply keeps_bind; [done|]. intros []; [apply Hk|apply keeps_ret]. Qed.

End keeps.

Lemma keeps_mono {A} total (P P' : world → Prop) (R R' : world → world → Prop) (m : M A) :
  (∀ w, P' w → P w) → (∀ w w', P' w → P w' → R w w' → P' w' ∧ R' w w') → keeps total P R m → keeps total P' R' m.
Proof.
  intros HP HR H w Hw. specialize (H w (HP w Hw)). destruct (m w) as [[a w']|]; [|done].
  destruct H. by apply HR.
Qed.

Lemma keeps_total {A} P R (m : M A) w : keeps true P R m → P w → ∃ a w', m w = Some (a, w') ∧ P w' ∧ R w w'.
Proof. intros H Hw. specialize (H w Hw). destruct (m w) as [[a w']|]; [by exists a, w'|done]. Qed.

Lemma keeps_run {A} total P R (m : M A) w a w' : keeps total P R m → P w → m w = Some (a, w') → P w' ∧ R w w'.
Proof. intros H Hw E. specialize (H w Hw). by rewrite E in H. Qed.

(** Partial statements follow from total ones. *)
Lemma keeps_partial {A} total P R (m : M A) : keeps true P R m → keeps total P R m.
Proof. intros H w Hw. specialize (H w Hw). by destruct (m w) as [[]|]. Qed.

(** ** Three cases *)

Definition anywhere (w : world) : Prop := True.

(** The mutexes, the clock and the mutation mutex are as before. *)
Definition undisturbed (w w' : world) : Prop :=
  w_locks w' = w_locks w ∧ w_mutation w' = w_mutation w ∧ w_now w' = w_now w.
Definition same_mutation (w w' : world) : Prop := w_mutation w' = w_mutation w ∧ w_now w' = w_now w.

#[export] Instance undisturbed_preorder : PreOrder undisturbed.
Proof. split; [done|]. intros w1 w2 w3 (? & ? & ?) (? & ? & ?). split_and!; congruence. Qed.
#[export] Instance same_mutation_preorder : PreOrder same_mutation.
Proof. split; [done|]. intros w1 w2 w3 (? & ?) (? & ?). split; congruence. Qed.

Abbreviation reads := (keeps true anywhere same).
Abbreviation quiet := (keeps true anywhere undisturbed).
Abbreviation serves total := (keeps total unlocked same_mutation).

(** Relations that queries keep, and those that every system call keeps. *)
Class Reading (total : bool) (P : world → Prop) (R : world → world → Prop) : Prop := {
  reading_preorder :: PreOrder R;
  reading_get : keeps total P R get_world;
  reading_fault : keeps total P R next_fault;
  reading_query {A} (q : fs → result error A) : keeps total P R (query q)
}.

Class Writing (total : bool) (P : world → Prop) (R : world → world → Prop) : Prop := {
  writing_reading :: Reading total P R;
  writing_put (f : fs) : keeps total P R (put_fs f);
  writing_random : keeps total P R next_random;
  writing_now : keeps total P R time_Now
}.

(** Follow the structure of a computation. *)
Create HintDb keeps.

Ltac keeps_step :=
  match goal with
  | |- keeps _ _ _ (mret _) => apply keeps_ret; apply _
  | |- keeps _ _ _ (_ ≫= _) => apply keeps_bind; [apply _| |intros]
  | |- keeps _ _ _ (_ <$> _) => apply keeps_fmap; [apply _|]
  | |- keeps _ _ _ (try_bind _ _ _) => apply keeps_try; [apply _| |intros]
  | |- keeps _ _ _ (match ?x with _ => _ end) => destruct x
  | |- keeps _ _ _ (let _ := _ in _) => cbv zeta
  | |- ∀ _, _ => intros
  | |- _ => solve [auto with keeps typeclass_instances]
  end.
Ltac keeps_tac := repeat keeps_step.

#[export] Hint Resolve reading_get reading_fault reading_query writing_put writing_random writing_now : keeps.

Lemma wp_keeps {A} total P R (m : M A) : (∀ w, P w → wp m (λ _ w', P w' ∧ R w w') w) → keeps total P R m.
Proof. intros H w Hw. specialize (H w Hw). unfold wp in H. by destruct (m w) as [[a w']|]. Qed.

#[export] Instance reads_reading : Reading true anywhere same.
Proof.
  split; [apply _|done|..]; intros; apply wp_keeps; intros w _.
  - by apply wp_next_fault; intros; split.
  - by apply wp_query; intros; split.
Qed.

#[export] Instance quiet_reading : Reading true anywhere undisturbed.
Proof.
  assert (quiet next_fault) as Hf.
  { intros w _. unfold next_fault. by destruct (w_faults w). }
  split; [apply _|done|done|]. intros A q. apply keeps_bind; [apply _|done|]. intros [k|]; [apply keeps_ret; apply _|].
  intros w _. unfold mbind, M_bind, get_world. simpl. destruct (q (w_fs w)); simpl; done.
Qed.

#[export] Instance quiet_writing : Writing true anywhere undisturbed.
Proof. split; [apply _|by repeat intros ?..]. Qed.

Lemma quiet_serves {A} total (m : M A) : quiet m → serves total m.
Proof.
  intros H. apply keeps_partial. revert H. apply keeps_mono; [done|].
  intros w w' Hu _ (El & Em & En). split; [|by split]. unfold unlocked. by rewrite El.
Qed.

#[export] Instance serves_reading total : Reading total unlocked same_mutation.
Proof. split; [apply _|..]; intros; apply quiet_serves; auto with keeps typeclass_instances. Qed.

#[export] Instance serves_writing total : Writing total unlocked same_mutation.
Proof. split; [apply _|..]; intros; apply quiet_serves; auto with keeps typeclass_instances. Qed.

(** ** System calls *)

Section calls.
Context {total : bool} {P : world → Prop} {R : world → world → Prop} `{!Reading total P R}.
#[local] Abbreviation keeping := (keeps total P R).

Lemma keeps_Stat p : keeping (os_Stat p).
Proof. unfold os_Stat. keeps_tac. Qed.
Lemma keeps_Lstat p : keeping (os_Lstat p).
Proof. unfold os_Lstat. keeps_tac. Qed.
Lemma keeps_EvalSymlinks p : keeping (EvalSymlinks p).
Proof. unfold EvalSymlinks. keeps_tac. Qed.
Lemma keeps_ReadFile p : keeping (os_ReadFile p).
Proof. unfold os_ReadFile. keeps_tac. Qed.
Lemma keeps_ReadDir p : keeping (os_ReadDir p).
Proof. unfold os_ReadDir. keeps_tac. Qed.
Lemma keeps_ReadAll h : keeping (f_ReadAll h).
Proof. unfold f_ReadAll. keeps_tac. Qed.
Lemma keeps_noop h : keeping (f_noop h).
Proof. unfold f_noop. keeps_tac. Qed.
Lemma keeps_Walk p : keeping (filepath_Walk p).
Proof. unfold filepath_Walk. keeps_tac. Qed.

End calls.
#[export] Hint Resolve keeps_Stat keeps_Lstat keeps_EvalSymlinks keeps_ReadFile keeps_ReadDir keeps_ReadAll
  keeps_noop keeps_Walk : keeps.

Section changes.
Context {total : bool} {P : world → Prop} {R : world → world → Prop} `{!Writing total P R}.
#[local] Abbreviation keeping := (keeps total P R).

Lemma keeps_syscall {A} (call : world → result error (A * fs)) : keeping (syscall call).
Proof. unfold syscall. keeps_tac. Qed.
#[local] Hint Resolve keeps_syscall : keeps.

Lemma keeps_Mkdir p : keeping (os_Mkdir p).
Proof. unfold os_Mkdir. keeps_tac. Qed.
#[local] Hint Resolve keeps_Mkdir : keeps.
Lemma keeps_MkdirAll p : keeping (os_MkdirAll p).
Proof. unfold os_MkdirAll. induction (reverse p) as [|c rp IH]; cbn [mkdir_all_rev]; keeps_tac. Qed.
Lemma keeps_OpenTrunc p : keeping (os_OpenTrunc p).
Proof. unfold os_OpenTrunc. keeps_tac. Qed.
Lemma keeps_OpenExcl p : keeping (os_OpenExcl p).
Proof. unfold os_OpenExcl. keeps_tac. Qed.
#[local] Hint Resolve keeps_OpenExcl : keeps.
Lemma keeps_create_temp tries dir name : keeping (create_temp tries dir name).
Proof. induction tries; cbn [create_temp]; keeps_tac. Qed.
Lemma keeps_Write h data : keeping (f_Write h data).
Proof. unfold f_Write. keeps_tac. Qed.
Lemma keeps_Rename old new : keeping (os_Rename old new).
Proof. unfold os_Rename. keeps_tac. Qed.
Lemma keeps_Remove p : keeping (os_Remove p).
Proof. unfold os_Remove. keeps_tac. Qed.
Lemma keeps_RemoveAll p : keeping (os_RemoveAll p).
Proof. unfold os_RemoveAll. keeps_tac. Qed.

End changes.
#[export] Hint Resolve keeps_MkdirAll keeps_OpenTrunc keeps_create_temp keeps_Write keeps_Rename keeps_Remove
  keeps_RemoveAll : keeps.

(** ** Mutexes *)

(** A body that touches no mutex, under the lock of a key. *)
Lemma serves_with_lock {A} total key (m : M A) : keeps total anywhere undisturbed m → serves total (with_lock key m).
Proof.
  intros Hm w Hw. unfold with_lock, mbind, M_bind, lock_key.
  destruct (w_locks w !! key) as [[]|] eqn:E; [by destruct (Hw key)|..].
  all: specialize (Hm (set_locks (<[key:=true]> (w_locks w)) w) I); destruct (m _) as [[a w1]|]; [|done].
  all: destruct Hm as (_ & El & Em & En); split; [|by split].
  all: intros k; simpl; rewrite El; simpl; destruct (decide (k = key)) as [->|Hk];
    rewrite ?lookup_insert_eq, ?lookup_insert_ne by done; done || apply Hw.
Qed.

(** The state between requests. *)
Definition idle (w : world) : Prop := unlocked w ∧ w_mutation w = false.
Definition same_time (w w' : world) : Prop := w_now w' = w_now w.
#[export] Instance same_time_preorder : PreOrder same_time.
Proof. split; [done|]. intros w1 w2 w3 H1 H2. unfold same_time in *. congruence. Qed.

Abbreviation answers total := (keeps total idle same_time).

Lemma serves_answers {A} total (m : M A) : serves total m → answers total m.
Proof.
  intros H w [Hu Hm]. specialize (H w Hu). destruct (m w) as [[a w']|]; [|done].
  destruct H as (Hu' & Em & En). split; [split; [done|congruence]|done].
Qed.

Lemma answers_with_mutation {A} total (m : M A) : serves total m → answers total (with_mutation m).
Proof.
  intros H w [Hu Hm]. unfold with_mutation, mbind, M_bind, lock_mutation. rewrite Hm.
  specialize (H (set_mutation true w) Hu). destruct (m _) as [[a w']|]; [|done].
  destruct H as (Hu' & Em & En). done.
Qed.

Lemma reads_wp {A} (m : M A) w : reads m → wp m (λ _ w', same w w') w.
Proof. intros H. specialize (H w I). unfold wp. destruct (m w) as [[a w']|]; [apply H|done]. Qed.

(** ** What a computation yields, in any world *)

Definition yields {A} (m : M A) (Q : A → Prop) : Prop := ∀ w a w', m w = Some (a, w') → Q a.

Lemma yields_ret {A} (a : A) (Q : A → Prop) : Q a → yields (mret a) Q.
Proof. intros H w a' w' E. by injection E as <- <-. Qed.

Lemma yields_bind {A B} (m : M A) (k : A → M B) (P : A → Prop) (Q : B → Prop) :
  yields m P → (∀ a, P a → yields (k a) Q) → yields (m ≫= k) Q.
Proof.
  intros Hm Hk w b w2 E. unfold mbind, M_bind in E. destruct (m w) as [[a w1]|] eqn:Em; [|done].
  eapply Hk; [by eapply Hm|exact E].
Qed.

Lemma yields_any {A} (m : M A) : yields m (λ _, True).
Proof. done. Qed.

Lemma yields_total {A} P R (m : M A) Q w : keeps true P R m → yields m Q → P w →
  ∃ a w', m w = Some (a, w') ∧ Q a ∧ P w' ∧ R w w'.
Proof.
  intros Hk Hy Hw. destruct (keeps_total _ _ _ w Hk Hw) as (a & w' & E & HP & HR).
  exists a, w'. split; [done|]. split; [by eapply Hy|done].
Qed.
