(* ===== verification/Draft.v ===== *)
(** * Replacing a file through a temporary one

    [writeKeysConfigAtomic] (auth.go) and [NewRegistrySigner] (signing.go)
    write their file next to its place, under a random name, and rename it.
    On a tree without links the file changes whole or not at all, whatever
    system calls fail; at most the temporary file is left behind. *)

From S2P Require Import Prelude GoString GoPath Os OsFacts Store StoreFacts Http Auth.

Section draft.
Context (p : path) (name : N → string).
#[local] Abbreviation dir := (parent p).

(** The temporary files for [p]. *)
Definition draft (q : path) : Prop := ∃ n : N, q = dir ++ [name n].

(** Only [p], its temporary files and the directories above [p] differ. *)
Definition beside (w w' : world) : Prop :=
  env w w' ∧ clean_fs (w_fs w') ∧ ∀ q, q ≠ p → ¬ draft q → file (w_fs w') q = file (w_fs w) q.

Lemma beside_trans w1 w2 w3 : beside w1 w2 → beside w2 w3 → beside w1 w3.
Proof. intros (E1 & _ & H1) (E2 & C2 & H2). split; [by etransitivity|]. split; [done|]. intros. by rewrite H2, H1. Qed.

Lemma beside_same w w' : clean_fs (w_fs w) → same w w' → beside w w'.
Proof. intros Hc [He E]. split; [done|]. by rewrite E. Qed.

(** The temporary file [h] holds [d]; all else is as in [f0]. *)
Definition drafting (h : path) (f0 : fs) (d : string) (w : world) : Prop :=
  clean_fs (w_fs w) ∧ (∃ t, w_fs w !! h = Some (NFile d t)) ∧ ∀ q, q ≠ h → w_fs w !! q = f0 !! q.

Lemma drafting_same h f0 d w w' : drafting h f0 d w → same w w' → drafting h f0 d w'.
Proof. intros H [_ E]. unfold drafting. by rewrite E. Qed.

Lemma drafting_plain h f0 d w : drafting h f0 d w →
  Forall plain h ∧ h ≠ [] ∧ w_fs w !! parent h = Some NDir.
Proof.
  intros (Hc & (t & Hf) & _). assert (h ≠ []) as Hn by (intros ->; by rewrite (cf_root _ Hc) in Hf).
  split; [by eapply cf_plain|]. split; [done|]. by eapply clean_parent_dir.
Qed.

Lemma wp_drafting_noop h f0 d w : drafting h f0 d w →
  wp (f_noop h) (λ r w', env w w' ∧ drafting h f0 d w' ∧ (is_ok r = false → faulted w w')) w.
Proof.
  intros H. eapply wp_mono; [apply wp_f_noop|]. intros r w' [Hs Hr].
  split; [apply Hs|]. split; [by eapply drafting_same|done].
Qed.

Lemma wp_drafting_write h f0 d data w : drafting h f0 d w →
  wp (f_Write h data) (λ r w', env w w' ∧ (∃ d', drafting h f0 d' w') ∧
    match r with Ok _ => drafting h f0 (d +:+ data) w' | Err _ => faulted w w' end) w.
Proof.
  intros H. destruct (drafting_plain _ _ _ _ H) as (Hp & Hn & Hd). destruct H as (Hc & (t & Hf) & Hq).
  assert (∀ w' d', w_fs w' = <[h := NFile d' (w_now w)]> (w_fs w) → drafting h f0 d' w') as Hnew.
  { intros w' d' E. unfold drafting. rewrite E. split; [|split].
    - apply clean_insert_file; [done..|]. by rewrite Hf.
    - exists (w_now w). by rewrite lookup_insert_eq.
    - intros q Hne. rewrite lookup_insert_ne by done. by apply Hq. }
  eapply wp_mono; [by apply (wp_write _ _ _ d t)|]. intros [[]|e] w' [He H'].
  - split; [done|]. split; [eexists|]; by apply Hnew.
  - destruct H' as [Hft [d' H']]. split; [done|]. split; [|done]. exists d'. by apply Hnew.
Qed.

(** What [fill_and_rename] does, from [w]. *)
Definition filled (h : path) (f0 : fs) (data : string) (w : world) (r : result error unit) (w' : world) : Prop :=
  env w w' ∧
  match r with
  | Ok _ => clean_fs (w_fs w') ∧ file (w_fs w') p = Some data ∧ w_fs w' !! h = None ∧
            ∀ q, q ≠ p → q ≠ h → w_fs w' !! q = f0 !! q
  | Err _ => (∃ d, drafting h f0 d w') ∧ (faulted w w' ∨ f0 !! p = Some NDir)
  end.

Lemma wp_drafting_fail h f0 d data w w1 e : env w w1 → faulted w w1 → drafting h f0 d w1 →
  wp (fail_after (f_Close h) e) (filled h f0 data w) w1.
Proof.
  intros He Hft H. apply wp_fail_after. eapply wp_mono; [by apply wp_drafting_noop|].
  intros r w2 (He2 & H2 & _). split; [by etransitivity|]. split; [by eexists|]. left. by eapply faulted_l.
Qed.

Lemma wp_drafting_rename h f0 data w :
  p ≠ h → Forall plain p → p ≠ [] → f0 !! dir = Some NDir → dir ≠ h → drafting h f0 data w →
  wp (os_Rename h p) (filled h f0 data w) w.
Proof.
  intros Hph Hp Hn Hd Hdh H.
  destruct (drafting_plain _ _ _ _ H) as (Hhp & Hhn & Hhd). destruct (H) as (Hc & (t & Hf) & Hq).
  rewrite <- (Hq dir Hdh) in Hd. destruct (decide (w_fs w !! p = Some NDir)) as [Hdir|Hdir].
  - apply wp_syscall.
    { intros w' He E Hft. split; [done|]. split; [exists data; eapply drafting_same; [done|by split]|].
      left. done. }
    intros w' He E _ _. unfold rename_fs. rewrite E, (locate_found _ h) by done. simpl. rewrite Hf.
    rewrite (locate_found _ p) by done. simpl. rewrite Hdir. simpl. split; [done|].
    split; [exists data; eapply drafting_same; [done|by split]|]. right. by rewrite <- Hq.
  - eapply wp_mono; [apply (wp_rename_file _ _ data t); done|]. intros [[]|e] w' [He H'].
    + split; [done|]. rewrite H'. split; [|split; [|split]].
      * apply clean_insert_file; [by eapply clean_delete_file|done|done|..]; rewrite lookup_delete_ne; done.
      * unfold file. by rewrite lookup_insert_eq.
      * rewrite lookup_insert_ne, lookup_delete_eq by done. done.
      * intros q Hqp Hqh. rewrite lookup_insert_ne, lookup_delete_ne by done. by apply Hq.
    + destruct H' as (E & Hft & ->). split; [done|].
      split; [exists data; eapply drafting_same; [done|by split]|]. left. done.
Qed.

Lemma wp_fill_and_rename h f0 data w :
  p ≠ h → Forall plain p → p ≠ [] → f0 !! dir = Some NDir → dir ≠ h → drafting h f0 "" w →
  wp (fill_and_rename h h p data) (filled h f0 data w) w.
Proof.
  intros Hph Hp Hn Hd Hdh H. unfold fill_and_rename.
  apply wp_bind. eapply wp_mono; [by apply wp_drafting_noop|]. intros [[]|e] w1 (He1 & H1 & Hf1);
    [clear Hf1|by apply (wp_drafting_fail h f0 ""); auto].
  apply wp_bind. eapply wp_mono; [by apply wp_drafting_write|]. intros [[]|e] w2 (He2 & [d2 Hd2] & H2).
  2:{ apply (wp_drafting_fail h f0 d2); [by etransitivity|by eapply faulted_r|done]. }
  assert (env w w2) as Hw2 by by etransitivity.
  apply wp_bind. eapply wp_mono; [by apply wp_drafting_noop|]. intros [[]|e] w3 (He3 & H3 & Hf3).
  2:{ apply (wp_drafting_fail h f0 data); [by etransitivity|by eapply faulted_r, Hf3|done]. }
  apply wp_try. eapply wp_mono; [by apply wp_drafting_noop|]. intros [[]|e] w4 (He4 & H4 & Hf4).
  2:{ split; [etransitivity; [exact Hw2|]; by etransitivity|]. split; [by eexists|]. left.
      eapply faulted_r; [exact Hw2|]. eapply faulted_r; [exact He3|]. by apply Hf4. }
  assert (env w w4) as Hw4 by (etransitivity; [exact Hw2|]; by etransitivity).
  eapply wp_mono; [by apply (wp_drafting_rename h f0 data)|]. intros r w5 [He5 H5]. split; [by etransitivity|].
  destruct r; [done|]. destruct H5 as [? [?|?]]; (split; [done|]); [left; by eapply faulted_r|by right].
Qed.

(** ** The whole replacement *)

(** Some of the names drawn is free, however many have been drawn. *)
Definition draft_room (w : world) : Prop :=
  ∀ d, ∃ k, k < max_tries ∧ w_fs w !! (dir ++ [name (w_rand w (d + k))]) = None.

(** Reasons to fail, apart from I/O. *)
Definition hampered (w : world) : Prop :=
  ¬ way (w_fs w) dir ∨ w_fs w !! p = Some NDir ∨ ¬ draft_room w.

Definition replaced (data : string) (w : world) (r : result error unit) (w' : world) : Prop :=
  beside w w' ∧
  match r with
  | Ok _ => file (w_fs w') p = Some data
  | Err _ => file (w_fs w') p = file (w_fs w) p ∧ (faulted w w' ∨ hampered w)
  end.

Definition replace_file (data : string) : M (result error unit) :=
  _ ←! os_MkdirAll dir;
  '(tmpName, tmp) ←! create_temp (pred max_tries) dir name;
  r ← fill_and_rename tmpName tmp p data;
  _ ← os_Remove tmpName;
  mret r.

Context (Hp : Forall plain p) (Hn : p ≠ []) (Hname : ∀ n, plain (name n)) (Hdraft : ¬ draft p).

Lemma dir_not_draft : ¬ draft dir.
Proof using Type.
  intros [n E]. apply (f_equal length) in E. rewrite length_app in E. simpl in E. lia.
Qed.

(** The temporary file is removed, or it stays behind. *)
Lemma wp_filled_remove h f0 data w w1 w2 r :
  draft h → Forall plain h → (∀ q, ¬ draft q → file f0 q = file (w_fs w) q) → f0 !! p = w_fs w !! p →
  env w w1 → filled h f0 data w1 r w2 →
  wp (os_Remove h) (λ _ w', replaced data w r w') w2.
Proof using Hdraft.
  intros Hh Hhp Hf0 Hf0p He1 [He H]. assert (h ≠ p) as Hne by by intros ->.
  assert (clean_fs (w_fs w2)) as Hc by (destruct r; [apply H|]; destruct H as [[d Hdr] _]; apply Hdr).
  assert (∀ q, q ≠ p → ¬ draft q → file (w_fs w2) q = file (w_fs w) q) as Hq2.
  { intros q Hqp Hqd. rewrite <- Hf0 by done. assert (q ≠ h) as Hqh by by intros ->. unfold file.
    destruct r; [destruct H as (_ & _ & _ & H)|destruct H as [[d (_ & _ & H)] _]]; by rewrite H. }
  eapply wp_mono; [by apply wp_remove|]. intros rr w3 (He3 & Hc3 & H3).
  assert (∀ q, q ≠ h → file (w_fs w3) q = file (w_fs w2) q) as Hq3.
  { intros q Hqh. destruct rr as [[]|e]; [|by rewrite (proj1 H3)].
    rewrite (proj1 H3), file_delete. by rewrite decide_False. }
  assert (env w w3) as Hw3 by (etransitivity; [exact He1|]; by etransitivity).
  split; [split; [done|split; [done|]]|].
  - intros q Hqp Hqd. rewrite Hq3 by (by intros ->). by apply Hq2.
  - rewrite Hq3 by done. destruct r; [apply H|]. destruct H as [[d (_ & _ & H)] Hwhy]. split.
    + unfold file. rewrite H by done. by apply Hf0.
    + destruct Hwhy as [Hft|Hd]; [left|right; right; left].
      * eapply faulted_r; [exact He1|]. by eapply faulted_l.
      * by rewrite <- Hf0p.
Qed.

Lemma extends_beyond f f' c : extends dir f f' → f' !! (dir ++ [c]) = f !! (dir ++ [c]).
Proof using Type.
  intros Hx. destruct (Hx (dir ++ [c])) as [?|(_ & _ & [x E])]; [done|].
  apply (f_equal length) in E. rewrite !length_app in E. simpl in E. lia.
Qed.

(** What [p] and the rest of the tree look like from a draft [h] on. *)
Record begun (h : path) (f0 : fs) (w w2 : world) : Prop := {
  be_draft : draft h;
  be_plain : Forall plain h;
  be_files q : file f0 q = file (w_fs w) q;
  be_target : f0 !! p = w_fs w !! p;
  be_dir : f0 !! dir = Some NDir;
  be_env : env w w2;
  be_content : drafting h f0 "" w2
}.

(** Make the directory, then a draft in it, then go on. *)
Lemma wp_with_draft {A} (k : path * path → M (result error A)) (Q : result error A → world → Prop) w :
  clean_fs (w_fs w) →
  (∀ e w', beside w w' → file (w_fs w') p = file (w_fs w) p → faulted w w' ∨ hampered w → Q (Err e) w') →
  (∀ h f0 w2, begun h f0 w w2 → wp (k (h, h)) Q w2) →
  wp (_ ←! os_MkdirAll dir; th ←! create_temp (pred max_tries) dir name; k th) Q w.
Proof using Hp Hn Hname Hdraft.
  intros Hc Hfail Hk. assert (Forall plain dir) as Hpd by by apply plain_parent.
  apply wp_try. eapply wp_mono; [by apply wp_mkdirall|]. intros r w1 (He1 & Hc1 & Hx & H1).
  assert (w_fs w1 !! p = w_fs w !! p) as Ep by (rewrite (parent_base p Hn); by apply (extends_beyond _ _ _ Hx)).
  assert (∀ w2 e, env w w2 → w_fs w2 = w_fs w1 → faulted w w2 ∨ hampered w → Q (Err e) w2) as Hfail'.
  { intros w2 e He E Hwhy. apply Hfail; [|unfold file; by rewrite E, Ep|done]. split; [done|]. rewrite E. split; [done|].
    intros q _ _. by eapply extends_file. }
  destruct r as [[]|e]; [|apply Hfail'; [done|done|destruct H1; [by left|right; by left]]].
  apply wp_try. eapply wp_mono; [by apply (wp_tempfile _ dir name)|]. intros [[tmp h]|e] w2 [He2 H2].
  2:{ destruct H2 as [E2 H2]. apply Hfail'; [by etransitivity|done|].
      destruct H2 as [Hft|[?|Hroom]]; [left; by eapply faulted_r|done|]. right. right. right. intros Hr. apply Hroom.
      destruct (Hr (w_drawn w1)) as (i & Hi & HN). exists i. split; [done|].
      rewrite (env_rand _ _ He1). by rewrite (extends_beyond _ _ _ Hx). }
  destruct H2 as (-> & n & -> & HN & _ & E2). apply (Hk _ (w_fs w1)). split; try done.
  - by exists n.
  - apply Forall_app; auto.
  - intros q. by eapply extends_file.
  - by etransitivity.
  - unfold drafting. rewrite E2. split; [|split].
    + apply clean_insert_file; [done|by apply Forall_app; auto|by intros [_ ?]%app_eq_nil|by rewrite parent_app|by rewrite HN].
    + exists (w_now w1). by rewrite lookup_insert_eq.
    + intros q Hq. by rewrite lookup_insert_ne.
Qed.

Lemma draft_apart h : draft h → p ≠ h ∧ dir ≠ h.
Proof using Hdraft.
  intros Hh. split; [intros E; apply Hdraft; by rewrite E|]. intros E. apply dir_not_draft. rewrite E at 1. exact Hh.
Qed.

Lemma wp_replace_file data w : clean_fs (w_fs w) → wp (replace_file data) (replaced data w) w.
Proof using Hp Hn Hname Hdraft.
  intros Hc. apply (wp_with_draft (λ '(tmpName, tmp),
    r ← fill_and_rename tmpName tmp p data; _ ← os_Remove tmpName; mret r)); [done| |].
  { intros e w' Hb Hf Hwhy. by split. }
  intros h f0 w2 [Hh Hhp Hq Ht Hd He H0]. destruct (draft_apart h Hh) as [Hne Hdh].
  apply wp_bind. eapply wp_mono; [by apply (wp_fill_and_rename h f0 data)|].
  intros r w3 H3. apply wp_bind. eapply wp_mono; [|intros x w4 H4; apply wp_ret, H4].
  by apply (wp_filled_remove h f0 data w w2).
Qed.

(** A draft given up is removed, or stays behind. *)
Lemma wp_draft_given_up h f0 d w w2 w3 : begun h f0 w w2 → env w2 w3 → drafting h f0 d w3 →
  wp (os_Remove h) (λ _ w', beside w w' ∧ file (w_fs w') p = file (w_fs w) p ∧ env w3 w') w3.
Proof using Hdraft.
  clear Hp Hn Hname.
  intros [Hh Hhp Hq Ht Hd He _] He3 (Hc & _ & H). destruct (draft_apart h Hh) as [Hne _].
  eapply wp_mono; [by apply wp_remove|]. intros r w4 (He4 & Hc4 & H4).
  assert (∀ q, q ≠ h → file (w_fs w4) q = file (w_fs w) q) as Hsame.
  { intros q Hqh. transitivity (file (w_fs w3) q).
    - destruct r as [[]|e]; [|by rewrite (proj1 H4)]. rewrite (proj1 H4), file_delete. by rewrite decide_False.
    - rewrite <- Hq. unfold file. by rewrite H. }
  split; [|split; [by apply Hsame|done]].
  split; [etransitivity; [exact He|]; by etransitivity|]. split; [done|]. intros q _ Hqd. apply Hsame. by intros ->.
Qed.

(** A draft that took the place of [p]. *)
Lemma draft_taken h f0 w w2 w3 data : begun h f0 w w2 → filled h f0 data w2 (Ok ()) w3 →
  beside w w3 ∧ file (w_fs w3) p = Some data.
Proof using Type.
  clear Hp Hn Hname.
  intros [Hh Hhp Hq Ht Hd He _] (He3 & Hc & Hf & _ & H). split; [|done].
  split; [by etransitivity|]. split; [done|]. intros q Hqp Hqd. rewrite <- Hq. unfold file. rewrite H; [done|done|by intros ->].
Qed.

End draft.
