(* ===== verification/AuthFacts.v ===== *)
(** * Facts about API keys

    Which key files are accepted and what is kept of them, which key
    authenticates, and what loading, migrating and creating the file do. *)

From S2P Require Import Prelude GoString GoPath Sha256 Os OsFacts Json JsonFacts Utf8Facts Decode DecodeFacts.
From S2P Require Import Frame Store StoreFacts Http Auth Draft.

#[local] Opaque sha256_hex.

(** ** Digests *)

(** The text of a SHA-256 digest. *)
Definition is_digest (h : string) : Prop := slen h = 64 ∧ sforall lower_hex h = true.

Lemma digest_hashKey key : is_digest (hashKey key).
Proof. split; [apply sha256_hex_length|apply sha256_hex_lower]. Qed.

Lemma lower_hex_value a n : hex_value (lower a) = Some n → lower_hex (lower a) = true.
Proof. destruct a as [[] [] [] [] [] [] [] []]; vm_compute; congruence. Qed.

Lemma lower_of_lower_hex a : lower_hex a = true → lower a = a ∧ ∃ n, hex_value a = Some n.
Proof. destruct a as [[] [] [] [] [] [] [] []]; vm_compute; intros; try discriminate; eauto. Qed.

(** Two characters at a time. *)
Lemma string_pair_ind (P : string → Prop) :
  P "" → (∀ a, P (String a "")) → (∀ a b s, P s → P (String a (String b s))) → ∀ s, P s.
Proof.
  intros H0 H1 H2. fix IH 1. intros [|a [|b s]]; [exact H0|apply H1|]. apply H2, IH.
Qed.

Lemma hex_decode_shape s : ∀ l, hex_DecodeString (ToLower s) = Some l →
  slen (ToLower s) = 2 * length l ∧ sforall lower_hex (ToLower s) = true.
Proof.
  induction s as [|a|a b s IH] using string_pair_ind; intros l H; simpl in H; [by simplify_eq|done|].
  destruct (hex_value (lower a)) eqn:Ea; simpl in H; [|done].
  destruct (hex_value (lower b)) eqn:Eb; simpl in H; [|done].
  destruct (hex_DecodeString (ToLower s)) as [l'|] eqn:E; simpl in H; [|done]. simplify_eq.
  destruct (IH l' eq_refl) as [Hl Hs]. apply lower_hex_value in Ea, Eb. simpl. rewrite Ea, Eb. simpl.
  split; [|done]. unfold slen in *. simpl. lia.
Qed.

Lemma hex_decode_lower s : sforall lower_hex s = true → ∀ n, slen s = 2 * n →
  ∃ l, hex_DecodeString s = Some l ∧ length l = n.
Proof.
  induction s as [|a|a b s IH] using string_pair_ind; intros H n Hn; unfold slen in *; simpl in *.
  - exists []. simpl. split; [done|lia].
  - lia.
  - apply andb_true_iff in H as [Ha H]. apply andb_true_iff in H as [Hb H].
    destruct (IH H (pred n)) as (l & -> & Hl); [lia|].
    apply lower_of_lower_hex in Ha as [_ [x ->]]. apply lower_of_lower_hex in Hb as [_ [y ->]].
    eexists. split; [done|]. simpl. lia.
Qed.

(** The hash of a key is accepted exactly when it is a digest in lower case. *)
Lemma digest_decoded s :
  (∃ l, hex_DecodeString (ToLower s) = Some l ∧ length l = 32) ↔ is_digest (ToLower s).
Proof.
  split.
  - intros (l & H & Hl). apply hex_decode_shape in H as [Hs Hf]. split; [lia|done].
  - intros [Hs Hf]. destruct (hex_decode_lower _ Hf 32) as (l & H & Hl); [lia|]. by exists l.
Qed.

Lemma ToLower_digest h : sforall lower_hex h = true → ToLower h = h.
Proof.
  induction h as [|a h IH]; simpl; [done|]. intros [Ha H]%andb_true_iff.
  apply lower_of_lower_hex in Ha as [-> _]. by rewrite IH.
Qed.

(** Spaces never begin or end with a hexadecimal digit. *)
Lemma find_none {A} (p : A → bool) l : Forall (λ x, p x = false) l → List.find p l = None.
Proof. induction 1 as [|x l Hx _ IH]; simpl; [done|]. by rewrite Hx. Qed.

Definition begins_hex (s : string) : bool := match s with String a _ => lower_hex a | "" => false end.

Lemma spaces_not_hex : Forall (λ sp, sexists lower_hex sp = false ∧ sp ≠ "") unicode_spaces.
Proof. repeat constructor; done. Qed.

Lemma TrimSpace_digest h : sforall lower_hex h = true → TrimSpace h = h.
Proof.
  intros H. unfold TrimSpace.
  assert (∀ p : string → bool, (∀ sp, p sp = true → ∃ a b, h = a +:+ sp +:+ b) → List.find p unicode_spaces = None) as Hnone.
  { intros p Hp. apply find_none. eapply Forall_impl; [apply spaces_not_hex|]. intros sp [Hsp Hne].
    destruct (p sp) eqn:E; [|done]. apply Hp in E as (a & b & ->).
    rewrite !sforall_app in H. apply andb_true_iff in H as [_ H]. apply andb_true_iff in H as [H _].
    destruct sp as [|c sp]; [done|]. simpl in *. rewrite sexists_cons in Hsp.
    apply andb_true_iff in H as [Hc _]. by rewrite Hc in Hsp. }
  assert (trim_left (slen h) h = h) as ->.
  { destruct (slen h); cbn [trim_left]; [done|]. rewrite Hnone; [done|].
    intros sp [t ->]%HasPrefix_iff. by exists "", t. }
  destruct (slen h); cbn [trim_right]; [done|]. rewrite Hnone; [done|].
  intros sp [t ->]%HasSuffix_iff. exists t, "". by rewrite sapp_nil_r.
Qed.

(** ** Permissions *)

(** Read, then write, then admin. *)
Definition rank (p : Permission) : option nat :=
  if String.eqb p PermRead then Some 0 else if String.eqb p PermWrite then Some 1
  else if String.eqb p PermAdmin then Some 2 else None.

Lemma valid_permission_rank p : valid_permission p = true ↔ is_Some (rank p).
Proof.
  unfold valid_permission, rank.
  destruct (String.eqb p PermRead), (String.eqb p PermWrite), (String.eqb p PermAdmin); simpl;
    split; intros H; try done; by destruct H.
Qed.

Lemma permits_rank held required : valid_permission held = true →
  permits held required = match rank held, rank required with Some h, Some r => r <=? h | _, _ => false end.
Proof.
  unfold valid_permission, permits, rank.
  destruct (String.eqb_spec held PermRead) as [->|Hr]; [|destruct (String.eqb_spec held PermWrite) as [->|Hw];
    [|destruct (String.eqb_spec held PermAdmin) as [->|Ha]; [|done]]]; intros _;
    destruct (String.eqb_spec required PermRead) as [->|]; try done;
    destruct (String.eqb_spec required PermWrite) as [->|]; try done;
    by destruct (String.eqb_spec required PermAdmin) as [->|].
Qed.

Section keys.
Context {Time : Type}.
Context (dec_time : decoder Time) (enc_time : Time → option json) (zero_time : Time).
#[local] Abbreviation APIKey := (Auth.APIKey Time).
#[local] Abbreviation KeyStore := (Auth.KeyStore Time).
#[local] Abbreviation reload := (Auth.reload dec_time enc_time zero_time).
#[local] Abbreviation maybeReload := (Auth.maybeReload dec_time enc_time zero_time).

(** ** What is kept of a key *)

Definition key_ok (k : APIKey) : Prop :=
  ak_Key k = "" ∧ is_digest (ak_Hash k) ∧ valid_permission (ak_Permission k) = true.

(** The keys of a key store. *)
Record keys_ok (l : list APIKey) : Prop := {
  ko_each : Forall key_ok l;
  ko_distinct : NoDup (ak_Hash <$> l);
  ko_enabled : List.Exists (λ k, ak_Enabled k = true) l
}.

(** The key as stored: no plaintext, the hash trimmed and in lower case. *)
Definition normalised (k : APIKey) : APIKey :=
  let k := (clear_plaintext k).1 in set_Hash (ToLower (TrimSpace (ak_Hash k))) k.

Lemma normalised_Key k : ak_Key (normalised k) = "".
Proof using Type. unfold normalised, clear_plaintext. by destruct (String.eqb_spec (ak_Key k) ""). Qed.

Lemma clear_plaintext_flag (k : APIKey) : (clear_plaintext k).2 = true ↔ ak_Key k ≠ "".
Proof using Type. unfold clear_plaintext. by destruct (String.eqb_spec (ak_Key k) ""). Qed.

Lemma normalised_ok k : key_ok k → normalised k = k ∧ (clear_plaintext k).2 = false.
Proof using Type.
  intros (HK & [Hl Hh] & _). unfold normalised, clear_plaintext. rewrite HK. simpl. split; [|done].
  rewrite TrimSpace_digest, ToLower_digest by done. by destruct k.
Qed.

(** ** The checks on the keys *)

Definition distinct_from (seen : gset string) (l : list APIKey) : Prop := ∀ k, k ∈ l → ak_Hash k ∉ seen.

Definition enabled_count (l : list APIKey) : nat := length (List.filter ak_Enabled l).

Definition check_keys_post (seen : gset string) (keys : list APIKey) (r : result error (list APIKey * nat * bool)) : Prop :=
  let l := normalised <$> keys in
  let good := Forall key_ok l ∧ NoDup (ak_Hash <$> l) ∧ distinct_from seen l in
  match r with
  | Ok (l', n, m) => good ∧ l' = l ∧ n = enabled_count l ∧ m = existsb (λ k, (clear_plaintext k).2) keys
  | Err _ => ¬ good
  end.

Lemma check_keys_correct seen keys : check_keys_post seen keys (check_keys seen keys).
Proof using Type.
  clear dec_time enc_time zero_time.
  revert seen. induction keys as [|k keys IH]; intros seen; cbn [check_keys].
  { unfold check_keys_post, distinct_from, enabled_count. simpl. split_and!; try done; [constructor|].
    by intros k ?%elem_of_nil. }
  destruct (clear_plaintext k) as [k1 m1] eqn:Ek.
  assert (normalised k = set_Hash (ToLower (TrimSpace (ak_Hash k1))) k1) as En by (unfold normalised; by rewrite Ek).
  assert (ak_Key (set_Hash (ToLower (TrimSpace (ak_Hash k1))) k1) = "") as HK by (rewrite <- En; apply normalised_Key).
  cbv zeta. pose proof (digest_decoded (TrimSpace (ak_Hash k1))) as Hdig.
  remember (set_Hash (ToLower (TrimSpace (ak_Hash k1))) k1) as k2 eqn:E2.
  assert (ak_Hash k2 = ToLower (TrimSpace (ak_Hash k1))) as Eh2 by (by rewrite E2). rewrite <- Eh2 in Hdig.
  assert (∀ e, ¬ key_ok k2 → check_keys_post seen (k :: keys) (Err e)) as Hbad.
  { intros e Hk (Hf & _). rewrite fmap_cons, En in Hf. by inv Hf. }
  destruct (hex_DecodeString (ak_Hash k2)) as [dec|] eqn:Eh.
  2:{ apply (Hbad (EText "")). intros (_ & Hd & _). apply Hdig in Hd as (? & ? & _). congruence. }
  destruct (Nat.eqb_spec (length dec) 32) as [El|El]; simpl.
  2:{ apply (Hbad (EText "")). intros (_ & Hd & _). apply Hdig in Hd as (? & ? & ?). congruence. }
  destruct (valid_permission (ak_Permission k2)) eqn:Ep; simpl.
  2:{ apply (Hbad (EText "")). intros (_ & _ & ?). congruence. }
  case_bool_decide as Hin.
  { intros (_ & _ & Hd). apply (Hd k2); [rewrite fmap_cons, En; left|done]. }
  assert (key_ok k2) as Hk2 by (split_and!; [done|apply Hdig; eauto|done]).
  specialize (IH ({[ak_Hash k2]} ∪ seen)). unfold check_keys_post in *. rewrite fmap_cons, En.
  destruct (check_keys _ keys) as [[[l' n] m]|e]; simpl.
  - destruct IH as ((Hf & Hnd & Hd) & -> & -> & ->). split; [|split_and!; [done| |by rewrite Ek]].
    + split; [by constructor|]. split.
      * constructor; [|done]. intros (k' & E & Hk')%list_elem_of_fmap. apply (Hd k' Hk'). set_solver.
      * intros k' [->|Hk']%elem_of_cons; [done|]. specialize (Hd k' Hk'). set_solver.
    + unfold enabled_count. simpl. by destruct (ak_Enabled k2).
  - intros (Hf & Hnd & Hd). apply IH. simpl in Hnd.
    apply Forall_cons in Hf as [_ Hf]. apply NoDup_cons in Hnd as [Hni Hnd]. split_and!; [done|done|].
    intros k' Hk' [E%elem_of_singleton|?]%elem_of_union.
    + apply Hni. rewrite <- E. by apply list_elem_of_fmap_2.
    + apply (Hd k'); [by right|done].
Qed.

Lemma enabled_count_pos l : enabled_count l ≠ 0 ↔ List.Exists (λ k, ak_Enabled k = true) l.
Proof using Type.
  unfold enabled_count. rewrite Exists_exists. split.
  - intros H. destruct (List.filter ak_Enabled l) as [|k l'] eqn:E; [done|].
    assert (In k (List.filter ak_Enabled l)) as [Hin Hk]%filter_In by (rewrite E; simpl; auto).
    exists k. by rewrite list_elem_of_In.
  - intros (k & Hin%list_elem_of_In & Hk). assert (In k (List.filter ak_Enabled l)) as H by (by rewrite filter_In).
    by destruct (List.filter ak_Enabled l).
Qed.

Definition has_plaintext (l : list APIKey) : bool := existsb (λ k, negb (String.eqb (ak_Key k) "")) l.

Lemma existsb_plaintext l : existsb (λ k, (clear_plaintext k).2) l = has_plaintext l.
Proof using Type.
  unfold has_plaintext. induction l as [|k l IH]; simpl; [done|]. rewrite IH. f_equal.
  unfold clear_plaintext. by destruct (String.eqb (ak_Key k) "").
Qed.

Lemma check_config_correct (c : APIKeysConfig (Time := Time)) r : check_config c = r →
  match r with
  | Ok (l, m) => keys_ok l ∧ l = normalised <$> default [] c ∧ m = has_plaintext (default [] c)
  | Err _ => ¬ keys_ok (normalised <$> default [] c)
  end.
Proof using Type.
  unfold check_config. pose proof (check_keys_correct ∅ (default [] c)) as H.
  destruct (default [] c) as [|k keys] eqn:Ec.
  { intros <-. intros [_ _ Hx%Exists_nil]. done. }
  unfold check_keys_post in H. destruct (check_keys ∅ (k :: keys)) as [[[l' n] m]|e]; simpl result_bind; intros <-.
  - destruct H as ((Hf & Hnd & _) & -> & -> & ->).
    destruct (Nat.eqb_spec (enabled_count (normalised <$> k :: keys)) 0) as [E|E].
    + intros [_ _ Hx]. by apply enabled_count_pos in Hx.
    + split; [|split; [done|apply existsb_plaintext]]. split; [done|done|by apply enabled_count_pos].
  - intros [Hf Hnd Hx]. apply H. split; [done|]. split; [done|]. intros k' _. set_solver.
Qed.

(** ** The key that authenticates *)

Lemma find_key_some (ks : KeyStore) key (ak : APIKey) : find_key ks key = Some ak →
  ak ∈ ks_keysList ks ∧ ak_Enabled ak = true ∧ ak_Hash ak = hashKey key.
Proof using Type.
  unfold find_key. intros H. apply List.find_some in H as [Hin [He Hh]%andb_true_iff].
  split; [by apply list_elem_of_In|]. split; [done|]. by apply String.eqb_eq.
Qed.

Lemma find_key_none (ks : KeyStore) key : find_key ks key = None →
  ∀ ak, ak ∈ ks_keysList ks → ak_Enabled ak = true → ak_Hash ak ≠ hashKey key.
Proof using Type.
  unfold find_key. intros H ak Hin He E. apply list_elem_of_In in Hin.
  apply (List.find_none _ _ H) in Hin. by rewrite He, E, String.eqb_refl in Hin.
Qed.

(** In a well-formed store the key is unique. *)
Lemma find_key_exact (ks : KeyStore) key (ak : APIKey) : keys_ok (ks_keysList ks) →
  find_key ks key = Some ak ↔ ak ∈ ks_keysList ks ∧ ak_Enabled ak = true ∧ ak_Hash ak = hashKey key.
Proof using Type.
  intros [_ Hnd _]. split; [apply find_key_some|]. intros (Hin & He & Hh).
  destruct (find_key ks key) as [ak'|] eqn:E; [|by destruct (find_key_none _ _ E ak)].
  apply find_key_some in E as (Hin' & _ & Hh'). f_equal.
  apply list_elem_of_lookup_1 in Hin as [i Hi], Hin' as [j Hj].
  assert (i = j) as ->; [|congruence]. eapply NoDup_lookup; [exact Hnd|..]; rewrite list_lookup_fmap.
  - by rewrite Hi.
  - rewrite Hj. simpl. congruence.
Qed.

(** ** The key store *)

(** A loaded key store: the file's keys, and the same keys by hash. *)
Record store_ok (ks : KeyStore) : Prop := {
  so_keys : keys_ok (ks_keysList ks);
  so_map : ∀ h k, ks_keys ks !! h = Some k ↔ k ∈ ks_keysList ks ∧ ak_Hash k = h
}.

Lemma key_map_list (l : list APIKey) : key_map l = list_to_map ((λ k, (ak_Hash k, k)) <$> reverse l).
Proof using Type.
  unfold key_map. induction l as [|k l IH] using rev_ind; [done|].
  rewrite foldl_app, reverse_app. simpl. by rewrite IH.
Qed.

Lemma loaded_ok path l t : keys_ok l → store_ok (mkKeyStore path (key_map l) l t).
Proof using Type.
  clear dec_time enc_time zero_time.
  intros H. split; [done|]. intros h k. simpl. rewrite key_map_list.
  rewrite <- elem_of_list_to_map.
  - rewrite list_elem_of_fmap. setoid_rewrite elem_of_reverse. naive_solver.
  - rewrite <- list_fmap_compose. simpl. rewrite reverse_Permutation. apply H.
Qed.

(** ** Loading *)

(** The keys a file gives, and whether it has to be rewritten. *)
Definition loads (data : string) : option (list APIKey * bool) :=
  let '(config, ok) := Unmarshal (dec_APIKeysConfig dec_time zero_time) data None in
  if ok then match check_config config with Ok x => Some x | Err _ => None end else None.

Definition keys_name (n : N) : string := ".keys-" +:+ pretty n +:+ ".tmp".

Lemma keys_name_plain n : plain (keys_name n).
Proof using Type. by split_and!. Qed.

(** Where a key file can be: anywhere but in the place of its own temporary
    files. *)
Definition key_path (p : path) : Prop := Forall plain p ∧ p ≠ [] ∧ ¬ draft p keys_name p.

Lemma wp_writeKeysConfigAtomic p c w : key_path p → clean_fs (w_fs w) →
  wp (writeKeysConfigAtomic enc_time p c) (λ r w',
    match enc_APIKeysConfig enc_time c with
    | Some v => replaced p keys_name (print_indent 0 v) w r w'
    | None => is_ok r = false ∧ w' = w
    end) w.
Proof using Type.
  intros (Hp & Hn & Hd) Hc. unfold writeKeysConfigAtomic. destruct (enc_APIKeysConfig enc_time c) as [v|].
  - apply (wp_replace_file p keys_name); try done.
  - by apply wp_ret.
Qed.

(** Why loading can fail, apart from I/O. *)
Definition unloadable (p : path) (w : world) : Prop :=
  match file (w_fs w) p with
  | None => True
  | Some data =>
      match loads data with
      | None => True
      | Some (l, true) => enc_APIKeysConfig enc_time (Some l) = None ∨ ¬ draft_room p keys_name w
      | Some (_, false) => False
      end
  end.

(** What [reload] does. *)
Definition reloaded (ks : KeyStore) (w : world) (res : result error unit * KeyStore) (w' : world) : Prop :=
  let p := ks_path ks in
  beside p keys_name w w' ∧ ks_path res.2 = p ∧
  match res.1 with
  | Ok _ => ∃ data l (m : bool), file (w_fs w) p = Some data ∧ loads data = Some (l, m) ∧
      ks_keysList res.2 = l ∧ store_ok res.2 ∧
      (if m then ∃ v, enc_APIKeysConfig enc_time (Some l) = Some v ∧ file (w_fs w') p = Some (print_indent 0 v)
       else file (w_fs w') p = Some data)
  | Err _ => res.2 = ks ∧ file (w_fs w') p = file (w_fs w) p ∧ (faulted w w' ∨ unloadable p w)
  end.

Lemma reload_failed (ks : KeyStore) w w' e : clean_fs (w_fs w) → same w w' → faulted w w' ∨ unloadable (ks_path ks) w →
  reloaded ks w (Err e, ks) w'.
Proof using Type.
  intros Hc Hs Hwhy. split; [by apply beside_same|]. split; [done|]. simpl. destruct Hs as [_ ->]. by split_and!.
Qed.

(** The end of [reload]: reading the time of the file. *)
Lemma wp_load_keys (ks : KeyStore) (l : list APIKey) w0 w : keys_ok l → beside (ks_path ks) keys_name w0 w →
  wp (info ← os_Stat (ks_path ks);
      let lastMod := match info with Ok n => default (ks_lastMod ks) (ModTime n) | Err _ => ks_lastMod ks end in
      mret (Ok () : result error unit, mkKeyStore (ks_path ks) (key_map l) l lastMod)) (λ res w',
    beside (ks_path ks) keys_name w0 w' ∧ w_fs w' = w_fs w ∧ is_ok res.1 = true ∧ ks_path res.2 = ks_path ks ∧
    ks_keysList res.2 = l ∧ store_ok res.2) w.
Proof using Type.
  intros Hl Hb. assert (wp (os_Stat (ks_path ks)) (λ _ w', same w w') w) as Hst by apply reads_wp, keeps_Stat.
  apply wp_bind. eapply wp_mono; [exact Hst|]. intros info w' Hs. apply wp_ret. simpl.
  split; [eapply beside_trans; [exact Hb|]; apply beside_same; [apply Hb|done]|].
  split; [apply Hs|]. split; [done|]. split; [done|]. split; [done|]. by apply loaded_ok.
Qed.

(** Once the keys are checked: rewriting the file if need be, and the end. *)
Lemma wp_install_keys (ks : KeyStore) data (l : list APIKey) (m : bool) w w1 :
  key_path (ks_path ks) → clean_fs (w_fs w) → same w w1 → file (w_fs w) (ks_path ks) = Some data →
  loads data = Some (l, m) → keys_ok l →
  wp (r ← (if m then writeKeysConfigAtomic enc_time (ks_path ks) (Some l) else mret (Ok ()));
      match r with
      | Err e => mret (Err (EWrap "remove legacy plaintext keys" e), ks)
      | Ok _ =>
          info ← os_Stat (ks_path ks);
          let lastMod := match info with Ok n => default (ks_lastMod ks) (ModTime n) | Err _ => ks_lastMod ks end in
          mret (Ok (), mkKeyStore (ks_path ks) (key_map l) l lastMod)
      end) (reloaded ks w) w1.
Proof using Type.
  intros Hp Hc Hs H1 Hloads Hl. destruct Hs as [He Ef].
  assert (beside (ks_path ks) keys_name w w1) as Hb by (by apply beside_same).
  apply wp_bind. destruct m; [|apply wp_ret].
  - eapply wp_mono; [apply wp_writeKeysConfigAtomic; [done|by rewrite Ef]|]. intros r w2 H2.
    destruct (enc_APIKeysConfig enc_time (Some l)) as [v|] eqn:Ev.
    2:{ destruct H2 as [Hr ->]. destruct r; [done|]. apply wp_ret, reload_failed; [done|by split|].
        right. unfold unloadable. rewrite H1, Hloads. by left. }
    destruct H2 as [Hb2 H2]. assert (beside (ks_path ks) keys_name w w2) as Hbb by by eapply beside_trans.
    destruct r as [[]|e].
    + eapply wp_mono; [by apply (wp_load_keys ks l w)|]. intros [[]] w3 (H3 & E3 & Hr & Epath & El & Hok); [|done].
      simpl in *. split; [done|]. split; [done|]. simpl. exists data, l, true. rewrite E3. split_and!; try done. by exists v.
    + apply wp_ret. destruct H2 as [H2 Hwhy]. split; [done|]. split; [done|]. simpl. split; [done|].
      rewrite H2, Ef. split; [done|]. destruct Hwhy as [Hf|Hh]; [left; by eapply faulted_r|right].
      unfold unloadable. rewrite H1, Hloads. right. intros Hroom. destruct Hh as [Hw|[Hd|Hr]].
      * apply Hw. rewrite Ef. apply file_some in H1 as [t H1]. apply clean_parent_dir in H1; [by apply way_dir|done|apply Hp].
      * rewrite Ef in Hd. apply file_some in H1 as [t H1]. congruence.
      * apply Hr. intros d. rewrite Ef, (env_rand _ _ He). apply Hroom.
  - eapply wp_mono; [by apply (wp_load_keys ks l w)|]. intros [[]] w3 (H3 & E3 & Hr & Epath & El & Hok); [|done].
    simpl in *. split; [done|]. split; [done|]. simpl. exists data, l, false. rewrite E3, Ef. by split_and!.
Qed.

Lemma wp_reload (ks : KeyStore) w : key_path (ks_path ks) → clean_fs (w_fs w) →
  wp (reload ks) (reloaded ks w) w.
Proof using Type.
  intros Hp Hc. unfold Auth.reload. apply wp_bind. eapply wp_mono; [apply wp_readfile; [done|apply Hp]|].
  intros [data|e] w1 [Hs H1].
  2:{ apply wp_ret, reload_failed; [done..|]. destruct H1 as [[Hf _]|H1]; [by left|right].
      unfold unloadable. destruct (file (w_fs w) (ks_path ks)) eqn:E; [|done].
      apply file_some in E as [t E]. destruct H1 as [[HN _]|[_ Hd]]; congruence. }
  assert (loads data = let '(config, ok) := Unmarshal (dec_APIKeysConfig dec_time zero_time) data None in
    if ok then match check_config config with Ok x => Some x | Err _ => None end else None) as Hloads by done.
  assert (loads data = None → unloadable (ks_path ks) w) as Hun by (intros E; unfold unloadable; by rewrite H1, E).
  destruct (Unmarshal (dec_APIKeysConfig dec_time zero_time) data None) as [config ok]. destruct ok; simpl.
  2:{ apply wp_ret, reload_failed; [done..|]. right. by apply Hun. }
  pose proof (check_config_correct config _ eq_refl) as Hcheck.
  destruct (check_config config) as [[l m]|e]; [|apply wp_ret, reload_failed; [done..|]; right; by apply Hun].
  destruct Hcheck as (Hl & _ & _). by apply (wp_install_keys ks data).
Qed.

(** ** In any world *)

Section anywhere.
Context {total : bool} {P : world → Prop} {R : world → world → Prop} `{!Writing total P R}.

Lemma keeps_fill_and_rename tmpName tmp path data : keeps total P R (fill_and_rename tmpName tmp path data).
Proof using Writing0. unfold fill_and_rename, fail_after, f_Chmod, f_Sync, f_Close. keeps_tac. Qed.
#[local] Hint Resolve keeps_fill_and_rename : keeps.

Lemma keeps_writeKeysConfigAtomic path c : keeps total P R (writeKeysConfigAtomic enc_time path c).
Proof using Writing0. unfold writeKeysConfigAtomic, os_CreateTempSuffix. keeps_tac. Qed.
#[local] Hint Resolve keeps_writeKeysConfigAtomic : keeps.

Lemma keeps_reload (ks : KeyStore) : keeps total P R (reload ks).
Proof using Writing0. unfold Auth.reload. keeps_tac. Qed.
#[local] Hint Resolve keeps_reload : keeps.

Lemma keeps_maybeReload (ks : KeyStore) : keeps total P R (maybeReload ks).
Proof using Writing0. unfold Auth.maybeReload. keeps_tac. Qed.
#[local] Hint Resolve keeps_maybeReload : keeps.

Lemma keeps_Validate (ks : KeyStore) key : keeps total P R (Validate dec_time enc_time zero_time ks key).
Proof using Writing0. unfold Validate. keeps_tac. Qed.
#[local] Hint Resolve keeps_Validate : keeps.

Lemma keeps_HasPermission (ks : KeyStore) key p : keeps total P R (HasPermission dec_time enc_time zero_time ks key p).
Proof using Writing0. unfold HasPermission. keeps_tac. Qed.

End anywhere.

(** The key store changes only to one that is well-formed. *)
Definition renewed (ks ks' : KeyStore) : Prop := ks' = ks ∨ store_ok ks' ∧ ks_path ks' = ks_path ks.

Lemma renewed_ok ks ks' : store_ok ks → renewed ks ks' → store_ok ks'.
Proof using Type. by intros H [->|[? _]]. Qed.

Lemma renewed_trans ks1 ks2 ks3 : renewed ks1 ks2 → renewed ks2 ks3 → renewed ks1 ks3.
Proof using Type. intros [->|[H E]] [->|[H' E']]; [by left|right; by split|by right; split..|right; split; congruence]. Qed.

Lemma yields_reload (ks : KeyStore) : yields (reload ks) (λ res, renewed ks res.2 ∧
  (is_ok res.1 = true → store_ok res.2)).
Proof using Type.
  unfold Auth.reload. eapply yields_bind; [apply yields_any|]. intros [data|e] _; [|apply yields_ret; by split; [left|]].
  destruct (Unmarshal (dec_APIKeysConfig dec_time zero_time) data None) as [config []]; simpl;
    [|apply yields_ret; by split; [left|]].
  pose proof (check_config_correct config _ eq_refl) as Hc.
  destruct (check_config config) as [[l m]|e]; [|apply yields_ret; by split; [left|]].
  eapply yields_bind; [apply yields_any|]. intros [[]|e] _; [|apply yields_ret; by split; [left|]].
  eapply yields_bind; [apply yields_any|]. intros info _. apply yields_ret. simpl.
  assert (store_ok (mkKeyStore (ks_path ks) (key_map l) l
    (match info with Ok n => default (ks_lastMod ks) (ModTime n) | Err _ => ks_lastMod ks end))) as H by apply loaded_ok, Hc.
  split; [by right|done].
Qed.

Lemma yields_maybeReload (ks : KeyStore) : yields (maybeReload ks) (renewed ks).
Proof using Type.
  unfold Auth.maybeReload. eapply yields_bind; [apply yields_any|]. intros [n|e] _; [|apply yields_ret; by left].
  destruct (match ModTime n with Some t => _ | None => true end); [|apply yields_ret; by left].
  eapply yields_bind; [apply yields_reload|]. intros [r ks'] [H _]. by apply yields_ret.
Qed.

(** [Validate] answers from the keys it leaves. *)
Lemma yields_Validate (ks : KeyStore) key : yields (Validate dec_time enc_time zero_time ks key) (λ res,
  renewed ks res.2 ∧ res.1 = (if String.eqb key "" then None else find_key res.2 key)).
Proof using Type.
  unfold Validate. destruct (String.eqb key ""); [apply yields_ret; by split; [left|]|].
  eapply yields_bind; [apply yields_maybeReload|]. intros ks' H. by apply yields_ret.
Qed.

Lemma yields_HasPermission (ks : KeyStore) key p : yields (HasPermission dec_time enc_time zero_time ks key p) (λ res,
  renewed ks res.2 ∧
  res.1 = match (if String.eqb key "" then None else find_key res.2 key) with
          | None => false
          | Some ak => permits (ak_Permission ak) p
          end).
Proof using Type.
  unfold HasPermission. eapply yields_bind; [apply yields_Validate|]. intros [ak ks'] [H E]. simpl in H, E. subst ak. by apply yields_ret.
Qed.

(** ** A key file not edited since it was loaded *)

Definition keys_current (ks : KeyStore) (w : world) : Prop :=
  clean_fs (w_fs w) ∧ Forall plain (ks_path ks) ∧ ∃ d t, w_fs w !! ks_path ks = Some (NFile d t) ∧ (t ≤ ks_lastMod ks)%Z.

Lemma keys_current_same (ks : KeyStore) w w' : same w w' → keys_current ks w → keys_current ks w'.
Proof using Type. intros [_ E]. unfold keys_current. by rewrite E. Qed.

Lemma wp_maybeReload_current (ks : KeyStore) w : keys_current ks w →
  wp (maybeReload ks) (λ ks' w', same w w' ∧ ks' = ks) w.
Proof using Type.
  intros (Hc & Hp & d & t & Hf & Ht). unfold Auth.maybeReload. apply wp_bind. eapply wp_mono; [by apply wp_stat|].
  intros [n|e] w1 [Hs H1]; [|by apply wp_ret]. rewrite Hf in H1. injection H1 as <-. cbn [ModTime].
  rewrite (proj2 (Z.ltb_ge _ _)) by done. by apply wp_ret.
Qed.

Lemma wp_Validate_current (ks : KeyStore) key w : keys_current ks w →
  wp (Validate dec_time enc_time zero_time ks key) (λ res w', same w w' ∧ res.2 = ks) w.
Proof using Type.
  intros Hk. unfold Validate. destruct (String.eqb key ""); [by apply wp_ret|]. apply wp_bind.
  eapply wp_mono; [by apply wp_maybeReload_current|]. intros ks' w' [Hs ->]. by apply wp_ret.
Qed.

Lemma wp_HasPermission_current (ks : KeyStore) key p w : keys_current ks w →
  wp (HasPermission dec_time enc_time zero_time ks key p) (λ res w', same w w' ∧ res.2 = ks) w.
Proof using Type.
  intros Hk. unfold HasPermission. apply wp_bind. eapply wp_mono; [by apply wp_Validate_current|].
  intros [ak ks'] w' [Hs E]. by apply wp_ret.
Qed.

(** ** Where keys come from *)

(** The keys that the file [p] gives in this world, through any links. *)
Definition keys_in_file (p : path) (w : world) : list APIKey :=
  match stat (w_fs w) p with
  | Ok (_, NFile data _) => match loads data with Some (l, _) => l | None => [] end
  | _ => []
  end.

(** The keys are those loaded before, or those of the file. *)
Definition drawn_from (w : world) (ks ks' : KeyStore) : Prop :=
  ks_path ks' = ks_path ks ∧ (ks_keysList ks' = ks_keysList ks ∨ ks_keysList ks' = keys_in_file (ks_path ks) w).

Lemma drawn_refl w ks : drawn_from w ks ks.
Proof using Type. by split; [|left]. Qed.

Lemma ReadFile_stat p w data w' : os_ReadFile p w = Some (Ok data, w') →
  ∃ q t, stat (w_fs w) p = Ok (q, NFile data t).
Proof using Type.
  unfold os_ReadFile. intros E. assert (wp (os_ReadFile p) (λ r _, ∀ data, r = Ok data → ∃ q t, stat (w_fs w) p = Ok (q, NFile data t)) w) as H.
  { apply wp_query; [done|]. intros w1 _ _ d. destruct (stat (w_fs w) p) as [[q n]|]; [|done]. destruct n as [b t| |]; [|done..].
    intros [= ->]. by exists q, t. }
  unfold wp, os_ReadFile in H. rewrite E in H. by apply H.
Qed.

Lemma reload_drawn (ks : KeyStore) w r ks' w' : reload ks w = Some ((r, ks'), w') → drawn_from w ks ks'.
Proof using Type.
  unfold Auth.reload, mbind, M_bind. destruct (os_ReadFile (ks_path ks) w) as [[[data|e] w1]|] eqn:Er; [| |done].
  2:{ intros [= _ <- _]. apply drawn_refl. }
  apply ReadFile_stat in Er as (q & t & Es).
  assert (keys_in_file (ks_path ks) w = match loads data with Some (l, _) => l | None => [] end) as Ek
    by (unfold keys_in_file; by rewrite Es).
  unfold loads in Ek. destruct (Unmarshal (dec_APIKeysConfig dec_time zero_time) data None) as [config []]; cbn [negb].
  2:{ intros [= _ <- _]. apply drawn_refl. }
  destruct (check_config config) as [[l m]|e]; [|intros [= _ <- _]; apply drawn_refl].
  match goal with |- context [match ?x with Some _ => _ | None => _ end] => destruct x as [[[[]|e] w2]|] end;
    [|intros [= _ <- _]; apply drawn_refl|done].
  destruct (os_Stat (ks_path ks) w2) as [[info w3]|]; [|done]. intros [= _ <- _]. split; [done|]. by right.
Qed.

Lemma keys_in_file_same p w w' : w_fs w' = w_fs w → keys_in_file p w' = keys_in_file p w.
Proof using Type. intros E. unfold keys_in_file. by rewrite E. Qed.

Lemma maybeReload_drawn (ks : KeyStore) w ks' w' : maybeReload ks w = Some (ks', w') → drawn_from w ks ks'.
Proof using Type.
  unfold Auth.maybeReload, mbind, M_bind. destruct (os_Stat (ks_path ks) w) as [[info w1]|] eqn:Es; [|done].
  assert (w_fs w1 = w_fs w) as Ef by (by destruct (keeps_run _ _ _ _ w _ _ (keeps_Stat (R := same) (ks_path ks)) I Es) as [_ [_ ?]]).
  destruct info as [n|e]; [|intros [= <- _]; apply drawn_refl].
  destruct (match ModTime n with Some t => _ | None => true end); [|intros [= <- _]; apply drawn_refl].
  destruct (reload ks w1) as [[[r ks1] w2]|] eqn:E; [|done]. intros [= <- _]. apply reload_drawn in E as [Hp Hl].
  split; [done|]. by rewrite <- (keys_in_file_same _ w w1).
Qed.

Lemma Validate_drawn (ks : KeyStore) key w who ks' w' :
  Validate dec_time enc_time zero_time ks key w = Some ((who, ks'), w') → drawn_from w ks ks'.
Proof using Type.
  unfold Validate. destruct (String.eqb key ""); [intros [= _ <- _]; apply drawn_refl|]. unfold mbind, M_bind.
  destruct (Auth.maybeReload dec_time enc_time zero_time ks w) as [[ks1 w1]|] eqn:E; [|done]. intros [= _ <- _].
  by eapply maybeReload_drawn.
Qed.

Lemma HasPermission_drawn (ks : KeyStore) key p w b ks' w' :
  HasPermission dec_time enc_time zero_time ks key p w = Some ((b, ks'), w') → drawn_from w ks ks'.
Proof using Type.
  unfold HasPermission, mbind, M_bind. destruct (Validate dec_time enc_time zero_time ks key w) as [[[who ks1] w1]|] eqn:E; [|done].
  intros [= _ <- _]. by eapply Validate_drawn.
Qed.

End keys.
#[export] Hint Resolve keeps_fill_and_rename keeps_reload keeps_Validate keeps_HasPermission : keeps.
