(* ===== verification/SignerKey.v ===== *)
(** * The signing key (signing.go)

    [NewRegistrySigner] loads the registry's OpenPGP key, or makes and stores
    one.  Package openpgp and its armor are parameters: an entity is whatever
    they read, write and sign with.  The key is made once: what is stored is
    loaded again, and never replaced. *)

From S2P Require Import Prelude GoString GoPath Os OsFacts Frame Store StoreFacts KeyValue StoreSpec Signing Auth Draft.

Section signing_key.
Context {Entity : Type}.
(** [armor.Decode]: the type and the body of the block *)
Context (armor_Decode : string → result error (string * string)).
Context (ReadKeyRing : string → result error (list Entity)).
(** [SerializePrivate] and [Serialize] into an armored block *)
Context (armored_private armored_public : Entity → result error string).
Context (KeyIdString : Entity → string) (DetachSign : Entity → string → result error string).

Definition PrivateKeyType : string := "PGP PRIVATE KEY BLOCK".

(** [strings.ToUpper] on a key identifier, which is hexadecimal. *)
Definition upper (a : ascii) : ascii := if in_range "a" "z" a then ascii_of_N (byte_of a - 32) else a.
Fixpoint ToUpper (s : string) : string := match s with "" => "" | String a s => String (upper a) (ToUpper s) end.

(** The key in the file. *)
Definition parse_private (data : string) : result error Entity :=
  match armor_Decode data with
  | Ok (type, body) =>
      if String.eqb type PrivateKeyType then
        match ReadKeyRing body with
        | Ok [entity] => Ok entity
        | Ok _ => Err (EText "read signing key")
        | Err e => Err (EWrap "read signing key" e)
        end
      else Err (EText "decode signing key")
  | Err e => Err (EWrap "decode signing key" e)
  end.

Definition signer_of (entity : Entity) : result error RegistrySigner :=
  public ←? armored_public entity;
  Ok (mkSigner (ToUpper (KeyIdString entity)) public (DetachSign entity)).

Definition signer_name (n : N) : string := ".signing-key-" +:+ pretty n.

(** [generated] is what [openpgp.NewEntity] returns in this run. *)
Definition NewRegistrySigner (generated : result error Entity) (privateKeyPath : path) : M (result error RegistrySigner) :=
  r ← os_ReadFile privateKeyPath;
  match r with
  | Ok data => mret (entity ←? parse_private data; signer_of entity)
  | Err e =>
      if negb (os_IsNotExist e) then mret (Err (EWrap "read signing key" e))
      else
        entity ←! mret generated wrapping "generate signing key";
        private ←! mret (armored_private entity);
        _ ←! replace_file privateKeyPath signer_name private;
        mret (signer_of entity)
  end.

(** ** The key is made once *)

(** What armoring writes, it reads back. *)
Definition private_round_trip : Prop := ∀ entity private, armored_private entity = Ok private → parse_private private = Ok entity.

Context (p : path) (Hp : Forall plain p) (Hn : p ≠ []) (Hd : ¬ draft p signer_name p).

(** What a start does to the key file: an existing one is loaded and stays, and
    a missing one is made, whole or not at all. *)
Definition signer_started (generated : result error Entity) (w : world) (r : result error RegistrySigner) (w' : world) : Prop :=
  beside p signer_name w w' ∧
  match file (w_fs w) p with
  | Some data => w_fs w' = w_fs w ∧ (r = (entity ←? parse_private data; signer_of entity) ∨ faulted w w' ∧ is_ok r = false)
  | None =>
      (file (w_fs w') p = None ∧ is_ok r = false) ∨
      ∃ entity private, generated = Ok entity ∧ armored_private entity = Ok private ∧
        file (w_fs w') p = Some private ∧ r = signer_of entity
  end.

Lemma wp_NewRegistrySigner generated w : clean_fs (w_fs w) → wp (NewRegistrySigner generated p) (signer_started generated w) w.
Proof using Hp Hn Hd.
  intros Hc. apply wp_bind. eapply wp_mono; [by apply wp_readfile|]. intros [data|e] w1 [Hs H1].
  { apply wp_ret. split; [by apply beside_same|]. rewrite H1. split; [apply Hs|by left]. }
  pose proof (beside_same p signer_name w w1 Hc Hs) as Hb.
  assert (∀ e', signer_started generated w (Err e') w1 ∨ file (w_fs w) p = None) as Hfail.
  { intros e'. destruct (file (w_fs w) p) as [data|] eqn:Ef; [left|by right]. split; [done|]. rewrite Ef. split; [apply Hs|]. right. split; [|done].
    apply file_some in Ef as [t Ef]. destruct H1 as [[? _]|[[? _]|[_ ?]]]; [done|congruence..]. }
  destruct (os_IsNotExist e) eqn:Ene; cbn [negb].
  2:{ apply wp_ret. destruct (Hfail (EWrap "read signing key" e)) as [|Ef]; [done|]. split; [done|]. rewrite Ef. left.
      split; [|done]. by rewrite (proj2 Hs). }
  assert (file (w_fs w) p = None) as Ef.
  { destruct H1 as [[_ ->]|[[Hm _]|[-> _]]]; [done|by apply file_none|done]. }
  clear Hfail. assert (∀ e', signer_started generated w (Err e') w1) as Hfail.
  { intros e'. split; [done|]. rewrite Ef. left. split; [|done]. by rewrite (proj2 Hs). }
  apply wp_try, wp_ret. destruct generated as [entity|e1] eqn:Eg; [|apply Hfail].
  apply wp_try, wp_ret. destruct (armored_private entity) as [private|e1] eqn:Ea; [|apply Hfail].
  apply wp_try. eapply wp_mono.
  { apply (wp_replace_file p signer_name Hp Hn); [by intros n; repeat split|done|]. by rewrite (proj2 Hs). }
  intros r w2 [Hb2 H2]. assert (beside p signer_name w w2) as Hb' by by eapply beside_trans.
  destruct r as [[]|e2].
  - apply wp_ret. split; [done|]. rewrite Ef. right. by exists entity, private.
  - split; [done|]. rewrite Ef. left. split; [|done]. destruct H2 as [-> _]. by rewrite (proj2 Hs).
Qed.

(** C19. The signing key outlives the process.  When a start of the registry
    has a signer - the stored key or, when there was none, one it has just made
    and stored, whole - then every later start that finds the key file as that
    start left it gets the same signer (the same key identifier, public key and
    signatures), whatever key it would have made, unless a system call fails;
    and it leaves the file system as it is.  This is for armoring that reads
    back what it writes. *)
Theorem signing_key_kept (g1 g2 : result error Entity) sg w w1 w2 : private_round_trip →
  clean_fs (w_fs w) → NewRegistrySigner g1 p w = Some (Ok sg, w1) →
  clean_fs (w_fs w2) → file (w_fs w2) p = file (w_fs w1) p →
  ∃ r w3, NewRegistrySigner g2 p w2 = Some (r, w3) ∧ w_fs w3 = w_fs w2 ∧ (r = Ok sg ∨ faulted w2 w3).
Proof using Hp Hn Hd.
  intros Hrt Hc E Hc2 Ef. apply (wp_run _ _ _ _ _ (wp_NewRegistrySigner g1 w Hc)) in E as [_ E].
  assert (∃ data entity, file (w_fs w2) p = Some data ∧ parse_private data = Ok entity ∧ signer_of entity = Ok sg)
    as (data & entity & Ed & Eparse & Esg).
  { destruct (file (w_fs w) p) as [data|] eqn:Ew.
    - destruct E as [E1 [E|[_ E]]]; [|done]. destruct (parse_private data) as [entity|] eqn:Ep; [|done].
      exists data, entity. by rewrite Ef, E1, Ew.
    - destruct E as [[_ E]|(entity & private & _ & Ea & Ef1 & E)]; [done|].
      exists private, entity. rewrite Ef, Ef1. split; [done|]. split; [by apply Hrt|done]. }
  destruct (wp_total _ _ _ (wp_NewRegistrySigner g2 w2 Hc2)) as (r & w3 & E3 & _ & H). exists r, w3. split; [done|].
  rewrite Ed in H. destruct H as [H1 H2]. split; [done|]. destruct H2 as [->|[? _]]; [left|by right]. by rewrite Eparse.
Qed.

End signing_key.

(** ** A concrete key *)

(** Entities are names, armored by a header line; a signature names its key. *)
Definition toy_armor (name : string) : result error string := Ok ("PRIVATE:" +:+ name).
Definition toy_decode (data : string) : result error (string * string) :=
  match CutPrefix data "PRIVATE:" with (name, true) => Ok (PrivateKeyType, name) | _ => Err (EText "EOF") end.
Definition toy_signer : result error string → path → M (result error RegistrySigner) :=
  NewRegistrySigner toy_decode (λ body, Ok [body]) toy_armor (λ name, Ok ("PUBLIC:" +:+ name)) (λ _, "00ff00ff00ff00ff")
    (λ name data, Ok (name +:+ " signed " +:+ data)).

Definition key_entries : list (path * node) := [([], NDir); (["srv"], NDir)].
Definition key_world (faults : list (option nat)) : world := World (list_to_map key_entries) faults (λ _, 7%N) 0 0 ∅ false.
Definition signing_key : path := ["srv"; "signing-key.asc"].

Lemma toy_round_trip : private_round_trip toy_decode (λ body, Ok [body]) toy_armor.
Proof.
  intros name private [= <-]. unfold parse_private, toy_decode.
  assert (CutPrefix ("PRIVATE:" +:+ name) "PRIVATE:" = (name, true)) as ->; [|done].
  unfold CutPrefix. by rewrite HasPrefix_app, sdrop_app.
Qed.

Lemma key_world_clean faults : clean_fs (w_fs (key_world faults)).
Proof. apply (sf_clean []), (store_fs_checked [] key_entries). vm_compute. reflexivity. Qed.

Definition signer_id (r : option (result error RegistrySigner * world)) : string :=
  match r with Some (Ok sg, _) => KeyID sg +:+ " " +:+ PublicArmor sg | _ => "" end.

(** The first start makes a key, the second keeps it. *)
Example signer_runs :
  match toy_signer (Ok "first") signing_key (key_world []) with
  | Some (Ok sg, w) => (file (w_fs w) signing_key, signer_id (toy_signer (Ok "second") signing_key w))
  | _ => (None, "") end = (Some "PRIVATE:first", "00FF00FF00FF00FF PUBLIC:first").
Proof. vm_compute. reflexivity. Qed.

Lemma signing_key_kept_witness : ∃ sg w1, toy_signer (Ok "first") signing_key (key_world []) = Some (Ok sg, w1) ∧
  ∃ r w3, toy_signer (Ok "second") signing_key w1 = Some (r, w3) ∧ w_fs w3 = w_fs w1.
Proof.
  assert (match toy_signer (Ok "first") signing_key (key_world []) with
          | Some (Ok _, w) => String.eqb (default "" (file (w_fs w) signing_key)) "PRIVATE:first" | _ => false end = true) as H
    by (vm_compute; reflexivity).
  destruct (toy_signer (Ok "first") signing_key (key_world [])) as [[[sg|e] w1]|] eqn:E; [|discriminate H..].
  assert (Forall plain signing_key) as Hp by by repeat constructor.
  assert (¬ draft signing_key signer_name signing_key) as Hd.
  { intros [n En]. change (["srv"; "signing-key.asc"] = ["srv"] ++ [signer_name n]) in En. discriminate En. }
  assert (clean_fs (w_fs w1)) as Hc1.
  { eapply (wp_run (toy_signer (Ok "first") signing_key) (λ _ w, clean_fs (w_fs w)) (key_world [])); [|exact E].
    eapply wp_mono; [apply wp_NewRegistrySigner; [exact Hp|discriminate|exact Hd|apply key_world_clean]|].
    intros r w' [(_ & Hc & _) _]. exact Hc. }
  exists sg, w1. split; [reflexivity|].
  destruct (signing_key_kept toy_decode (λ body, Ok [body]) toy_armor (λ name, Ok ("PUBLIC:" +:+ name)) (λ _, "00ff00ff00ff00ff")
    (λ name data, Ok (name +:+ " signed " +:+ data)) signing_key Hp ltac:(discriminate) Hd (Ok "first") (Ok "second") sg
    (key_world []) w1 w1 toy_round_trip (key_world_clean []) E Hc1 eq_refl) as (r & w3 & E3 & Ef & _).
  exists r, w3. split; [exact E3|exact Ef].
Defined.
