(* ===== verification/RateLimit.v ===== *)
(** * The rate limiter (middleware.go)

    A token bucket per client address.  Token counts are [float64] values,
    modelled by the IEEE 754 operations of [SpecFloat] with 53 bits of
    precision; durations are [int64] nanoseconds. *)

From Stdlib Require Import SpecFloat.
From S2P Require Import Prelude GoString Os Json Decode Store Http Auth.

(** ** [float64] *)

Definition of_int (z : Z) : spec_float := binary_normalize 53 1024 z 0 false.
Definition fadd := SFadd 53 1024.
Definition fsub := SFsub 53 1024.
Definition fmul := SFmul 53 1024.
Definition fdiv := SFdiv 53 1024.

(** [int(f)] of a number in the range of [int]. *)
Definition trunc (f : spec_float) : Z :=
  match f with
  | S754_finite s m e =>
      let n := (if e <? 0 then Z.pos m / 2 ^ (- e) else Z.pos m * 2 ^ e)%Z in if s then (- n)%Z else n
  | _ => 0%Z
  end.

(** ** Durations *)

Definition Second : Z := (10 ^ 9)%Z.

(** [d.Seconds()] *)
Definition Seconds (d : Z) : spec_float :=
  fadd (of_int (Z.quot d Second)) (fdiv (of_int (Z.rem d Second)) (of_int Second)).

(** [time.Since(t)] at [now]: the difference, saturated. *)
Definition Since (now t : Z) : Z := Z.max (- 2 ^ 63) (Z.min (2 ^ 63 - 1) (now - t)).

(** ** Buckets *)

Record visitor := mkVisitor { tokens : spec_float; lastSeen : Z }.

Record RateLimiter := mkRateLimiter {
  rl_visitors : gmap string visitor;
  rl_rate : Z;
  rl_window : Z;
  rl_trustProxy : bool
}.

(** [strings.EqualFold]; no letter of the word it is used with has a fold
    outside ASCII. *)
Definition EqualFold (s t : string) : bool := String.eqb (fold_name s) (fold_name t).

(** [env] is TRUST_PROXY_HEADERS. *)
Definition NewRateLimiter (rate window : Z) (env : string) : RateLimiter :=
  mkRateLimiter ∅ rate window (EqualFold env "true").

Definition set_visitors v (rl : RateLimiter) : RateLimiter :=
  mkRateLimiter v (rl_rate rl) (rl_window rl) (rl_trustProxy rl).

Definition cleanup (now : Z) (rl : RateLimiter) : RateLimiter :=
  set_visitors (filter (λ iv, (Since now (lastSeen iv.2) ≤ int64_wrap (rl_window rl * 2))%Z) (rl_visitors rl)) rl.

(** The tokens of a visitor after the refill. *)
Definition refilled (now : Z) (rl : RateLimiter) (v : visitor) : spec_float :=
  let elapsed := Since now (lastSeen v) in
  let refill := fdiv (fmul (Seconds elapsed) (of_int (rl_rate rl))) (Seconds (rl_window rl)) in
  let t := fadd (tokens v) refill in
  if SFltb (of_int (rl_rate rl)) t then of_int (rl_rate rl) else t.

(** The code reads the clock once for the elapsed time and once for
    [lastSeen]; here both are [now]. *)
Definition allow (now : Z) (ip : string) (rl : RateLimiter) : bool * RateLimiter :=
  match rl_visitors rl !! ip with
  | None => (true, set_visitors (<[ip := mkVisitor (of_int (rl_rate rl - 1)) now]> (rl_visitors rl)) rl)
  | Some v =>
      let t := refilled now rl v in
      if SFltb t (of_int 1)
      then (false, set_visitors (<[ip := mkVisitor t now]> (rl_visitors rl)) rl)
      else (true, set_visitors (<[ip := mkVisitor (fsub t (of_int 1)) now]> (rl_visitors rl)) rl)
  end.

(** ** The address of a client *)

(** The host of [net.SplitHostPort], when it succeeds. *)
Definition SplitHost (s : string) : option string :=
  let stray t := Contains t "[" || Contains t "]" in
  match s with
  | String "[" rest =>
      match Cut rest "]" with
      | (host, String ":" port, true) =>
          if Contains port ":" || Contains host "[" || stray port then None else Some host
      | _ => None
      end
  | _ =>
      match Cut s ":" with
      | (host, port, true) => if Contains port ":" || stray host || stray port then None else Some host
      | _ => None
      end
  end.

Definition client_ip (rl : RateLimiter) (r : request) : string :=
  let ip := default (r_RemoteAddr r) (SplitHost (r_RemoteAddr r)) in
  if rl_trustProxy rl then
    let xff := Header_Get r "X-Forwarded-For" in
    let ip := if String.eqb xff "" then ip else hd "" (Split xff ",") in
    let xri := Header_Get r "X-Real-IP" in
    if String.eqb xri "" then ip else xri
  else ip.

Definition rate_limited (rl : RateLimiter) : response :=
  let retryAfter := trunc (Seconds (rl_window rl)) in
  let retryAfter := if (retryAfter <? 1)%Z then 1%Z else retryAfter in
  counting RateLimitHits
    (with_headers [("Retry-After", pretty retryAfter)] (httpJSONError 429 "Rate limit exceeded")).

(** ** Runs *)

(** The answers to a sequence of requests: when, and from where. *)
Fixpoint allowed (rl : RateLimiter) (l : list (Z * string)) : list bool * RateLimiter :=
  match l with
  | [] => ([], rl)
  | (now, ip) :: l =>
      let '(b, rl) := allow now ip rl in
      let '(bs, rl) := allowed rl l in (b :: bs, rl)
  end.

Definition minute : Z := (60 * Second)%Z.

(** Two requests a minute: the third in a burst is refused, half a minute
    later one more is let through. *)
Example allowed_runs :
  (allowed (NewRateLimiter 2 minute "")
     [(0%Z, "a"); (0%Z, "a"); (0%Z, "a"); (0%Z, "b"); ((30 * Second)%Z, "a"); ((30 * Second)%Z, "a")]).1
    = [true; true; false; true; true; false].
Proof. vm_compute. reflexivity. Qed.

(** A window of zero, which RATE_WINDOW may set, gives NaN tokens: nothing is
    refused any more. *)
Example zero_window_unlimited :
  (allowed (NewRateLimiter 1 0 "") (replicate 50 (0%Z, "a"))).1 = replicate 50 true.
Proof. vm_compute. reflexivity. Qed.

Example SplitHost_runs :
  SplitHost "10.0.0.1:4711" = Some "10.0.0.1" ∧ SplitHost "[::1]:80" = Some "::1" ∧ SplitHost "::1:80" = None ∧
  SplitHost "[::1]" = None ∧ SplitHost "host" = None.
Proof. vm_compute. split_and!; reflexivity. Qed.
