(* ===== verification/RateFacts.v ===== *)
(** * What the rate limiter lets through

    Integers below 2^53 are exact [float64] values, so that in a burst the
    bucket counts exactly. *)

From Stdlib Require Import SpecFloat.
From S2P Require Import Prelude GoString Os Json Decode Store Http Auth RateLimit.

#[local] Open Scope Z_scope.

(** ** Exact integers *)

Definition digits (n : positive) : Z := Z.pos (digits2_pos n).

Lemma digits_spec n : 2 ^ (digits n - 1) ≤ Z.pos n < 2 ^ digits n.
Proof.
  unfold digits. induction n as [n IH|n IH|]; simpl digits2_pos; [..|done].
  all: rewrite Pos2Z.inj_succ; replace (Z.succ (Z.pos (digits2_pos n)) - 1) with (Z.succ (Z.pos (digits2_pos n) - 1)) by lia;
    rewrite !Z.pow_succ_r by lia; lia.
Qed.

Lemma digits_unique n d : 0 < d → 2 ^ (d - 1) ≤ Z.pos n < 2 ^ d → digits n = d.
Proof.
  intros Hd [H1 H2]. pose proof (digits_spec n) as [H3 H4]. assert (0 < digits n) as Hpos by done.
  destruct (Z.lt_trichotomy (digits n) d) as [Hlt|[Heq|Hlt]]; [|done|]; exfalso.
  - assert (2 ^ digits n ≤ 2 ^ (d - 1)) by (apply Z.pow_le_mono_r; lia). lia.
  - assert (2 ^ d ≤ 2 ^ (digits n - 1)) by (apply Z.pow_le_mono_r; lia). lia.
Qed.

(** The mantissa [n * 2^k]. *)
Definition scaled (n : positive) (k : Z) : positive := Z.to_pos (Z.pos n * 2 ^ k).

Lemma scaled_pos n k : 0 ≤ k → Z.pos (scaled n k) = Z.pos n * 2 ^ k.
Proof. intros Hk. unfold scaled. rewrite Z2Pos.id; [done|]. pose proof (Z.pow_pos_nonneg 2 k). lia. Qed.

Lemma digits_scaled n k : 0 ≤ k → digits (scaled n k) = digits n + k.
Proof.
  intros Hk. pose proof (digits_spec n) as [H1 H2]. assert (0 < digits n) by done.
  apply digits_unique; [lia|]. rewrite scaled_pos by done.
  replace (digits n + k - 1) with (digits n - 1 + k) by lia. rewrite !Z.pow_add_r by lia.
  pose proof (Z.pow_pos_nonneg 2 k). nia.
Qed.

Lemma scaled_scaled n j k : 0 ≤ j → 0 ≤ k → scaled (scaled n j) k = scaled n (j + k).
Proof.
  intros. apply Pos2Z.inj. rewrite !scaled_pos, Z.pow_add_r by lia. lia.
Qed.

Lemma scaled_0 n : scaled n 0 = n.
Proof. apply Pos2Z.inj. rewrite scaled_pos; lia. Qed.

Lemma iter_xO n d : Pos.iter xO n d = scaled n (Z.pos d).
Proof.
  apply Pos2Z.inj. rewrite scaled_pos by done. induction d as [|d IH] using Pos.peano_ind; [simpl; lia|].
  rewrite Pos.iter_succ, Pos2Z.inj_succ, Z.pow_succ_r by done. lia.
Qed.

Lemma shl_align_scaled n j d : 0 ≤ d → shl_align n j (j - d) = (scaled n d, j - d).
Proof.
  intros Hd. unfold shl_align. replace (j - d - j) with (- d) by lia. destruct d as [|d|d]; [|simpl|done].
  - rewrite scaled_0. f_equal. lia.
  - by rewrite iter_xO.
Qed.

Lemma shl_align_none n j e : j ≤ e → shl_align n j e = (n, j).
Proof. intros H. unfold shl_align. destruct (e - j) eqn:E; [done|done|lia]. Qed.

Lemma shr_exact p n : SpecFloat.iter_pos shr_1 p (Build_shr_record (Z.pos (scaled n (Z.pos p))) false false) =
  Build_shr_record (Z.pos n) false false.
Proof.
  revert n. induction p as [p IH|p IH|]; intros n; simpl SpecFloat.iter_pos.
  - replace (scaled n (Z.pos p~1)) with (scaled (scaled (scaled n (Z.pos p)) (Z.pos p)) 1)
      by (rewrite !scaled_scaled by lia; f_equal; lia).
    replace (scaled (scaled (scaled n (Z.pos p)) (Z.pos p)) 1) with ((scaled (scaled n (Z.pos p)) (Z.pos p))~0)%positive
      by (apply Pos2Z.inj; rewrite (scaled_pos _ 1); lia).
    simpl. by rewrite !IH.
  - replace (scaled n (Z.pos p~0)) with (scaled (scaled n (Z.pos p)) (Z.pos p))
      by (rewrite !scaled_scaled by lia; f_equal; lia). by rewrite !IH.
  - replace (scaled n 1) with (n~0)%positive; [done|]. apply Pos2Z.inj. rewrite scaled_pos; lia.
Qed.

(** The representation of [n]. *)
Definition rep (n : positive) : spec_float := S754_finite false (scaled n (53 - digits n)) (digits n - 53).

(** Rounding a value that is exact. *)
Lemma round_aux_exact n j : digits n ≤ 53 → 53 - digits n ≤ j →
  binary_round_aux 53 1024 false (Z.pos (scaled n j)) (- j) loc_Exact = rep n.
Proof.
  intros Hn Hj. assert (0 < digits n) by done. unfold binary_round_aux, shr_fexp. simpl Zdigits2.
  fold (digits (scaled n j)). rewrite digits_scaled by lia.
  replace (fexp 53 1024 (digits n + j + - j) - - j) with (digits n - 53 + j) by (unfold fexp, emin; lia).
  assert (shr (shr_record_of_loc (Z.pos (scaled n j)) loc_Exact) (- j) (digits n - 53 + j) =
    (Build_shr_record (Z.pos (scaled n (53 - digits n))) false false, digits n - 53)) as ->.
  { unfold shr. simpl shr_record_of_loc. destruct (digits n - 53 + j) as [|p|p] eqn:E; [| |lia].
    - replace j with (53 - digits n) by lia. f_equal. lia.
    - replace j with (53 - digits n + Z.pos p) by lia. rewrite <- scaled_scaled, shr_exact by lia. f_equal. lia. }
  simpl. fold (digits (scaled n (53 - digits n))). rewrite digits_scaled by lia.
  replace (fexp 53 1024 (digits n + (53 - digits n) + (digits n - 53)) - (digits n - 53)) with 0 by (unfold fexp, emin; lia).
  simpl. destruct (Z.leb_spec (digits n - 53) (1024 - 53)); [done|lia].
Qed.

Lemma round_exact n k : digits n ≤ 53 → 0 ≤ k → binary_round 53 1024 false (scaled n k) (- k) = rep n.
Proof.
  intros Hn Hk. assert (0 < digits n) by done. unfold binary_round. fold (digits (scaled n k)).
  rewrite digits_scaled by done.
  replace (fexp 53 1024 (digits n + k + - k)) with (digits n - 53) by (unfold fexp, emin; lia).
  destruct (decide (k < 53 - digits n)) as [H'|H'].
  - replace (digits n - 53) with (- k - (53 - digits n - k)) by lia. rewrite shl_align_scaled, scaled_scaled by lia.
    replace (k + (53 - digits n - k)) with (53 - digits n) by lia.
    replace (- k - (53 - digits n - k)) with (- (53 - digits n)) by lia. by apply round_aux_exact.
  - rewrite shl_align_none by lia. apply round_aux_exact; lia.
Qed.

Lemma of_int_rep n : digits n ≤ 53 → of_int (Z.pos n) = rep n.
Proof. intros H. pose proof (round_exact n 0 H (Z.le_refl 0)) as E. by rewrite scaled_0 in E. Qed.

(** ** Arithmetic on exact integers *)

Lemma digits_mono a b : Z.pos a ≤ Z.pos b → digits a ≤ digits b.
Proof.
  intros H. pose proof (digits_spec a) as [Ha _]. pose proof (digits_spec b) as [_ Hb].
  assert (0 < digits a) as Hpa by done. destruct (Z.le_gt_cases (digits a) (digits b)) as [?|Hlt]; [done|exfalso].
  assert (2 ^ digits b ≤ 2 ^ (digits a - 1)) by (apply Z.pow_le_mono_r; lia). lia.
Qed.

Lemma digits_bound n : Z.pos n < 2 ^ 53 → digits n ≤ 53.
Proof.
  intros H. pose proof (digits_spec n) as [Hn _]. destruct (Z.le_gt_cases (digits n) 53) as [?|Hlt]; [done|exfalso].
  assert (2 ^ 53 ≤ 2 ^ (digits n - 1)) by (apply Z.pow_le_mono_r; lia). lia.
Qed.

(** A count of tokens. *)
Definition count (z : Z) : spec_float := match z with Z.pos n => rep n | _ => S754_zero false end.

Lemma of_int_count z : 0 ≤ z < 2 ^ 53 → of_int z = count z.
Proof.
  intros [H1 H2]. destruct z as [|n|n]; [done| |lia]. by apply of_int_rep, digits_bound.
Qed.

Lemma scaled_compare a b k : 0 ≤ k → Pos.compare_cont Eq (scaled a k) (scaled b k) = (Z.pos a ?= Z.pos b).
Proof.
  intros Hk. change (Pos.compare_cont Eq (scaled a k) (scaled b k)) with (Z.pos (scaled a k) ?= Z.pos (scaled b k)).
  rewrite !scaled_pos by done. symmetry. apply Zmult_compare_compat_r. pose proof (Z.pow_pos_nonneg 2 k). lia.
Qed.

Lemma rep_ltb a b : digits a ≤ 53 → SFltb (rep a) (rep b) = (Z.pos a <? Z.pos b).
Proof.
  intros Ha. unfold SFltb, rep. cbn [SFcompare].
  destruct (Z.compare_spec (digits a - 53) (digits b - 53)) as [E|E|E].
  - replace (digits b) with (digits a) by lia. rewrite scaled_compare by lia. done.
  - symmetry. apply Z.ltb_lt. destruct (Z.lt_ge_cases (Z.pos a) (Z.pos b)) as [?|H]; [done|].
    apply digits_mono in H. lia.
  - symmetry. apply Z.ltb_ge. destruct (Z.lt_ge_cases (Z.pos a) (Z.pos b)) as [H|?]; [|lia].
    assert (Z.pos a ≤ Z.pos b) as H' by lia. apply digits_mono in H'. lia.
Qed.

Lemma count_ltb x y : 0 ≤ x < 2 ^ 53 → 0 ≤ y < 2 ^ 53 → SFltb (count x) (count y) = (x <? y).
Proof.
  intros Hx Hy. destruct x as [|a|a], y as [|b|b]; try lia; try done. apply rep_ltb, digits_bound; lia.
Qed.

Lemma count_pred x : 1 ≤ x < 2 ^ 53 → fsub (count x) (count 1) = count (x - 1).
Proof.
  intros Hx. destruct x as [|a|a]; [lia| |lia]. assert (digits a ≤ 53) as Ha by (apply digits_bound; lia).
  assert (0 < digits a) as Hpa by done. unfold fsub, count at 1 2, rep. cbn [SFsub].
  replace (Z.min (digits a - 53) (digits 1 - 53)) with (- (52)) by (change (digits 1) with 1; lia).
  replace (shl_align (scaled a (53 - digits a)) (digits a - 53) (- (52))) with (scaled a 52, - (52)).
  2:{ replace (- (52)) with (digits a - 53 - (digits a - 1)) by lia. rewrite shl_align_scaled, scaled_scaled by lia.
      do 2 f_equal. lia. }
  replace (shl_align (scaled 1 (53 - digits 1)) (digits 1 - 53) (- (52))) with (scaled 1 52, - (52)) by done.
  cbn [fst cond_Zopp]. rewrite !scaled_pos by lia.
  destruct (Z.pos a - 1) as [|b|b] eqn:E; [|clear Hx|lia].
  - replace (Z.pos a * 2 ^ 52 - 1 * 2 ^ 52) with 0 by lia. done.
  - replace (Z.pos a * 2 ^ 52 - 1 * 2 ^ 52) with (Z.pos (scaled b 52)) by (rewrite scaled_pos by lia; lia).
    change (binary_round 53 1024 false (scaled b 52) (- (52)) = rep b). apply round_exact; [|lia].
    etransitivity; [apply (digits_mono b a); lia|done].
Qed.

Lemma fadd_zero x s : 1 ≤ x → fadd (count x) (S754_zero s) = count x.
Proof. intros H. by destruct x. Qed.

Lemma count_refilled_zero s : fadd (count 0) (S754_zero s) = S754_zero false.
Proof. by destruct s. Qed.

(** ** Bursts *)

(** The window is a positive or negative number of seconds as a [float64]:
    neither zero nor infinite. *)
Definition timed (window : Z) : bool :=
  match Seconds window with S754_finite _ _ _ => true | _ => false end.

Lemma refilled_now rl now x : 0 < rl_rate rl < 2 ^ 53 → timed (rl_window rl) = true → 0 ≤ x ≤ rl_rate rl →
  refilled now rl (mkVisitor (count x) now) = count x.
Proof.
  intros Hr Hw Hx. unfold refilled, timed in *. cbn [tokens lastSeen].
  replace (Since now now) with 0 by (unfold Since; lia).
  replace (Seconds 0) with (S754_zero false) by (vm_compute; reflexivity).
  rewrite (of_int_count (rl_rate rl)) by lia.
  replace (fmul (S754_zero false) (count (rl_rate rl))) with (S754_zero false) by (destruct (rl_rate rl); [lia|done|lia]).
  destruct (Seconds (rl_window rl)) as [| | |s m e]; [done..|].
  change (fdiv (S754_zero false) (S754_finite s m e)) with (S754_zero (xorb false s)).
  assert (fadd (count x) (S754_zero (xorb false s)) = count x) as ->.
  { destruct (decide (x = 0)) as [->|]; [apply count_refilled_zero|apply fadd_zero; lia]. }
  rewrite count_ltb by lia. by destruct (Z.ltb_spec (rl_rate rl) x); [lia|].
Qed.

(** How often an address occurs. *)
Definition occurrences (ip : string) (l : list string) : Z := Z.of_nat (length (filter (.= ip) l)).

Lemma occurrences_cons ip x l : occurrences ip (x :: l) = (if decide (x = ip) then 1 else 0) + occurrences ip l.
Proof. unfold occurrences. rewrite filter_cons. destruct (decide (x = ip)); simpl; lia. Qed.

(** Which requests of a burst are within the rate, given the earlier ones. *)
Fixpoint within_rate (rate : Z) (earlier ips : list string) : list bool :=
  match ips with
  | [] => []
  | ip :: ips => (occurrences ip earlier <? rate) :: within_rate rate (ip :: earlier) ips
  end.

(** The bucket of an address after its requests of this instant. *)
Definition drained (rate now c : Z) : option visitor :=
  if decide (c = 0) then None else Some (mkVisitor (count (Z.max 0 (rate - c))) now).

Lemma allow_drained rl now ip c : 0 < rl_rate rl < 2 ^ 53 → timed (rl_window rl) = true → 0 ≤ c →
  rl_visitors rl !! ip = drained (rl_rate rl) now c →
  ∃ v, drained (rl_rate rl) now (1 + c) = Some v ∧
    allow now ip rl = (c <? rl_rate rl, set_visitors (<[ip := v]> (rl_visitors rl)) rl).
Proof.
  intros Hr Hw Hc E. unfold allow, drained in *. rewrite E. rewrite decide_False by lia. eexists. split; [done|].
  destruct (decide (c = 0)) as [->|Hne].
  - rewrite of_int_count by lia. replace (Z.max 0 (rl_rate rl - (1 + 0))) with (rl_rate rl - 1) by lia.
    by destruct (Z.ltb_spec 0 (rl_rate rl)); [|lia].
  - rewrite refilled_now by (done || lia). change (of_int 1) with (count 1).
    change (SFltb ?a (count 1)) with (SFltb a (count 1)). rewrite count_ltb by lia.
    destruct (Z.ltb_spec (Z.max 0 (rl_rate rl - c)) 1), (Z.ltb_spec c (rl_rate rl)); try lia.
    + do 2 f_equal. replace (Z.max 0 (rl_rate rl - c)) with (Z.max 0 (rl_rate rl - (1 + c))) by lia. done.
    + rewrite count_pred by lia. replace (Z.max 0 (rl_rate rl - c) - 1) with (Z.max 0 (rl_rate rl - (1 + c))) by lia. done.
Qed.

Lemma allowed_burst rl now earlier ips : 0 < rl_rate rl < 2 ^ 53 → timed (rl_window rl) = true →
  (∀ ip, rl_visitors rl !! ip = drained (rl_rate rl) now (occurrences ip earlier)) →
  (allowed rl ((λ ip, (now, ip)) <$> ips)).1 = within_rate (rl_rate rl) earlier ips.
Proof.
  intros Hr Hw. revert rl earlier Hr Hw. induction ips as [|ip ips IH]; intros rl earlier Hr Hw H; [done|].
  rewrite fmap_cons. cbn [allowed within_rate].
  destruct (allow_drained rl now ip (occurrences ip earlier)) as (v & Ev & ->); [done|done|unfold occurrences; lia|done|].
  specialize (IH (set_visitors (<[ip:=v]> (rl_visitors rl)) rl) (ip :: earlier)).
  destruct (allowed _ _) as [bs rl']. simpl. f_equal. apply IH; [done..|].
  intros ip'. simpl. rewrite lookup_insert, occurrences_cons. destruct (decide (ip = ip')) as [->|]; [done|].
  by rewrite Z.add_0_l, H.
Qed.

(** C35. In a burst - any number of requests from any addresses in one instant -
    a fresh limiter lets through exactly the first [rate] requests of each
    address, for every rate below 2^53 and every window that is not zero: the
    [float64] buckets count exactly and do not touch each other. *)
Theorem burst_exact (rate window now : Z) (env : string) (ips : list string) :
  0 < rate < 2 ^ 53 → timed window = true →
  (allowed (NewRateLimiter rate window env) ((λ ip, (now, ip)) <$> ips)).1 = within_rate rate [] ips.
Proof.
  intros Hr Hw. apply (allowed_burst (NewRateLimiter rate window env) now []); [done..|]. intros ip. simpl.
  by rewrite lookup_empty.
Qed.

Lemma burst_exact_witness :
  0 < 2 < 2 ^ 53 ∧ timed minute = true ∧
  (allowed (NewRateLimiter 2 minute "") ((λ ip, (7, ip)) <$> ["a"; "a"; "b"; "a"; "b"])).1 =
    [true; true; true; false; true].
Proof.
  split; [lia|]. split; [vm_compute; reflexivity|].
  rewrite (burst_exact 2 minute 7 "" ["a"; "a"; "b"; "a"; "b"]); [|lia|vm_compute; reflexivity].
  vm_compute. reflexivity.
Defined.
