(* ===== verification/Api.v ===== *)
(** * The management API (api.go)

    Every handler of api.go.  Each takes the store, what it uses of the
    configuration and of the request, and returns the response; the handlers
    that mutate hold the mutation mutex throughout. *)

From S2P Require Import Prelude GoString SemVer GoPath Sha256 Os Json Decode Store Index Archive Signing Http.

(** ** JSON of the replies *)

Definition enc_ProviderVersion (version : string) (platforms : list PlatformMeta) : json := JObj [
  ("version", JStr version); ("protocols", enc_strings ["5.0"]);
  ("platforms", match platforms with [] => JNull | _ => JArr (map enc_PlatformMeta platforms) end)].

(** A nil slice encodes as null. *)
Definition enc_slice (l : list json) : json := match l with [] => JNull | _ => JArr l end.

Definition enc_ProviderInfo (namespace name : string) (versions : list json) : json := JObj [
  ("namespace", JStr namespace); ("name", JStr name); ("versions", enc_slice versions)].

Definition enc_ModuleVersion (version : string) : json := JObj [("version", JStr version)].

Record ModuleInfo := mkModuleInfo {
  mi_namespace : string; mi_name : string; mi_provider : string; mi_versions : list string
}.

Definition enc_ModuleInfo (m : ModuleInfo) : json := JObj [
  ("namespace", JStr (mi_namespace m)); ("name", JStr (mi_name m)); ("provider", JStr (mi_provider m));
  ("versions", enc_slice (map enc_ModuleVersion (mi_versions m)))].

Record RegistryStats := mkStats {
  Providers : Z; ProviderVersions : Z; Modules : Z; ModuleVersions : Z
}.

Definition enc_number (n : Z) : json := JNum (pretty n).

Definition enc_RegistryStats (t : RegistryStats) : json := JObj [
  ("providers", enc_number (Providers t)); ("provider_versions", enc_number (ProviderVersions t));
  ("modules", enc_number (Modules t)); ("module_versions", enc_number (ModuleVersions t))].

(** ** Walking the tree of keys *)

(** [_, prefixes, _ := store.List(...)] and [versions, _ := ...]: an error
    reads as nil. *)
Definition prefixes_of (r : result error (list string * list string)) : list string :=
  match r with Ok (_, p) => p | Err _ => [] end.
Definition or_nil {A} (r : result error (list A)) : list A := match r with Ok l => l | Err _ => [] end.

(** The directory name a prefix lists. *)
Definition last_name (prefix parent : string) : string := TrimPrefix (TrimSuffix prefix "/") parent.

Fixpoint foldM {A B} (f : B → A → M B) (b : B) (l : list A) : M B :=
  match l with [] => mret b | a :: l => b ← f b a; foldM f b l end.

Definition count_providers (s : Store) (stats : RegistryStats) (nsPrefix : string) : M RegistryStats :=
  let ns := last_name nsPrefix "providers/" in
  r ← List_ s nsPrefix "/";
  foldM (λ stats namePrefix,
    let pName := TrimSuffix (last_name namePrefix nsPrefix) "/" in
    versions ← ScanProviderVersions s ns pName;
    mret (mkStats (Providers stats + 1) (ProviderVersions stats + Z.of_nat (length (or_nil versions)))
                  (Modules stats) (ModuleVersions stats)))
    stats (prefixes_of r).

Definition count_modules (s : Store) (stats : RegistryStats) (nsPrefix : string) : M RegistryStats :=
  let ns := last_name nsPrefix "modules/" in
  r ← List_ s nsPrefix "/";
  foldM (λ stats namePrefix,
    let modName := TrimSuffix (last_name namePrefix nsPrefix) "/" in
    let modPrefix := slash ["modules"; ns; modName; ""] in
    r ← List_ s modPrefix "/";
    foldM (λ stats provPrefix,
      let provName := TrimSuffix (last_name provPrefix modPrefix) "/" in
      versions ← ScanModuleVersions s ns modName provName;
      mret (mkStats (Providers stats) (ProviderVersions stats) (Modules stats + 1)
                    (ModuleVersions stats + Z.of_nat (length (or_nil versions)))))
      stats (prefixes_of r))
    stats (prefixes_of r).

Definition registryStatsHandler (s : Store) : M response :=
  r ← List_ s "providers/" "/";
  stats ← foldM (count_providers s) (mkStats 0 0 0 0) (prefixes_of r);
  r ← List_ s "modules/" "/";
  stats ← foldM (count_modules s) stats (prefixes_of r);
  mret (writeData (enc_RegistryStats stats)).

(** ** Providers *)

(** One entry per version, with its platforms. *)
Definition provider_versions (s : Store) (namespace name : string) (versions : list string) : M (list json) :=
  mapM (λ v, platforms ← GetProviderPlatforms s namespace name v;
             mret (enc_ProviderVersion v (or_nil platforms))) versions.

Definition list_namespace (s : Store) (providers : list json) (nsPrefix : string) : M (list json) :=
  let ns := last_name nsPrefix "providers/" in
  r ← List_ s nsPrefix "/";
  foldM (λ providers namePrefix,
    let pName := TrimSuffix (last_name namePrefix nsPrefix) "/" in
    versions ← ScanProviderVersions s ns pName;
    pVersions ← provider_versions s ns pName (or_nil versions);
    mret (providers ++ [enc_ProviderInfo ns pName pVersions]))
    providers (prefixes_of r).

Definition listProvidersHandler (s : Store) : M response :=
  r ← List_ s "providers/" "/";
  match r with
  | Err e => mret (writeJSON 500 false (MsgErr "" e))
  | Ok (_, prefixes) =>
      providers ← foldM (list_namespace s) [] prefixes;
      mret (writeData (enc_slice providers))
  end.

Definition getProviderHandler (s : Store) (vars : Vars) : M response :=
  let namespace := var vars "namespace" in
  let name := var vars "name" in
  r ← ScanProviderVersions s namespace name;
  match r with
  | Ok ((_ :: _) as versions) =>
      pVersions ← provider_versions s namespace name versions;
      mret (writeData (enc_ProviderInfo namespace name pVersions))
  | _ => mret (writeJSON 404 false (Msg "Provider not found"))
  end.

(** ** Uploads *)

Definition multipartUploadPart (up : upload) : result error reader :=
  match up with
  | NotMultipart e => Err (EWrap "invalid multipart request" e)
  | NoPart e => Err (EWrap "missing 'file' field" e)
  | Part form file content =>
      if negb (String.eqb form "file") || String.eqb file "" then
        Err (EText "the first multipart part must be a file named 'file'")
      else Ok content
  end.

Definition writeUploadError (e : error) : response :=
  if isUploadTooLarge e then writeJSON 413 false (Msg "Upload exceeds configured maximum size")
  else writeJSON 400 false (MsgErr "" e).

(** The error replies after [PutStreamImmutable]. *)
Definition write_store_error (e : error) : response :=
  if isUploadTooLarge e then writeJSON 413 false (MsgErr "" e)
  else if is_invalid_archive e then writeJSON 400 false (MsgErr "" e)
  else writeJSON 500 false (MsgErr "Store failed: " e).

(** [ValidateUpload(data, "zip")] and [ValidateUpload(data, "tar.gz")] *)
Definition nth_byte (data : string) (n : nat) : N :=
  match String.get n data with Some a => byte_of a | None => 0 end.

Definition ValidateUpload (data expectedType : string) : result error unit :=
  if slen data <? 4 then Err (EText "file too small to be a valid archive")
  else if String.eqb expectedType "zip" then
    if negb (nth_byte data 0 =? 80)%N || negb (nth_byte data 1 =? 75)%N
       || negb (nth_byte data 2 =? 3)%N || negb (nth_byte data 3 =? 4)%N
    then Err (EText "not a valid ZIP file (missing PK magic bytes)") else Ok ()
  else if String.eqb expectedType "tar.gz" then
    if negb (nth_byte data 0 =? 31)%N || negb (nth_byte data 1 =? 139)%N
    then Err (EText "not a valid GZIP file (missing gzip magic bytes)") else Ok ()
  else Ok ().

(** The four-byte buffer after the read: what was not read is zero. *)
Definition buffer4 (s : string) : string :=
  s +:+ stake (4 - slen s) (String zero (String zero (String zero (String zero "")))).

(** [_ = store.Put(...)] and [_ = store.Delete(...)] *)
Definition ignoring {A} (m : M A) : M unit := _ ← m; mret ().

(** Put back the previous content of a key, or delete it when there was none. *)
Definition restore (s : Store) (key : string) (previous : result error string) : M unit :=
  match previous with
  | Ok data => ignoring (Put s key data)
  | Err _ => ignoring (Delete s key)
  end.

Definition delete_unless (existed : bool) (s : Store) (key : string) : M unit :=
  if existed then mret () else ignoring (Delete s key).

(** Delete the artifact the previous metadata named, when it is another one. *)
Definition delete_old (s : Store) (prefix : list string) (filename : string) (old : option string) : M unit :=
  match old with
  | Some oldFilename =>
      if negb (String.eqb oldFilename "") && negb (String.eqb oldFilename filename)
      then ignoring (Delete s (slash (prefix ++ [oldFilename]))) else mret ()
  | None => mret ()
  end.

(** The file name in previous metadata that was read and decodes. *)
Definition previous_filename {T} (d : decoder T) (zero : T) (filename : T → string)
    (previous : result error string) : option string :=
  match previous with
  | Ok data => let '(meta, ok) := Unmarshal d data zero in if ok then Some (filename meta) else None
  | Err _ => None
  end.

Section uploads.
(** The readers of package archive/zip, and of compress/gzip and archive/tar,
    on the bytes of a file. *)
Context (zip_NewReader : string → Z → result error (list zip_file)).
Context (gzip_NewReader : string → result error tar_stream).
Context (s : Store) (signer : option RegistrySigner) (maxUploadSize : Z).

Definition provider_validate (name : string) (data : string) (size : Z) : result error unit :=
  match validateProviderArchive (zip_NewReader data size) name maxUploadSize with
  | Err e => Err (EInvalidArchive e)
  | Ok _ => Ok ()
  end.

Definition provider_filename (name version os arch data : string) : string :=
  "terraform-provider-" +:+ name +:+ "_" +:+ version +:+ "_" +:+ os +:+ "_" +:+ arch
  +:+ "_" +:+ sha256_hex data +:+ ".zip".

(** After the artifact is stored: metadata, checksums and signature, index;
    each failure undoes what was published. *)
Definition publish_provider (namespace name version os arch data zipKey : string) (artifactExisted : bool)
    : M response :=
  let prefix := ["providers"; namespace; name; version] in
  let filename := provider_filename name version os arch data in
  let metaKey := slash (prefix ++ [os +:+ "_" +:+ arch +:+ ".json"]) in
  previousMeta ← Get s metaKey;
  let platformMeta := mkPlatformMeta os arch filename (sha256_hex data) (Some ["5.0"]) in
  r ← Put s metaKey (print (enc_PlatformMeta platformMeta));
  match r with
  | Err _ =>
      delete_unless artifactExisted s zipKey;;
      mret (writeJSON 500 false (Msg "Metadata store failed"))
  | Ok _ =>
      let '(checksumsName, signatureName) := providerChecksumsNames name version in
      let checksumsKey := slash (prefix ++ [checksumsName]) in
      let signatureKey := slash (prefix ++ [signatureName]) in
      previousChecksums ← Get s checksumsKey;
      previousSignature ← Get s signatureKey;
      let restorePublication :=
        restore s metaKey previousMeta;;
        restore s checksumsKey previousChecksums;;
        restore s signatureKey previousSignature;;
        delete_unless artifactExisted s zipKey in
      r ← rebuildProviderChecksums s signer namespace name version;
      match r with
      | Err _ => restorePublication;; mret (writeJSON 500 false (Msg "Checksum publication failed"))
      | Ok _ =>
          r ← AddProviderVersion s namespace name version;
          match r with
          | Err _ => restorePublication;; mret (writeJSON 500 false (Msg "Index update failed"))
          | Ok _ =>
              delete_old s prefix filename
                (previous_filename dec_PlatformMeta zero_PlatformMeta Filename previousMeta);;
              mret (counting ProviderUploads (writeJSON 200 true (Msg
                ("Provider " +:+ namespace +:+ "/" +:+ name +:+ "@" +:+ version
                 +:+ " (" +:+ os +:+ "/" +:+ arch +:+ ") uploaded"))))
          end
      end
  end.

Definition uploadProviderHandler (vars : Vars) (up : upload) : M response :=
  with_mutation (
    let namespace := var vars "namespace" in
    let name := var vars "name" in
    let version := var vars "version" in
    let os := var vars "os" in
    let arch := var vars "arch" in
    match multipartUploadPart up with
    | Err e => mret (writeUploadError e)
    | Ok file =>
        if slen (peeked file) <? 4 then mret (writeJSON 400 false (Msg "File too small"))
        else match ValidateUpload (peeked file) "zip" with
        | Err e => mret (writeJSON 400 false (MsgErr "" e))
        | Ok _ =>
            r ← PutStreamImmutable s file maxUploadSize (Some (provider_validate name))
                  (λ data, slash ["providers"; namespace; name; version;
                                  provider_filename name version os arch data]);
            match r with
            | Err e => mret (write_store_error e)
            | Ok st => publish_provider namespace name version os arch (r_data file) (st_key st) (st_existed st)
            end
        end
    end).

(** ** Modules *)

Record ModuleArtifactMeta := mkModuleArtifactMeta { mam_filename : string; mam_sha256 : string }.

Definition zero_ModuleArtifactMeta := mkModuleArtifactMeta "" "".

Definition dec_ModuleArtifactMeta : decoder ModuleArtifactMeta := dec_struct [
  ("filename", field mam_filename (λ x t, mkModuleArtifactMeta x (mam_sha256 t)) dec_string);
  ("sha256", field mam_sha256 (λ x t, mkModuleArtifactMeta (mam_filename t) x) dec_string)].

Definition enc_ModuleArtifactMeta (t : ModuleArtifactMeta) : json := JObj [
  ("filename", JStr (mam_filename t)); ("sha256", JStr (mam_sha256 t))].

Definition module_validate (data : string) (size : Z) : result error unit :=
  match validateModuleArchive (gzip_NewReader data) maxUploadSize with
  | Err e => Err (EInvalidArchive e)
  | Ok _ => Ok ()
  end.

Definition module_filename (data : string) : string := "module_" +:+ sha256_hex data +:+ ".tar.gz".

Definition publish_module (namespace name provider version data key : string) (artifactExisted : bool)
    : M response :=
  let prefix := ["modules"; namespace; name; provider; version] in
  let filename := module_filename data in
  let artifactMetaKey := slash (prefix ++ ["artifact.json"]) in
  previousMeta ← Get s artifactMetaKey;
  let artifactMeta := print (enc_ModuleArtifactMeta (mkModuleArtifactMeta filename (sha256_hex data))) in
  r ← Put s artifactMetaKey artifactMeta;
  match r with
  | Err _ =>
      delete_unless artifactExisted s key;;
      mret (writeJSON 500 false (Msg "Metadata store failed"))
  | Ok _ =>
      r ← AddModuleVersion s namespace name provider version;
      match r with
      | Err _ =>
          restore s artifactMetaKey previousMeta;;
          delete_unless artifactExisted s key;;
          mret (writeJSON 500 false (Msg "Index update failed"))
      | Ok _ =>
          delete_old s prefix filename
            (previous_filename dec_ModuleArtifactMeta zero_ModuleArtifactMeta mam_filename previousMeta);;
          mret (counting ModuleUploads (writeJSON 200 true (Msg
            ("Module " +:+ namespace +:+ "/" +:+ name +:+ "/" +:+ provider +:+ "@" +:+ version
             +:+ " uploaded"))))
      end
  end.

Definition uploadModuleHandler (vars : Vars) (up : upload) : M response :=
  with_mutation (
    let namespace := var vars "namespace" in
    let name := var vars "name" in
    let provider := var vars "provider" in
    let version := var vars "version" in
    match multipartUploadPart up with
    | Err e => mret (writeUploadError e)
    | Ok file =>
        if slen (peeked file) <? 2 then mret (writeJSON 400 false (Msg "File too small"))
        else match ValidateUpload (buffer4 (peeked file)) "tar.gz" with
        | Err e => mret (writeJSON 400 false (MsgErr "" e))
        | Ok _ =>
            r ← PutStreamImmutable s file maxUploadSize (Some module_validate)
                  (λ data, slash ["modules"; namespace; name; provider; version; module_filename data]);
            match r with
            | Err e => mret (write_store_error e)
            | Ok st => publish_module namespace name provider version (r_data file) (st_key st) (st_existed st)
            end
        end
    end).

End uploads.

Definition add_module (s : Store) (ns modName modPrefix : string)
    (acc : list string * list ModuleInfo) (provPrefix : string) : M (list string * list ModuleInfo) :=
  let '(seen, modules) := acc in
  let provName := TrimSuffix (last_name provPrefix modPrefix) "/" in
  let key := ns +:+ "/" +:+ modName +:+ "/" +:+ provName in
  if bool_decide (key ∈ seen) then mret acc
  else
    versions ← ScanModuleVersions s ns modName provName;
    mret (key :: seen, modules ++ [mkModuleInfo ns modName provName (or_nil versions)]).

Definition list_module_namespace (s : Store) (acc : list string * list ModuleInfo) (nsPrefix : string)
    : M (list string * list ModuleInfo) :=
  let ns := last_name nsPrefix "modules/" in
  r ← List_ s nsPrefix "/";
  foldM (λ acc namePrefix,
    let modName := TrimSuffix (last_name namePrefix nsPrefix) "/" in
    let modPrefix := slash ["modules"; ns; modName; ""] in
    r ← List_ s modPrefix "/";
    foldM (add_module s ns modName modPrefix) acc (prefixes_of r))
    acc (prefixes_of r).

(** [sort.Slice] on namespace and name run together, as an insertion sort. *)
Definition module_less (a b : ModuleInfo) : bool :=
  (Compare (mi_namespace a +:+ mi_name a) (mi_namespace b +:+ mi_name b) <? 0)%Z.

Definition listModulesHandler (s : Store) : M response :=
  r ← List_ s "modules/" "/";
  match r with
  | Err e => mret (writeJSON 500 false (MsgErr "" e))
  | Ok (_, nsPrefixes) =>
      '(_, modules) ← foldM (list_module_namespace s) ([], []) nsPrefixes;
      mret (writeData (enc_slice (map enc_ModuleInfo (SliceStable module_less modules))))
  end.

Definition getModuleHandler (s : Store) (vars : Vars) : M response :=
  let namespace := var vars "namespace" in
  let name := var vars "name" in
  let provider := var vars "provider" in
  r ← ScanModuleVersions s namespace name provider;
  match r with
  | Ok ((_ :: _) as versions) =>
      mret (writeData (enc_ModuleInfo (mkModuleInfo namespace name provider versions)))
  | _ => mret (writeJSON 404 false (Msg "Module not found"))
  end.

(** ** Deletion *)

(** Hide the tree, update the index, then erase; undo when the index fails. *)
Definition delete_version (s : Store) (prefix : string) (remove : M (result error unit)) (deleted : string)
    : M response :=
  r ← StageDeleteTree s prefix;
  match r with
  | Err _ => mret (writeJSON 404 false (Msg "Version not found"))
  | Ok d =>
      r ← remove;
      match r with
      | Err _ =>
          ignoring (rollback d);;
          mret (writeJSON 500 false (Msg "Index update failed"))
      | Ok _ =>
          r ← commit d;
          match r with
          | Err _ => mret (writeJSON 500 false (Msg "Delete cleanup failed"))
          | Ok _ => mret (writeJSON 200 true (Msg deleted))
          end
      end
  end.

Definition deleteProviderVersionHandler (s : Store) (vars : Vars) : M response :=
  with_mutation (
    let namespace := var vars "namespace" in
    let name := var vars "name" in
    let version := var vars "version" in
    delete_version s (slash ["providers"; namespace; name; version])
      (RemoveProviderVersion s namespace name version)
      ("Provider " +:+ namespace +:+ "/" +:+ name +:+ "@" +:+ version +:+ " deleted")).

Definition deleteModuleVersionHandler (s : Store) (vars : Vars) : M response :=
  with_mutation (
    let namespace := var vars "namespace" in
    let name := var vars "name" in
    let provider := var vars "provider" in
    let version := var vars "version" in
    delete_version s (slash ["modules"; namespace; name; provider; version])
      (RemoveModuleVersion s namespace name provider version)
      ("Module " +:+ namespace +:+ "/" +:+ name +:+ "/" +:+ provider +:+ "@" +:+ version +:+ " deleted")).

(** ** Deprecation *)

(** [json.NewDecoder(r.Body).Decode(&body)], its error ignored: the first
    value of the request body. *)
Definition dec_message : decoder string := dec_struct [("message", field id (λ x _, x) dec_string)].

Definition body_message (v : option json) : string :=
  match v with Some v => (dec_message "" v).1 | None => "" end.

Definition deprecate_version (idx : M (result error Index)) (version : string)
    (deprecate : M (result error unit)) (deprecated : string) : M response :=
  r ← idx;
  match r with
  | Ok idx =>
      if has_version idx version then
        r ← deprecate;
        match r with
        | Err e => mret (writeJSON 500 false (MsgErr "" e))
        | Ok _ => mret (writeJSON 200 true (Msg deprecated))
        end
      else mret (writeJSON 404 false (Msg "Version not found"))
  | Err _ => mret (writeJSON 404 false (Msg "Version not found"))
  end.

Definition deprecateProviderHandler (s : Store) (vars : Vars) (body : option json) : M response :=
  with_mutation (
    let namespace := var vars "namespace" in
    let name := var vars "name" in
    let version := var vars "version" in
    deprecate_version (GetProviderIndex s namespace name) version
      (DeprecateProviderVersion s namespace name version (body_message body))
      ("Provider " +:+ namespace +:+ "/" +:+ name +:+ "@" +:+ version +:+ " deprecated")).

Definition deprecateModuleHandler (s : Store) (vars : Vars) (body : option json) : M response :=
  with_mutation (
    let namespace := var vars "namespace" in
    let name := var vars "name" in
    let provider := var vars "provider" in
    let version := var vars "version" in
    deprecate_version (GetModuleIndex s namespace name provider) version
      (DeprecateModuleVersion s namespace name provider version (body_message body))
      ("Module " +:+ namespace +:+ "/" +:+ name +:+ "/" +:+ provider +:+ "@" +:+ version +:+ " deprecated")).

(** ** Maintenance *)

Definition gcHandler (s : Store) : M response :=
  with_mutation (
    '(n, e) ← GarbageCollect s;
    mret (match e with
          | Some e => writeJSON 500 false (MsgErr "GC failed: " e)
          | None => writeJSON 200 true (Msg ("Garbage collection complete, " +:+ pretty n +:+ " files removed"))
          end)).
