(* ===== verification/Metrics.v ===== *)
(** * Metrics (metrics.go)

    The counters of the server, their snapshot, and the two formats of
    /metrics.  Counters are [atomic.Int64]: additions wrap around. *)

From S2P Require Import Prelude GoString GoPath Os Json Decode Store Http Auth Api RateLimit.

(** The counters of [RegistryMetrics]; [Counted] are those the handlers name. *)
Inductive metric :=
| RequestsTotal | RequestsOK | RequestsErr
| Counted (c : counter)
| ScanQueuedTotal | ScanCompletedTotal | ScanErrorTotal | ScanQueueDepth | ScanRunning
| ScanFindingsCritical | ScanFindingsHigh | ScanFindingsMedium | ScanFindingsLow.

#[export] Instance counter_eq_dec : EqDecision counter.
Proof. solve_decision. Defined.
#[export] Instance metric_eq_dec : EqDecision metric.
Proof. solve_decision. Defined.

Record RegistryMetrics := mkMetrics { Load : metric → Z; startTime : Z }.

Definition NewMetrics (now : Z) : RegistryMetrics := mkMetrics (λ _, 0%Z) now.

(** [m.Add(1)] *)
Definition Add1 (x : metric) (m : RegistryMetrics) : RegistryMetrics :=
  mkMetrics (λ y, if decide (y = x) then int64_wrap (Load m x + 1) else Load m y) (startTime m).

(** ** Snapshots *)

Record FindingCounts := mkFindings { Critical : Z; High : Z; Medium : Z; Low : Z }.

Record MetricsSnapshot := mkSnapshot {
  Uptime : string; UptimeSeconds : Z; snap : metric → Z; ScanFindings : FindingCounts
}.

(** [d.Round(time.Second)] of a duration that is not negative: half up. *)
Definition RoundSecond (d : Z) : Z :=
  let r := Z.rem d Second in
  if (r + r <? Second)%Z then (d - r)%Z
  else let d' := (d + Second - r)%Z in if (d' <=? 2 ^ 63 - 1)%Z then d' else (2 ^ 63 - 1)%Z.

(** [d.String()] of a whole number of seconds that is not negative. *)
Definition DurationString (d : Z) : string :=
  let t := (d / Second)%Z in
  let h := (t / 3600)%Z in
  let m := (t / 60 mod 60)%Z in
  let s := pretty (t mod 60)%Z +:+ "s" in
  if (0 <? h)%Z then pretty h +:+ "h" +:+ pretty m +:+ "m" +:+ s
  else if (0 <? m)%Z then pretty m +:+ "m" +:+ s
  else s.

Definition Snapshot (now : Z) (m : RegistryMetrics) : MetricsSnapshot :=
  let uptime := Since now (startTime m) in
  mkSnapshot (DurationString (RoundSecond uptime)) (trunc (Seconds uptime)) (Load m)
    (mkFindings (Load m ScanFindingsCritical) (Load m ScanFindingsHigh)
                (Load m ScanFindingsMedium) (Load m ScanFindingsLow)).

Definition enc_MetricsSnapshot (t : MetricsSnapshot) : json := JObj [
  ("uptime", JStr (Uptime t)); ("uptime_seconds", enc_number (UptimeSeconds t));
  ("requests_total", enc_number (snap t RequestsTotal)); ("requests_ok", enc_number (snap t RequestsOK));
  ("requests_err", enc_number (snap t RequestsErr));
  ("provider_uploads", enc_number (snap t (Counted ProviderUploads)));
  ("provider_downloads", enc_number (snap t (Counted ProviderDownloads)));
  ("module_uploads", enc_number (snap t (Counted ModuleUploads)));
  ("module_downloads", enc_number (snap t (Counted ModuleDownloads)));
  ("auth_failures", enc_number (snap t (Counted AuthFailures)));
  ("rate_limit_hits", enc_number (snap t (Counted RateLimitHits)));
  ("scan_queued_total", enc_number (snap t ScanQueuedTotal));
  ("scan_completed_total", enc_number (snap t ScanCompletedTotal));
  ("scan_error_total", enc_number (snap t ScanErrorTotal));
  ("scan_queue_depth", enc_number (snap t ScanQueueDepth)); ("scan_running", enc_number (snap t ScanRunning));
  ("scan_findings", JObj [
    ("critical", enc_number (Critical (ScanFindings t))); ("high", enc_number (High (ScanFindings t)));
    ("medium", enc_number (Medium (ScanFindings t))); ("low", enc_number (Low (ScanFindings t)))])].

Definition metricsHandler (now : Z) (m : RegistryMetrics) : response :=
  mkResponse 200 [("Content-Type", "application/json")] (BJson (enc_MetricsSnapshot (Snapshot now m))) [].

(** ** The Prometheus text format *)

Definition nl : string := String "010" "".

Definition prom_name (name : string) : string := "terraform_registry_" +:+ name.

(** The two comment lines of a metric. *)
Definition prom_head (name help type : string) : string :=
  "# HELP " +:+ prom_name name +:+ " " +:+ help +:+ nl +:+ "# TYPE " +:+ prom_name name +:+ " " +:+ type +:+ nl.

(** A metric with one sample. *)
Definition prom_entry (name help type : string) (value : Z) : string :=
  prom_head name help type +:+ prom_name name +:+ " " +:+ pretty value +:+ nl.

(** A sample with a severity label. *)
Definition prom_sample (name severity : string) (value : Z) : string :=
  prom_name name +:+ "{severity=" +:+ quote severity +:+ "} " +:+ pretty value +:+ nl.

Definition PrometheusFormat (now : Z) (m : RegistryMetrics) : string :=
  let t := Snapshot now m in
  prom_entry "requests_total" "Total HTTP requests" "counter" (snap t RequestsTotal) +:+
  prom_entry "requests_ok" "Successful HTTP requests" "counter" (snap t RequestsOK) +:+
  prom_entry "requests_err" "Error HTTP requests" "counter" (snap t RequestsErr) +:+
  prom_entry "provider_uploads" "Total provider uploads" "counter" (snap t (Counted ProviderUploads)) +:+
  prom_entry "provider_downloads" "Total provider downloads" "counter" (snap t (Counted ProviderDownloads)) +:+
  prom_entry "module_uploads" "Total module uploads" "counter" (snap t (Counted ModuleUploads)) +:+
  prom_entry "module_downloads" "Total module downloads" "counter" (snap t (Counted ModuleDownloads)) +:+
  prom_entry "auth_failures" "Total authentication failures" "counter" (snap t (Counted AuthFailures)) +:+
  prom_entry "rate_limit_hits" "Total rate limit hits" "counter" (snap t (Counted RateLimitHits)) +:+
  prom_entry "uptime_seconds" "Uptime in seconds" "gauge" (UptimeSeconds t) +:+
  prom_entry "scan_queue_depth" "Security scan jobs waiting" "gauge" (snap t ScanQueueDepth) +:+
  prom_entry "scan_queued_total" "Security scan jobs queued" "counter" (snap t ScanQueuedTotal) +:+
  prom_entry "scan_running" "Security scans currently running" "gauge" (snap t ScanRunning) +:+
  prom_entry "scan_completed_total" "Completed security scans" "counter" (snap t ScanCompletedTotal) +:+
  prom_entry "scan_errors_total" "Failed security scans" "counter" (snap t ScanErrorTotal) +:+
  prom_head "scan_findings_total" "Security findings observed by severity" "counter" +:+
  prom_sample "scan_findings_total" "critical" (Critical (ScanFindings t)) +:+
  prom_sample "scan_findings_total" "high" (High (ScanFindings t)) +:+
  prom_sample "scan_findings_total" "medium" (Medium (ScanFindings t)) +:+
  prom_sample "scan_findings_total" "low" (Low (ScanFindings t)).

(** The loop of [containsSubstr] from index [i] on; [len(s)-len(sub)] may be
    negative. *)
Fixpoint contains_from (fuel : nat) (i : nat) (s sub : string) : bool :=
  match fuel with
  | O => false
  | S fuel =>
      if (Z.of_nat i <=? Z.of_nat (slen s) - Z.of_nat (slen sub))%Z then
        if String.eqb (stake (slen sub) (sdrop i s)) sub then true else contains_from fuel (S i) s sub
      else false
  end.

(** At most [len(s) + 1] rounds. *)
Definition containsSubstr (s sub : string) : bool := contains_from (S (slen s)) 0 s sub.

Definition contains (s substr : string) : bool :=
  (slen substr <=? slen s) && (String.eqb s substr || (0 <? slen s) && containsSubstr s substr).

Definition prometheusHandler (now : Z) (m : RegistryMetrics) (r : request) : response :=
  let accept := Header_Get r "Accept" in
  if contains accept "text/plain" || contains accept "openmetrics" then
    mkResponse 200 [("Content-Type", "text/plain; version=0.0.4; charset=utf-8")] (BText (PrometheusFormat now m)) []
  else metricsHandler now m.

(** ** [contains] is [strings.Contains] *)

Lemma contains_from_correct fuel i s sub : slen s < fuel + i →
  contains_from fuel i s sub = true ↔ ∃ j, i ≤ j ∧ j + slen sub ≤ slen s ∧ stake (slen sub) (sdrop j s) = sub.
Proof.
  revert i. induction fuel as [|fuel IH]; intros i Hf; cbn [contains_from].
  - split; [done|]. intros (j & ? & ? & _). lia.
  - destruct (Z.leb_spec (Z.of_nat i) (Z.of_nat (slen s) - Z.of_nat (slen sub))) as [Hi|Hi].
    + destruct (String.eqb_spec (stake (slen sub) (sdrop i s)) sub) as [E|E].
      * split; [|done]. intros _. exists i. split_and!; [lia|lia|done].
      * rewrite IH by lia. split; intros (j & Hj & Hl & E'); exists j; (split; [|done]); [lia|].
        destruct (decide (j = i)) as [->|]; [done|lia].
    + split; [done|]. intros (j & ? & ? & _). lia.
Qed.

Lemma containsSubstr_Contains s sub : containsSubstr s sub = true ↔ Contains s sub = true.
Proof.
  unfold containsSubstr. rewrite contains_from_correct, Contains_iff by lia. split.
  - intros (j & _ & Hl & E). exists (stake j s), (sdrop (slen sub) (sdrop j s)).
    rewrite <- (stake_sdrop j s) at 1. f_equal. rewrite <- (stake_sdrop (slen sub) (sdrop j s)) at 1. by rewrite E.
  - intros (b & r & ->). exists (slen b). rewrite !slen_app. split_and!; [lia|lia|].
    by rewrite sdrop_app, stake_app.
Qed.

(** The hand-written substring search of the metrics endpoint is
    [strings.Contains], on every pair of strings, the empty ones included. *)
Theorem contains_is_Contains (s substr : string) : contains s substr = Contains s substr.
Proof.
  apply eq_true_iff_eq. unfold contains. rewrite <- containsSubstr_Contains, !andb_true_iff, orb_true_iff, andb_true_iff.
  rewrite String.eqb_eq, Nat.leb_le, Nat.ltb_lt. split.
  - intros [_ [->|[_ H]]]; [|done]. apply containsSubstr_Contains, Contains_iff. exists "", "". by rewrite sapp_nil_r.
  - intros H. pose proof H as (b & r & ->)%containsSubstr_Contains%Contains_iff. rewrite !slen_app. split; [lia|].
    destruct (decide (slen b + (slen substr + slen r) = 0)) as [E|E]; [left|right; split; [lia|done]].
    destruct b, substr, r; done.
Qed.

Example uptime_runs :
  map (λ d, DurationString (RoundSecond d)) [0; Second / 2; 59 * Second; minute; 3661 * Second]%Z =
    ["0s"; "1s"; "59s"; "1m0s"; "1h1m1s"].
Proof. vm_compute. reflexivity. Qed.
