(* ===== verification/Protocol.v ===== *)
(** * The Terraform protocol endpoints (main.go)

    The public read-only handlers of main.go: provider and module registry
    protocols, the network mirror, artifact downloads and the health check. *)

From S2P Require Import Prelude GoString SemVer GoPath Regex Validation Os Json Decode Store Index.
From S2P Require Import Archive Signing Http Api.

(** ** Replies *)

Definition SetTerraformProtocolHeaders : list (string * string) := [
  ("Content-Type", "application/json"); ("X-Terraform-Protocol-Version", "5.0");
  ("X-Terraform-Protocol-Versions", "5.0")].

Definition protocol_reply (v : json) : response :=
  mkResponse 200 SetTerraformProtocolHeaders (BJson v) [].

Definition error_reply (status : Z) (text : string) : response :=
  http_Error status (print (JObj [("error", JStr text)])).

Definition wellKnownHandler : response := protocol_reply (JObj [
  ("providers.v1", JStr "/v1/providers/"); ("modules.v1", JStr "/v1/modules/")]).

(** A map with string keys, encoded in key order. *)
Definition enc_object (m : gmap string json) : json :=
  JObj (omap (λ k, (λ v, (k, v)) <$> m !! k) (merge_sort String.le (elements (dom m)))).

(** ** What is published *)

(** [meta, err := GetVersionMetadata(...); err == nil && meta.Deprecated] *)
Definition is_deprecated (s : Store) (key : string) : M bool :=
  r ← GetVersionMetadata s key;
  mret (match r with Ok meta => Deprecated meta | Err _ => false end).

(** The platforms whose artifact exists. *)
Fixpoint published_platforms (s : Store) (namespace name version : string) (platforms : list PlatformMeta)
    : M (list PlatformMeta) :=
  match platforms with
  | [] => mret []
  | platform :: platforms =>
      ex ← Exists s (slash ["providers"; namespace; name; version; Filename platform]);
      l ← published_platforms s namespace name version platforms;
      mret (if (ex : bool) then platform :: l else l)
  end.

(** ** Providers *)

Fixpoint collect_versions (s : Store) (namespace providerType : string) (versions : list string)
    : M (list json) :=
  match versions with
  | [] => mret []
  | v :: versions =>
      dep ← is_deprecated s (provider_metadata_key namespace providerType v);
      if (dep : bool) then collect_versions s namespace providerType versions
      else
        platforms ← GetProviderPlatforms s namespace providerType v;
        published ← published_platforms s namespace providerType v (or_nil platforms);
        l ← collect_versions s namespace providerType versions;
        mret (match published with [] => l | _ => enc_ProviderVersion v published :: l end)
  end.

Definition providerVersionsHandler (s : Store) (vars : Vars) : M response :=
  let namespace := var vars "namespace" in
  let providerType := var vars "type" in
  counting ProviderDownloads <$> (
    r ← GetProviderIndex s namespace providerType;
    match r with
    | Err _ => mret (error_reply 404 "provider not found")
    | Ok idx =>
        versions ← collect_versions s namespace providerType (default [] (Versions idx));
        mret (match versions with
              | [] => with_headers SetTerraformProtocolHeaders (error_reply 404 "provider not found")
              | _ => protocol_reply (JObj [("versions", JArr versions)])
              end)
    end).

Definition enc_SigningKeys (signer : RegistrySigner) : json := JObj [
  ("gpg_public_keys", JArr [JObj (("key_id", JStr (KeyID signer))
                                  :: opt_string "ascii_armor" (PublicArmor signer))])].

Record ProviderDownloadResponse := mkDownload {
  pd_os : string; pd_arch : string; pd_filename : string; pd_download_url : string;
  pd_shasums_url : string; pd_signature_url : string; pd_shasum : string
}.

Definition enc_ProviderDownloadResponse (d : ProviderDownloadResponse) (signer : RegistrySigner) : json := JObj (
  [("protocols", enc_strings ["5.0"]); ("os", JStr (pd_os d)); ("arch", JStr (pd_arch d));
   ("filename", JStr (pd_filename d)); ("download_url", JStr (pd_download_url d))]
  ++ opt_string "shasums_url" (pd_shasums_url d)
  ++ opt_string "shasums_signature_url" (pd_signature_url d)
  ++ [("shasum", JStr (pd_shasum d)); ("signing_keys", enc_SigningKeys signer)]).

(** The download the handler describes, or its error reply. *)
Definition find_download (s : Store) (signer : option RegistrySigner)
    (namespace providerType version osName arch : string)
    : M (response + ProviderDownloadResponse * RegistrySigner) :=
  let prefix := ["providers"; namespace; providerType; version] in
  r ← Get s (slash (prefix ++ [osName +:+ "_" +:+ arch +:+ ".json"]));
  match r with
  | Err _ => mret (inl (error_reply 404 "platform not found"))
  | Ok metaData =>
      let '(meta, ok) := Unmarshal dec_PlatformMeta metaData zero_PlatformMeta in
      if negb ok then mret (inl (error_reply 500 "invalid metadata"))
      else
        let zipKey := slash (prefix ++ [Filename meta]) in
        ex ← Exists s zipKey;
        if negb ex then mret (inl (error_reply 404 "artifact not found"))
        else
          let '(checksumsName, signatureName) := providerChecksumsNames providerType version in
          let checksumsKey := slash (prefix ++ [checksumsName]) in
          let signatureKey := slash (prefix ++ [signatureName]) in
          let unavailable := inl (error_reply 500 "provider integrity metadata unavailable") in
          match signer with
          | None => mret unavailable
          | Some signer =>
              c ← Exists s checksumsKey;
              if negb c then mret unavailable
              else
                g ← Exists s signatureKey;
                if negb g then mret unavailable
                else mret (inr (mkDownload osName arch (Filename meta) (DownloadURL s zipKey)
                                  (DownloadURL s checksumsKey) (DownloadURL s signatureKey)
                                  (Shasum meta), signer))
          end
  end.

Definition providerDownloadHandler (s : Store) (signer : option RegistrySigner) (vars : Vars) : M response :=
  counting ProviderDownloads <$> (
    r ← find_download s signer (var vars "namespace") (var vars "type") (var vars "version")
          (var vars "os") (var vars "arch");
    mret (match r with
          | inl reply => reply
          | inr (d, signer) => protocol_reply (enc_ProviderDownloadResponse d signer)
          end)).

(** ** Network mirror *)

(** Whether some platform's artifact exists: the loop stops at the first. *)
Fixpoint any_published (s : Store) (namespace name version : string) (platforms : list PlatformMeta) : M bool :=
  match platforms with
  | [] => mret false
  | platform :: platforms =>
      ex ← Exists s (slash ["providers"; namespace; name; version; Filename platform]);
      if (ex : bool) then mret true else any_published s namespace name version platforms
  end.

Fixpoint mirror_versions (s : Store) (namespace providerType : string) (versions : list string)
    (versionMap : gmap string json) : M (gmap string json) :=
  match versions with
  | [] => mret versionMap
  | v :: versions =>
      dep ← is_deprecated s (provider_metadata_key namespace providerType v);
      if (dep : bool) then mirror_versions s namespace providerType versions versionMap
      else
        platforms ← GetProviderPlatforms s namespace providerType v;
        found ← any_published s namespace providerType v (or_nil platforms);
        mirror_versions s namespace providerType versions
          (if (found : bool) then <[v := JObj []]> versionMap else versionMap)
  end.

Definition networkMirrorIndexHandler (s : Store) (vars : Vars) : M response :=
  let namespace := var vars "namespace" in
  let providerType := var vars "type" in
  r ← GetProviderIndex s namespace providerType;
  match r with
  | Err _ => mret (error_reply 404 "provider not found")
  | Ok idx =>
      versionMap ← mirror_versions s namespace providerType (default [] (Versions idx)) ∅;
      mret (if bool_decide (versionMap = ∅) then error_reply 404 "provider not found"
            else protocol_reply (JObj [("versions", enc_object versionMap)]))
  end.

Fixpoint mirror_archives (s : Store) (namespace providerType version : string) (platforms : list PlatformMeta)
    (archives : gmap string json) : M (gmap string json) :=
  match platforms with
  | [] => mret archives
  | p :: platforms =>
      let platformKey := OS p +:+ "_" +:+ Arch p in
      let prefix := ["providers"; namespace; providerType; version] in
      r ← Get s (slash (prefix ++ [platformKey +:+ ".json"]));
      match r with
      | Err _ => mirror_archives s namespace providerType version platforms archives
      | Ok metaData =>
          let '(meta, ok) := Unmarshal dec_PlatformMeta metaData zero_PlatformMeta in
          if negb ok then mirror_archives s namespace providerType version platforms archives
          else
            let zipKey := slash (prefix ++ [Filename meta]) in
            ex ← Exists s zipKey;
            if negb ex then mirror_archives s namespace providerType version platforms archives
            else mirror_archives s namespace providerType version platforms
                   (<[platformKey := JObj [("hashes", enc_strings ["zh:" +:+ Shasum meta]);
                                           ("url", JStr (DownloadURL s zipKey))]]> archives)
      end
  end.

Definition networkMirrorVersionHandler (s : Store) (vars : Vars) : M response :=
  let namespace := var vars "namespace" in
  let providerType := var vars "type" in
  let version := var vars "version" in
  let not_found := error_reply 404 "version not found" in
  r ← GetProviderIndex s namespace providerType;
  match r with
  | Err _ => mret not_found
  | Ok idx =>
      if negb (has_version idx version) then mret not_found
      else
        dep ← is_deprecated s (provider_metadata_key namespace providerType version);
        if (dep : bool) then mret not_found
        else
          r ← GetProviderPlatforms s namespace providerType version;
          match r with
          | Err _ => mret not_found
          | Ok platforms =>
              archives ← mirror_archives s namespace providerType version platforms ∅;
              mret (if bool_decide (archives = ∅) then not_found
                    else protocol_reply (JObj [("archives", enc_object archives)]))
          end
  end.

(** ** Modules *)

(** The key of a module's archive: that named by its artifact.json, else the
    legacy one. *)
Definition moduleArtifactKey (s : Store) (namespace name provider version : string)
    : M (result error string) :=
  let prefix := ["modules"; namespace; name; provider; version] in
  r ← Get s (slash (prefix ++ ["artifact.json"]));
  match r with
  | Ok data =>
      let '(meta, ok) := Unmarshal dec_ModuleArtifactMeta data zero_ModuleArtifactMeta in
      if negb ok || negb (MatchString moduleFileRE (mam_filename meta)) then
        mret (Err (EText "invalid module artifact metadata"))
      else
        let key := slash (prefix ++ [mam_filename meta]) in
        ex ← Exists s key;
        mret (if (ex : bool) then Ok key else Err (EOS ENOENT))
  | Err _ =>
      let legacy := slash (prefix ++ ["module.tar.gz"]) in
      ex ← Exists s legacy;
      mret (if (ex : bool) then Ok legacy else Err (EOS ENOENT))
  end.

Fixpoint collect_modules (s : Store) (namespace name provider : string) (versions : list string)
    : M (list json) :=
  match versions with
  | [] => mret []
  | v :: versions =>
      dep ← is_deprecated s (module_metadata_key namespace name provider v);
      if (dep : bool) then collect_modules s namespace name provider versions
      else
        r ← moduleArtifactKey s namespace name provider v;
        l ← collect_modules s namespace name provider versions;
        mret (match r with Ok _ => enc_ModuleVersion v :: l | Err _ => l end)
  end.

Definition moduleVersionsHandler (s : Store) (vars : Vars) : M response :=
  let namespace := var vars "namespace" in
  let name := var vars "name" in
  let provider := var vars "provider" in
  r ← GetModuleIndex s namespace name provider;
  match r with
  | Err _ => mret (error_reply 404 "module not found")
  | Ok idx =>
      modules ← collect_modules s namespace name provider (default [] (Versions idx));
      mret (match modules with
            | [] => with_headers SetTerraformProtocolHeaders (error_reply 404 "module not found")
            | _ => protocol_reply (JObj [("modules", JArr [JObj [
                     ("source", JStr (namespace +:+ "/" +:+ name +:+ "/" +:+ provider));
                     ("versions", JArr modules)]])])
            end)
  end.

Definition moduleDownloadHandler (s : Store) (vars : Vars) : M response :=
  counting ModuleDownloads <$> (
    r ← moduleArtifactKey s (var vars "namespace") (var vars "name") (var vars "provider") (var vars "version");
    mret (match r with
          | Err _ => error_reply 404 "module not found"
          | Ok key => mkResponse 204 [("X-Terraform-Get", DownloadURL s key);
                                      ("Content-Type", "application/json")] BNone []
          end)).

(** The loop from the newest version down. *)
Fixpoint latest_module (s : Store) (namespace name provider : string) (newest_first : list string)
    : M (option (string * string)) :=
  match newest_first with
  | [] => mret None
  | candidate :: rest =>
      dep ← is_deprecated s (module_metadata_key namespace name provider candidate);
      if (dep : bool) then latest_module s namespace name provider rest
      else
        r ← moduleArtifactKey s namespace name provider candidate;
        match r with
        | Ok downloadKey => mret (Some (candidate, downloadKey))
        | Err _ => latest_module s namespace name provider rest
        end
  end.

Definition moduleLatestDownloadHandler (s : Store) (vars : Vars) : M response :=
  let namespace := var vars "namespace" in
  let name := var vars "name" in
  let provider := var vars "provider" in
  let none := error_reply 404 "no versions available" in
  r ← GetModuleIndex s namespace name provider;
  match r with
  | Ok idx =>
      match default [] (Versions idx) with
      | [] => mret none
      | versions =>
          found ← latest_module s namespace name provider (reverse versions);
          mret (match found with
                | Some (latestVersion, latestKey) =>
                    if String.eqb latestVersion "" then none
                    else mkResponse 204 [("X-Terraform-Get", DownloadURL s latestKey)] BNone []
                | None => none
                end)
      end
  | Err _ => mret none
  end.

(** ** Artifact downloads *)

Definition content_type (path : string) : string :=
  if HasSuffix path ".tar.gz" then "application/gzip"
  else if HasSuffix path ".zip" then "application/zip"
  else "application/octet-stream".

(** A plain GET: [ServeContent] sends the whole file.  On the names of public
    artifacts the verb [%q] quotes as JSON does. *)
Definition fileDownloadHandler (s : Store) (vars : Vars) : M response :=
  let path := var vars "path" in
  if negb (isPublicArtifactPath path) then mret (http_Error 403 "forbidden")
  else
    r ← Open s path;
    match r with
    | Err _ => mret (http_Error 404 "not found")
    | Ok f =>
        st ← f_noop [];
        match st with
        | Err _ => mret (http_Error 404 "not found")
        | Ok _ =>
            mret (match f with
                  | NFile data mtime =>
                      mkResponse 200
                        [("Content-Type", content_type path);
                         ("Content-Disposition", "attachment; filename=" +:+ quote (Base path))]
                        (BFile data mtime) []
                  | _ => http_Error 500 "seeker can't seek"
                  end)
        end
    end.

(** ** Health *)

Definition healthHandler (s : Store) : M response :=
  r ← HealthCheck s;
  mret (match r with
        | Err e => mkResponse 503 [("Content-Type", "text/plain; charset=utf-8"); ("X-Content-Type-Options", "nosniff")]
                     (BError "unhealthy: " e) []
        | Ok _ => mkResponse 200 [] (BText (print (JObj [("status", JStr "healthy")]))) []
        end).
