(* ===== verification/ReadFacts.v ===== *)
(** * Handlers that only read

    The protocol endpoints and the listings of the management API leave the
    world as they found it, whatever system calls fail, and always reply. *)

From S2P Require Import Prelude GoString GoPath Os OsFacts Frame Json Decode Store StoreFacts Index.
From S2P Require Import Archive Signing Http Api Protocol Confine.

(** The GET endpoints of the server, except the health check. *)
Inductive get_endpoint :=
| GetWellKnown | GetProviderVersions | GetProviderDownload | GetMirrorIndex | GetMirrorVersion
| GetModuleVersions | GetModuleDownload | GetModuleLatestDownload | GetFile
| GetStats | GetProviders | GetProvider | GetModules | GetModule.

Definition serve_get (s : Store) (signer : option RegistrySigner) (vars : Vars) (e : get_endpoint) : M response :=
  match e with
  | GetWellKnown => mret wellKnownHandler
  | GetProviderVersions => providerVersionsHandler s vars
  | GetProviderDownload => providerDownloadHandler s signer vars
  | GetMirrorIndex => networkMirrorIndexHandler s vars
  | GetMirrorVersion => networkMirrorVersionHandler s vars
  | GetModuleVersions => moduleVersionsHandler s vars
  | GetModuleDownload => moduleDownloadHandler s vars
  | GetModuleLatestDownload => moduleLatestDownloadHandler s vars
  | GetFile => fileDownloadHandler s vars
  | GetStats => registryStatsHandler s
  | GetProviders => listProvidersHandler s
  | GetProvider => getProviderHandler s vars
  | GetModules => listModulesHandler s
  | GetModule => getModuleHandler s vars
  end.

Section reading.
Context {total : bool} {P : world → Prop} {R : world → world → Prop} `{!Reading total P R}.
#[local] Abbreviation keeping := (keeps total P R).

(** ** The store *)

Lemma keeps_reject base rp : keeping (reject_rev base rp).
Proof. induction rp as [|c rp IH]; cbn [reject_rev]; unfold EvalSymlinks; keeps_tac. Qed.

Lemma keeps_resolve s key : keeping (resolve s key).
Proof. unfold resolve, rejectSymlinkEscape. pose proof keeps_reject. keeps_tac. Qed.
#[local] Hint Resolve keeps_resolve : keeps.

Lemma keeps_Get s key : keeping (Get s key).
Proof. unfold Get, os_ReadFile. keeps_tac. Qed.
Lemma keeps_Open s key : keeping (Open s key).
Proof. unfold Open, os_Open, os_Stat. keeps_tac. Qed.
Lemma keeps_Exists s key : keeping (Exists s key).
Proof. unfold Exists, os_Stat. keeps_tac. Qed.
#[local] Hint Resolve keeps_Get keeps_Open keeps_Exists : keeps.

Lemma keeps_List s prefix delimiter : keeping (List_ s prefix delimiter).
Proof. unfold List_, os_ReadDir. keeps_tac. Qed.
#[local] Hint Resolve keeps_List : keeps.

(** ** Indexes and scans *)

Lemma keeps_getIndex s key : keeping (getIndex s key).
Proof. unfold getIndex. keeps_tac. Qed.
Lemma keeps_GetProviderIndex s ns name : keeping (GetProviderIndex s ns name).
Proof. apply keeps_getIndex. Qed.
Lemma keeps_GetModuleIndex s ns name p : keeping (GetModuleIndex s ns name p).
Proof. apply keeps_getIndex. Qed.
Lemma keeps_GetVersionMetadata s key : keeping (GetVersionMetadata s key).
Proof. unfold GetVersionMetadata. keeps_tac. Qed.
Lemma keeps_ScanProviderVersions s ns name : keeping (ScanProviderVersions s ns name).
Proof. unfold ScanProviderVersions. keeps_tac. Qed.
Lemma keeps_ScanModuleVersions s ns name p : keeping (ScanModuleVersions s ns name p).
Proof. unfold ScanModuleVersions. keeps_tac. Qed.
#[local] Hint Resolve keeps_GetProviderIndex keeps_GetModuleIndex keeps_GetVersionMetadata
  keeps_ScanProviderVersions keeps_ScanModuleVersions : keeps.

Lemma keeps_collect_platforms s seen objects : keeping (collect_platforms s seen objects).
Proof. revert seen. induction objects as [|o l IH]; intros seen; cbn [collect_platforms]; keeps_tac. Qed.
#[local] Hint Resolve keeps_collect_platforms : keeps.

Lemma keeps_GetProviderPlatforms s ns name v : keeping (GetProviderPlatforms s ns name v).
Proof. unfold GetProviderPlatforms. keeps_tac. Qed.
#[local] Hint Resolve keeps_GetProviderPlatforms : keeps.

Lemma keeps_existing_entries s ns name v l : keeping (existing_entries s ns name v l).
Proof. induction l; cbn [existing_entries]; keeps_tac. Qed.
#[local] Hint Resolve keeps_existing_entries : keeps.

(** ** Loops *)

Lemma keeps_foldM {A B} (f : B → A → M B) b l : (∀ b a, keeping (f b a)) → keeping (foldM f b l).
Proof. intros Hf. revert b. induction l; intros b; cbn [foldM]; keeps_tac. Qed.

Lemma keeps_mapM {A B} (f : A → M B) l : (∀ a, keeping (f a)) → keeping (mapM f l).
Proof. intros Hf. induction l as [|a l IH]; cbn; keeps_tac. Qed.
#[local] Hint Resolve keeps_foldM keeps_mapM : keeps.

(** ** The handlers *)

Lemma keeps_is_deprecated s key : keeping (is_deprecated s key).
Proof. unfold is_deprecated. keeps_tac. Qed.
#[local] Hint Resolve keeps_is_deprecated : keeps.

Lemma keeps_published_platforms s ns name v l : keeping (published_platforms s ns name v l).
Proof. induction l; cbn [published_platforms]; keeps_tac. Qed.
#[local] Hint Resolve keeps_published_platforms : keeps.

Lemma keeps_collect_versions s ns name l : keeping (collect_versions s ns name l).
Proof. induction l; cbn [collect_versions]; keeps_tac. Qed.
#[local] Hint Resolve keeps_collect_versions : keeps.

Lemma keeps_any_published s ns name v l : keeping (any_published s ns name v l).
Proof. induction l; cbn [any_published]; keeps_tac. Qed.
#[local] Hint Resolve keeps_any_published : keeps.

Lemma keeps_mirror_versions s ns name l m : keeping (mirror_versions s ns name l m).
Proof. revert m. induction l; intros m; cbn [mirror_versions]; keeps_tac. Qed.
#[local] Hint Resolve keeps_mirror_versions : keeps.

Lemma keeps_mirror_archives s ns name v l m : keeping (mirror_archives s ns name v l m).
Proof. revert m. induction l; intros m; cbn [mirror_archives]; keeps_tac. Qed.
#[local] Hint Resolve keeps_mirror_archives : keeps.

Lemma keeps_find_download s signer ns name v o a : keeping (find_download s signer ns name v o a).
Proof. unfold find_download. keeps_tac. Qed.
#[local] Hint Resolve keeps_find_download : keeps.

Lemma keeps_moduleArtifactKey s ns name p v : keeping (moduleArtifactKey s ns name p v).
Proof. unfold moduleArtifactKey. keeps_tac. Qed.
#[local] Hint Resolve keeps_moduleArtifactKey : keeps.

Lemma keeps_collect_modules s ns name p l : keeping (collect_modules s ns name p l).
Proof. induction l; cbn [collect_modules]; keeps_tac. Qed.
Lemma keeps_latest_module s ns name p l : keeping (latest_module s ns name p l).
Proof. induction l; cbn [latest_module]; keeps_tac. Qed.
#[local] Hint Resolve keeps_collect_modules keeps_latest_module : keeps.

Lemma keeps_provider_versions s ns name l : keeping (provider_versions s ns name l).
Proof. unfold provider_versions. apply keeps_mapM. keeps_tac. Qed.
#[local] Hint Resolve keeps_provider_versions : keeps.

Lemma keeps_count_providers s st p : keeping (count_providers s st p).
Proof. unfold count_providers. cbv zeta. apply keeps_bind; [apply _|auto with keeps typeclass_instances|intros]. apply keeps_foldM. keeps_tac. Qed.

Lemma keeps_count_modules s st p : keeping (count_modules s st p).
Proof.
  unfold count_modules. cbv zeta. apply keeps_bind; [apply _|auto with keeps typeclass_instances|intros]. apply keeps_foldM. intros.
  apply keeps_bind; [apply _|auto with keeps typeclass_instances|intros]. apply keeps_foldM. keeps_tac.
Qed.

Lemma keeps_list_namespace s l p : keeping (list_namespace s l p).
Proof. unfold list_namespace. cbv zeta. apply keeps_bind; [apply _|auto with keeps typeclass_instances|intros]. apply keeps_foldM. keeps_tac. Qed.

Lemma keeps_add_module s ns m mp acc p : keeping (add_module s ns m mp acc p).
Proof. unfold add_module. keeps_tac. Qed.
#[local] Hint Resolve keeps_add_module : keeps.

Lemma keeps_list_module_namespace s acc p : keeping (list_module_namespace s acc p).
Proof.
  unfold list_module_namespace. cbv zeta. apply keeps_bind; [apply _|auto with keeps typeclass_instances|intros]. apply keeps_foldM. intros.
  apply keeps_bind; [apply _|auto with keeps typeclass_instances|intros]. apply keeps_foldM. keeps_tac.
Qed.
#[local] Hint Resolve keeps_count_providers keeps_count_modules keeps_list_namespace
  keeps_list_module_namespace : keeps.

Lemma keeps_serve_get s signer vars e : keeping (serve_get s signer vars e).
Proof.
  destruct e; cbn [serve_get]; [apply keeps_ret; apply _|..].
  all: unfold providerVersionsHandler, providerDownloadHandler, networkMirrorIndexHandler,
    networkMirrorVersionHandler, moduleVersionsHandler, moduleDownloadHandler,
    moduleLatestDownloadHandler, fileDownloadHandler, registryStatsHandler, listProvidersHandler,
    getProviderHandler, listModulesHandler, getModuleHandler; cbv zeta; keeps_tac.
Qed.

End reading.
#[export] Hint Resolve keeps_getIndex keeps_resolve keeps_Get keeps_Open keeps_Exists keeps_List
  keeps_GetProviderIndex keeps_GetModuleIndex keeps_GetVersionMetadata
  keeps_ScanProviderVersions keeps_ScanModuleVersions keeps_collect_platforms
  keeps_GetProviderPlatforms keeps_existing_entries keeps_foldM keeps_mapM
  keeps_is_deprecated keeps_published_platforms keeps_collect_versions keeps_any_published
  keeps_mirror_versions keeps_mirror_archives keeps_find_download keeps_moduleArtifactKey
  keeps_collect_modules keeps_latest_module keeps_provider_versions
  keeps_add_module keeps_count_providers keeps_count_modules keeps_list_namespace
  keeps_list_module_namespace keeps_serve_get : keeps.

(** C27. Reads are reads: every GET endpoint but the health check replies, for
    any file system (links included), any route variables and any I/O faults,
    without changing a file or taking the mutation mutex. *)
Theorem get_endpoints_read_only (s : Store) (signer : option RegistrySigner) (vars : Vars)
    (e : get_endpoint) (w : world) :
  ∃ r w', serve_get s signer vars e w = Some (r, w') ∧ w_fs w' = w_fs w ∧ w_mutation w' = w_mutation w ∧
    w_now w' = w_now w.
Proof.
  destruct (keeps_total _ _ _ w (keeps_serve_get (R := same) s signer vars e) I) as (r & w' & E & _ & [He Hf]).
  exists r, w'. destruct He. by split_and!.
Qed.
