(* ===== verification/Server.v ===== *)
(** * The server (main.go, middleware.go, metrics.go, validation.go, ui.go)

    The state shared by requests, the middleware chain, the table of routes
    and the endpoints behind it.  The router is package gorilla/mux, a
    third-party library: a [Router] is any function from requests to rows of
    the table and route variables that respects what mux documents. *)

From S2P Require Import Prelude GoString SemVer Validation GoPath Os Json Decode Store Index Archive Signing Http.
From S2P Require Import Auth RateLimit Api Metrics Protocol ReadFacts.

(** ** Routes *)

Inductive endpoint :=
| Get_ (e : get_endpoint) | Health | MetricsPage
| UploadProvider | DeleteProviderVersion | DeprecateProvider
| UploadModule | DeleteModuleVersion | DeprecateModule | GC
| UI | Root.

(** A row: the path template, whether it is a prefix, and the methods (none:
    any). *)
Record route := mkRoute {
  template : string; is_prefix : bool; methods : list string; target : endpoint
}.

Definition get (t : string) (e : endpoint) : route := mkRoute t false ["GET"] e.
Definition post (t : string) (e : endpoint) : route := mkRoute t false ["POST"] e.
Definition del (t : string) (e : endpoint) : route := mkRoute t false ["DELETE"] e.

(** In the order of registration; the subrouter's templates have its prefix. *)
Definition routes : list route :=
  let api t := "/api/v1" +:+ t in [
  get "/.well-known/terraform.json" (Get_ GetWellKnown);
  get "/v1/providers/{namespace}/{type}/versions" (Get_ GetProviderVersions);
  get "/v1/providers/{namespace}/{type}/{version}/download/{os}/{arch}" (Get_ GetProviderDownload);
  get "/{hostname}/{namespace}/{type}/index.json" (Get_ GetMirrorIndex);
  get "/{hostname}/{namespace}/{type}/{version}.json" (Get_ GetMirrorVersion);
  get "/v1/modules/{namespace}/{name}/{provider}/versions" (Get_ GetModuleVersions);
  get "/v1/modules/{namespace}/{name}/{provider}/{version}/download" (Get_ GetModuleDownload);
  get "/v1/modules/{namespace}/{name}/{provider}/download" (Get_ GetModuleLatestDownload);
  get "/download/{path:.*}" (Get_ GetFile);
  get "/health" Health;
  get "/metrics" MetricsPage;
  get (api "/stats") (Get_ GetStats);
  get (api "/providers") (Get_ GetProviders);
  get (api "/providers/{namespace}/{name}") (Get_ GetProvider);
  post (api "/providers/{namespace}/{name}/{version}/{os}/{arch}") UploadProvider;
  del (api "/providers/{namespace}/{name}/{version}") DeleteProviderVersion;
  post (api "/providers/{namespace}/{name}/{version}/deprecate") DeprecateProvider;
  get (api "/modules") (Get_ GetModules);
  get (api "/modules/{namespace}/{name}/{provider}") (Get_ GetModule);
  post (api "/modules/{namespace}/{name}/{provider}/{version}") UploadModule;
  del (api "/modules/{namespace}/{name}/{provider}/{version}") DeleteModuleVersion;
  post (api "/modules/{namespace}/{name}/{provider}/{version}/deprecate") DeprecateModule;
  post (api "/gc") GC;
  mkRoute "/ui" true [] UI;
  mkRoute "/" false [] Root].

(** The text of a template before its first variable. *)
Definition literal_prefix (t : string) : string := (Cut t "{").1.1.

(** ** The UI (ui.go) *)

(** The embedded files. *)
Record assets := mkAssets { uiIndexHTML : string; uiStyleCSS : string; uiAppJS : string }.

Definition asset (content_type data : string) : response :=
  mkResponse 200 [("Content-Type", content_type)] (BText data) [].

Definition uiHandler (ui : assets) (r : request) : response :=
  let path := r_Path r in
  let index := asset "text/html; charset=utf-8" (uiIndexHTML ui) in
  if String.eqb path "/ui" || String.eqb path "/ui/" || String.eqb path "/ui/index.html" then index
  else if HasSuffix path "/ui/style.css" then asset "text/css; charset=utf-8" (uiStyleCSS ui)
  else if HasSuffix path "/ui/app.js" then asset "application/javascript; charset=utf-8" (uiAppJS ui)
  else index.

(** [http.Redirect(w, r, "/ui", http.StatusFound)] *)
Definition rootHandler (r : request) : response :=
  let html := [("Content-Type", "text/html; charset=utf-8")] in
  mkResponse 302 (("Location", "/ui") :: (if is_read r then html else []))
    (if String.eqb (r_Method r) "GET"
     then BText ("<a href=" +:+ quote "/ui" +:+ ">Found</a>." +:+ nl +:+ nl) else BNone) [].

(** ** The state of the server *)

(** An audit entry; AuditText has its text. *)
Record AuditEntry := mkAudit {
  ae_time : Z; ae_event : string; ae_key : string; ae_method : string; ae_path : string;
  ae_remote : string; ae_status : Z; ae_detail : string
}.

Section server.
Context {Time : Type}.
Context (dec_time : decoder Time) (enc_time : Time → option json) (zero_time : Time).
Context (zip_NewReader : string → Z → result error (list zip_file)).
Context (gzip_NewReader : string → result error tar_stream).
Context (s : Store) (signer : option RegistrySigner) (maxUploadSize : Z) (ui : assets).

Record server := mkServer {
  sv_keys : KeyStore Time;
  sv_limiter : RateLimiter;
  sv_metrics : RegistryMetrics;
  sv_audit : list AuditEntry       (* oldest first *)
}.

Definition set_keys x (sv : server) := mkServer x (sv_limiter sv) (sv_metrics sv) (sv_audit sv).
Definition set_limiter x (sv : server) := mkServer (sv_keys sv) x (sv_metrics sv) (sv_audit sv).
Definition set_metrics x (sv : server) := mkServer (sv_keys sv) (sv_limiter sv) x (sv_audit sv).
Definition set_audit x (sv : server) := mkServer (sv_keys sv) (sv_limiter sv) (sv_metrics sv) x.

Definition add (x : metric) (sv : server) : server := set_metrics (Add1 x (sv_metrics sv)) sv.

(** A reply and the counters it increments. *)
Definition respond (resp : response) (sv : server) : response * server :=
  (resp, foldl (λ sv c, add (Counted c) sv) sv (counted resp)).

Definition Handler : Type := request → Vars → server → M (response * server).

(** ** Endpoints *)

Definition answer (m : M response) (sv : server) : M (response * server) :=
  resp ← m; mret (respond resp sv).

Definition serve_endpoint (e : endpoint) : Handler := λ r vars sv,
  match e with
  | Get_ e => answer (serve_get s signer vars e) sv
  | Health => answer (healthHandler s) sv
  | MetricsPage => now ← time_Now; mret (respond (prometheusHandler now (sv_metrics sv) r) sv)
  | UploadProvider => answer (uploadProviderHandler zip_NewReader s signer maxUploadSize vars (r_upload r)) sv
  | DeleteProviderVersion => answer (deleteProviderVersionHandler s vars) sv
  | DeprecateProvider => answer (deprecateProviderHandler s vars (r_json r)) sv
  | UploadModule => answer (uploadModuleHandler gzip_NewReader s maxUploadSize vars (r_upload r)) sv
  | DeleteModuleVersion => answer (deleteModuleVersionHandler s vars) sv
  | DeprecateModule => answer (deprecateModuleHandler s vars (r_json r)) sv
  | GC => answer (gcHandler s) sv
  | UI => mret (respond (uiHandler ui r) sv)
  | Root => mret (respond (rootHandler r) sv)
  end.

(** ** Middleware *)

Definition metricsMiddleware (next : Handler) : Handler := λ r vars sv,
  '(resp, sv) ← next r vars (add RequestsTotal sv);
  mret (resp, add (if (status resp <? 400)%Z then RequestsOK else RequestsErr) sv).

Definition security_headers : list (string * string) := [
  ("X-Content-Type-Options", "nosniff"); ("X-Frame-Options", "DENY"); ("Referrer-Policy", "no-referrer");
  ("Content-Security-Policy", "default-src 'self'; style-src 'self' 'unsafe-inline'; script-src 'self'; img-src 'self' data:; object-src 'none'; frame-ancestors 'none'; base-uri 'none'")].

Definition securityHeadersMiddleware (next : Handler) : Handler := λ r vars sv,
  '(resp, sv) ← next r vars sv;
  mret (with_headers security_headers resp, sv).

(** [rl.Middleware] *)
Definition rateLimitMiddleware (next : Handler) : Handler := λ r vars sv,
  now ← time_Now;
  let '(ok, rl) := allow now (client_ip (sv_limiter sv) r) (sv_limiter sv) in
  let sv := set_limiter rl sv in
  if negb ok then mret (respond (rate_limited rl) sv) else next r vars sv.

Definition managed (r : request) : bool := HasPrefix (r_Path r) "/api/v1/".

(** [al.Log] *)
Definition Log (entry : AuditEntry) (sv : server) : server := set_audit (sv_audit sv ++ [entry]) sv.

Definition auditMiddleware (next : Handler) : Handler := λ r vars sv,
  if negb (managed r) then next r vars sv
  else
    let apiKey := extractAPIKey r in
    '(keyName, sv) ← (if String.eqb apiKey "" then mret ("anonymous", sv)
                      else '(ak, ks) ← Validate dec_time enc_time zero_time (sv_keys sv) apiKey;
                           mret (match ak with Some ak => ak_Name ak | None => "anonymous" end, set_keys ks sv));
    '(resp, sv) ← next r vars sv;
    now ← time_Now;
    mret (resp, Log (mkAudit now "api_request" keyName (r_Method r) (r_Path r) (r_RemoteAddr r) (status resp)
                       (r_Method r +:+ " " +:+ r_Path r)) sv).

Definition authMiddleware (next : Handler) : Handler := λ r vars sv,
  let publicManagementRead := is_read r && negb (privateSecurityRead r) in
  if negb (managed r) || publicManagementRead then next r vars sv
  else
    let apiKey := extractAPIKey r in
    if String.eqb apiKey "" then
      mret (respond (counting AuthFailures
        (httpJSONError 401 "API key required. Set X-API-Key or Authorization: Bearer header.")) sv)
    else
      let required := requiredPermission r in
      '(ok, ks) ← HasPermission dec_time enc_time zero_time (sv_keys sv) apiKey required;
      let sv := set_keys ks sv in
      if negb ok then
        '(_, ks) ← Validate dec_time enc_time zero_time ks apiKey;
        mret (respond (counting AuthFailures
          (httpJSONError 403 ("Insufficient permissions. Required: " +:+ required))) (set_keys ks sv))
      else next r vars sv.

(** The order in which the map of route variables is ranged over does not
    matter for what is let through. *)
Definition routeValidationMiddleware (next : Handler) : Handler := λ r vars sv,
  match routeValidation (map_to_list (vars : gmap string string)) with
  | Some key => mret (respond (httpJSONError 400 ("Invalid " +:+ key)) sv)
  | None => next r vars sv
  end.

(** The chain of [main]: the first is the outermost. *)
Definition chain (next : Handler) : Handler :=
  metricsMiddleware (securityHeadersMiddleware (rateLimitMiddleware
    (auditMiddleware (authMiddleware (routeValidationMiddleware next))))).

End server.

(** ** The router *)

(** What mux promises about a match: a row of the table, its method, a path
    that begins with the text of the row before its first variable, and is
    that text when there is no variable. *)
Class Router (match_route : request → option (route * Vars)) : Prop := {
  router_row r rt vars : match_route r = Some (rt, vars) → rt ∈ routes;
  router_method r rt vars : match_route r = Some (rt, vars) → methods rt ≠ [] → r_Method r ∈ methods rt;
  router_path r rt vars : match_route r = Some (rt, vars) → HasPrefix (r_Path r) (literal_prefix (template rt)) = true;
  router_exact r rt vars : match_route r = Some (rt, vars) → is_prefix rt = false → Contains (template rt) "{" = false →
    r_Path r = template rt
}.

Section serve.
Context {Time : Type}.
Context (dec_time : decoder Time) (enc_time : Time → option json) (zero_time : Time).
Context (zip_NewReader : string → Z → result error (list zip_file)).
Context (gzip_NewReader : string → result error tar_stream).
Context (s : Store) (signer : option RegistrySigner) (maxUploadSize : Z) (ui : assets).
Context (match_route : request → option (route * Vars)).
Context (unmatched : request → response).

(** [http.Server] with the router: what no row matches gets mux's own reply
    (not found, method not allowed or a redirect to the clean path), outside
    the chain. *)
Definition ServeHTTP (r : request) (sv : server (Time := Time)) : M (response * server) :=
  match match_route r with
  | None => mret (unmatched r, sv)
  | Some (rt, vars) =>
      chain dec_time enc_time zero_time
        (serve_endpoint zip_NewReader gzip_NewReader s signer maxUploadSize ui (target rt)) r vars sv
  end.

End serve.
