(* ===== verification/AuditText.v ===== *)
(** * The audit log (middleware.go)

    The line an entry becomes, how lines reach the file, and what a reader of
    the file gets: every entry is one line and every field of every entry can
    be read back, whatever a request put into them; a JSON reader gets the
    fields of exactly the lines without characters JSON cannot escape as Go
    does. *)

From S2P Require Import Prelude GoString GoPath Os OsFacts Json JsonFacts Utf8Facts Quote.
From S2P Require Import Decode Store RateLimit Metrics Server.

(** ** Times *)

(** The date of a day counted from 1970-01-01. *)
Definition civil (days : Z) : Z * Z * Z :=
  (let z := days + 719468 in
   let era := z / 146097 in
   let doe := z mod 146097 in
   let yoe := (doe - doe / 1460 + doe / 36524 - doe / 146096) / 365 in
   let doy := doe - (365 * yoe + yoe / 4 - yoe / 100) in
   let mp := (5 * doy + 2) / 153 in
   let m := if mp <? 10 then mp + 3 else mp - 9 in
   (yoe + era * 400 + (if m <=? 2 then 1 else 0), m, doy - (153 * mp + 2) / 5 + 1))%Z.

Fixpoint zeros (n : nat) : string := match n with O => "" | S n => String "0" (zeros n) end.

(** A number with at least [width] digits. *)
Definition padded_number (width : nat) (n : Z) : string :=
  let s := pretty n in zeros (width - slen s) +:+ s.

(** [t.UTC().Format(time.RFC3339)] of a time in nanoseconds. *)
Definition RFC3339 (now : Z) : string :=
  let secs := (now / Second)%Z in
  let '(y, m, d) := civil (secs / 86400) in
  let sod := (secs mod 86400)%Z in
  padded_number 4 y +:+ "-" +:+ padded_number 2 m +:+ "-" +:+ padded_number 2 d +:+ "T" +:+
  padded_number 2 (sod / 3600) +:+ ":" +:+ padded_number 2 (sod / 60 mod 60) +:+ ":" +:+ padded_number 2 (sod mod 60) +:+ "Z".

Example RFC3339_examples :
  RFC3339 0 = "1970-01-01T00:00:00Z" ∧ RFC3339 1709210096999999999 = "2024-02-29T12:34:56Z" ∧
  RFC3339 (2 ^ 63 - 1) = "2262-04-11T23:47:16Z" ∧ RFC3339 4107542399000000000 = "2100-02-28T23:59:59Z".
Proof. vm_compute. by split_and!. Qed.

(** ** Appending to a file *)

Lemma wp_append h data w d t : w_fs w !! h = Some (NFile d t) →
  wp (f_Write h data) (λ r w', env w w' ∧ ∃ k, w_fs w' = <[h := NFile (d +:+ stake k data) (w_now w)]> (w_fs w) ∧
    (¬ faulted w w' → stake k data = data)) w.
Proof.
  intros Hh. apply wp_bind, wp_next_fault.
  - intros w' k He Hf _ _ Hft. apply wp_bind, wp_get, wp_bind. unfold wp, put_fs. simpl.
    split; [by apply env_set_fs|]. exists k. split; [by rewrite Hf, (env_now _ _ He), (append_insert _ _ d t)|].
    intros []. exact Hft.
  - intros w' He Hf _ _. apply wp_bind, wp_get, wp_bind. unfold wp, put_fs. simpl.
    split; [by apply env_set_fs|]. exists (slen data).
    assert (stake (slen data) data = data) as -> by (by rewrite <- (sapp_nil_r data) at 2; rewrite stake_app).
    split; [|done]. by rewrite Hf, (env_now _ _ He), (append_insert _ _ d t).
Qed.

(** ** Entries *)

Section audit.
Context (IsPrint_high : N → bool).
#[local] Abbreviation Quote := (Quote IsPrint_high).

(** A member name of the format of [Log], with its colon. *)
Definition name_of (k : string) : string := String dquote (k +:+ String dquote ":").

(** The members of an entry: name and value, quoted ([%q]) or as a number
    ([%d]). *)
Definition entry_fields (e : AuditEntry) : list (string * (string + Z)) := [
  ("time", inl (RFC3339 (ae_time e))); ("event", inl (ae_event e)); ("key", inl (ae_key e));
  ("method", inl (ae_method e)); ("path", inl (ae_path e)); ("remote", inl (ae_remote e));
  ("status", inr (ae_status e)); ("detail", inl (ae_detail e))].

Definition field_text (kv : string * (string + Z)) : string :=
  name_of kv.1 +:+ match kv.2 with inl s => Quote s | inr n => pretty n end.

(** The [entry] of [Log]. *)
Definition entry_line (e : AuditEntry) : string := "{" +:+ Join (field_text <$> entry_fields e) "," +:+ "}".

(** [fmt.Fprintln(al.file, entry)], when there is a file; its error is
    ignored. *)
Definition write_entry (file : option path) (e : AuditEntry) : M unit :=
  match file with
  | None => mret ()
  | Some h => _ ← f_Write h (entry_line e +:+ nl); mret ()
  end.

(** [al.Close] *)
Definition AuditLog_Close (file : option path) : M (result error unit) :=
  match file with None => mret (Ok ()) | Some h => f_Close h end.

(** The text of a log. *)
Fixpoint log_text (l : list AuditEntry) : string :=
  match l with [] => "" | e :: l => entry_line e +:+ nl +:+ log_text l end.

Fixpoint write_entries (file : option path) (l : list AuditEntry) : M unit :=
  match l with [] => mret () | e :: l => write_entry file e;; write_entries file l end.

(** ** A reader of the log *)

Definition expect (p s : string) : option string := if HasPrefix s p then Some (sdrop (slen p) s) else None.

(** A member [k]: its value and what follows. *)
Definition read_field (k : string) (s : string) : option (string * string) :=
  s ← expect (name_of k) s;
  if HasPrefix s (String dquote "") then unquote (sdrop 1 s)
  else Some (let '(d, r, _) := Cut s "," in (d, "," +:+ r)).

Fixpoint read_fields (ks : list string) (s : string) : option (list string) :=
  match ks with
  | [] => None
  | [k] => '(v, s) ← read_field k s; s ← expect "}" s; if String.eqb s "" then Some [v] else None
  | k :: ks => '(v, s) ← read_field k s; s ← expect "," s; vs ← read_fields ks s; Some (v :: vs)
  end.

Definition field_names : list string := ["time"; "event"; "key"; "method"; "path"; "remote"; "status"; "detail"].

Definition read_line (s : string) : option (list string) := s ← expect "{" s; read_fields field_names s.

(** The lines of a text that ends with a newline, each read. *)
Definition read_log (s : string) : option (list (list string)) :=
  let lines := Split s "010" in
  if bool_decide (last lines = Some "") then mapM read_line (removelast lines) else None.

(** What is to be read. *)
Definition shown (v : string + Z) : string := match v with inl s => s | inr n => pretty n end.
Definition entry_values (e : AuditEntry) : list string := (λ kv, shown kv.2) <$> entry_fields e.

Lemma expect_app p s : expect p (p +:+ s) = Some s.
Proof. unfold expect. by rewrite HasPrefix_app, sdrop_app. Qed.

Lemma pretty_Z_digits (n : Z) : ∃ sign d, pretty n = sign +:+ d ∧ (sign = "" ∨ sign = "-") ∧ sforall is_digit d = true.
Proof.
  destruct n as [|n|n]; [exists "", "0"|exists "", (pretty (Npos n))|exists "-", (pretty (Npos n))]; (split; [done|]);
    (split; [auto|]); [done|apply pretty_digits..].
Qed.

Lemma pretty_Z_no_char c (n : Z) : c ≠ "-"%char → is_digit c = false → no_char c (pretty n).
Proof.
  intros H1 H2. destruct (pretty_Z_digits n) as (sign & d & -> & Hs & Hd). apply no_char_app. split.
  - destruct Hs as [->| ->]; [done|]. apply no_char_cons. by split.
  - by eapply no_char_sforall.
Qed.

(** A string member is read back whatever follows, a number when a comma does. *)
Lemma read_string k s t : read_field k (field_text (k, inl s) +:+ t) = Some (s, t).
Proof.
  unfold read_field, field_text. cbn [fst snd]. rewrite sapp_assoc, expect_app. cbn [mbind option_bind].
  change (HasPrefix (Quote s +:+ t) (String dquote "")) with true. cbv iota. apply (unquote_Quote IsPrint_high).
Qed.

Lemma read_number k n t : read_field k (field_text (k, inr n) +:+ String "," t) = Some (pretty n, String "," t).
Proof.
  unfold read_field, field_text. cbn [fst snd]. rewrite sapp_assoc, expect_app. cbn [mbind option_bind].
  assert (HasPrefix (pretty n +:+ String "," t) (String dquote "") = false) as ->.
  { pose proof (pretty_Z_no_char dquote n ltac:(done) ltac:(done)) as H. destruct (pretty n) as [|a s]; [done|].
    apply no_char_cons in H as [H _]. cbn [HasPrefix String.append]. rewrite sapp_cons. cbn. by rewrite bool_decide_eq_false_2. }
  pose proof (proj2 (Cut_char_found (pretty n +:+ String "," t) "," (pretty n) t)) as ->; [done|].
  split; [done|by apply pretty_Z_no_char].
Qed.

Lemma read_member k v t : read_field k (field_text (k, v) +:+ String "," t) = Some (shown v, String "," t).
Proof. destruct v; [apply read_string|apply read_number]. Qed.

(** Members are read back when the last is a string. *)
Lemma read_members l k s : read_fields ((l ++ [(k, inl s)]).*1)
    (Join (field_text <$> l ++ [(k, inl s)]) "," +:+ "}") = Some ((λ kv, shown kv.2) <$> l ++ [(k, inl s)]).
Proof.
  induction l as [|[k1 v1] l IH].
  { cbn [app fmap list_fmap fst snd read_fields Join]. by rewrite read_string. }
  cbn [app fmap list_fmap fst snd]. rewrite Join_cons by (rewrite fmap_app; by destruct (field_text <$> l)).
  destruct ((l ++ [(k, inl s)]).*1) as [|k2 ks] eqn:E; [rewrite fmap_app in E; by destruct (l.*1)|].
  change (read_fields (k1 :: k2 :: ks) ?x) with
    ('(v, s) ← read_field k1 x; s ← expect "," s; vs ← read_fields (k2 :: ks) s; Some (v :: vs)).
  rewrite !sapp_assoc, (sapp_cons "," ""), sapp_nil_l, read_member. cbn [mbind option_bind].
  rewrite (expect_app "," _ : expect "," (String "," _) = _). cbn [mbind option_bind]. by rewrite IH.
Qed.

(** Every line is read back, and is one line. *)
Lemma read_entry_line e : read_line (entry_line e) = Some (entry_values e).
Proof. unfold read_line, entry_line. rewrite expect_app. exact (read_members (take 7 (entry_fields e)) _ _). Qed.

Lemma entry_one_line e : no_char "010" (entry_line e).
Proof.
  unfold entry_line. rewrite !no_char_app. split; [done|]. split; [|done]. apply no_char_Join; [done|].
  apply Forall_fmap, Forall_forall. intros [k v] Hkv. apply no_char_app. split.
  - assert (k ∈ (entry_fields e).*1) as Hk by (apply list_elem_of_fmap; by exists (k, v)). clear -Hk.
    change ((entry_fields e).*1) with field_names in Hk. unfold field_names in Hk.
    repeat (rewrite elem_of_cons in Hk; destruct Hk as [->|Hk]; [done|]). by rewrite elem_of_nil in Hk.
  - destruct v; [apply Quote_one_line|by apply pretty_Z_no_char].
Qed.

Lemma Split_log_text l : Split (log_text l) "010" = (entry_line <$> l) ++ [""].
Proof.
  induction l as [|e l IH]; [done|]. cbn [log_text fmap list_fmap app]. unfold nl.
  rewrite (sapp_cons "010" ""), sapp_nil_l, Split_app by apply entry_one_line. by rewrite IH.
Qed.

Lemma read_log_text l : read_log (log_text l) = Some (entry_values <$> l).
Proof.
  unfold read_log. rewrite Split_log_text, last_snoc, removelast_last, bool_decide_eq_true_2 by done.
  induction l as [|e l IH]; [done|]. cbn [fmap list_fmap mapM]. rewrite read_entry_line. cbn [mbind option_bind].
  change (list_fmap _ _ entry_line l) with (entry_line <$> l). by rewrite IH.
Qed.

(** ** The file *)

Lemma log_text_app l l' : log_text (l ++ l') = log_text l +:+ log_text l'.
Proof. induction l as [|e l IH]; [done|]. cbn [app log_text]. by rewrite IH, !sapp_assoc. Qed.

(** The file [h] held [d] and holds it still, with more after it. *)
Definition appended (h : path) (d : string) (w w' : world) (text : string) : Prop :=
  env w w' ∧ HasPrefix text d = true ∧ ∃ t, w_fs w' = <[h := NFile text t]> (w_fs w).

Lemma wp_write_entry h d t e w : w_fs w !! h = Some (NFile d t) →
  wp (write_entry (Some h) e) (λ _ w', ∃ text, appended h d w w' text ∧
    (¬ faulted w w' → text = d +:+ entry_line e +:+ nl)) w.
Proof.
  intros Hh. unfold write_entry. apply wp_bind. eapply wp_mono; [apply (wp_append h _ w d t Hh)|].
  intros r w' (He & k & Ew & Hr). apply wp_ret. exists (d +:+ stake k (entry_line e +:+ nl)).
  split; [split; [done|]; split; [apply HasPrefix_app|by eexists]|]. intros Hn. by rewrite Hr.
Qed.

Lemma wp_write_entries h l : ∀ d t w, w_fs w !! h = Some (NFile d t) →
  wp (write_entries (Some h) l) (λ _ w', ∃ text, appended h d w w' text ∧ (¬ faulted w w' → text = d +:+ log_text l)) w.
Proof.
  induction l as [|e l IH]; intros d t w Hh; cbn [write_entries].
  { apply wp_ret. exists d. split; [|by rewrite sapp_nil_r]. split; [done|]. split.
    - rewrite <- (sapp_nil_r d) at 1. apply HasPrefix_app.
    - exists t. by rewrite insert_id. }
  apply wp_bind. eapply wp_mono; [by apply (wp_write_entry h d t)|]. intros _ w1 (x1 & (He1 & Hp1 & t1 & Ew1) & H1).
  eapply wp_mono; [apply (IH x1 t1); by rewrite Ew1, lookup_insert_eq|]. intros _ w2 (x2 & (He2 & Hp2 & t2 & Ew2) & H2).
  exists x2. split.
  - split; [by transitivity w1|]. split; [|exists t2; by rewrite Ew2, Ew1, insert_insert_eq].
    rewrite HasPrefix_iff in Hp1, Hp2. destruct Hp1 as [y1 ->], Hp2 as [y2 ->]. rewrite sapp_assoc. apply HasPrefix_app.
  - intros Hn. rewrite H2, H1; [|intros Hf; apply Hn; by eapply faulted_l|intros Hf; apply Hn; by eapply faulted_r].
    cbn [log_text]. by rewrite !sapp_assoc.
Qed.

(** C31. The audit log keeps what it is told.  Writing entries to the log's
    file, under any faults, only appends to that file; when no write fails, the
    file is the text of all entries in order, and reading it gives back
    exactly their fields - the path, address and key of every request, whatever
    bytes the client put there: no request can forge, split or hide an
    entry. *)
Theorem audit_log_reads_back h l l' t w : w_fs w !! h = Some (NFile (log_text l) t) →
  wp (write_entries (Some h) l') (λ _ w', ∃ text, appended h (log_text l) w w' text ∧
    (¬ faulted w w' → text = log_text (l ++ l') ∧ read_log text = Some (entry_values <$> l ++ l'))) w.
Proof.
  intros Hh. eapply wp_mono; [by eapply wp_write_entries|]. intros _ w' (text & Ha & Ht). exists text.
  split; [done|]. intros Hn. rewrite Ht, <- log_text_app by done. split; [done|]. apply read_log_text.
Qed.

(** ** JSON *)

(** [s] is the text of exactly the tokens of [r], whatever follows; or no text
    that begins with [s] is JSON. *)
Definition lexes (s : string) (r : option (list token)) : Prop :=
  match r with
  | Some ts => length ts ≤ slen s ∧ ∀ n rest, lex_fuel (length ts + n) (s +:+ rest) = app ts <$> lex_fuel n rest
  | None => ∀ n rest, lex_fuel n (s +:+ rest) = None
  end.

Lemma lexes_app s1 r1 s2 r2 : lexes s1 r1 → lexes s2 r2 →
  lexes (s1 +:+ s2) (ts1 ← r1; ts2 ← r2; Some (ts1 ++ ts2)).
Proof.
  intros H1 H2. destruct r1 as [ts1|]; cbn [mbind option_bind lexes] in *; [|intros n rest; rewrite sapp_assoc; apply H1].
  destruct H1 as [L1 H1]. destruct r2 as [ts2|]; cbn [mbind option_bind lexes] in *.
  - destruct H2 as [L2 H2]. split; [rewrite length_app, slen_app; lia|]. intros n rest.
    rewrite sapp_assoc, length_app, <- Nat.add_assoc, H1, H2. destruct (lex_fuel n rest); [|done]. cbn. by rewrite app_assoc.
  - intros n rest. rewrite sapp_assoc. destruct (lex_fuel n (s1 +:+ (s2 +:+ rest))) as [ts|] eqn:E; [|done].
    apply (lex_fuel_mono _ (length ts1 + n)) in E; [|lia]. by rewrite H1, H2 in E.
Qed.

Lemma lexes_Quote s : lexes (Quote s) (if json_plain IsPrint_high s then Some [TStr s] else None).
Proof.
  pose proof (lex_str_Quote IsPrint_high s) as H. destruct (json_plain IsPrint_high s); [split; [simpl; lia|]|]; intros n rest;
    change (Quote s +:+ rest) with (String dquote (sdrop 1 (Quote s) +:+ rest)).
  - cbn [length Nat.add]. rewrite lex_fuel_quote, H. by destruct (lex_fuel n rest).
  - destruct n; [done|]. by rewrite lex_fuel_quote, H.
Qed.

Lemma lexes_punct c t : is_space c = false → punctuation c = Some t → lexes (String c "") (Some [t]).
Proof.
  intros H1 H2. split; [done|]. intros n rest. rewrite sapp_cons, sapp_nil_l. cbn [length Nat.add lex_fuel]. rewrite H1, H2.
  by destruct (lex_fuel n rest).
Qed.

Lemma lexes_name k : quote k = String dquote (k +:+ String dquote "") → valid_utf8 k = true →
  lexes (name_of k) (Some [TStr k; TColon]).
Proof.
  intros Hk Hv. split; [unfold name_of; simpl; rewrite slen_app; simpl; lia|]. intros n rest. unfold name_of.
  change (length [TStr k; TColon] + n) with (S (S n)).
  unfold quote in Hk. injection Hk as Hk. apply (sapp_inj_r _ _ _) in Hk.
  rewrite sapp_cons, lex_fuel_quote, sapp_assoc, !sapp_cons, sapp_nil_l. rewrite <- Hk at 1. rewrite lex_str_quote by done.
  cbn. by destruct (lex_fuel n rest).
Qed.

Lemma parse_lexes s r : lexes s r → lex s = r.
Proof.
  unfold lex. destruct r as [ts|]; cbn [lexes]; [intros [Hl H]|intros H].
  - specialize (H (S (slen s - length ts)) ""). rewrite sapp_nil_r in H. replace (length ts + _) with (S (slen s)) in H by lia.
    rewrite H. cbn. by rewrite app_nil_r.
  - specialize (H (S (slen s)) ""). by rewrite sapp_nil_r in H.
Qed.

Lemma span_digits_app d c s : sforall is_digit d = true → is_digit c = false →
  span_digits (d +:+ String c s) = (d, String c s).
Proof.
  intros Hd Hc. induction d as [|a d IH]; [rewrite sapp_nil_l; cbn [span_digits]; by rewrite Hc|]. cbn [sforall] in Hd. apply andb_true_iff in Hd as [Ha Hd].
  rewrite sapp_cons. cbn [span_digits]. by rewrite Ha, IH.
Qed.

(** What may follow a member. *)
Definition ends_member (c : ascii) (t : token) : Prop := (c = ","%char ∧ t = TComma) ∨ (c = "}"%char ∧ t = TRBrace).

Lemma lex_fuel_number n a d c t rest : a ≠ "0"%char → is_digit a = true → sforall is_digit d = true → ends_member c t →
  lex_fuel (S (S n)) (String a d +:+ String c rest) = app [TNum (String a d); t] <$> lex_fuel n rest.
Proof.
  intros Hz Ha Hd Hc. assert (lex_num (String a d +:+ String c rest) = Some (String a d, String c rest)) as Hl.
  { assert (a ≠ "-"%char) as Hm by (intros ->; done). unfold lex_num. rewrite sapp_cons.
    assert (lex_int (String a (d +:+ String c rest)) = Some (String a d, String c rest)) as Hi.
    { unfold lex_int. rewrite bool_decide_eq_false_2, Ha by done. rewrite <- sapp_cons, span_digits_app; [done| |by destruct Hc as [[-> _]|[-> _]]].
      cbn [sforall]. by rewrite Ha. }
    destruct (ascii_dec a "-") as [|_]; [done|].
    replace (match a with "-"%char => ("-", d +:+ String c rest) | _ => ("", String a (d +:+ String c rest)) end)
      with ("", String a (d +:+ String c rest)) by (clear -Hm; by destruct a as [[] [] [] [] [] [] [] []]).
    rewrite Hi. assert (lex_frac (String c rest) = Some ("", String c rest) ∧ lex_exp (String c rest) = Some ("", String c rest)) as [-> ->].
    { unfold lex_exp. destruct Hc as [[-> _]|[-> _]]; by rewrite bool_decide_eq_false_2 by (by intros []). }
    by rewrite !sapp_nil_l, !sapp_nil_r. }
  assert (is_space a = false ∧ punctuation a = None ∧ (byte_of a =? 34)%N = false ∧
    ∀ s, HasPrefix (String a s) "null" = false ∧ HasPrefix (String a s) "true" = false ∧ HasPrefix (String a s) "false" = false)
    as (H1 & H2 & H3 & H4).
  { clear -Ha. destruct a as [[] [] [] [] [] [] [] []]; try done; by split_and!. }
  specialize (H4 (d +:+ String c rest)) as (H4 & H5 & H6).
  rewrite sapp_cons in *. change (lex_fuel (S (S n)) (String a (d +:+ String c rest))) with
    (let emit t rest := match lex_fuel (S n) rest with Some l => Some (t :: l) | None => None end in
     if is_space a then lex_fuel (S n) (d +:+ String c rest)
     else match punctuation a with
          | Some t => emit t (d +:+ String c rest)
          | None => if (byte_of a =? 34)%N then
                      match lex_str 0 (d +:+ String c rest) with Some (v, rest) => emit (TStr v) rest | None => None end
                    else if HasPrefix (String a (d +:+ String c rest)) "null" then emit TNull (sdrop 4 (String a (d +:+ String c rest)))
                    else if HasPrefix (String a (d +:+ String c rest)) "true" then emit TTrue (sdrop 4 (String a (d +:+ String c rest)))
                    else if HasPrefix (String a (d +:+ String c rest)) "false" then emit TFalse (sdrop 5 (String a (d +:+ String c rest)))
                    else match lex_num (String a (d +:+ String c rest)) with
                         | Some (v, rest) => emit (TNum v) rest
                         | None => None
                         end
          end).
  cbv zeta. rewrite H1, H2, H3, H4, H5, H6, Hl. destruct Hc as [[-> ->]|[-> ->]]; cbn; by destruct (lex_fuel n rest).
Qed.

(** A status of three digits. *)
Definition status_digits (n : Z) : bool :=
  match pretty n with String a d => negb (Ascii.eqb a "0") && is_digit a && sforall is_digit d | "" => false end.

Lemma status_has_digits n : (100 ≤ n ≤ 999)%Z → status_digits n = true.
Proof.
  intros H. assert (forallb (λ k, status_digits (Z.of_nat k)) (seq 100 900) = true) as HF by (vm_compute; reflexivity).
  rewrite forallb_forall in HF. specialize (HF (Z.to_nat n)). rewrite Z2Nat.id in HF by lia. apply HF, in_seq. lia.
Qed.

Lemma lexes_status n c t : (100 ≤ n ≤ 999)%Z → ends_member c t → lexes (pretty n +:+ String c "") (Some [TNum (pretty n); t]).
Proof.
  intros H Hc. apply status_has_digits in H. unfold status_digits in H. destruct (pretty n) as [|a d]; [done|].
  split; [rewrite slen_app; simpl; lia|]. intros k rest.
  rewrite sapp_assoc, (sapp_cons c ""), sapp_nil_l. to_props.
  apply lex_fuel_number; try done. intros ->. by rewrite Ascii.eqb_refl in *.
Qed.

(** What a member is for a JSON reader. *)
Definition json_of (v : string + Z) : json := match v with inl s => JStr s | inr n => JNum (pretty n) end.
Definition readable (v : string + Z) : bool := match v with inl s => json_plain IsPrint_high s | inr _ => true end.
Definition statuses (l : list (string * (string + Z))) : Prop :=
  Forall (λ kv, lexes (name_of kv.1) (Some [TStr kv.1; TColon]) ∧ match kv.2 with inl _ => True | inr n => (100 ≤ n ≤ 999)%Z end) l.

Lemma lexes_member k v c t : lexes (name_of k) (Some [TStr k; TColon]) → 
  match v with inl _ => True | inr n => (100 ≤ n ≤ 999)%Z end → ends_member c t →
  lexes (field_text (k, v) +:+ String c "") (if readable v then Some (member_tokens (k, json_of v) ++ [t]) else None).
Proof.
  intros Hk Hv Hc. unfold field_text. cbn [fst snd]. rewrite sapp_assoc. destruct v as [s|n]; cbn [readable json_of].
  - pose proof (lexes_app _ _ _ _ Hk (lexes_app _ _ _ _ (lexes_Quote s) (lexes_punct c t ltac:(by destruct Hc as [[-> _]|[-> _]])
      ltac:(by destruct Hc as [[-> ->]|[-> ->]])))) as H. by destruct (json_plain IsPrint_high s).
  - exact (lexes_app _ _ _ _ Hk (lexes_status n c t Hv Hc)).
Qed.

Lemma lexes_members l : statuses l → l ≠ [] →
  lexes (Join (field_text <$> l) "," +:+ "}")
    (if forallb (λ kv, readable kv.2) l
     then Some (join_tokens (map member_tokens (prod_map id json_of <$> l)) ++ [TRBrace]) else None).
Proof.
  intros H Hl. induction H as [|[k v] l [Hk Hv] H IH]; [done|]. destruct l as [|kv l].
  { cbn [fmap list_fmap Join forallb fst snd]. rewrite andb_true_r. by apply (lexes_member k v _ TRBrace); [..|right]. }
  specialize (IH ltac:(done)). pose proof (lexes_app _ _ _ _ (lexes_member k v "," TComma Hk Hv ltac:(by left)) IH) as HL.
  change (Join (field_text <$> (k, v) :: kv :: l) ",") with (field_text (k, v) +:+ "," +:+ Join (field_text <$> kv :: l) ",").
  rewrite !sapp_assoc in *. change (forallb (λ kv, readable kv.2) ((k, v) :: kv :: l)) with
    (readable v && forallb (λ kv, readable kv.2) (kv :: l)).
  destruct (readable v); [|exact HL]. destruct (forallb _ (kv :: l)); [|exact HL].
  cbn [mbind option_bind andb] in *. rewrite <- app_assoc in HL.
  change (join_tokens (map member_tokens (prod_map id json_of <$> (k, v) :: kv :: l))) with
    (member_tokens (k, json_of v) ++ [TComma] ++ join_tokens (map member_tokens (prod_map id json_of <$> kv :: l))).
  rewrite <- !app_assoc. exact HL.
Qed.

(** The members of an entry as a JSON document. *)
Definition entry_json (e : AuditEntry) : json := JObj (prod_map id json_of <$> entry_fields e).

Lemma names_lex : Forall (λ k, lexes (name_of k) (Some [TStr k; TColon])) field_names.
Proof. repeat (constructor; [by apply lexes_name|]). constructor. Qed.

(** C32. What a JSON reader makes of the lines of the log: the line of an entry
    whose status has three digits is the JSON object with the entry's fields
    when every character of every field is one whose Go escape is also a JSON
    escape; any other entry - say with a control character other than a
    newline, tab, return, backspace or form feed in the path - is not JSON at
    all. *)
Theorem audit_line_json e : (100 ≤ ae_status e ≤ 999)%Z →
  parse (entry_line e) = if forallb (λ kv, readable kv.2) (entry_fields e) then Some (entry_json e) else None.
Proof.
  intros He. assert (statuses (entry_fields e)) as Hs.
  { pose proof names_lex as HN. unfold statuses, field_names, entry_fields in *.
    repeat (apply Forall_cons in HN as [? HN]; constructor; [by split|]). constructor. }
  pose proof (lexes_app "{" _ _ _ (lexes_punct "{" TLBrace ltac:(done) ltac:(done)) (lexes_members _ Hs ltac:(done))) as HL.
  apply parse_lexes in HL. unfold parse. change ("{" +:+ (Join (field_text <$> entry_fields e) "," +:+ "}")) with (entry_line e) in HL.
  rewrite HL. destruct (forallb _ _); [|done]. cbn [mbind option_bind app].
  set (l := prod_map id json_of <$> entry_fields e).
  pose proof (parse_members_tokens l) as HP.
  assert (Forall (λ kv, parse_ok kv.2) l) as Hl.
  { apply Forall_fmap, Forall_forall. intros [k [s|n]] _ m rest Hm; (destruct m; [simpl in Hm; lia|]); done. }
  set (x := length (join_tokens (map member_tokens l))) in *. specialize (HP (2 * x + 5) [] ltac:(done) Hl ltac:(lia)).
  rewrite length_cons, length_app. fold x. cbn [length]. replace (2 * S (x + 1) + 2) with (S (2 * x + 5)) by lia.
  assert (∃ ts, join_tokens (map member_tokens l) = TStr "time" :: ts) as [ts Et] by (by eexists).
  rewrite Et in *. cbn [app] in *.
  change (parse_value (S (2 * x + 5)) (TLBrace :: TStr "time" :: ts ++ [TRBrace])) with
    (match parse_members (2 * x + 5) (TStr "time" :: ts ++ [TRBrace]) with Some (l, r) => Some (JObj l, r) | None => None end).
  by rewrite HP.
Qed.

End audit.

(** ** Concrete logs *)

Definition sample_entry : AuditEntry :=
  mkAudit 1709210096000000000 "api_request" "ci" "POST" "/api/v1/gc" "10.0.0.1:5000" 200 "POST /api/v1/gc".

(** A path with a newline and a quotation mark, and one with a bell. *)
Definition hostile (c : string) : AuditEntry :=
  let path := "/api/v1/" +:+ c +:+ "x" in
  mkAudit 1709210096000000000 "api_request" "anonymous" "GET" path "10.0.0.1:5000" 404 ("GET " +:+ path).

Lemma audit_log_reads_back_witness :
  let h := ["audit"] in
  let f : gmap (list string) node := {[ [] := NDir; h := NFile (log_text (λ _, false) [sample_entry]) 1 ]} in
  let w := World f [] (λ _, 0%N) 0 0 ∅ false in
  let forged := hostile ("x" +:+ String "010" (String dquote "")) in
  wp (write_entries (λ _, false) (Some h) [forged]) (λ _ w', ∃ text,
    appended h (log_text (λ _, false) [sample_entry]) w w' text ∧
    (¬ faulted w w' → text = log_text (λ _, false) ([sample_entry] ++ [forged]) ∧
      read_log text = Some (entry_values <$> [sample_entry] ++ [forged]))) w.
Proof. cbv zeta. apply (audit_log_reads_back _ _ _ _ 1). vm_compute. reflexivity. Defined.

Lemma audit_line_json_witness :
  parse (entry_line (λ _, false) sample_entry) = Some (entry_json sample_entry) ∧
  parse (entry_line (λ _, false) (hostile (String "010" ""))) = Some (entry_json (hostile (String "010" ""))) ∧
  parse (entry_line (λ _, false) (hostile (String "007" ""))) = None.
Proof.
  split; [|split]; (etransitivity; [apply audit_line_json; simpl; lia|vm_compute; reflexivity]).
Defined.
