(* ===== verification/Recorders.v ===== *)
(** * The response writers of the middleware (middleware.go, metrics.go)

    Handlers write through the writers the audit and the metrics middleware
    put around that of net/http; each notes a status, which the audit log and
    the counters of requests use.  In the rest of the library a reply has one
    status; here is why that is right: both recorders note the status the
    client gets. *)

From S2P Require Import Prelude.

(** The calls of a handler on its [http.ResponseWriter]. *)
Inductive call := WriteHeader (code : Z) | Write.

(** The writer of net/http: the status sent, if the header is out.  A second
    header is dropped, an informational one leaves the header open, and the
    first write sends status 200. *)
Definition informational (code : Z) : bool := ((100 <=? code) && (code <=? 199) && negb (code =? 101))%Z.

#[global] Arguments informational : simpl never.

Definition net_WriteHeader (code : Z) (w : option Z) : option Z :=
  match w with
  | Some _ => w
  | None => if informational code then None else Some code
  end.

Definition net_Write (w : option Z) : option Z := match w with Some _ => w | None => Some 200%Z end.

(** [metricsResponseWriter] *)
Record metricsResponseWriter := mkMetricsWriter { m_status : Z; m_wroteHeader : bool; m_inner : option Z }.

Definition metrics_WriteHeader (code : Z) (rw : metricsResponseWriter) : metricsResponseWriter :=
  let rw := if m_wroteHeader rw then rw else mkMetricsWriter code true (m_inner rw) in
  mkMetricsWriter (m_status rw) (m_wroteHeader rw) (net_WriteHeader code (m_inner rw)).

Definition metrics_Write (rw : metricsResponseWriter) : metricsResponseWriter :=
  mkMetricsWriter (m_status rw) true (net_Write (m_inner rw)).

(** [responseWriter]; [Write] is that of the writer it embeds. *)
Record responseWriter := mkWriter { rw_status : Z; rw_inner : metricsResponseWriter }.

Definition audit_WriteHeader (code : Z) (rw : responseWriter) : responseWriter :=
  mkWriter code (metrics_WriteHeader code (rw_inner rw)).

Definition audit_Write (rw : responseWriter) : responseWriter := mkWriter (rw_status rw) (metrics_Write (rw_inner rw)).

(** The writer a handler behind both middlewares gets, and its calls. *)
Definition fresh_writer : responseWriter := mkWriter 200 (mkMetricsWriter 200 false None).

Definition do_call (rw : responseWriter) (c : call) : responseWriter :=
  match c with WriteHeader code => audit_WriteHeader code rw | Write => audit_Write rw end.

Definition handle (calls : list call) : responseWriter := foldl do_call fresh_writer calls.

(** The status the client gets: 200 when the handler says nothing. *)
Definition delivered (rw : responseWriter) : Z := default 200%Z (m_inner (rw_inner rw)).

(** No informational replies, which no handler of the program sends. *)
Definition final (c : call) : Prop := match c with WriteHeader code => informational code = false | Write => True end.

(** At most one header, before the first write. *)
Definition tidy (calls : list call) : Prop :=
  match calls with WriteHeader _ :: rest => Forall (eq Write) rest | _ => Forall (eq Write) calls end.

(** The recorder of the metrics and net/http agree in every state. *)
Definition in_step (rw : metricsResponseWriter) : Prop :=
  match m_inner rw with
  | Some code => m_wroteHeader rw = true ∧ m_status rw = code
  | None => m_wroteHeader rw = false ∧ m_status rw = 200%Z
  end.

Lemma in_step_call c rw : final c → in_step (rw_inner rw) → in_step (rw_inner (do_call rw c)).
Proof.
  destruct rw as [a [st [] inner]], c as [code|]; cbn; intros Hf; unfold in_step; cbn; destruct inner; intros []; try done.
  unfold net_WriteHeader. by rewrite Hf.
Qed.

Lemma in_step_calls calls rw : Forall final calls → in_step (rw_inner rw) → in_step (rw_inner (foldl do_call rw calls)).
Proof.
  intros H. revert rw. induction H as [|c calls Hc H IH]; intros rw Hs; [done|]. cbn [foldl]. by apply IH, in_step_call.
Qed.

Lemma writes_keep calls rw : Forall (eq Write) calls → rw_status rw = delivered rw →
  rw_status (foldl do_call rw calls) = delivered (foldl do_call rw calls).
Proof.
  intros H. revert rw. induction H as [|c calls <- H IH]; intros rw Hs; [done|]. apply IH.
  destruct rw as [a [st b [code|]]]; cbn in *; by unfold delivered in *; cbn in *.
Qed.

(** The recorded status is the one the client got: without informational
    replies the recorder of the metrics agrees with net/http after any
    sequence of headers and writes, and so does that of the audit log when the
    handler sends at most one header, before it writes. *)
Theorem recorders_agree calls : Forall final calls →
  m_status (rw_inner (handle calls)) = delivered (handle calls) ∧
  (tidy calls → rw_status (handle calls) = delivered (handle calls)).
Proof.
  intros Hf. split.
  - pose proof (in_step_calls calls fresh_writer Hf ltac:(done)) as H. unfold delivered, handle. revert H. unfold in_step.
    by destruct (m_inner _); intros [].
  - unfold handle. destruct calls as [|[code|] calls]; intros Ht; [done| |by apply writes_keep].
    apply Forall_cons in Hf as [Hc _]. cbn in Hc. apply (writes_keep calls (do_call fresh_writer (WriteHeader code))); [done|].
    cbn. unfold delivered. cbn. unfold net_WriteHeader. by rewrite Hc.
Qed.

Lemma recorders_agree_witness :
  rw_status (handle [WriteHeader 503; Write; Write]) = 503%Z ∧ delivered (handle [WriteHeader 503; Write; Write]) = 503%Z.
Proof.
  split; [|reflexivity]. apply (recorders_agree [WriteHeader 503; Write; Write]); repeat constructor.
Defined.

(** A header after a write is dropped by net/http but noted in the audit log. *)
Example late_header : rw_status (handle [Write; WriteHeader 500]) = 500%Z ∧ delivered (handle [Write; WriteHeader 500]) = 200%Z.
Proof. done. Qed.
