(* ===== verification/Serving.v ===== *)
(** * Endpoints release their mutexes

    On any file system and under any I/O faults, no endpoint blocks on a mutex
    and every one leaves them as it found them; all end except that an upload
    is only shown to end on the stores of [ModuleUpload] and [ProviderUpload]:
    what it deletes in the end is named by the metadata it found, and
    [Delete] of the root of an empty store would climb for ever. *)

From S2P Require Import Prelude GoString GoPath Os OsFacts Frame Json Decode Store Index Archive Signing Http.
From S2P Require Import Auth AuthFacts RateLimit Api Metrics Protocol ReadFacts Server.

(** ** Under the lock of a key *)

Section writing.
Context {total : bool} {P : world → Prop} {R : world → world → Prop} `{!Writing total P R}.
#[local] Abbreviation keeping := (keeps total P R).

Lemma keeps_fail_after {A B} (m : M B) (e : error) : keeping m → keeping (fail_after m e : M (result error A)).
Proof. unfold fail_after. keeps_tac. Qed.

Lemma keeps_putUnlocked s key data : keeping (putUnlocked s key data).
Proof. unfold putUnlocked, write_and_rename, fail_after, f_Sync, f_Close. keeps_tac. Qed.

Lemma keeps_copy_limited h r limit : keeping (copy_limited h r limit).
Proof. unfold copy_limited. keeps_tac. Qed.

Lemma keeps_run_validate {A} (v : string → Z → result error A) h n : keeping (run_validate v h n).
Proof. unfold run_validate. keeps_tac. Qed.

Lemma keeps_publish_immutable tmp f destination n key : keeping (publish_immutable tmp f destination n key).
Proof. unfold publish_immutable, f_Close. keeps_tac. Qed.

Lemma keeps_deferred {A B} (cleanup : A → M B) (m : M A) : (∀ a, keeping (cleanup a)) → keeping m →
  keeping (deferred cleanup m).
Proof. intros. unfold deferred. keeps_tac. Qed.

Lemma keeps_StageDeleteTree s key : keeping (StageDeleteTree s key).
Proof. unfold StageDeleteTree, os_CreateTemp, fail_after, f_Close. keeps_tac. Qed.

Lemma keeps_rollback d : keeping (rollback d).
Proof. unfold rollback. keeps_tac. Qed.
Lemma keeps_commit d : keeping (commit d).
Proof. unfold commit. keeps_tac. Qed.

Lemma keeps_gc_visit cutoff n l : keeping (gc_visit cutoff n l).
Proof. revert n. induction l as [|qn l IH]; intros n; cbn [gc_visit]; keeps_tac. Qed.
#[local] Hint Resolve keeps_gc_visit : keeps.

Lemma keeps_GarbageCollect s : keeping (GarbageCollect s).
Proof. unfold GarbageCollect. keeps_tac. Qed.

Lemma keeps_HealthCheck s : keeping (HealthCheck s).
Proof. unfold HealthCheck, os_CreateTemp, deferred, f_Close. keeps_tac. Qed.

End writing.
#[export] Hint Resolve keeps_putUnlocked keeps_copy_limited keeps_run_validate keeps_publish_immutable
  keeps_StageDeleteTree keeps_rollback keeps_commit keeps_GarbageCollect keeps_HealthCheck : keeps.

(** ** Taking and releasing the lock of a key *)

Lemma serves_Put total s key data : serves total (Put s key data).
Proof. apply serves_with_lock, keeps_partial. keeps_tac. Qed.

Lemma partial_clean_empty_dirs base rdir : keeps false anywhere undisturbed (clean_empty_dirs base rdir).
Proof.
  induction rdir as [|c rdir IH]; cbn [clean_empty_dirs]; destruct (bool_decide _);
    try (apply keeps_ret; apply _); apply keeps_bind; try apply _;
    try (apply keeps_partial; auto with keeps typeclass_instances); intros [[|]|];
    try (apply keeps_ret; apply _); apply keeps_bind; try apply _;
    try (apply keeps_partial; auto with keeps typeclass_instances); intros; [by intros w _|done].
Qed.

Lemma partial_Delete s key : serves false (Delete s key).
Proof.
  apply serves_with_lock. pose proof partial_clean_empty_dirs as Hc.
  apply keeps_try; [apply _|apply keeps_partial; auto with keeps typeclass_instances|]. intros p.
  apply keeps_bind; [apply _|apply keeps_partial; auto with keeps typeclass_instances|]. intros [[]|e]; cbv zeta.
  2: destruct (os_IsNotExist e); [|apply keeps_ret; apply _].
  all: apply keeps_bind; [apply _|apply Hc|intros; apply keeps_ret; apply _].
Qed.

(** Of the empty key, which is the root itself, the clean-up starts above the
    root and does not stop at it: in a store with nothing in it, it ends up
    trying to remove the root of the file system for ever. *)
Example Delete_root_diverges :
  let w := World {[ [] := NDir; ["srv"] := NDir ]} [] (λ _, 0%N) 0 0 ∅ false in
  Delete (mkStore ["srv"] "") "" w = None.
Proof. vm_compute. reflexivity. Qed.

Lemma serves_index total s key version : serves total (addVersionToIndex s key version).
Proof. apply serves_with_lock, keeps_partial. keeps_tac. Qed.

Lemma serves_unindex total s key version : serves total (removeVersionFromIndex s key version).
Proof. apply serves_with_lock, keeps_partial. keeps_tac. Qed.

Lemma serves_setDeprecation total s key version message : serves total (setDeprecation s key version message).
Proof. apply serves_with_lock, keeps_partial. keeps_tac. Qed.
#[export] Hint Resolve serves_Put partial_Delete serves_index serves_unindex serves_setDeprecation : keeps.

Lemma serves_PutStreamImmutable total s r maxSize validate key : serves total (PutStreamImmutable s r maxSize validate key).
Proof.
  unfold PutStreamImmutable, os_CreateTemp.
  apply keeps_try; [apply _|auto with keeps typeclass_instances|]. intros [tmp f].
  apply keeps_deferred; [intros; unfold f_Close; keeps_tac|]. unfold f_Chmod, f_Sync, f_Seek.
  do 2 (apply keeps_try; [apply _|auto with keeps typeclass_instances|]; intros).
  destruct (_ <? _)%Z; [apply keeps_ret; apply _|].
  do 2 (apply keeps_try; [apply _|auto with keeps typeclass_instances|]; intros).
  apply keeps_try; [apply _|destruct validate; keeps_tac|]. intros. cbv zeta.
  apply keeps_try; [apply _|auto with keeps typeclass_instances|]. intros.
  apply serves_with_lock, keeps_partial. keeps_tac.
Qed.
#[export] Hint Resolve serves_PutStreamImmutable : keeps.

(** ** Handlers *)

Lemma serves_ignoring {A} total (m : M A) : serves total m → serves total (ignoring m).
Proof. intros. unfold ignoring. keeps_tac. Qed.

Lemma partial_restore s key previous : serves false (restore s key previous).
Proof. unfold restore. destruct previous; apply serves_ignoring; auto with keeps. Qed.
Lemma partial_delete_unless existed s key : serves false (delete_unless existed s key).
Proof. unfold delete_unless. destruct existed; [keeps_tac|]. apply serves_ignoring. auto with keeps. Qed.
Lemma partial_delete_old s prefix filename old : serves false (delete_old s prefix filename old).
Proof.
  unfold delete_old. destruct old as [o|]; [|keeps_tac]. destruct (_ && _); [|keeps_tac]. apply serves_ignoring. auto with keeps.
Qed.
#[export] Hint Resolve partial_restore partial_delete_unless partial_delete_old : keeps.

Lemma serves_rebuild total s signer ns name version : serves total (rebuildProviderChecksums s signer ns name version).
Proof.
  unfold rebuildProviderChecksums. destruct signer as [g|]; [|keeps_tac].
  apply keeps_try; [apply _|auto with keeps typeclass_instances|]. intros platforms.
  apply keeps_bind; [apply _|auto with keeps typeclass_instances|]. intros [|e l]; [keeps_tac|]. cbv zeta.
  apply keeps_try; [apply _|keeps_tac|]. intros signature. destruct (providerChecksumsNames name version). keeps_tac.
Qed.
#[export] Hint Resolve serves_rebuild : keeps.

Lemma partial_uploadProvider zip s signer maxSize vars up :
  answers false (uploadProviderHandler zip s signer maxSize vars up).
Proof.
  apply answers_with_mutation. cbv zeta. unfold publish_provider, AddProviderVersion, providerChecksumsNames. keeps_tac.
Qed.

Lemma partial_uploadModule gzip s maxSize vars up : answers false (uploadModuleHandler gzip s maxSize vars up).
Proof. apply answers_with_mutation. cbv zeta. unfold publish_module, AddModuleVersion. keeps_tac. Qed.

Lemma serves_delete_version total s prefix remove deleted : serves total remove →
  serves total (delete_version s prefix remove deleted).
Proof. intros. unfold delete_version, ignoring. keeps_tac. Qed.

Lemma answers_deleteProviderVersion total s vars : answers total (deleteProviderVersionHandler s vars).
Proof. apply answers_with_mutation. cbv zeta. apply serves_delete_version, serves_unindex. Qed.
Lemma answers_deleteModuleVersion total s vars : answers total (deleteModuleVersionHandler s vars).
Proof. apply answers_with_mutation. cbv zeta. apply serves_delete_version, serves_unindex. Qed.

Lemma answers_deprecateProvider total s vars body : answers total (deprecateProviderHandler s vars body).
Proof. apply answers_with_mutation. cbv zeta. unfold deprecate_version, DeprecateProviderVersion. keeps_tac. Qed.
Lemma answers_deprecateModule total s vars body : answers total (deprecateModuleHandler s vars body).
Proof. apply answers_with_mutation. cbv zeta. unfold deprecate_version, DeprecateModuleVersion. keeps_tac. Qed.
Lemma answers_gc total s : answers total (gcHandler s).
Proof. apply answers_with_mutation. keeps_tac. Qed.

(** ** The whole server *)

#[export] Instance answers_reading total : Reading total idle same_time.
Proof. split; [apply _|..]; intros; apply serves_answers; auto with keeps typeclass_instances. Qed.
#[export] Instance answers_writing total : Writing total idle same_time.
Proof. split; [apply _|..]; intros; apply serves_answers; auto with keeps typeclass_instances. Qed.

Section server.
Context {Time : Type}.
Context (dec_time : decoder Time) (enc_time : Time → option json) (zero_time : Time).
Context (zip_NewReader : string → Z → result error (list zip_file)).
Context (gzip_NewReader : string → result error tar_stream).
Context (s : Store) (signer : option RegistrySigner) (maxUploadSize : Z) (ui : assets).
#[local] Abbreviation server := (Server.server (Time := Time)).
#[local] Abbreviation Handler := (Server.Handler (Time := Time)).
#[local] Abbreviation serve := (serve_endpoint zip_NewReader gzip_NewReader s signer maxUploadSize ui).

Definition is_upload (e : endpoint) : bool := match e with UploadProvider | UploadModule => true | _ => false end.

Definition all_answer (total : bool) (h : Handler) : Prop := ∀ r vars sv, answers total (h r vars sv).

Lemma endpoint_answers e : all_answer (negb (is_upload e)) (serve e).
Proof.
  intros r vars sv. destruct e; cbn [is_upload negb serve_endpoint]; unfold answer, healthHandler.
  all: try (apply keeps_bind; [apply _| |intros; apply keeps_ret; apply _]).
  all: auto using partial_uploadProvider, partial_uploadModule, answers_deleteProviderVersion, answers_deleteModuleVersion,
    answers_deprecateProvider, answers_deprecateModule, answers_gc with keeps typeclass_instances.
  all: keeps_tac.
Qed.

Lemma chain_answers total (h : Handler) : all_answer total h → all_answer total (chain dec_time enc_time zero_time h).
Proof.
  intros H r vars sv. unfold chain, metricsMiddleware, securityHeadersMiddleware, rateLimitMiddleware, auditMiddleware,
    authMiddleware, routeValidationMiddleware. unfold all_answer in H. cbv zeta. keeps_tac.
Qed.

End server.
