(* ===== verification/Guard.v ===== *)
(** * What the middleware lets through

    A middleware either refuses a request, with a reply that does not depend
    on what it wraps, or passes it on.  The guards of the chain compose, and a
    request that changes the registry is passed on only with a key of
    sufficient permission. *)

From S2P Require Import Prelude GoString SemVer Validation GoPath Sha256 Os OsFacts Frame Json Decode Store Index.
From S2P Require Import Archive Signing Http Auth AuthFacts RateLimit Api Metrics Protocol ReadFacts Server.

#[local] Opaque sha256_hex.

(** A key with this permission may do what requires that one. *)
Definition suffices (held required : Permission) : Prop :=
  ∃ h r, rank held = Some h ∧ rank required = Some r ∧ r ≤ h.

Section guard.
Context {Time : Type}.
Context (dec_time : decoder Time) (enc_time : Time → option json) (zero_time : Time).
#[local] Abbreviation server := (Server.server (Time := Time)).
#[local] Abbreviation Handler := (Server.Handler (Time := Time)).
#[local] Abbreviation KeyStore := (Auth.KeyStore Time).
#[local] Abbreviation APIKey := (Auth.APIKey Time).

(** What a middleware does after the handler it wraps: it replies in any case,
    with the same status, and changes nothing outside the state of the
    server. *)
Definition finishes (post : response * server → M (response * server)) : Prop :=
  ∀ resp sv w, ∃ resp' sv', post (resp, sv) w = Some ((resp', sv'), w) ∧ status resp' = status resp.

(** On this request in this state, [mw] refuses with a status of [refusals] or
    passes the request on in a state of [admitted]. *)
Definition gate (mw : Handler → Handler) (refusals : list Z) (admitted : server → world → Prop)
    (r : request) (vars : Vars) (sv : server) (w : world) : Prop :=
  (∃ resp sv' w', status resp ∈ refusals ∧ ∀ next, mw next r vars sv w = Some ((resp, sv'), w')) ∨
  (∃ sv1 w1 post, admitted sv1 w1 ∧ finishes post ∧ ∀ next, mw next r vars sv w = (next r vars sv1 ≫= post) w1).

Lemma gate_mono mw L L' (P P' : server → world → Prop) r vars sv w :
  (∀ x, x ∈ L → x ∈ L') → (∀ sv w, P sv w → P' sv w) → gate mw L P r vars sv w → gate mw L' P' r vars sv w.
Proof.
  intros HL HP [(resp & sv' & w' & Hs & H)|(sv1 & w1 & post & Ha & Hf & H)]; [left|right].
  - exists resp, sv', w'. auto.
  - exists sv1, w1, post. auto.
Qed.

(** The outer middleware finishes whatever the inner one does. *)
Lemma gate_compose (mw1 mw2 : Handler → Handler) L (P1 P2 : server → world → Prop) r vars sv w :
  gate mw1 L P1 r vars sv w → (∀ sv1 w1, P1 sv1 w1 → gate mw2 L P2 r vars sv1 w1) →
  gate (λ next, mw1 (mw2 next)) L P2 r vars sv w.
Proof.
  intros [(resp & sv' & w' & Hs & H)|(sv1 & w1 & post & Ha & Hf & H)] H2; [left; exists resp, sv', w'; auto|].
  destruct (H2 sv1 w1 Ha) as [(resp & sv2 & w2 & Hs & E2)|(sv2 & w2 & post2 & Ha2 & Hf2 & E2)].
  - left. destruct (Hf resp sv2 w2) as (resp' & sv' & E & Es). exists resp', sv', w2. rewrite Es. split; [done|].
    intros next. rewrite H. unfold mbind, M_bind. by rewrite E2, E.
  - right. exists sv2, w2, (λ x, post2 x ≫= post). split; [done|]. split.
    + intros resp sv3 w3. destruct (Hf2 resp sv3 w3) as (resp' & sv' & E & Es).
      destruct (Hf resp' sv' w3) as (resp'' & sv'' & E' & Es'). exists resp'', sv''.
      unfold mbind, M_bind. rewrite E. split; [done|congruence].
    + intros next. rewrite H. unfold mbind, M_bind. rewrite E2. unfold mbind, M_bind.
      by destruct (next r vars sv2 w2) as [[]|].
Qed.

Lemma finishes_ret (f : response * server → response * server) : (∀ x, status (f x).1 = status x.1) →
  finishes (λ x, mret (f x)).
Proof.
  intros H resp sv w. exists (f (resp, sv)).1, (f (resp, sv)).2. split; [|apply H].
  by rewrite <- surjective_pairing.
Qed.

(** A middleware that passes everything on. *)
Lemma gate_pass (mw : Handler → Handler) f post (P : server → world → Prop) r vars sv w :
  finishes post → P (f sv) w → (∀ next, mw next r vars sv w = (next r vars (f sv) ≫= post) w) → gate mw [] P r vars sv w.
Proof. intros Hf HP H. right. exists (f sv), w, post. auto. Qed.

(** The middleware does nothing after the handler. *)
Lemma gate_tail (mw : Handler → Handler) L (P : server → world → Prop) sv1 w1 r vars sv w :
  P sv1 w1 → (∀ next, mw next r vars sv w = next r vars sv1 w1) → gate mw L P r vars sv w.
Proof.
  intros HP H. right. exists sv1, w1, mret. split; [done|]. split; [by apply (finishes_ret (λ x, x))|].
  intros next. rewrite H. unfold mbind, M_bind, mret, M_ret. by destruct (next r vars sv1 w1) as [[]|].
Qed.

Lemma gate_refuse (mw : Handler → Handler) L (P : server → world → Prop) resp sv' w' r vars sv w :
  status resp ∈ L → (∀ next, mw next r vars sv w = Some ((resp, sv'), w')) → gate mw L P r vars sv w.
Proof. intros HP H. left. exists resp, sv', w'. auto. Qed.

Lemma respond_split resp (sv : server) : respond resp sv = (resp, (respond resp sv).2).
Proof. done. Qed.

(** ** One middleware at a time *)

(** What passing a middleware does to the keys, and, when the key file is as it
    was loaded, to nothing else. *)
Definition admits (sv : server) (w : world) (sv1 : server) (w1 : world) : Prop :=
  renewed (sv_keys sv) (sv_keys sv1) ∧
  (keys_current (sv_keys sv) w → same w w1 ∧ sv_keys sv1 = sv_keys sv).

Lemma admits_refl (sv sv1 : server) w : sv_keys sv1 = sv_keys sv → admits sv w sv1 w.
Proof. intros E. split; [rewrite E; by left|]. by intros _. Qed.

Lemma admits_trans sv1 w1 sv2 w2 sv3 w3 : admits sv1 w1 sv2 w2 → admits sv2 w2 sv3 w3 → admits sv1 w1 sv3 w3.
Proof.
  intros [R1 H1] [R2 H2]. split; [by eapply renewed_trans|]. intros Hk. destruct (H1 Hk) as [S1 E1].
  destruct H2 as [S2 E2]; [rewrite E1; by eapply keys_current_same|]. split; [by transitivity w2|congruence].
Qed.

(** What a question about keys leaves. *)
Lemma admits_asked {A} (m : M (A * KeyStore)) sv w a ks w1 : m w = Some ((a, ks), w1) → renewed (sv_keys sv) ks →
  (keys_current (sv_keys sv) w → wp m (λ res w', same w w' ∧ res.2 = sv_keys sv) w) → admits sv w (set_keys ks sv) w1.
Proof. intros E Hr H. split; [done|]. intros Hk. specialize (H Hk). unfold wp in H. by rewrite E in H. Qed.

(** Nothing that authorisation depends on has changed. *)
Definition unaltered (sv : server) (w : world) (sv1 : server) (w1 : world) : Prop :=
  sv_keys sv1 = sv_keys sv ∧ w1 = w.

Lemma metrics_gate r vars sv w : gate metricsMiddleware [] (unaltered sv w) r vars sv w.
Proof.
  apply (gate_pass _ (add RequestsTotal)
    (λ x, mret (x.1, add (if (status x.1 <? 400)%Z then RequestsOK else RequestsErr) x.2))); [|done|].
  - by apply finishes_ret.
  - intros next. unfold metricsMiddleware, mbind, M_bind. by destruct (next _ _ _ _) as [[[]]|].
Qed.

Lemma security_gate r vars sv w : gate securityHeadersMiddleware [] (unaltered sv w) r vars sv w.
Proof.
  apply (gate_pass _ (λ sv, sv) (λ x, mret (with_headers security_headers x.1, x.2))); [|done|].
  - by apply finishes_ret.
  - intros next. unfold securityHeadersMiddleware, mbind, M_bind. by destruct (next _ _ _ _) as [[[]]|].
Qed.

Lemma rate_gate r vars sv w : gate rateLimitMiddleware [429%Z] (unaltered sv w) r vars sv w.
Proof.
  destruct (allow (w_now w) (client_ip (sv_limiter sv) r) (sv_limiter sv)) as [[] rl] eqn:E.
  - apply (gate_tail _ _ _ (set_limiter rl sv) w); [done|]. intros next.
    unfold rateLimitMiddleware, mbind, M_bind, time_Now. by rewrite E.
  - apply (gate_refuse _ _ _ (rate_limited rl) (respond (rate_limited rl) (set_limiter rl sv)).2 w); [by left|].
    intros next. unfold rateLimitMiddleware, mbind, M_bind, time_Now. by rewrite E.
Qed.

(** Who asks, for the audit log: [Validate] on the server's keys. *)
Definition identified (r : request) (sv : server) (w : world) (sv1 : server) (w1 : world) : Prop :=
  managed r = true → extractAPIKey r ≠ "" →
  ∃ who, Validate dec_time enc_time zero_time (sv_keys sv) (extractAPIKey r) w = Some ((who, sv_keys sv1), w1).

Lemma audit_gate r vars sv w : gate (auditMiddleware dec_time enc_time zero_time) []
  (λ sv1 w1, admits sv w sv1 w1 ∧ identified r sv w sv1 w1) r vars sv w.
Proof.
  destruct (managed r) eqn:Em.
  2:{ apply (gate_tail _ _ _ sv w); [split; [by apply admits_refl|unfold identified; by rewrite Em]|]. intros next.
      unfold auditMiddleware. by rewrite Em. }
  set (post keyName (x : response * server) := now ← time_Now;
    mret (x.1, Log (mkAudit now "api_request" keyName (r_Method r) (r_Path r) (r_RemoteAddr r) (status x.1)
                      (r_Method r +:+ " " +:+ r_Path r)) x.2)).
  assert (∀ k, finishes (post k)) as Hpost by (intros k resp sv1 w1; by eexists _, _).
  destruct (String.eqb (extractAPIKey r) "") eqn:Ek.
  - right. exists sv, w, (post "anonymous"). split; [split; [by apply admits_refl|]|].
    { intros _ Hne. by apply String.eqb_eq in Ek. } split; [done|]. intros next.
    unfold auditMiddleware. rewrite Em. cbn [negb]. rewrite Ek. unfold mbind, M_bind, mret, M_ret.
    by destruct (next r vars sv w) as [[[]]|].
  - destruct (yields_total anywhere undisturbed _ _ w (keeps_Validate dec_time enc_time zero_time (sv_keys sv) (extractAPIKey r))
      (yields_Validate dec_time enc_time zero_time (sv_keys sv) (extractAPIKey r)) I) as ([ak ks] & w1 & E & [Hr _] & _).
    right. exists (set_keys ks sv), w1, (post match ak with Some ak => ak_Name ak | None => "anonymous" end).
    split; [split; [by eapply admits_asked; [exact E|exact Hr|intros Hk; apply wp_Validate_current]|]|].
    { intros _ _. by exists ak. } split; [done|].
    intros next. unfold auditMiddleware. rewrite Em. cbn [negb]. rewrite Ek.
    unfold mbind, M_bind, mret, M_ret. rewrite E. by destruct (next r vars (set_keys ks sv) w1) as [[[]]|].
Qed.

(** The presented key is that of an enabled key of the store, with enough
    permission. *)
Definition authorised (r : request) (ks : KeyStore) (ak : APIKey) : Prop :=
  extractAPIKey r ≠ "" ∧ ak ∈ ks_keysList ks ∧ ak_Enabled ak = true ∧ ak_Hash ak = sha256_hex (extractAPIKey r) ∧
  suffices (ak_Permission ak) (requiredPermission r).

(** The requests [authMiddleware] asks a key for. *)
Definition guarded (r : request) : bool := managed r && negb (is_read r && negb (privateSecurityRead r)).

Lemma required_rank r : is_Some (rank (requiredPermission r)).
Proof.
  unfold requiredPermission. destruct (String.eqb (r_Path r) "/api/v1/gc" || Contains (r_Path r) "/waivers"); [by eexists|].
  destruct (String.eqb (r_Method r) "DELETE"); [by eexists|]. destruct (_ || _ || _); by eexists.
Qed.

Lemma permits_suffices held required : valid_permission held = true → is_Some (rank required) →
  permits held required = true → suffices held required.
Proof.
  intros Hv [n Hn] H. rewrite permits_rank in H by done. apply valid_permission_rank in Hv as [h Hh].
  rewrite Hh, Hn in H. exists h, n. split_and!; [done..|]. by apply Nat.leb_le.
Qed.

(** The answer of [HasPermission] that lets it pass. *)
Definition permitted (r : request) (sv : server) (w : world) (sv1 : server) (w1 : world) : Prop :=
  HasPermission dec_time enc_time zero_time (sv_keys sv) (extractAPIKey r) (requiredPermission r) w =
    Some ((true, sv_keys sv1), w1) ∧ ∃ ak, authorised r (sv_keys sv1) ak.

Lemma auth_gate r vars sv w : store_ok (sv_keys sv) →
  gate (authMiddleware dec_time enc_time zero_time) [401%Z; 403%Z] (λ sv1 w1, admits sv w sv1 w1 ∧
    (guarded r = true → permitted r sv w sv1 w1)) r vars sv w.
Proof.
  intros Hok. destruct (guarded r) eqn:Eg.
  2:{ apply (gate_tail _ _ _ sv w); [by split; [apply admits_refl|]|]. intros next. unfold authMiddleware, guarded in *.
      destruct (managed r); [|done]. cbn [negb andb orb] in *. apply negb_false_iff in Eg. by rewrite Eg. }
  assert (∀ next, authMiddleware dec_time enc_time zero_time next r vars sv =
    if String.eqb (extractAPIKey r) "" then _ else _) as E by (intros next; unfold authMiddleware, guarded in *;
    apply andb_true_iff in Eg as [-> Eg]; apply negb_true_iff in Eg; rewrite Eg; reflexivity).
  destruct (String.eqb_spec (extractAPIKey r) "") as [Ek|Ek].
  { eapply gate_refuse; [|intros next; rewrite E; reflexivity]. by left. }
  destruct (yields_total anywhere undisturbed _ _ w
    (keeps_HasPermission dec_time enc_time zero_time (sv_keys sv) (extractAPIKey r) (requiredPermission r))
    (yields_HasPermission dec_time enc_time zero_time (sv_keys sv) (extractAPIKey r) (requiredPermission r)) I)
    as ([ok ks] & w1 & E1 & [Hr Hyes] & _). simpl in Hr, Hyes.
  destruct ok.
  - apply (gate_tail _ _ _ (set_keys ks sv) w1).
    + split; [by eapply admits_asked; [exact E1|exact Hr|intros Hk; apply wp_HasPermission_current]|].
      intros _. split; [exact E1|]. destruct (String.eqb_spec (extractAPIKey r) "") as [?|_]; [done|].
      destruct (find_key ks (extractAPIKey r)) as [ak|] eqn:Ef; [|done]. exists ak.
      apply find_key_some in Ef as (Hin & He & Hh). split; [done|]. split; [done|]. split; [done|]. split; [done|].
      pose proof (renewed_ok _ _ Hok Hr) as [[Hall _ _] _]. rewrite Forall_forall in Hall.
      apply permits_suffices; [by apply Hall|apply required_rank|done].
    + intros next. rewrite E. unfold mbind, M_bind. by rewrite E1.
  - destruct (keeps_total anywhere undisturbed _ w1 (keeps_Validate dec_time enc_time zero_time ks (extractAPIKey r)) I)
      as ([ak ks'] & w2 & E2 & _).
    eapply gate_refuse; [|intros next; rewrite E; unfold mbind, M_bind; rewrite E1; cbn [negb]; rewrite E2; reflexivity].
    right. by left.
Qed.

Lemma validation_gate r vars sv w : gate routeValidationMiddleware [400%Z]
  (λ sv1 w1, sv1 = sv ∧ w1 = w ∧ Forall (λ kv, valid_route_var kv.1 kv.2 = true) (map_to_list (vars : gmap string string))) r vars sv w.
Proof.
  destruct (routeValidation (map_to_list (vars : gmap string string))) as [key|] eqn:E.
  - eapply gate_refuse; [|intros next; unfold routeValidationMiddleware; rewrite E; reflexivity]. by left.
  - apply (gate_tail _ _ _ sv w); [split; [done|split; [done|by apply routeValidation_none]]|].
    intros next. unfold routeValidationMiddleware. by rewrite E.
Qed.

(** The statuses of the chain's own replies. *)
Definition refusals : list Z := [400; 401; 403; 429]%Z.

(** What the chain asked the key store, starting from the keys of [sv] in [w],
    before it passed the request on: first who it is, then whether they may. *)
Definition vetted (r : request) (sv : server) (w : world) (sv1 : server) (w1 : world) : Prop :=
  ∃ who ks0 w0, Validate dec_time enc_time zero_time (sv_keys sv) (extractAPIKey r) w = Some ((who, ks0), w0) ∧
    HasPermission dec_time enc_time zero_time ks0 (extractAPIKey r) (requiredPermission r) w0 = Some ((true, sv_keys sv1), w1).

Lemma guarded_managed r : guarded r = true → managed r = true.
Proof. by intros [? _]%andb_true_iff. Qed.

Lemma chain_gate r vars sv w : store_ok (sv_keys sv) →
  gate (chain dec_time enc_time zero_time) refusals (λ sv1 w1, admits sv w sv1 w1 ∧
    (guarded r = true → vetted r sv w sv1 w1 ∧ ∃ ak, authorised r (sv_keys sv1) ak) ∧
    Forall (λ kv, valid_route_var kv.1 kv.2 = true) (map_to_list (vars : gmap string string))) r vars sv w.
Proof.
  intros Hok. unfold chain.
  apply (gate_compose metricsMiddleware _ _ (unaltered sv w));
    [eapply gate_mono; [| |apply metrics_gate]; [by intros x ?%elem_of_nil|done]|]. intros sv1 w1 [K1 ->].
  apply (gate_compose securityHeadersMiddleware _ _ (unaltered sv w));
    [eapply gate_mono; [| |apply security_gate]; [by intros x ?%elem_of_nil|intros ?? [E ->]; by split; [congruence|]]|].
  intros sv2 w2 [K2 ->].
  apply (gate_compose rateLimitMiddleware _ _ (unaltered sv w));
    [eapply gate_mono; [| |apply rate_gate]; [unfold refusals; set_solver|intros ?? [E ->]; by split; [congruence|]]|].
  intros sv3 w3 [K3 ->].
  apply (gate_compose (auditMiddleware dec_time enc_time zero_time) _ _ (λ sv4 w4, admits sv w sv4 w4 ∧ identified r sv w sv4 w4)).
  { eapply gate_mono; [| |apply audit_gate]; [by intros x ?%elem_of_nil|]. unfold admits, identified. rewrite K3. auto. }
  intros sv4 w4 [H4 Hid].
  apply (gate_compose (authMiddleware dec_time enc_time zero_time) _ _ (λ sv5 w5, admits sv w sv5 w5 ∧
    (guarded r = true → vetted r sv w sv5 w5 ∧ ∃ ak, authorised r (sv_keys sv5) ak))).
  { eapply gate_mono; [| |apply auth_gate; eapply renewed_ok; [exact Hok|apply H4]]; [unfold refusals; set_solver|].
    simpl. intros sv5 w5 [H5 Hp]. split; [by eapply admits_trans|]. intros Hg. destruct (Hp Hg) as [Hhas [ak Hak]].
    split; [|by exists ak]. destruct (Hid (guarded_managed r Hg) (proj1 Hak)) as [who Hwho]. by exists who, (sv_keys sv4), w4. }
  intros sv5 w5 [H5 H6]. eapply gate_mono; [| |apply validation_gate]; [unfold refusals; set_solver|].
  simpl. intros sv6 w6 (-> & -> & H7). by split_and!.
Qed.

End guard.
