(* ===== verification/NameFacts.v ===== *)
(** * Names that make good keys

    Validated names, versions and the file names built from them are ordinary
    components of keys, and the keys of one upload do not interfere. *)

From S2P Require Import Prelude GoString SemVer GoPath Regex Validation Sha256 Json Utf8Facts Os Store StoreFacts.
From S2P Require Import KeyValue Confine StoreSpec Index Archive Signing Http Api.

(** ** Ordinary file names *)

Definition is_file_char (a : ascii) : bool := is_version_char a || bool_decide (a = "_"%char).

(** A name that starts with a letter or digit, in the characters of names and
    versions. *)
Definition file_name (c : string) : Prop :=
  sforall is_file_char c = true ∧ ∃ a s, c = String a s ∧ is_alnum a = true.

Lemma file_name_no_char x c : is_file_char x = false → file_name c → no_char x c.
Proof. intros Hx [Hc _]. by eapply no_char_sforall. Qed.

Lemma file_name_prefix c p x : p = String "." x → file_name c → HasPrefix c p = false.
Proof.
  intros -> [_ (a & s & -> & Ha)]. simpl. rewrite bool_decide_eq_false_2; [done|]. intros E; by subst.
Qed.

Lemma file_name_plain c : file_name c → plain c.
Proof. intros [_ (a & s & -> & Ha)]. split; [done|]. split; intros [= -> _]; done. Qed.

Lemma file_name_part c : file_name c → key_part c.
Proof.
  intros H. split; [by apply file_name_plain|]. split; [by apply file_name_no_char|].
  split; [by apply file_name_no_char|]. by eapply file_name_prefix.
Qed.

Lemma file_char_ascii a : is_file_char a = true → (byte_of a < 128)%N.
Proof. destruct a as [[] [] [] [] [] [] [] []]; vm_compute; congruence. Qed.

Lemma file_chars_utf8 c : sforall is_file_char c = true → valid_utf8 c = true.
Proof.
  unfold valid_utf8. induction c as [|a c IH]; [done|]. simpl. intros [Ha%file_char_ascii Hc]%andb_true_iff.
  rewrite (proj2 (N.ltb_lt _ _)) by done. auto.
Qed.

Lemma file_name_app c t : file_name c → sforall is_file_char t = true → file_name (c +:+ t).
Proof.
  intros [Hc (a & s & -> & Ha)] Ht. split; [by rewrite sforall_app, Hc|].
  exists a, (s +:+ t). by rewrite sapp_cons.
Qed.

Lemma name_char_file a : is_name_char a = true → is_file_char a = true.
Proof. destruct a as [[] [] [] [] [] [] [] []]; vm_compute; congruence. Qed.
Lemma version_char_file a : is_version_char a = true → is_file_char a = true.
Proof. unfold is_file_char. by intros ->. Qed.
Lemma lower_hex_eq a : lower_hex a = is_lower_hex a.
Proof. unfold lower_hex, is_lower_hex. apply orb_comm. Qed.
Lemma lower_hex_file a : lower_hex a = true → is_file_char a = true.
Proof. destruct a as [[] [] [] [] [] [] [] []]; vm_compute; congruence. Qed.

Lemma name_file n : validArtifactName n = true → file_name n.
Proof.
  intros Hn. split; [eapply sforall_impl; [apply name_char_file|by apply name_chars]|].
  apply validArtifactName_iff in Hn as (a & s & -> & Ha & _). by exists a, s.
Qed.

Lemma version_file v : valid v → file_name v.
Proof.
  intros Hv. split; [eapply sforall_impl; [apply version_char_file|by apply valid_version_chars]|].
  apply valid_version_shape in Hv as (_ & mj & r & -> & Hn & Hd & _).
  destruct mj as [|a mj]; [done|]. exists a, (mj +:+ String "." r). split; [by rewrite sapp_cons|].
  simpl in Hd. apply andb_true_iff in Hd as [Hd _]. unfold is_alnum. unfold is_digit in Hd. rewrite Hd.
  by rewrite orb_true_r.
Qed.

Lemma sha_file d : sforall is_file_char (sha256_hex d) = true.
Proof. eapply sforall_impl; [apply lower_hex_file|apply sha256_hex_lower]. Qed.

Lemma file_chars c : file_name c → sforall is_file_char c = true.
Proof. by intros [? _]. Qed.

(** ** Keys made of such names *)

Lemma good_names l : l ≠ [] → Forall file_name l → good_key l.
Proof. intros Hn H. split; [done|]. eapply Forall_impl; [exact H|]. apply file_name_part. Qed.

Lemma ordinary_names l : l ≠ [] → Forall file_name l → ordinary l.
Proof.
  intros Hn H. split; [by apply good_names|]. eapply Forall_impl; [exact H|].
  intros c Hc. by eapply file_name_prefix.
Qed.

(** Neither key is above the other. *)
Definition apart (k l : list string) : Prop := ¬ k `prefix_of` l ∧ ¬ l `prefix_of` k.

Lemma apart_sym k l : apart k l → apart l k.
Proof. by intros []. Qed.

Lemma apart_neq k l : apart k l → k ≠ l.
Proof. intros [H _] ->. by apply H. Qed.

Lemma apart_siblings P a b : a ≠ b → apart (P ++ [a]) (P ++ [b]).
Proof.
  intros Hab. split; intros [x E]; rewrite <- app_assoc in E; apply app_inv_head in E; by injection E.
Qed.

Lemma apart_below P a b x : a ≠ b → apart (P ++ [a]) ((P ++ [b]) ++ [x]).
Proof.
  intros Hab. split; intros [y E]; rewrite <- !app_assoc in E; apply app_inv_head in E; by injection E.
Qed.

(** The last byte of a name tells the kinds of files apart. *)
Fixpoint last_byte (s : string) : option ascii :=
  match s with "" => None | String a "" => Some a | String _ s => last_byte s end.

Lemma last_byte_app s t : t ≠ "" → last_byte (s +:+ t) = last_byte t.
Proof.
  intros Ht. induction s as [|a s IH]; [done|]. rewrite sapp_cons.
  destruct (s +:+ t) as [|b u] eqn:E; [|by rewrite <- IH]. by apply sapp_eq_nil in E as [_ ?].
Qed.

Lemma last_byte_neq s t : last_byte s ≠ last_byte t → s ≠ t.
Proof. by intros H ->. Qed.

Lemma version_not_index v : valid v → v ≠ "index.json".
Proof. intros Hv ->. vm_compute in Hv. discriminate. Qed.
