(* ===== verification/KeysFile.v ===== *)
(** * The file of API keys, read back

    A rewritten key file gives the same keys when it is read again, and needs
    no further migration; it holds no plaintext.  The codec of [time.Time] is
    assumed to read what it wrote. *)

From S2P Require Import Prelude GoString SemVer Regex Validation GoPath Sha256 Os OsFacts Json JsonFacts Utf8Facts.
From S2P Require Import Decode DecodeFacts Frame Store StoreFacts KeyValue StoreSpec Http Auth Draft AuthFacts NameFacts.

#[local] Opaque sha256_hex.

Lemma lower_hex_file_char a : lower_hex a = true → is_file_char a = true.
Proof. destruct a as [[] [] [] [] [] [] [] []]; vm_compute; congruence. Qed.

Lemma digest_utf8 h : is_digest h → valid_utf8 h = true.
Proof. intros [_ H]. apply file_chars_utf8. eapply sforall_impl; [|exact H]. apply lower_hex_file_char. Qed.

Section codec.
Context {Time : Type}.
Context (dec_time : decoder Time) (enc_time : Time → option json) (zero_time : Time).
#[local] Abbreviation APIKey := (Auth.APIKey Time).
#[local] Abbreviation KeyStore := (Auth.KeyStore Time).
#[local] Abbreviation dec_key := (dec_APIKey dec_time zero_time).
#[local] Abbreviation enc_config := (enc_APIKeysConfig enc_time).
#[local] Abbreviation loads := (AuthFacts.loads dec_time zero_time).

(** [time.Time] reads what it wrote: text that is not null, whatever the
    destination held. *)
Class TimeCodec : Prop := {
  tc_text t v : enc_time t = Some v → textual v ∧ v ≠ JNull;
  tc_read t v cur : enc_time t = Some v → dec_time cur v = (t, true)
}.

(** Keys whose strings are valid UTF-8. *)
Record key_utf8 (k : APIKey) : Prop := {
  ku_Key : valid_utf8 (ak_Key k) = true;
  ku_Hash : valid_utf8 (ak_Hash k) = true;
  ku_Name : valid_utf8 (ak_Name k) = true;
  ku_Permission : valid_utf8 (ak_Permission k) = true;
  ku_Description : valid_utf8 (ak_Description k) = true
}.

Lemma zero_key_utf8 : key_utf8 (zero_APIKey zero_time).
Proof. by split. Qed.

(** Every string field keeps the others and takes a decoded string; the other
    fields hold no strings. *)
Lemma preserves_key : preserves key_utf8 dec_key.
Proof.
  apply preserves_struct. repeat apply Forall_cons_2; [..|apply Forall_nil_2].
  1-4,8: by (eapply preserves_field; [| |apply preserves_string]; [by intros t []|intros x t ? []; by split]).
  all: eapply (preserves_field _ (λ _, True)); [done| |done]; intros x t _ []; by split.
Qed.

Lemma preserves_config : preserves (λ c : APIKeysConfig (Time := Time), Forall key_utf8 (default [] c)) (dec_APIKeysConfig dec_time zero_time).
Proof.
  apply preserves_struct. apply Forall_cons_2; [|apply Forall_nil_2].
  eapply preserves_field; [| |apply preserves_slice; [apply zero_key_utf8|apply preserves_key]];
    [intros t H; exact H|intros x t H _; exact H].
Qed.

Lemma normalised_utf8 k : key_utf8 k → is_digest (ak_Hash (normalised k)) → key_utf8 (normalised k).
Proof.
  intros [] Hd. apply digest_utf8 in Hd. revert Hd. unfold normalised, clear_plaintext.
  by destruct (String.eqb (ak_Key k) ""), (String.eqb (ak_Hash k) ""); split.
Qed.

(** Loaded keys are as they should be. *)
Lemma loads_inv data l m : loads data = Some (l, m) → keys_ok l ∧ Forall key_utf8 l.
Proof.
  unfold AuthFacts.loads.
  assert (Forall key_utf8 (default [] (Unmarshal (dec_APIKeysConfig dec_time zero_time) data None).1)) as Hu
    by exact (preserves_Unmarshal _ _ data None preserves_config (Forall_nil_2 _)).
  destruct (Unmarshal (dec_APIKeysConfig dec_time zero_time) data None) as [config []]; [|done].
  pose proof (check_config_correct config _ eq_refl) as Hc.
  destruct (check_config config) as [[l' m']|e]; [|done]. intros [= -> ->].
  destruct Hc as (Hl & -> & _). split; [done|]. apply Forall_fmap. simpl in Hu.
  pose proof (ko_each _ Hl) as He. rewrite Forall_fmap in He. rewrite Forall_forall in *. intros k Hk.
  apply normalised_utf8; [exact (Hu k Hk)|]. apply (He k Hk).
Qed.

Context {TC : TimeCodec}.

(** ** One key *)

Definition enc_used (used : option Time) : option (list (string * json)) :=
  match used with
  | None => Some []
  | Some t => v ← enc_time t; Some [("last_used_at", v)]
  end.

(** The members of an encoded key without a plaintext. *)
Lemma enc_key_members (k : APIKey) v : ak_Key k = "" → enc_APIKey enc_time k = Some v →
  ∃ created used, enc_time (ak_CreatedAt k) = Some created ∧ enc_used (ak_LastUsedAt k) = Some used ∧
    v = JObj ([("hash", JStr (ak_Hash k)); ("name", JStr (ak_Name k)); ("permission", JStr (ak_Permission k));
               ("enabled", JBool (ak_Enabled k)); ("created_at", created)]
              ++ used ++ opt_string "description" (ak_Description k)).
Proof.
  intros HK H. unfold enc_APIKey in H. rewrite HK in H.
  destruct (enc_time (ak_CreatedAt k)) as [created|]; simpl in H; [|done].
  fold (enc_used (ak_LastUsedAt k)) in H. destruct (enc_used (ak_LastUsedAt k)) as [used|]; simpl in H; [|done].
  injection H as <-. by exists created, used.
Qed.

Lemma dec_enc_key (k : APIKey) v : ak_Key k = "" → enc_APIKey enc_time k = Some v →
  dec_key (zero_APIKey zero_time) v = (k, true).
Proof.
  intros HK (created & used & Ec & Eu & ->)%enc_key_members; [|done].
  destruct k as [key hash name perm enabled ca lu descr]. simpl in HK, Ec, Eu. subst key.
  cbn [ak_Hash ak_Name ak_Permission ak_Enabled ak_LastUsedAt ak_Description].
  unfold dec_APIKey, dec_struct. cbn [app].
  erewrite dec_step; [|reflexivity|by apply dec_field]. erewrite dec_step; [|reflexivity|by apply dec_field].
  erewrite dec_step; [|reflexivity|by apply dec_field]. erewrite dec_step; [|reflexivity|by apply dec_field].
  erewrite dec_step; [|reflexivity|apply dec_field; by apply tc_read].
  assert (∀ t, t = mkAPIKey "" hash name perm enabled ca lu "" →
    dec_members (key_fields dec_time zero_time) t (opt_string "description" descr) = (mkAPIKey "" hash name perm enabled ca lu descr, true)) as Hlast.
  { intros t ->. rewrite <- (app_nil_r (opt_string _ _)). unfold opt_string.
    erewrite (dec_opt _ _ (mkAPIKey "" hash name perm enabled ca lu descr)); [reflexivity|reflexivity|].
    by destruct (String.eqb_spec descr "") as [->|]; [|reflexivity]. }
  destruct lu as [t|]; simpl in Eu; [|injection Eu as <-; by apply Hlast].
  destruct (enc_time t) as [u|] eqn:Et; simpl in Eu; [|done]. injection Eu as <-. cbn [app].
  destruct (tc_text t u Et) as [_ Hnull].
  erewrite dec_step; [|reflexivity|apply (dec_field _ _ _ _ _ (Some t))]; [by apply Hlast|].
  unfold dec_time_ptr. simpl. rewrite (tc_read t u _ Et). by destruct u.
Qed.

Lemma textual_key (k : APIKey) v : ak_Key k = "" → key_utf8 k → enc_APIKey enc_time k = Some v → textual v.
Proof.
  intros HK [_ H1 H2 H3 H4] (created & used & Ec & Eu & ->)%enc_key_members; [|done].
  apply tc_text in Ec as [Hc _]. apply textual_obj, members_app; [|apply members_app; [|by apply members_opt_string]].
  - repeat apply Forall_cons_2; [by split; [|constructor]..|by split|apply Forall_nil_2].
  - destruct (ak_LastUsedAt k) as [t|]; simpl in Eu; [|injection Eu as <-; apply Forall_nil_2].
    destruct (enc_time t) as [u|] eqn:Et; simpl in Eu; [|done]. injection Eu as <-.
    apply tc_text in Et as [Hu _]. by apply Forall_cons_2; [|apply Forall_nil_2].
Qed.

(** ** The whole file *)

Lemma dec_enc_keys (l : list APIKey) vs : Forall (λ k, ak_Key k = "") l → mapM (enc_APIKey enc_time) l = Some vs →
  dec_elements (zero_APIKey zero_time) dec_key [] vs = (l, true).
Proof.
  intros Hl. revert vs. induction Hl as [|k l Hk _ IH]; intros vs H; simpl in H; [by injection H as <-|].
  destruct (enc_APIKey enc_time k) as [v|] eqn:Ek; simpl in H; [|done].
  destruct (mapM (enc_APIKey enc_time) l) as [vs'|] eqn:El; simpl in H; [|done]. injection H as <-.
  cbn [dec_elements hd tl]. rewrite (dec_enc_key k v) by done. by rewrite (IH vs').
Qed.

Lemma textual_keys (l : list APIKey) vs : Forall (λ k, ak_Key k = "" ∧ key_utf8 k) l →
  mapM (enc_APIKey enc_time) l = Some vs → Forall textual vs.
Proof.
  intros Hl H. apply mapM_Some in H. induction H as [|k v l vs Hk _ IH]; [done|].
  apply Forall_cons in Hl as [[??] Hl]. constructor; [by eapply textual_key|auto].
Qed.

(** A file written from loaded keys gives the same keys. *)
Lemma rewritten_loads data (l : list APIKey) m v : loads data = Some (l, m) → enc_config (Some l) = Some v →
  loads (print_indent 0 v) = Some (l, false).
Proof.
  intros (Hl & Hu)%loads_inv Hv. unfold enc_APIKeysConfig in Hv.
  destruct (mapM (enc_APIKey enc_time) l) as [vs|] eqn:Evs; simpl in Hv; [|done]. injection Hv as <-.
  pose proof (ko_each _ Hl) as He.
  assert (Forall (λ k, ak_Key k = "") l) as HK by (eapply Forall_impl; [exact He|]; by intros k []).
  assert (Forall textual vs) as Ht.
  { eapply textual_keys; [|exact Evs]. rewrite Forall_forall in *. intros k Hk. split; [by apply HK|by apply Hu]. }
  unfold AuthFacts.loads. rewrite Unmarshal_indent by (apply textual_obj; by repeat constructor).
  unfold dec_APIKeysConfig, dec_struct.
  erewrite dec_step; [|reflexivity|apply (dec_field _ _ _ _ _ (Some l))].
  2:{ simpl. by rewrite (dec_enc_keys l vs). }
  cbn [dec_members]. pose proof (check_config_correct (Some l) _ eq_refl) as Hc.
  assert (normalised <$> l = l) as En.
  { rewrite <- (list_fmap_id l) at 2. apply list_fmap_ext. intros i k Hi%list_elem_of_lookup_2.
    rewrite Forall_forall in He. by apply normalised_ok, He. }
  simpl in Hc. rewrite En in Hc. destruct (check_config (Some l)) as [[l' m']|e]; [|done].
  destruct Hc as (_ & -> & ->). do 2 f_equal. rewrite <- existsb_plaintext. apply not_true_iff_false.
  intros (k & Hin%list_elem_of_In & Hk)%existsb_exists. rewrite Forall_forall in He.
  destruct (normalised_ok k (He k Hin)) as [_ Hf]. congruence.
Qed.

(** ** Asking who a key belongs to leaves the file's keys as they are *)

Lemma keys_in_file_clean p w : clean_fs (w_fs w) → Forall plain p →
  keys_in_file dec_time zero_time p w =
    match file (w_fs w) p with Some data => match loads data with Some (l, _) => l | None => [] end | None => [] end.
Proof using Type.
  intros Hc Hp. unfold keys_in_file, file. destruct (w_fs w !! p) as [n|] eqn:E.
  - rewrite (stat_found _ p n) by done. by destruct n.
  - by destruct (stat_missing _ p Hc Hp E) as [->|[-> _]].
Qed.

Lemma reload_keeps_keys (ks : KeyStore) w res w' : key_path (ks_path ks) → clean_fs (w_fs w) →
  reload dec_time enc_time zero_time ks w = Some (res, w') →
  keys_in_file dec_time zero_time (ks_path ks) w' = keys_in_file dec_time zero_time (ks_path ks) w.
Proof using TC.
  intros Hp Hc E. pose proof (wp_reload dec_time enc_time zero_time ks w Hp Hc) as H. unfold wp in H. rewrite E in H.
  destruct H as ((_ & Hc' & _) & _ & H). rewrite !keys_in_file_clean by (done || apply Hp). destruct res as [[[]|e] ks']; cbn [fst] in H.
  - destruct H as (data & l & m & Hf & Hl & _ & _ & Hw). rewrite Hf. destruct m; [|by rewrite Hw].
    destruct Hw as (v & Ev & ->). by rewrite (rewritten_loads data l true v Hl Ev), Hl.
  - by destruct H as (_ & -> & _).
Qed.

Lemma asking_keeps_keys (ks : KeyStore) key w who ks' w' : key_path (ks_path ks) → clean_fs (w_fs w) →
  Validate dec_time enc_time zero_time ks key w = Some ((who, ks'), w') →
  keys_in_file dec_time zero_time (ks_path ks) w' = keys_in_file dec_time zero_time (ks_path ks) w.
Proof using TC.
  intros Hp Hc. unfold Validate. destruct (String.eqb key ""); [intros [= _ _ <-]; reflexivity|]. unfold Auth.maybeReload, mbind, M_bind.
  destruct (os_Stat (ks_path ks) w) as [[info w1]|] eqn:Es; [|discriminate 1].
  assert (w_fs w1 = w_fs w) as Ef by (by destruct (keeps_run _ _ _ _ w _ _ (keeps_Stat (R := same) (ks_path ks)) I Es) as [_ [_ ?]]).
  rewrite <- (keys_in_file_same dec_time zero_time (ks_path ks) w w1 Ef).
  destruct info as [n|e]; [|intros [= _ _ <-]; reflexivity].
  destruct (match ModTime n with Some t => _ | None => true end); [|intros [= _ _ <-]; reflexivity].
  destruct (Auth.reload dec_time enc_time zero_time ks w1) as [[[r ks1] w2]|] eqn:E; [|discriminate 1]. intros [= _ _ <-].
  eapply reload_keeps_keys; [exact Hp|rewrite Ef; exact Hc|exact E].
Qed.

(** ** The properties *)

(** C14. Loading the key file is all or nothing, under any I/O faults.  Either
    [reload] succeeds: the file gave well-formed keys (digests, valid and
    distinct, one of them enabled), the key store holds exactly those, and the
    file now gives the same keys without any plaintext left to migrate.  Or it
    fails: the key store and the file are as before, and a system call failed
    or the file cannot be loaded.  Apart from leftovers of the atomic write, no
    other file changes. *)
Theorem reload_all_or_nothing (ks : KeyStore) (w : world) :
  key_path (ks_path ks) → clean_fs (w_fs w) →
  ∃ r ks' w', reload dec_time enc_time zero_time ks w = Some ((r, ks'), w') ∧
    clean_fs (w_fs w') ∧ (∀ q, q ≠ ks_path ks → ¬ draft (ks_path ks) keys_name q → file (w_fs w') q = file (w_fs w) q) ∧
    match r with
    | Ok _ => store_ok ks' ∧ ∃ data data' m, file (w_fs w) (ks_path ks) = Some data ∧
        loads data = Some (ks_keysList ks', m) ∧
        file (w_fs w') (ks_path ks) = Some data' ∧ loads data' = Some (ks_keysList ks', false) ∧ (m = false → data' = data)
    | Err _ => ks' = ks ∧ file (w_fs w') (ks_path ks) = file (w_fs w) (ks_path ks) ∧
        (faulted w w' ∨ unloadable dec_time enc_time zero_time (ks_path ks) w)
    end.
Proof using TC.
  intros Hp Hc. destruct (wp_total _ _ _ (wp_reload dec_time enc_time zero_time ks w Hp Hc))
    as ([r ks'] & w' & E & (_ & Hc' & Hq) & _ & H).
  exists r, ks', w'. split; [exact E|]. split; [done|]. split; [done|]. destruct r as [[]|e]; [|done].
  simpl in H. destruct H as (data & l & m & Hf & Hl & El & Hok & Hw). subst l. split; [done|].
  destruct m.
  - destruct Hw as (v & Ev & Hw). exists data, (print_indent 0 v), true. split_and!; try done.
    by eapply rewritten_loads.
  - exists data, data, false. by split_and!.
Qed.

(** C33. A presented key authenticates exactly when it is the plaintext of an
    enabled key of the file as loaded: [Validate] always answers, keeps the
    key store well-formed whatever the file has become, returns the one
    enabled key with the digest of the plaintext, and nothing otherwise. *)
Theorem Validate_exact (ks : KeyStore) (key : string) (w : world) : store_ok ks →
  ∃ r ks' w', Validate dec_time enc_time zero_time ks key w = Some ((r, ks'), w') ∧ store_ok ks' ∧
    ∀ ak, r = Some ak ↔
      key ≠ "" ∧ ak ∈ ks_keysList ks' ∧ ak_Enabled ak = true ∧ ak_Hash ak = sha256_hex key.
Proof using Type.
  intros Hok. destruct (yields_total anywhere undisturbed _ _ w (keeps_Validate dec_time enc_time zero_time ks key)
    (yields_Validate dec_time enc_time zero_time ks key) I) as ([r ks'] & w' & E & [Hr Hk] & _).
  simpl in Hr, Hk. exists r, ks', w'. split; [exact E|].
  assert (store_ok ks') as Hok' by by eapply renewed_ok. split; [done|]. intros ak. subst r.
  destruct (String.eqb_spec key "") as [->|Hne]; [by split; [|intros []]|].
  rewrite find_key_exact by apply Hok'. unfold hashKey. tauto.
Qed.

End codec.

(** C34. Which key files are accepted: exactly those whose keys, once trimmed,
    lowered and rid of plaintext, all have a 32-byte hexadecimal digest and a
    known permission, are distinct, and include an enabled one.  What is
    loaded is those keys, and a rewrite is due exactly when some key had a
    plaintext. *)
Theorem check_config_exact {Time : Type} (c : APIKeysConfig (Time := Time)) :
  match check_config c with
  | Ok (l, m) => keys_ok l ∧ l = normalised <$> default [] c ∧ (m = true ↔ ∃ k, k ∈ default [] c ∧ ak_Key k ≠ "")
  | Err _ => ¬ keys_ok (normalised <$> default [] c)
  end.
Proof.
  pose proof (check_config_correct c _ eq_refl) as H. destruct (check_config c) as [[l m]|e]; [|done].
  destruct H as (Hl & El & ->). split; [done|]. split; [done|]. unfold has_plaintext. rewrite existsb_exists.
  setoid_rewrite list_elem_of_In. split; intros (k & Hin & Hk); exists k; (split; [done|]).
  - by destruct (String.eqb_spec (ak_Key k) "").
  - by destruct (String.eqb_spec (ak_Key k) "").
Qed.

(** ** A concrete key file *)

(** Times as their text. *)
Definition text_time : decoder string := λ cur v, match v with JStr t => (t, true) | _ => (cur, false) end.
Definition time_text (t : string) : option json := if valid_utf8 t then Some (JStr t) else None.

Lemma text_codec : TimeCodec text_time time_text.
Proof.
  split.
  - intros t v. unfold time_text. destruct (valid_utf8 t) eqn:E; [|done]. intros [= <-]. by split; [constructor|].
  - intros t v cur. unfold time_text. destruct (valid_utf8 t); [|done]. by intros [= <-].
Qed.

Definition legacy_keys : string := print (JObj [("keys", JArr [JObj [
  ("key", JStr "secret"); ("name", JStr "ci"); ("permission", JStr "write"); ("enabled", JBool true);
  ("created_at", JStr "2024-01-01T00:00:00Z")]])]).

Definition keys_entries : list (path * node) := [
  ([], NDir); (["srv"], NDir); (["srv"; "keys.json"], NFile legacy_keys 5)].
Definition keys_world (faults : list (option nat)) : world :=
  World (list_to_map keys_entries) faults (λ _, 7%N) 0 (10 ^ 18) ∅ false.
Definition fresh_store : KeyStore string := mkKeyStore ["srv"; "keys.json"] ∅ [] year_one.

Lemma keys_clean faults : clean_fs (w_fs (keys_world faults)).
Proof. apply (sf_clean ["srv"]), (store_fs_checked ["srv"] keys_entries). vm_compute. reflexivity. Qed.

Lemma keys_path : key_path ["srv"; "keys.json"].
Proof. split; [by repeat constructor|]. split; [done|]. by intros [n [=]]. Qed.

(** The plaintext is replaced by its digest, in memory and in the file. *)
Example reload_runs :
  match reload text_time time_text "" fresh_store (keys_world []) with
  | Some ((Ok _, ks), w) =>
      (ak_Key <$> ks_keysList ks, ak_Hash <$> ks_keysList ks, ak_Name <$> find_key ks "secret", find_key ks "other") =
        ([""], [sha256_hex "secret"], Some "ci", None) ∧
      match file (w_fs w) ["srv"; "keys.json"] with Some d => Contains d "secret" = false | None => False end
  | _ => False
  end.
Proof. vm_compute. split; reflexivity. Qed.

Lemma reload_all_or_nothing_witness :
  ∃ r ks' w', reload text_time time_text "" fresh_store (keys_world [None; Some 0]) = Some ((r, ks'), w') ∧
    clean_fs (w_fs w') ∧
    (is_ok r = true → store_ok ks' ∧ file (w_fs (keys_world [])) ["srv"; "keys.json"] = Some legacy_keys).
Proof.
  destruct (reload_all_or_nothing text_time time_text "" (TC := text_codec) fresh_store (keys_world [None; Some 0]))
    as (r & ks' & w' & E & Hc & _ & H).
  - exact keys_path.
  - apply keys_clean.
  - exists r, ks', w'. split; [exact E|]. split; [exact Hc|]. intros Hr. destruct r as [u|e]; [|discriminate Hr].
    split; [apply H|reflexivity].
Defined.

Lemma Validate_exact_witness :
  ∃ l, keys_ok l ∧ ∃ r ks' w',
    Validate text_time time_text "" (mkKeyStore ["srv"; "keys.json"] (key_map l) l 9) "secret" (keys_world []) =
      Some ((r, ks'), w') ∧ store_ok ks' ∧
    ∀ ak, r = Some ak ↔ "secret" ≠ "" ∧ ak ∈ ks_keysList ks' ∧ ak_Enabled ak = true ∧ ak_Hash ak = sha256_hex "secret".
Proof.
  set (k := mkAPIKey "" (sha256_hex "secret") "ci" PermWrite true "" None "").
  assert (keys_ok [k]) as Hk.
  { split; [|apply NoDup_singleton|by constructor]. apply Forall_cons_2; [|apply Forall_nil_2].
    split; [reflexivity|]. split; [apply digest_hashKey|reflexivity]. }
  exists [k]. split; [exact Hk|].
  destruct (Validate_exact text_time time_text "" (mkKeyStore ["srv"; "keys.json"] (key_map [k]) [k] 9) "secret"
    (keys_world [])) as (r & ks' & w' & E & Hok & H); [by apply loaded_ok|].
  exists r, ks', w'. split; [exact E|]. split; [exact Hok|exact H].
Defined.
