(* ===== verification/ServerFacts.v ===== *)
(** * The server as a whole

    Steps of the server, what holds in every reachable state, that requests
    are answered, and that changes are authorised and audited. *)

From S2P Require Import Prelude GoString SemVer Validation GoPath Sha256 Os OsFacts Frame Json Decode Store StoreFacts Index.
From S2P Require Import Archive Signing Http Auth AuthFacts RateLimit Api Metrics Protocol ReadFacts Server Serving Guard.
From S2P Require Import Confine KeysFile.

#[local] Opaque sha256_hex.

(** ** Routes that change the registry *)

(** The permission an endpoint that changes the registry needs. *)
Definition needed (e : endpoint) : option Permission :=
  match e with
  | UploadProvider | UploadModule | DeprecateProvider | DeprecateModule => Some PermWrite
  | DeleteProviderVersion | DeleteModuleVersion | GC => Some PermAdmin
  | _ => None
  end.

Definition row_ok (rt : route) : bool :=
  match needed (target rt) with
  | None => true
  | Some p =>
      HasPrefix (literal_prefix (template rt)) "/api/v1/" &&
      (bool_decide (p = PermWrite) && bool_decide (methods rt = ["POST"]) ||
       bool_decide (p = PermAdmin) && (bool_decide (methods rt = ["DELETE"]) ||
         bool_decide (methods rt = ["POST"]) && bool_decide (template rt = "/api/v1/gc") && negb (is_prefix rt)))
  end.

Lemma needed_routes rt p : rt ∈ routes → needed (target rt) = Some p →
  HasPrefix (literal_prefix (template rt)) "/api/v1/" = true ∧
  (p = PermWrite ∧ methods rt = ["POST"] ∨
   p = PermAdmin ∧ (methods rt = ["DELETE"] ∨ methods rt = ["POST"] ∧ template rt = "/api/v1/gc" ∧ is_prefix rt = false)).
Proof.
  assert (forallb row_ok routes = true) as H by (vm_compute; reflexivity).
  rewrite forallb_forall in H. intros Hin%list_elem_of_In Hp. specialize (H rt Hin). unfold row_ok in H. rewrite Hp in H.
  rewrite !andb_true_iff, !orb_true_iff, !andb_true_iff, !orb_true_iff, !andb_true_iff, !bool_decide_eq_true, negb_true_iff in H.
  tauto.
Qed.

Lemma suffices_le held p q h : suffices held p → rank p = Some h → (∃ k, rank q = Some k ∧ k ≤ h) → suffices held q.
Proof. intros (a & b & Ha & Hb & Hle) Hp (k & Hk & Hkh). exists a, k. split_and!; [done..|]. simplify_eq. lia. Qed.

(** A request routed to such an endpoint is asked for a key with at least the
    permission the endpoint needs. *)
Lemma needed_guarded match_route `{!Router match_route} r rt vars p held :
  match_route r = Some (rt, vars) → needed (target rt) = Some p →
  guarded r = true ∧ (suffices held (requiredPermission r) → suffices held p).
Proof.
  intros Hm Hp.
  destruct (needed_routes rt p (router_row _ _ _ Hm) Hp) as [Hpre Hrow].
  assert (managed r = true) as Hman.
  { pose proof (router_path _ _ _ Hm) as [t Et]%HasPrefix_iff. apply HasPrefix_iff in Hpre as [u Hu].
    unfold managed. rewrite Et, Hu, sapp_assoc. apply HasPrefix_app. }
  assert (r_Method r = "POST" ∨ r_Method r = "DELETE") as Hmeth.
  { assert (methods rt ≠ []) as Hne by (destruct Hrow as [[_ ->]|[_ [->|[-> _]]]]; done).
    pose proof (router_method _ _ _ Hm Hne) as Hin.
    destruct Hrow as [[_ E]|[_ [E|[E _]]]]; rewrite E in Hin; apply list_elem_of_singleton in Hin; auto. }
  split.
  - unfold guarded, is_read. rewrite Hman. by destruct Hmeth as [-> | ->].
  - intros Hs. destruct (required_rank r) as [h Hh]. eapply suffices_le; [exact Hs|exact Hh|].
    revert Hh. unfold requiredPermission.
    destruct Hrow as [[-> Em]|[-> Em]].
    + pose proof (router_method _ _ _ Hm ltac:(by rewrite Em)) as Hin. rewrite Em in Hin.
      apply list_elem_of_singleton in Hin as ->. destruct (_ || _); intros [= <-]; [exists 1|exists 1]; split; [done|lia|done|lia].
    + destruct Em as [Em|(Em & Et & Ef)].
      * pose proof (router_method _ _ _ Hm ltac:(by rewrite Em)) as Hin. rewrite Em in Hin.
        apply list_elem_of_singleton in Hin as ->. destruct (_ || _); intros [= <-]; exists 2; split; done.
      * rewrite (router_exact _ _ _ Hm Ef) by (by rewrite Et). rewrite Et. intros [= <-]. exists 2. by split.
Qed.

Section server.
Context {Time : Type}.
Context (dec_time : decoder Time) (enc_time : Time → option json) (zero_time : Time).
Context (zip_NewReader : string → Z → result error (list zip_file)).
Context (gzip_NewReader : string → result error tar_stream).
Context (s : Store) (signer : option RegistrySigner) (maxUploadSize : Z) (ui : assets).
Context (match_route : request → option (route * Vars)) (unmatched : request → response).
#[local] Abbreviation server := (Server.server (Time := Time)).
#[local] Abbreviation Handler := (Server.Handler (Time := Time)).
#[local] Abbreviation serve := (serve_endpoint (Time := Time) zip_NewReader gzip_NewReader s signer maxUploadSize ui).
#[local] Abbreviation chain := (Server.chain dec_time enc_time zero_time).
#[local] Abbreviation ServeHTTP := (Server.ServeHTTP dec_time enc_time zero_time zip_NewReader gzip_NewReader s signer
  maxUploadSize ui match_route unmatched).

(** C9. Nothing changes the registry without a key.  A request routed to an
    endpoint that uploads, deprecates, deletes or collects garbage is, in any
    state and under any I/O faults, either answered by the middleware itself -
    400, 401, 403 or 429, a reply that would be the same whatever the endpoint
    did - or handed to the endpoint with valid route variables after the key
    store of this server, asked in this world with the key the request
    presents, has said who it is and that it may: the key is enabled, has the
    digest of what was presented and at least write permission for uploads and
    deprecations and admin permission for deletions and garbage collection, and
    it is one of those the server had loaded, or one that the key file gives
    when one of the two questions has it loaded anew (the same ones both times
    on a file system without links, by [KeysFile.asking_keeps_keys]). *)
Theorem mutations_authorised (r : request) (rt : route) (vars : Vars) (p : Permission) (sv : server) (w : world) :
  Router match_route → store_ok (sv_keys sv) → match_route r = Some (rt, vars) → needed (target rt) = Some p →
  (∃ resp sv' w', status resp ∈ refusals ∧ ServeHTTP r sv w = Some ((resp, sv'), w') ∧
     ∀ endpoint, chain endpoint r vars sv w = Some ((resp, sv'), w')) ∨
  (∃ sv1 w1 post, ServeHTTP r sv w = (serve (target rt) r vars sv1 ≫= post) w1 ∧ finishes post ∧
     store_ok (sv_keys sv1) ∧ Forall (λ kv, valid_route_var kv.1 kv.2 = true) (map_to_list (vars : gmap string string)) ∧
     ∃ who ks0 w0,
       Validate dec_time enc_time zero_time (sv_keys sv) (extractAPIKey r) w = Some ((who, ks0), w0) ∧
       HasPermission dec_time enc_time zero_time ks0 (extractAPIKey r) (requiredPermission r) w0 =
         Some ((true, sv_keys sv1), w1) ∧
     ∃ ak, ak ∈ ks_keysList (sv_keys sv1) ∧ ak_Enabled ak = true ∧ extractAPIKey r ≠ "" ∧
       ak_Hash ak = sha256_hex (extractAPIKey r) ∧ suffices (ak_Permission ak) p ∧
       (ak ∈ ks_keysList (sv_keys sv) ∨
        ak ∈ keys_in_file dec_time zero_time (ks_path (sv_keys sv)) w ∨
        ak ∈ keys_in_file dec_time zero_time (ks_path (sv_keys sv)) w0)).
Proof.
  intros HR Hok Hm Hp. unfold Server.ServeHTTP. rewrite Hm.
  destruct (chain_gate dec_time enc_time zero_time r vars sv w Hok)
    as [(resp & sv' & w' & Hs & E)|(sv1 & w1 & post & ([Hr _] & Ha & Hv) & Hf & E)].
  - left. exists resp, sv', w'. auto.
  - right. exists sv1, w1, post. split; [apply E|]. split; [done|]. split; [by eapply renewed_ok|]. split; [done|].
    destruct (needed_guarded match_route r rt vars p "" Hm Hp) as [Hg _].
    destruct (Ha Hg) as [(who & ks0 & w0 & Ev & Eh) (ak & Hne & Hin & He & Hh & Hsuf)].
    exists who, ks0, w0. split; [done|]. split; [done|]. exists ak. do 4 (split; [done|]).
    split; [by apply (needed_guarded match_route r rt vars p _ Hm Hp)|].
    destruct (Validate_drawn _ _ _ _ _ _ _ _ _ Ev) as [Ep0 H0], (HasPermission_drawn _ _ _ _ _ _ _ _ _ _ Eh) as [_ H1].
    rewrite Ep0 in H1. destruct H1 as [E1|E1]; rewrite E1 in Hin; [|right; right; exact Hin].
    destruct H0 as [E0|E0]; rewrite E0 in Hin; [left; exact Hin|right; left; exact Hin].
Qed.

(** ** What requests do to the state of the server *)

(** The counters of requests, the start time and the audit log are as before;
    the keys are those of the file or as before; the limiter's settings too. *)
Record inner (sv sv' : server) : Prop := {
  in_keys : renewed (sv_keys sv) (sv_keys sv');
  in_limit : rl_rate (sv_limiter sv') = rl_rate (sv_limiter sv) ∧ rl_window (sv_limiter sv') = rl_window (sv_limiter sv) ∧
             rl_trustProxy (sv_limiter sv') = rl_trustProxy (sv_limiter sv);
  in_load x : (∀ c, x ≠ Counted c) → Load (sv_metrics sv') x = Load (sv_metrics sv) x;
  in_start : startTime (sv_metrics sv') = startTime (sv_metrics sv);
  in_audit : sv_audit sv' = sv_audit sv
}.

#[export] Instance inner_preorder : PreOrder inner.
Proof using Type.
  split.
  - intros sv. split; [by left|done..].
  - intros sv1 sv2 sv3 [K1 L1 M1 S1 A1] [K2 L2 M2 S2 A2]. split; [by eapply renewed_trans|..|congruence|congruence].
    + destruct L1 as (? & ? & ?), L2 as (? & ? & ?). split_and!; congruence.
    + intros x Hx. by rewrite M2, M1.
Qed.

Lemma respond_inner resp sv : inner sv (respond resp sv).2.
Proof using Type.
  unfold respond. simpl. generalize (counted resp). intros l. revert sv. induction l as [|c l IH]; intros sv; [reflexivity|].
  simpl. etransitivity; [|apply IH]. split; [by left|done| |done|done]. intros x Hx. simpl. rewrite decide_False; [done|].
  apply Hx.
Qed.

Lemma respond_reply resp sv : (respond resp sv : response * server).1 = resp.
Proof using Type. done. Qed.

Lemma yields_respond resp (sv0 sv : server) (Q : response → Prop) : Q resp → inner sv0 sv →
  yields (mret (respond resp sv)) (λ x, Q x.1 ∧ inner sv0 x.2).
Proof using Type. intros HQ H. apply yields_ret. split; [done|]. etransitivity; [exact H|apply respond_inner]. Qed.

Lemma endpoint_inner e r vars sv : yields (serve e r vars sv) (λ x, inner sv x.2).
Proof using Type.
  destruct e; cbn [serve_endpoint]; unfold answer;
    try (eapply yields_bind; [apply yields_any|]; intros ? _); apply yields_ret; apply respond_inner.
Qed.

(** Handlers of this kind stay so under the two inner middlewares. *)
Definition keeps_inner (h : Handler) : Prop := ∀ r vars sv, yields (h r vars sv) (λ x, inner sv x.2).

Lemma validation_inner h : keeps_inner h → keeps_inner (routeValidationMiddleware h).
Proof using Type.
  intros H r vars sv. unfold routeValidationMiddleware.
  destruct (routeValidation _); [apply yields_ret, respond_inner|apply H].
Qed.

Lemma set_keys_inner ks sv : renewed (sv_keys sv) ks → inner sv (set_keys ks sv).
Proof using Type. intros H. by split. Qed.

Lemma auth_inner h : keeps_inner h → keeps_inner (authMiddleware dec_time enc_time zero_time h).
Proof using Type.
  intros H r vars sv. unfold authMiddleware. destruct (_ || _); [apply H|]. destruct (String.eqb _ ""); [apply yields_ret, respond_inner|].
  cbv zeta. eapply yields_bind; [apply yields_HasPermission|]. intros [ok ks] [Hr _]. simpl in Hr.
  destruct ok; cbn [negb].
  - intros w a w' E. etransitivity; [by apply set_keys_inner|]. by eapply H.
  - eapply yields_bind; [apply yields_Validate|]. intros [ak ks'] [Hr' _]. simpl in Hr'. apply yields_ret.
    etransitivity; [|apply respond_inner]. etransitivity; [by apply set_keys_inner|]. by apply set_keys_inner.
Qed.

(** ** Accounting *)

(** The entry the audit log gets for a request answered at [t]. *)
Definition entry_of (r : request) (resp : response) (t : Z) (e : AuditEntry) : Prop :=
  ae_time e = t ∧ ae_event e = "api_request" ∧ ae_method e = r_Method r ∧ ae_path e = r_Path r ∧
  ae_remote e = r_RemoteAddr r ∧ ae_status e = status resp ∧ ae_detail e = r_Method r +:+ " " +:+ r_Path r.

(** The log as [rateLimitMiddleware] and what it wraps leave it. *)
Definition audited (r : request) (resp : response) (t : Z) (log log' : list AuditEntry) : Prop :=
  if managed r then status resp = 429%Z ∧ log' = log ∨ ∃ e, entry_of r resp t e ∧ log' = log ++ [e]
  else log' = log.

(** The counter a reply falls under. *)
Definition verdict (resp : response) : metric := if (status resp <? 400)%Z then RequestsOK else RequestsErr.

Definition counted_as (resp : response) (m : metric → Z) (x : metric) : Z :=
  if decide (x = RequestsTotal ∨ x = verdict resp) then int64_wrap (m x + 1) else m x.

(** What a request does to the state of the server. *)
Record accounted (r : request) (resp : response) (t : Z) (sv sv' : server) : Prop := {
  ac_keys : renewed (sv_keys sv) (sv_keys sv');
  ac_limit : rl_rate (sv_limiter sv') = rl_rate (sv_limiter sv) ∧ rl_window (sv_limiter sv') = rl_window (sv_limiter sv) ∧
             rl_trustProxy (sv_limiter sv') = rl_trustProxy (sv_limiter sv);
  ac_load x : (∀ c, x ≠ Counted c) → Load (sv_metrics sv') x = counted_as resp (Load (sv_metrics sv)) x;
  ac_start : startTime (sv_metrics sv') = startTime (sv_metrics sv);
  ac_audit : audited r resp t (sv_audit sv) (sv_audit sv')
}.

(** Like [inner], but for the audit log. *)
Record middle (r : request) (resp : response) (t : Z) (sv sv' : server) : Prop := {
  mi_keys : renewed (sv_keys sv) (sv_keys sv');
  mi_limit : rl_rate (sv_limiter sv') = rl_rate (sv_limiter sv) ∧ rl_window (sv_limiter sv') = rl_window (sv_limiter sv) ∧
             rl_trustProxy (sv_limiter sv') = rl_trustProxy (sv_limiter sv);
  mi_load x : (∀ c, x ≠ Counted c) → Load (sv_metrics sv') x = Load (sv_metrics sv) x;
  mi_start : startTime (sv_metrics sv') = startTime (sv_metrics sv);
  mi_audit : audited r resp t (sv_audit sv) (sv_audit sv')
}.

(** A handler that reads the clock it was called at. *)
Definition timely (h : Handler) : Prop := all_answer false h.

Definition does (h : Handler) (R : request → response → Z → server → server → Prop) : Prop :=
  ∀ r vars sv w resp sv' w', idle w → h r vars sv w = Some ((resp, sv'), w') → R r resp (w_now w) sv sv'.

(** ** The middlewares, from the inside out *)

Lemma middle_after r resp t sv1 sv sv' : inner sv1 sv → middle r resp t sv sv' → middle r resp t sv1 sv'.
Proof using Type.
  intros [K1 L1 M1 S1 A1] [K2 L2 M2 S2 A2]. split.
  - by eapply renewed_trans.
  - destruct L1 as (? & ? & ?), L2 as (? & ? & ?). split_and!; congruence.
  - intros x Hx. by rewrite M2, M1.
  - congruence.
  - by rewrite A1 in A2.
Qed.

Lemma inner_middle r resp t sv sv' : managed r = false ∨ status resp = 429%Z → inner sv sv' → middle r resp t sv sv'.
Proof using Type.
  intros H [K L M S A]. split; [done..|]. unfold audited. destruct (managed r); [|done]. left. destruct H; [done|]. by split.
Qed.

Lemma logged_middle r resp t sv sv' e : managed r = true → entry_of r resp t e → inner sv sv' →
  middle r resp t sv (Log e sv').
Proof using Type.
  intros Hm He [K L M S A]. split; [done..|]. unfold audited. rewrite Hm. right. exists e. split; [done|].
  simpl. by rewrite A.
Qed.

Lemma audit_does h : keeps_inner h → timely h → does (auditMiddleware dec_time enc_time zero_time h) middle.
Proof using Type.
  intros Hi Ht r vars sv w resp sv' w' Hw E. unfold auditMiddleware in E.
  destruct (managed r) eqn:Em; cbn [negb] in E.
  2:{ apply inner_middle; [by left|]. by apply (Hi _ _ _ _ _ _ E). }
  assert (∀ keyName sv1 w1 x, inner sv sv1 → idle w1 → w_now w1 = w_now w →
    ('(resp, sv) ← h r vars sv1; now ← time_Now;
     mret (resp, Log (mkAudit now "api_request" keyName (r_Method r) (r_Path r) (r_RemoteAddr r) (status resp)
                       (r_Method r +:+ " " +:+ r_Path r)) sv)) w1 = Some (x, w') →
    middle r x.1 (w_now w) sv x.2) as Hlog.
  { intros keyName sv1 w1 x Hin Hw1 Hn Ex. unfold mbind, M_bind in Ex.
    destruct (h r vars sv1 w1) as [[[resp1 sv2] w2]|] eqn:Eh; [|done].
    destruct (keeps_run _ _ _ _ w1 _ _ (Ht r vars sv1) Hw1 Eh) as [_ Hs].
    injection Ex as <- <-. eapply middle_after; [exact Hin|]. apply logged_middle; [done| |by apply (Hi _ _ _ _ _ _ Eh)].
    unfold entry_of. simpl. unfold same_time in Hs. split_and!; try done. congruence. }
  destruct (String.eqb _ ""); [by apply (Hlog "anonymous" sv w (resp, sv'))|].
  unfold mbind, M_bind in E.
  destruct (Validate dec_time enc_time zero_time (sv_keys sv) (extractAPIKey r) w) as [[[ak ks] w1]|] eqn:Ev; [|done].
  pose proof (yields_Validate dec_time enc_time zero_time _ _ _ _ _ Ev) as [Hr _]. simpl in Hr.
  assert (answers false (Validate dec_time enc_time zero_time (sv_keys sv) (extractAPIKey r))) as Hk
    by auto with keeps typeclass_instances.
  destruct (keeps_run _ _ _ _ w _ _ Hk Hw Ev) as [Hw1 Hs].
  eapply (Hlog _ (set_keys ks sv) w1 (resp, sv')); [by apply set_keys_inner|done|done|exact E].
Qed.

Lemma rate_does h : does h middle → does (rateLimitMiddleware h) middle.
Proof using Type.
  intros H r vars sv w resp sv' w' Hw E. unfold rateLimitMiddleware, mbind, M_bind, time_Now in E.
  assert (∀ b rl, allow (w_now w) (client_ip (sv_limiter sv) r) (sv_limiter sv) = (b, rl) → inner sv (set_limiter rl sv)) as Hi.
  { intros b rl Ea. split; try done; [by left|]. unfold allow in Ea. simpl.
    by repeat (case_match; simplify_eq). }
  destruct (allow _ _ _) as [[] rl] eqn:Ea; cbn [negb] in E.
  - eapply middle_after; [by eapply Hi|]. by eapply H.
  - injection E as <- <- <-. apply inner_middle; [by right|]. etransitivity; [by eapply Hi|].
    exact (respond_inner (rate_limited rl) (set_limiter rl sv)).
Qed.

Lemma security_does h : does h middle → does (securityHeadersMiddleware h) middle.
Proof using Type.
  intros H r vars sv w resp sv' w' Hw E. unfold securityHeadersMiddleware, mbind, M_bind in E.
  destruct (h r vars sv w) as [[[resp1 sv1] w1]|] eqn:Eh; [|done]. injection E as <- <- <-.
  destruct (H _ _ _ _ _ _ _ Hw Eh) as [K L M S A]. by split.
Qed.

Lemma metrics_does h : does h middle → does (metricsMiddleware h) accounted.
Proof using Type.
  clear dec_time enc_time zero_time zip_NewReader gzip_NewReader s signer maxUploadSize ui match_route unmatched.
  intros H r vars sv w resp sv' w' Hw E. unfold metricsMiddleware, mbind, M_bind in E.
  destruct (h r vars (add RequestsTotal sv) w) as [[[resp1 sv1] w1]|] eqn:Eh; [|done]. injection E as <- <- <-.
  destruct (H _ _ _ _ _ _ _ Hw Eh) as [K L M S A]. split; try done.
  intros x Hx. unfold counted_as, verdict. simpl.
  destruct (status resp1 <? 400)%Z; repeat case_decide; subst; simpl;
    repeat (rewrite M by done; simpl; repeat case_decide); subst; naive_solver.
Qed.

Lemma chain_does h : keeps_inner h → timely h → does (chain h) accounted.
Proof using Type.
  intros Hi Ht. unfold Server.chain. apply metrics_does, security_does, rate_does, audit_does.
  - apply auth_inner, validation_inner, Hi.
  - intros r vars sv. unfold timely, all_answer in Ht. unfold authMiddleware, routeValidationMiddleware. cbv zeta. keeps_tac.
Qed.

Lemma endpoint_timely e : timely (serve e).
Proof using Type. intros r vars sv w Hw. pose proof (endpoint_answers zip_NewReader gzip_NewReader s signer maxUploadSize ui e r vars sv w Hw) as H.
  destruct (serve e r vars sv w) as [[a w']|]; done.
Qed.

Lemma routed_answers r rt vars sv w : match_route r = Some (rt, vars) → idle w → is_upload (target rt) = false →
  is_Some (ServeHTTP r sv w).
Proof using Type.
  intros Hm Hw Hu. unfold Server.ServeHTTP. rewrite Hm.
  pose proof (endpoint_answers (Time := Time) zip_NewReader gzip_NewReader s signer maxUploadSize ui (target rt)) as He.
  rewrite Hu in He.
  destruct (keeps_total _ _ _ w (chain_answers dec_time enc_time zero_time true _ He r vars sv) Hw) as (x & w' & E & _).
  by exists (x, w').
Qed.

Lemma routed_accounts r rt vars sv w resp sv' w' : match_route r = Some (rt, vars) → idle w →
  ServeHTTP r sv w = Some ((resp, sv'), w') → accounted r resp (w_now w) sv sv' ∧ idle w' ∧ w_now w' = w_now w.
Proof using Type.
  intros Hm Hw. unfold Server.ServeHTTP. rewrite Hm. intros E.
  pose proof (endpoint_answers (Time := Time) zip_NewReader gzip_NewReader s signer maxUploadSize ui (target rt)) as He.
  split.
  - refine (chain_does _ _ _ _ _ _ _ _ _ _ Hw E); [intros ? ? ?; apply endpoint_inner|apply endpoint_timely].
  - apply (keeps_run _ _ _ _ w _ _ (chain_answers dec_time enc_time zero_time _ _ He r vars sv) Hw E).
Qed.

(** C26. Every routed request is accounted for, whatever it asks, in any state
    and under any I/O faults, as long as no mutex is held: unless it goes to an
    upload it is answered; and when it is answered, the total of requests and
    exactly one of the counters of good and bad replies have gone up by one
    (wrapping around), the limiter's settings and the start time are as before,
    the keys are as before or those of a well-formed key file, the mutexes are
    free again, and a request under /api/v1/ that the limiter did not refuse has
    got one entry in the audit log, with its method, path, address and status
    and the time of the request, and any other request none. *)
Theorem request_accounted (r : request) (rt : route) (vars : Vars) (sv : server) (w : world) :
  match_route r = Some (rt, vars) → idle w →
  (is_upload (target rt) = false → is_Some (ServeHTTP r sv w)) ∧
  ∀ resp sv' w', ServeHTTP r sv w = Some ((resp, sv'), w') →
    accounted r resp (w_now w) sv sv' ∧ idle w' ∧ w_now w' = w_now w.
Proof.
  intros Hm Hw. split; [by apply (routed_answers r rt vars)|]. intros resp sv' w'. by apply (routed_accounts r rt vars).
Qed.

End server.

(** ** A concrete server *)

(** A router that knows one row. *)
Definition gc_router (r : request) : option (route * Vars) :=
  if String.eqb (r_Method r) "POST" && String.eqb (r_Path r) "/api/v1/gc" then Some (post "/api/v1/gc" GC, ∅) else None.

#[export] Instance gc_router_ok : Router gc_router.
Proof.
  assert (∀ r rt vars, gc_router r = Some (rt, vars) →
    r_Method r = "POST" ∧ r_Path r = "/api/v1/gc" ∧ rt = post "/api/v1/gc" GC) as H.
  { intros r rt vars. unfold gc_router.
    destruct (String.eqb_spec (r_Method r) "POST"); [|done]. destruct (String.eqb_spec (r_Path r) "/api/v1/gc"); [|done].
    by intros [= <- _]. }
  split; intros r rt vars (Hm & Hp & ->)%H; simpl.
  - apply list_elem_of_In. unfold routes. cbv zeta. do 22 right. left. vm_compute. reflexivity.
  - intros _. rewrite Hm. by left.
  - rewrite Hp. vm_compute. reflexivity.
  - done.
Qed.

Definition gc_request (key : string) : request :=
  mkRequest "POST" "/api/v1/gc" "10.0.0.1:4711" (<["X-Api-Key" := key]> ∅) (NotMultipart (EText "request Content-Type isn't multipart/form-data")) None.

(** A server with one key, "secret", that may write. *)
Definition ci_key : APIKey string := mkAPIKey "" (sha256_hex "secret") "ci" PermWrite true "" None "".
Definition ci_server : Server.server (Time := string) :=
  mkServer (mkKeyStore ["srv"; "keys.json"] (key_map [ci_key]) [ci_key] (10 ^ 18)) (NewRateLimiter 100 minute "")
    (NewMetrics 0) [].

Lemma ci_key_ok : keys_ok [ci_key].
Proof.
  split; [|apply NoDup_singleton|by constructor]. apply Forall_cons_2; [|apply Forall_nil_2].
  split; [reflexivity|]. split; [apply digest_hashKey|reflexivity].
Qed.

Definition no_gzip (data : string) : result error tar_stream := Err (EText "gzip: invalid header").
Definition no_ui : assets := mkAssets "" "" "".
Definition not_found (r : request) : response := http_Error 404 "404 page not found".

Abbreviation ci_serve := (ServeHTTP text_time time_text "" no_zip no_gzip srv None 1000 no_ui gc_router not_found).

(** No key: 401; a key that may only write: 403; both are counted and audited. *)
Example ci_serve_runs :
  match ci_serve (gc_request "") ci_server (keys_world []), ci_serve (gc_request "secret") ci_server (keys_world []) with
  | Some ((resp1, sv1), _), Some ((resp2, sv2), _) =>
      (status resp1, status resp2) = (401%Z, 403%Z) ∧
      ((λ e, (ae_key e, ae_status e)) <$> sv_audit sv1) = [("anonymous", 401%Z)] ∧
      ((λ e, (ae_key e, ae_status e)) <$> sv_audit sv2) = [("ci", 403%Z)] ∧
      Load (sv_metrics sv2) RequestsErr = 1%Z
  | _, _ => False
  end.
Proof. vm_compute. split_and!; reflexivity. Qed.

(** The same server with a second key, "root", that may do everything. *)
Definition ops_key : APIKey string := mkAPIKey "" (sha256_hex "root") "ops" PermAdmin true "" None "".
Definition ops_server : Server.server (Time := string) :=
  mkServer (mkKeyStore ["srv"; "keys.json"] (key_map [ci_key; ops_key]) [ci_key; ops_key] (10 ^ 18))
    (NewRateLimiter 100 minute "") (NewMetrics 0) [].

Lemma ops_keys_ok : keys_ok [ci_key; ops_key].
Proof.
  split; [| |by constructor].
  - repeat apply Forall_cons_2; [..|apply Forall_nil_2]; (split; [reflexivity|]; split; [apply digest_hashKey|reflexivity]).
  - apply NoDup_cons. split; [|apply NoDup_singleton]. intros E%list_elem_of_singleton.
    assert (bool_decide (sha256_hex "secret" = sha256_hex "root") = false) as Hne by (vm_compute; reflexivity).
    apply bool_decide_eq_false in Hne. exact (Hne E).
Qed.

(** A collection of garbage, asked for with that key. *)
Lemma mutations_authorised_witness :
  ∃ resp sv' w', ci_serve (gc_request "root") ops_server (keys_world []) = Some ((resp, sv'), w') ∧ status resp = 200%Z ∧
  ∃ who ks0 w0,
    Validate text_time time_text "" (sv_keys ops_server) "root" (keys_world []) = Some ((who, ks0), w0) ∧
    ∃ ak, ak_Enabled ak = true ∧ ak_Hash ak = sha256_hex "root" ∧ suffices (ak_Permission ak) PermAdmin ∧
      (ak ∈ [ci_key; ops_key] ∨ ak ∈ keys_in_file text_time "" ["srv"; "keys.json"] (keys_world []) ∨
       ak ∈ keys_in_file text_time "" ["srv"; "keys.json"] w0).
Proof.
  assert (match ci_serve (gc_request "root") ops_server (keys_world []) with
          | Some ((resp, _), _) => bool_decide (status resp = 200%Z) | None => false end = true) as Hrun by (vm_compute; reflexivity).
  destruct (mutations_authorised text_time time_text "" no_zip no_gzip srv None 1000 no_ui gc_router not_found
    (gc_request "root") (post "/api/v1/gc" GC) ∅ PermAdmin ops_server (keys_world []) gc_router_ok
    (loaded_ok _ _ _ ops_keys_ok) eq_refl eq_refl)
    as [(resp & sv' & w' & Hs & E & _)|(sv1 & w1 & post & _ & _ & _ & _ & who & ks0 & w0 & Ev & _ & ak & _ & He & _ & Hh & Hsuf & Hsrc)].
  - exfalso. rewrite E in Hrun. apply bool_decide_eq_true in Hrun. rewrite Hrun in Hs. unfold refusals in Hs.
    rewrite !elem_of_cons, elem_of_nil in Hs. lia.
  - destruct (ci_serve (gc_request "root") ops_server (keys_world [])) as [[[resp sv'] w']|]; [|discriminate Hrun].
    apply bool_decide_eq_true in Hrun. exists resp, sv', w'. split; [reflexivity|]. split; [exact Hrun|].
    exists who, ks0, w0. split; [exact Ev|]. exists ak. split; [exact He|]. split; [exact Hh|]. split; [exact Hsuf|exact Hsrc].
Defined.

Lemma request_accounted_witness :
  idle (keys_world []) ∧
  ∃ resp sv' w', ci_serve (gc_request "secret") ci_server (keys_world []) = Some ((resp, sv'), w') ∧
    accounted (gc_request "secret") resp (10 ^ 18) ci_server sv' ∧ idle w'.
Proof.
  assert (idle (keys_world [])) as Hw by (split; [|reflexivity]; intros k; discriminate).
  split; [exact Hw|].
  destruct (request_accounted text_time time_text "" no_zip no_gzip srv None 1000 no_ui gc_router not_found
    (gc_request "secret") (post "/api/v1/gc" GC) ∅ ci_server (keys_world []) eq_refl Hw) as [H1 H2].
  destruct (H1 eq_refl) as [[[resp sv'] w'] E]. exists resp, sv', w'. split; [exact E|].
  destruct (H2 _ _ _ E) as (Ha & Hi & _). split; [exact Ha|exact Hi].
Defined.
