(* ===== verification/System.v ===== *)
(** * Runs of the server

    The server as a transition system: its start by [main], requests, the
    hourly collection of garbage, the limiter's clean-up, and what others do to
    the file system.  What holds in every reachable state, by rule induction. *)

From stdpp Require Import relations sorting.
From S2P Require Import Prelude GoString SemVer Validation GoPath Sha256 Os OsFacts Frame Json Decode Store StoreFacts Index.
From S2P Require Import Archive Signing Http Auth AuthFacts RateLimit Api Metrics Protocol ReadFacts Server Serving Guard Confine KeysFile ServerFacts.

#[local] Opaque sha256_hex.

(** Counting one more request keeps the balance. *)
Lemma counted_balance resp (m : metric → Z) : m RequestsTotal = int64_wrap (m RequestsOK + m RequestsErr) →
  counted_as resp m RequestsTotal = int64_wrap (counted_as resp m RequestsOK + counted_as resp m RequestsErr).
Proof.
  intros E. unfold counted_as, verdict. destruct (status resp <? 400)%Z.
  - rewrite !decide_True by auto. rewrite decide_False by (intros [|]; done). rewrite E. unfold int64_wrap. lia.
  - rewrite decide_True by auto. rewrite decide_False by (intros [|]; done). rewrite decide_True by auto.
    rewrite E. unfold int64_wrap. lia.
Qed.

(** An entry of the audit log as it may be at [now]. *)
Definition entry_ok (now : Z) (e : AuditEntry) : Prop :=
  HasPrefix (ae_path e) "/api/v1/" = true ∧ (ae_time e ≤ now)%Z.

(** The keys after a request. *)
Lemma renewed_keys {Time} keysFile (ks ks' : KeyStore Time) : renewed ks ks' → store_ok ks → ks_path ks = keysFile →
  store_ok ks' ∧ ks_path ks' = keysFile.
Proof. intros [->|[? ->]] ? ?; by split. Qed.

(** The log stays in order and in bounds. *)
Lemma audited_ok r resp now log log' : audited r resp now log log' → StronglySorted Z.le (ae_time <$> log) →
  Forall (entry_ok now) log →
  (StronglySorted Z.le (ae_time <$> log') ∧ Forall (entry_ok now) log') ∧ log `prefix_of` log'.
Proof.
  unfold audited. destruct (managed r) eqn:Em; [|by intros ->]. intros [[_ ->]|(e & He & ->)] Hs Hf; [done|].
  destruct He as (Et & _ & _ & Ep & _). split; [|by apply prefix_app_r]. split.
  - rewrite fmap_app. apply StronglySorted_app_2; [|done|repeat constructor].
    intros x y (e' & -> & Hin)%list_elem_of_fmap. simpl. rewrite list_elem_of_singleton. intros ->. rewrite Et.
    rewrite Forall_forall in Hf. by apply Hf.
  - apply Forall_app. split; [done|]. constructor; [|constructor]. split; [by rewrite Ep|by rewrite Et].
Qed.

Section system.
Context {Time : Type}.
Context (dec_time : decoder Time) (enc_time : Time → option json) (zero_time : Time) (time_of : Z → Time).
Context (zip_NewReader : string → Z → result error (list zip_file)).
Context (gzip_NewReader : string → result error tar_stream).
Context (s : Store) (signer : option RegistrySigner) (maxUploadSize : Z) (ui : assets).
Context (match_route : request → option (route * Vars)) (unmatched : request → response).
Context (keysFile : path) (api_key : string) (random : list N).
Context (rate window : Z) (trust : string).
#[local] Abbreviation server := (Server.server (Time := Time)).
#[local] Abbreviation ServeHTTP := (Server.ServeHTTP dec_time enc_time zero_time zip_NewReader gzip_NewReader s signer
  maxUploadSize ui match_route unmatched).

Definition system : Type := server * world.

(** [main], once the store and the signer are there: the keys are loaded, or
    the default ones made; the counters and the limiter are new. *)
Inductive started : system → Prop :=
| Started w0 ks w : idle w0 →
    NewKeyStore dec_time enc_time zero_time time_of keysFile api_key random w0 = Some (Ok ks, w) →
    started (mkServer ks (NewRateLimiter rate window trust) (NewMetrics (w_now w)) [], w).

Inductive step : system → system → Prop :=
| step_request r resp sv sv' w w' :
    ServeHTTP r sv w = Some ((resp, sv'), w') → step (sv, w) (sv', w')
| step_collect sv w res w' :
    GarbageCollect s w = Some (res, w') → step (sv, w) (sv, w')
| step_cleanup sv w :
    step (sv, w) (set_limiter (cleanup (w_now w) (sv_limiter sv)) sv, w)
(** time passes; files, faults to come and random numbers are any *)
| step_outside sv w w' :
    w_locks w' = w_locks w → w_mutation w' = w_mutation w → (w_now w ≤ w_now w')%Z → step (sv, w) (sv, w').

Definition reachable (sys : system) : Prop := ∃ sys0, started sys0 ∧ rtc step sys0 sys.

(** ** The invariant *)

Record sound (sys : system) : Prop := {
  so_idle : idle sys.2;
  so_keys : store_ok (sv_keys sys.1);
  so_path : ks_path (sv_keys sys.1) = keysFile;
  so_limit : rl_rate (sv_limiter sys.1) = rate ∧ rl_window (sv_limiter sys.1) = window;
  so_start : (startTime (sv_metrics sys.1) ≤ w_now sys.2)%Z;
  so_count : Load (sv_metrics sys.1) RequestsTotal =
             int64_wrap (Load (sv_metrics sys.1) RequestsOK + Load (sv_metrics sys.1) RequestsErr);
  so_sorted : StronglySorted Z.le (ae_time <$> sv_audit sys.1);
  so_entries : Forall (entry_ok (w_now sys.2)) (sv_audit sys.1)
}.

Lemma keeps_NewKeyStore : answers true (NewKeyStore dec_time enc_time zero_time time_of keysFile api_key random).
Proof using Type.
  unfold NewKeyStore, createDefaultFile, writeKeysConfigAtomic, os_CreateTempSuffix. cbv zeta. keeps_tac.
Qed.

Lemma yields_NewKeyStore : yields (NewKeyStore dec_time enc_time zero_time time_of keysFile api_key random)
  (λ res, match res with Ok ks => store_ok ks ∧ ks_path ks = keysFile | Err _ => True end).
Proof using Type.
  unfold NewKeyStore. cbv zeta.
  eapply yields_bind; [apply yields_any|]. intros st _. eapply yields_bind; [apply yields_any|]. intros [u|e] _; [|by apply yields_ret].
  eapply yields_bind; [apply yields_reload|]. intros [[u'|e] ks'] [Hr Hk]; apply yields_ret; [|done]. simpl in Hr, Hk.
  split; [by apply Hk|]. by destruct Hr as [->|[_ ->]].
Qed.

Lemma started_sound sys : started sys → sound sys.
Proof using Type.
  intros [w0 ks w Hw E]. destruct (keeps_run _ _ _ _ w0 _ _ keeps_NewKeyStore Hw E) as [Hw' _].
  destruct (yields_NewKeyStore _ _ _ E). split; simpl; try done; constructor.
Qed.

Lemma request_sound r resp sv sv' w w' : sound (sv, w) → ServeHTTP r sv w = Some ((resp, sv'), w') →
  sound (sv', w') ∧ sv_audit sv `prefix_of` sv_audit sv'.
Proof using Type.
  intros Hs E. destruct (match_route r) as [[rt vars]|] eqn:Em.
  2:{ unfold Server.ServeHTTP in E. rewrite Em in E. by injection E as <- <- <-. }
  destruct (routed_accounts dec_time enc_time zero_time zip_NewReader gzip_NewReader s signer maxUploadSize ui match_route
    unmatched r rt vars sv w resp sv' w' Em (so_idle _ Hs) E) as ([K L M S A] & Hw & Hn).
  destruct Hs as [_ Hk Hp Hl Hst Hc Hso He]. simpl in *.
  destruct (renewed_keys keysFile _ _ K Hk Hp) as [Hk' Hp']. destruct L as (L1 & L2 & _).
  assert (∀ x, (∀ c, x ≠ Counted c) → Load (sv_metrics sv') x = counted_as resp (Load (sv_metrics sv)) x) as M' by done.
  assert ((StronglySorted Z.le (ae_time <$> sv_audit sv') ∧ Forall (entry_ok (w_now w)) (sv_audit sv')) ∧
    sv_audit sv `prefix_of` sv_audit sv') as [[Hso' He'] Hpre] by by eapply audited_ok.
  split; [|done]. split; simpl; rewrite ?S, ?Hn; try done.
  - destruct Hl. split; congruence.
  - rewrite !M' by done. by apply counted_balance.
Qed.

Lemma collect_idle w res w' : idle w → GarbageCollect s w = Some (res, w') → idle w' ∧ w_now w' = w_now w.
Proof using Type.
  intros Hw E. assert (answers true (GarbageCollect s)) as Hk by auto with keeps typeclass_instances.
  by apply (keeps_run _ _ _ _ w _ _ Hk Hw E).
Qed.

(** Time passes, and nothing else in the server. *)
Lemma later_sound sv w w' : sound (sv, w) → idle w' → (w_now w ≤ w_now w')%Z → sound (sv, w').
Proof using Type.
  clear dec_time enc_time zero_time time_of zip_NewReader gzip_NewReader trust.
  intros [_ Hk Hp Hl Hst Hc Hso He] Hw Hn. split; simpl in *; try done; [lia|].
  eapply Forall_impl; [exact He|]. intros e [H1 H2]. split; [done|lia].
Qed.

Lemma step_sound sys sys' : sound sys → step sys sys' → sound sys' ∧ sv_audit sys.1 `prefix_of` sv_audit sys'.1.
Proof using Type.
  intros Hs H. destruct H as [r resp sv sv' w w' E|sv w res w' E|sv w|sv w w' E1 E2 E3]; simpl.
  - by eapply request_sound.
  - split; [|done]. destruct (collect_idle w res w' (so_idle _ Hs) E) as [Hw Hn]. eapply later_sound; [done..|by rewrite Hn].
  - split; [|done]. by destruct Hs.
  - split; [|done]. eapply later_sound; [done| |done]. destruct (so_idle _ Hs) as [Hu Hm]. simpl in *.
    split; [unfold unlocked in *; congruence|congruence].
Qed.

Lemma steps_sound sys sys' : rtc step sys sys' → sound sys → sound sys' ∧ sv_audit sys.1 `prefix_of` sv_audit sys'.1.
Proof using Type.
  induction 1 as [sys|sys1 sys2 sys3 H _ IH]; intros Hs; [done|]. destruct (step_sound _ _ Hs H) as [Hs2 Hp].
  destruct (IH Hs2) as [Hs3 Hp']. split; [done|by etransitivity].
Qed.

Lemma reachable_sound sys : reachable sys → sound sys.
Proof using Type. intros (sys0 & H0 & Hs). by apply (steps_sound _ _ Hs), started_sound. Qed.

(** C4. The invariant of the server.  In every state reached from its start by
    requests of any kind, collections of garbage, clean-ups of the limiter and
    whatever others do to the files, under any I/O faults: no mutex is held;
    the keys are well-formed and come from the configured file; the limiter
    has the configured rate and window; the requests counted are those counted
    as good or bad (modulo 2^64); the entries of the audit log are in
    chronological order, none is of the future and all are of requests under
    /api/v1/; and from there on the log only grows. *)
Theorem server_invariant (sv : server) (w : world) : reachable (sv, w) →
  sound (sv, w) ∧ ∀ sv' w', rtc step (sv, w) (sv', w') → sound (sv', w') ∧ sv_audit sv `prefix_of` sv_audit sv'.
Proof.
  intros H%reachable_sound. split; [done|]. intros sv' w' Hs. by apply (steps_sound _ _ Hs).
Qed.

(** C25. The server stays responsive: in every reachable state, whatever the
    faults to come, every request but an upload is answered, and the state
    after the answer is reachable again; and the hourly collection of garbage
    ends. *)
Theorem server_answers (sv : server) (w : world) (r : request) : reachable (sv, w) →
  (∀ rt vars, match_route r = Some (rt, vars) → is_upload (target rt) = false) →
  (∃ resp sv' w', ServeHTTP r sv w = Some ((resp, sv'), w') ∧ reachable (sv', w')) ∧
  (∃ res w', GarbageCollect s w = Some (res, w') ∧ reachable (sv, w')).
Proof.
  intros Hr Hu. pose proof (so_idle _ (reachable_sound _ Hr)) as Hw. simpl in Hw.
  assert (∀ sys, step (sv, w) sys → reachable sys) as Hnext.
  { intros sys Hs. destruct Hr as (sys0 & H0 & H1). exists sys0. split; [done|]. by eapply rtc_r. }
  split.
  - destruct (ServeHTTP r sv w) as [[[resp sv'] w']|] eqn:E.
    + exists resp, sv', w'. split; [done|]. apply Hnext. by eapply step_request.
    + exfalso. destruct (match_route r) as [[rt vars]|] eqn:Em; [|unfold Server.ServeHTTP in E; by rewrite Em in E].
      destruct (routed_answers dec_time enc_time zero_time zip_NewReader gzip_NewReader s signer maxUploadSize ui match_route
        unmatched r rt vars sv w Em Hw (Hu _ _ eq_refl)) as [x Ex]. by rewrite E in Ex.
  - assert (answers true (GarbageCollect s)) as Hk by auto with keeps typeclass_instances.
    destruct (keeps_total _ _ _ w Hk Hw) as (res & w' & E & _). exists res, w'. split; [done|]. apply Hnext. by eapply step_collect.
Qed.

End system.

(** ** A concrete run *)

Abbreviation ci_started := (started text_time time_text "" (λ _, "2024-01-01T00:00:00Z") ["srv"; "keys.json"] "" [] 100 minute "").
Abbreviation ci_step := (step text_time time_text "" no_zip no_gzip srv None 1000 no_ui gc_router not_found).
Abbreviation ci_reachable := (reachable text_time time_text "" (λ _, "2024-01-01T00:00:00Z") no_zip no_gzip srv None 1000 no_ui
  gc_router not_found ["srv"; "keys.json"] "" [] 100 minute "").

Lemma keys_world_idle faults : idle (keys_world faults).
Proof. by split. Qed.

(** The server starts from the key file of [KeysFile]. *)
Lemma ci_starts : ∃ sys, ci_started sys.
Proof.
  assert (match NewKeyStore text_time time_text "" (λ _, "2024-01-01T00:00:00Z") ["srv"; "keys.json"] "" [] (keys_world []) with
          | Some (Ok _, _) => true | _ => false end = true) as H by (vm_compute; reflexivity).
  destruct (NewKeyStore _ _ _ _ _ _ _ _) as [[[ks|e] w]|] eqn:E; try discriminate H.
  eexists. eapply Started; [apply keys_world_idle|exact E].
Qed.

Lemma ci_reaches : ∃ sv w, ci_reachable (sv, w).
Proof. destruct ci_starts as [[sv w] H]. exists sv, w, (sv, w). split; [exact H|apply rtc_refl]. Qed.

Lemma server_invariant_witness : ∃ sv w, ci_reachable (sv, w) ∧
  ∀ sv' w', rtc ci_step (sv, w) (sv', w') → store_ok (sv_keys sv') ∧ sv_audit sv `prefix_of` sv_audit sv'.
Proof.
  destruct ci_reaches as (sv & w & H). exists sv, w. split; [exact H|]. intros sv' w' Hs.
  destruct (server_invariant text_time time_text "" (λ _, "2024-01-01T00:00:00Z") no_zip no_gzip srv None 1000 no_ui
    gc_router not_found ["srv"; "keys.json"] "" [] 100 minute "" sv w H) as [_ Hn].
  destruct (Hn sv' w' Hs) as [Hso Hp]. split; [exact (so_keys _ _ _ _ Hso)|exact Hp].
Defined.

Lemma server_answers_witness : ∃ sv w, ci_reachable (sv, w) ∧ ∃ resp sv' w',
  ci_serve (gc_request "secret") sv w = Some ((resp, sv'), w') ∧ ci_reachable (sv', w').
Proof.
  destruct ci_reaches as (sv & w & H). exists sv, w. split; [exact H|].
  destruct (server_answers text_time time_text "" (λ _, "2024-01-01T00:00:00Z") no_zip no_gzip srv None 1000 no_ui
    gc_router not_found ["srv"; "keys.json"] "" [] 100 minute "" sv w (gc_request "secret") H) as [Ha _]; [|exact Ha].
  intros rt vars Hm. injection Hm as <- <-. reflexivity.
Defined.
