(* ===== verification/Duration.v ===== *)
(** * Durations (package time)

    [time.ParseDuration], which [main] reads RATE_WINDOW with: an [int64] of
    nanoseconds from decimal numbers with units, accumulated in an [uint64]
    that wraps around.  Fractions are computed in [float64], as the library
    does. *)

From Stdlib Require Import SpecFloat.
From S2P Require Import Prelude GoString Os Json Decode Store Archive RateLimit.

#[local] Open Scope Z_scope.

(** ** The parser *)

Definition unitMap : list (string * Z) :=
  [("ns", 1); ("us", 10 ^ 3); ("µs", 10 ^ 3); ("μs", 10 ^ 3); ("ms", 10 ^ 6); ("s", Second); ("m", minute); ("h", 60 * minute)].

Definition unit_of (u : string) : option Z := snd <$> List.find (λ kv, String.eqb kv.1 u) unitMap.

Definition digit (c : ascii) : Z := Z.of_N (byte_of c - 48).

(** [leadingInt], from the value [x] of the digits before; [None] is overflow.
    What follows a number is not a digit. *)
Fixpoint leadingInt (x : Z) (s : string) : option (Z * string) :=
  match s with
  | String c t =>
      if is_digit c then
        if 2 ^ 63 / 10 <? x then None
        else let x := x * 10 + digit c in if 2 ^ 63 <? x then None else leadingInt x t
      else Some (x, s)
  | "" => Some (x, "")
  end.

(** [leadingFraction]: the digits after the point that fit, ten to the power of
    their number, and what follows. *)
Fixpoint leadingFraction (x : Z) (scale : spec_float) (overflow : bool) (s : string) : Z * spec_float * string :=
  match s with
  | String c t =>
      if is_digit c then
        if overflow || ((2 ^ 63 - 1) / 10 <? x) then leadingFraction x scale true t
        else let y := x * 10 + digit c in
             if 2 ^ 63 <? y then leadingFraction x scale true t else leadingFraction y (fmul scale (of_int 10)) false t
      else (x, scale, s)
  | "" => (x, scale, "")
  end.

Definition in_number (c : ascii) : bool := bool_decide (c = "."%char) || is_digit c.

(** The unit is everything up to the next digit or point. *)
Fixpoint span_unit (s : string) : string * string :=
  match s with
  | String c t => if in_number c then ("", s) else let '(u, rest) := span_unit t in (String c u, rest)
  | "" => ("", "")
  end.

Definition invalid_duration : error := EText "time: invalid duration".

(** The fraction after the whole number, if there is one, and whether it has
    digits. *)
Definition fraction (s : string) : Z * spec_float * string * bool :=
  match s with
  | String "." t => let '(f, scale, rest) := leadingFraction 0 (of_int 1) false t in
                    (f, scale, rest, negb (slen t =? slen rest)%nat)
  | _ => (0, of_int 1, s, false)
  end.

(** One turn of the loop: the nanoseconds of the first number with its unit,
    and what follows.  [v * unit] does not wrap around. *)
Definition component (s : string) : result error (Z * string) :=
  if negb (match s with String c _ => in_number c | "" => false end) then Err invalid_duration
  else match leadingInt 0 s with
  | None => Err invalid_duration
  | Some (v, s1) =>
      let pre := negb (slen s =? slen s1)%nat in
      let '(f, scale, s2, post) := fraction s1 in
      if negb pre && negb post then Err invalid_duration
      else
        let '(u, rest) := span_unit s2 in
        if String.eqb u "" then Err (EText "time: missing unit in duration")
        else match unit_of u with
        | None => Err (EText "time: unknown unit in duration")
        | Some unit =>
            if 2 ^ 63 / unit <? v then Err invalid_duration
            else if 0 <? f then
              let v := uint64_wrap (v * unit + trunc (fmul (of_int f) (fdiv (of_int unit) scale))) in
              if 2 ^ 63 <? v then Err invalid_duration else Ok (v, rest)
            else Ok (v * unit, rest)
        end
  end.

(** The loop; every turn takes a byte at least. *)
Fixpoint components (fuel : nat) (d : Z) (s : string) : result error Z :=
  match s, fuel with
  | "", _ => Ok d
  | _, O => Err invalid_duration
  | _, S fuel =>
      '(v, rest) ←? component s;
      let d := uint64_wrap (d + v) in
      if 2 ^ 63 <? d then Err invalid_duration else components fuel d rest
  end.

Definition ParseDuration (s : string) : result error Z :=
  let neg := HasPrefix s "-" in
  let s := if neg || HasPrefix s "+" then sdrop 1 s else s in
  if String.eqb s "0" then Ok 0
  else if String.eqb s "" then Err invalid_duration
  else
    d ←? components (slen s) 0 s;
    if neg then Ok (int64_wrap (- int64_wrap d))
    else if 2 ^ 63 - 1 <? d then Err invalid_duration else Ok d.

Example ParseDuration_runs :
  ParseDuration "1m" = Ok minute ∧ ParseDuration "1h15m30.918s" = Ok 4530918000000 ∧ ParseDuration "-1.5s" = Ok (-1500000000) ∧
  ParseDuration "+5µs" = Ok 5000 ∧ ParseDuration ".5h" = Ok (30 * minute) ∧ ParseDuration "0" = Ok 0 ∧
  ParseDuration "9223372036854775807ns" = Ok (2 ^ 63 - 1) ∧ ParseDuration "-9223372036854775808ns" = Ok (- 2 ^ 63).
Proof. vm_compute. split_and!; reflexivity. Qed.

Example ParseDuration_errors :
  Forall (λ s, is_ok (ParseDuration s) = false)
    [""; "-"; "3"; ".s"; "1 m"; "m"; "1d"; "+-1s"; "9223372036854775808ns"; "2562048h"; "1s."].
Proof. repeat constructor. Qed.

(** The sum wraps around when two of its parts are the greatest value. *)
Example ParseDuration_wraps :
  ParseDuration "9223372036854775808ns9223372036854775808ns1s" = Ok Second.
Proof. vm_compute. reflexivity. Qed.

(** ** Termination *)

Lemma leadingInt_shorter s : ∀ x v rest, leadingInt x s = Some (v, rest) → (slen rest ≤ slen s)%nat.
Proof.
  induction s as [|c s IH]; intros x v rest E; cbn [leadingInt] in E; [by simplify_eq|].
  destruct (is_digit c); [|by simplify_eq]. repeat case_match; try done. apply IH in E. simpl. lia.
Qed.

Lemma leadingFraction_shorter s : ∀ x scale o, (slen (leadingFraction x scale o s).2 ≤ slen s)%nat.
Proof.
  induction s as [|c s IH]; intros x scale o; cbn [leadingFraction]; [done|].
  repeat case_match; simpl; try lia; etransitivity; try apply IH; lia.
Qed.

Lemma span_unit_app s : s = (span_unit s).1 +:+ (span_unit s).2.
Proof.
  induction s as [|c s IH]; [done|]. cbn [span_unit]. destruct (in_number c); [done|].
  destruct (span_unit s) as [u r]. simpl in *. by rewrite sapp_cons, <- IH.
Qed.

Lemma fraction_shorter s f scale rest post : fraction s = (f, scale, rest, post) → (slen rest ≤ slen s)%nat.
Proof.
  unfold fraction. intros E. repeat case_match; simplify_eq; try done.
  all: match goal with H : leadingFraction ?x ?k ?o ?t = _ |- _ => pose proof (leadingFraction_shorter t x k o) as L; rewrite H in L end.
  all: simpl in *; lia.
Qed.

(** Each turn of the loop takes at least the first byte of the unit. *)
Lemma component_shorter s v rest : component s = Ok (v, rest) → (slen rest < slen s)%nat.
Proof.
  unfold component. destruct (negb _); [done|]. destruct (leadingInt 0 s) as [[n s1]|] eqn:E1; [|done]. cbv zeta.
  apply leadingInt_shorter in E1. destruct (fraction s1) as [[[f scale] s2] post] eqn:E2. apply fraction_shorter in E2.
  destruct (_ && _); [done|]. pose proof (span_unit_app s2) as E3. destruct (span_unit s2) as [u r]. simpl in E3.
  destruct (String.eqb u "") eqn:Eu; [done|]. assert (slen r < slen s)%nat.
  { apply (f_equal slen) in E3. rewrite slen_app in E3. destruct u; [done|]. simpl in E3. lia. }
  intros E. repeat case_match; by simplify_eq.
Qed.

(** More fuel changes nothing. *)
Lemma components_fuel n : ∀ m d s, (slen s ≤ n)%nat → (n ≤ m)%nat → components m d s = components n d s.
Proof.
  induction n as [|n IH]; intros m d s Hs Hm.
  { destruct s; [by destruct m|simpl in Hs; lia]. }
  destruct m as [|m]; [lia|]. destruct s as [|c s]; [done|]. cbn [components].
  destruct (component (String c s)) as [[v rest]|] eqn:E; [|done]. apply component_shorter in E. cbn [result_bind].
  destruct (_ <? _); [done|]. apply IH; simpl in *; lia.
Qed.

(** ** Range *)

Lemma components_range fuel : ∀ d s n, 0 ≤ d ≤ 2 ^ 63 → components fuel d s = Ok n → 0 ≤ n ≤ 2 ^ 63.
Proof.
  induction fuel as [|fuel IH]; intros d s n Hd E; destruct s as [|c s]; cbn [components] in E; try by simplify_eq.
  apply result_bind_ok in E as ([v rest] & _ & E). cbv zeta in E. destruct (Z.ltb_spec (2 ^ 63) (uint64_wrap (d + v))); [done|].
  eapply IH; [|exact E]. split; [|done]. unfold uint64_wrap. apply Z.mod_pos_bound. lia.
Qed.

Lemma ParseDuration_range s d : ParseDuration s = Ok d → - 2 ^ 63 ≤ d < 2 ^ 63.
Proof.
  unfold ParseDuration. cbv zeta. destruct (String.eqb _ "0"); [intros [= <-]; lia|]. destruct (String.eqb _ ""); [done|].
  intros (n & E & H)%result_bind_ok. apply components_range in E; [|lia].
  destruct (HasPrefix s "-").
  - injection H as <-. unfold int64_wrap. pose proof (Z.mod_pos_bound (- ((n + 2 ^ 63) mod 2 ^ 64 - 2 ^ 63) + 2 ^ 63) (2 ^ 64)). lia.
  - destruct (Z.ltb_spec (2 ^ 63 - 1) n); [done|]. injection H as <-. lia.
Qed.

(** ** Whole numbers of units *)

(** The text of a duration in whole numbers of units, and its value. *)
Definition part_text (p : N * (string * Z)) : string := pretty p.1 +:+ p.2.1.
Definition part_value (p : N * (string * Z)) : Z := Z.of_N p.1 * p.2.2.

Fixpoint parts_text (l : list (N * (string * Z))) : string :=
  match l with [] => "" | p :: l => part_text p +:+ parts_text l end.

Definition total (l : list (N * (string * Z))) : Z := foldr Z.add 0 (part_value <$> l).

Definition starts_part (s : string) : bool := match s with String c _ => is_digit c | "" => true end.

Lemma is_digit_range c : is_digit c = true → (48 ≤ byte_of c ≤ 57)%N.
Proof. unfold is_digit, in_range. intros H. to_props. done. Qed.

Lemma leadingInt_digits ds rest : sforall is_digit ds = true → (match rest with String c _ => is_digit c = false | "" => True end) →
  ∀ x : N, Z.of_N x ≤ 2 ^ 63 → leadingInt (Z.of_N x) (ds +:+ rest) =
    if Z.of_N (dec_value ds x) <=? 2 ^ 63 then Some (Z.of_N (dec_value ds x), rest) else None.
Proof.
  intros Hds Hr. induction ds as [|c ds IH]; intros x Hx.
  { rewrite sapp_nil_l. cbn [dec_value]. destruct (Z.leb_spec (Z.of_N x) (2 ^ 63)); [|lia].
    destruct rest as [|c rest]; cbn [leadingInt]; [done|]. by rewrite Hr. }
  cbn [sforall] in Hds. apply andb_true_iff in Hds as [Hc Hds]. rewrite sapp_cons. cbn [leadingInt dec_value]. rewrite Hc.
  pose proof (is_digit_range c Hc) as Hb. pose proof (dec_value_ge ds (x * 10 + (byte_of c - 48))) as Hge.
  assert (Z.of_N x * 10 + digit c = Z.of_N (x * 10 + (byte_of c - 48))) as -> by (unfold digit; lia).
  assert (2 ^ 63 / 10 = 922337203685477580) as Hcut by reflexivity.
  assert (2 ^ 63 = 9223372036854775808) as H63 by reflexivity. rewrite Hcut, H63 in *.
  destruct (Z.ltb_spec 922337203685477580 (Z.of_N x)).
  { destruct (Z.leb_spec (Z.of_N (dec_value ds (x * 10 + (byte_of c - 48)))) 9223372036854775808); [lia|done]. }
  destruct (Z.ltb_spec 9223372036854775808 (Z.of_N (x * 10 + (byte_of c - 48)))); [|by apply IH].
  destruct (Z.leb_spec (Z.of_N (dec_value ds (x * 10 + (byte_of c - 48)))) 9223372036854775808); [lia|done].
Qed.

Lemma span_unit_letters u rest : sforall (λ c, negb (in_number c)) u = true →
  (match rest with String c _ => in_number c = true | "" => True end) → span_unit (u +:+ rest) = (u, rest).
Proof.
  intros Hu Hr. induction u as [|c u IH].
  - rewrite sapp_nil_l. destruct rest as [|c rest]; cbn [span_unit]; [done|]. by rewrite Hr.
  - cbn [sforall] in Hu. to_props. rewrite sapp_cons. cbn [span_unit]. rewrite H, IH; done.
Qed.

(** The names of the units have no digit and no point, and are found. *)
Lemma units_ok u : u ∈ unitMap →
  sforall (λ c, negb (in_number c)) u.1 = true ∧ (∃ c t, u.1 = String c t) ∧ unit_of u.1 = Some u.2 ∧ 0 < u.2 ≤ 60 * minute.
Proof.
  revert u. apply Forall_forall. repeat (constructor; [split_and!; [reflexivity|by do 2 eexists|reflexivity|done|done]|]). constructor.
Qed.

Lemma component_whole (n : N) u rest : u ∈ unitMap → (match rest with String c _ => is_digit c = true | "" => True end) →
  component (part_text (n, u) +:+ rest) =
    if part_value (n, u) <=? 2 ^ 63 then Ok (part_value (n, u), rest) else Err invalid_duration.
Proof.
  intros Hu Hr. destruct (units_ok u Hu) as (Hl & (c & t & Eu) & Ho & Hpos). unfold part_text, part_value. cbn [fst snd].
  rewrite sapp_assoc. pose proof (pretty_digits n) as Hd. pose proof (pretty_not_empty n) as Hne.
  assert (in_number c = false) as Hc by (rewrite Eu in Hl; cbn [sforall] in Hl; by to_props).
  assert (is_digit c = false) as Hc' by (unfold in_number in Hc; by to_props).
  unfold component. replace (negb _) with false.
  2:{ destruct (pretty n) as [|a p]; [done|]. rewrite sapp_cons. cbn [sforall] in Hd. to_props. unfold in_number. by rewrite H, orb_true_r. }
  change 0 with (Z.of_N 0) at 1. rewrite leadingInt_digits by (try done; by rewrite ?Eu). rewrite pretty_value.
  destruct (Z.leb_spec (Z.of_N n) (2 ^ 63)) as [Hn|Hn].
  2:{ destruct (Z.leb_spec (Z.of_N n * u.2) (2 ^ 63)); [nia|done]. }
  cbv zeta. assert (fraction (u.1 +:+ rest) = (0, of_int 1, u.1 +:+ rest, false)) as ->.
  { rewrite Eu, sapp_cons. unfold fraction. repeat case_match; simplify_eq; done. }
  replace (negb (_ =? _)%nat) with true.
  2:{ rewrite slen_app. destruct (pretty n); [done|]. symmetry. apply negb_true_iff, Nat.eqb_neq. simpl. lia. }
  cbn [negb andb]. rewrite span_unit_letters; [|done|].
  2:{ destruct rest; [done|]. unfold in_number. by rewrite Hr, orb_true_r. }
  rewrite Eu at 1. cbn [String.eqb]. rewrite Ho. change (0 <? 0) with false. cbv iota.
  destruct (Z.ltb_spec (2 ^ 63 / u.2) (Z.of_N n)), (Z.leb_spec (Z.of_N n * u.2) (2 ^ 63)); try done.
  - pose proof (Z.div_le_lower_bound (2 ^ 63) u.2 (Z.of_N n)). lia.
  - pose proof (Z.mul_div_le (2 ^ 63) u.2). nia.
Qed.

Definition whole (l : list (N * (string * Z))) : Prop := Forall (λ p, p.2 ∈ unitMap ∧ part_value p ≠ 2 ^ 63) l.

Lemma parts_start p l : ∃ c c' t, parts_text (p :: l) = String c t ∧ is_digit c = true ∧
  (p.2 ∈ unitMap → t = String c' (sdrop 1 t)).
Proof.
  cbn [parts_text]. unfold part_text. pose proof (pretty_digits p.1) as Hd. pose proof (pretty_not_empty p.1) as Hne.
  destruct (pretty p.1) as [|c ds]; [done|]. cbn [sforall] in Hd. to_props. rewrite !sapp_cons.
  destruct ((ds +:+ p.2.1) +:+ parts_text l) as [|c' t] eqn:E.
  - exists c, c, "". split_and!; [done..|]. intros Hu. destruct (units_ok _ Hu) as (_ & (x & y & Ex) & _). rewrite Ex in E.
    by destruct ds.
  - by exists c, c', (String c' t).
Qed.

Lemma total_nonneg l : whole l → 0 ≤ total l.
Proof.
  intros H. induction H as [|p l [Hu _] H IH]; [done|]. destruct (units_ok _ Hu) as (_ & _ & _ & Hp). unfold total, part_value in *.
  cbn. lia.
Qed.

Lemma components_whole l : whole l → ∀ fuel d, (slen (parts_text l) ≤ fuel)%nat → 0 ≤ d ≤ 2 ^ 63 →
  components fuel d (parts_text l) = if d + total l <=? 2 ^ 63 then Ok (d + total l) else Err invalid_duration.
Proof.
  intros H. induction H as [|[n u] l [Hu Hv] H IH]; intros fuel d Hf Hd.
  { cbn. rewrite Z.add_0_r. destruct (Z.leb_spec d (2 ^ 63)); [by destruct fuel|lia]. }
  destruct (parts_start (n, u) l) as (c & c' & t & Et & _ & _). pose proof (total_nonneg l H) as Hl.
  destruct (units_ok _ Hu) as (_ & _ & _ & Hp). cbn [snd] in *.
  destruct fuel as [|fuel]; [rewrite Et in Hf; simpl in Hf; lia|].
  assert (components (S fuel) d (parts_text ((n, u) :: l)) =
    ('(v, rest) ←? component (part_text (n, u) +:+ parts_text l);
     if 2 ^ 63 <? uint64_wrap (d + v) then Err invalid_duration else components fuel (uint64_wrap (d + v)) rest)) as ->.
  { cbn [parts_text] in *. rewrite Et. reflexivity. }
  rewrite component_whole; [|done|].
  2:{ destruct l as [|p l']; [done|]. destruct (parts_start p l') as (x & _ & y & -> & Hx & _). exact Hx. }
  change (total ((n, u) :: l)) with (part_value (n, u) + total l).
  assert (0 ≤ part_value (n, u)) by (unfold part_value; cbn; lia). set (v := part_value (n, u)) in *.
  destruct (Z.leb_spec v (2 ^ 63)); cbn [result_bind].
  2:{ destruct (Z.leb_spec (d + (v + total l)) (2 ^ 63)); [lia|done]. }
  rewrite uint64_wrap_id by lia. destruct (Z.ltb_spec (2 ^ 63) (d + v)).
  { destruct (Z.leb_spec (d + (v + total l)) (2 ^ 63)); [lia|done]. }
  assert (slen (parts_text l) ≤ fuel)%nat as Hf'.
  { cbn [parts_text] in Hf. rewrite slen_app in Hf. cbn [parts_text] in Et.
    unfold part_text in Hf. rewrite slen_app in Hf. pose proof (pretty_not_empty n). destruct (pretty n) eqn:En; [done|].
    cbn [fst] in Hf. rewrite En in Hf. simpl in Hf. lia. }
  rewrite IH by (try done; lia). by rewrite Z.add_assoc.
Qed.

(** A duration in whole numbers of units is read as exactly its value, or
    refused when that is no [int64]. *)
Lemma ParseDuration_whole sign l : sign ∈ ["-"; "+"; ""] → l ≠ [] → whole l →
  ParseDuration (sign +:+ parts_text l) =
    if String.eqb sign "-" then (if total l <=? 2 ^ 63 then Ok (- total l) else Err invalid_duration)
    else if total l <=? 2 ^ 63 - 1 then Ok (total l) else Err invalid_duration.
Proof.
  intros Hs Hl H. pose proof (total_nonneg l H) as Ht. pose proof (components_whole l H (slen (parts_text l)) 0) as Hc.
  assert (String.eqb (parts_text l) "0" = false ∧ String.eqb (parts_text l) "" = false ∧
    HasPrefix (parts_text l) "-" = false ∧ HasPrefix (parts_text l) "+" = false) as (E0 & E1 & E2 & E3).
  { destruct H as [|p l [Hu _] H]; [done|]. destruct (parts_start p l) as (c & c' & t & -> & Hd & Hc'). rewrite (Hc' Hu).
    assert (c ≠ "-"%char ∧ c ≠ "+"%char) as [H1 H2] by (split; intros ->; discriminate Hd).
    split_and!; [cbn [String.eqb]; by destruct (Ascii.eqb c "0")|done|..]; cbn [HasPrefix]; by rewrite bool_decide_eq_false_2. }
  assert (ParseDuration (sign +:+ parts_text l) = (d ←? components (slen (parts_text l)) 0 (parts_text l);
    if String.eqb sign "-" then Ok (int64_wrap (- int64_wrap d)) else if 2 ^ 63 - 1 <? d then Err invalid_duration else Ok d)) as ->.
  { unfold ParseDuration. rewrite !elem_of_cons, elem_of_nil in Hs. destruct Hs as [->|[->|[->|[]]]].
    - replace (HasPrefix ("-" +:+ parts_text l) "-") with true by (symmetry; apply HasPrefix_app). cbv zeta. cbn [orb].
      change (sdrop 1 ("-" +:+ parts_text l)) with (parts_text l). by rewrite E0, E1.
    - replace (HasPrefix ("+" +:+ parts_text l) "+") with true by (symmetry; apply HasPrefix_app). rewrite orb_true_r.
      change (HasPrefix ("+" +:+ parts_text l) "-") with false. change (sdrop 1 ("+" +:+ parts_text l)) with (parts_text l).
      cbv zeta. by rewrite E0, E1.
    - rewrite sapp_nil_l, E2, E3. cbn [orb]. cbv zeta. by rewrite E0, E1. }
  rewrite Hc by lia. rewrite Z.add_0_l. destruct (Z.leb_spec (total l) (2 ^ 63)); cbn [result_bind].
  - destruct (String.eqb sign "-").
    + destruct (decide (total l = 2 ^ 63)) as [->|]; [reflexivity|]. rewrite !int64_wrap_id by (rewrite ?int64_wrap_id; lia). done.
    + destruct (Z.ltb_spec (2 ^ 63 - 1) (total l)), (Z.leb_spec (total l) (2 ^ 63 - 1)); done || lia.
  - destruct (String.eqb sign "-"); [done|]. destruct (Z.leb_spec (total l) (2 ^ 63 - 1)); [lia|done].
Qed.
