(* ===== verification/Startup.v ===== *)
(** * Configuration and start (main.go, middleware.go)

    What [main] reads from the environment, and how it starts the registry
    before it serves.  A start ends with exit status 1 or in a state from which
    the runs of [System] begin, and how [main] ends, with which exit status.
    What [ListenAndServe] and [Shutdown] return are parameters; logging is left
    out. *)

From stdpp Require Import relations.
From S2P Require Import Prelude GoString GoPath Os OsFacts Frame Json Decode Store StoreFacts Index Archive Signing Http Auth AuthFacts.
From S2P Require Import Draft SignerKey RateLimit Duration Api Metrics Protocol ReadFacts Server AuditText Serving Guard KeysFile System.

(** ** Configuration *)

Definition envOrDefault (env : string → string) (key defaultVal : string) : string :=
  if String.eqb (env key) "" then defaultVal else env key.

Definition filepath_join (parts : list string) : string := Join parts "/".

(** Leading spaces as [fmt.Sscanf] skips them; at a line end it fails. *)
Fixpoint skip_space (fuel : nat) (s : string) : option string :=
  match fuel with
  | O => Some s
  | S fuel =>
      if HasPrefix s (String "010" "") || HasPrefix s (String "013" (String "010" "")) then None
      else match List.find (HasPrefix s) unicode_spaces with
           | Some sp => skip_space fuel (TrimPrefix s sp)
           | None => Some s
           end
  end.

Fixpoint leading_digits (s : string) : string :=
  match s with
  | String a t => if in_range "0" "9" a then String a (leading_digits t) else ""
  | "" => ""
  end.

(** [fmt.Sscanf(s, "%d", &n)]; what follows the number is not looked at. *)
Definition Sscanf_d (s : string) : option Z :=
  s ← skip_space (slen s) s;
  let neg := HasPrefix s "-" in
  n ← ParseUint (leading_digits (if neg || HasPrefix s "+" then sdrop 1 s else s));
  let n := Z.of_N n in
  if neg then (if (2 ^ 63 <? n)%Z then None else Some (- n)%Z)
  else if (2 ^ 63 <=? n)%Z then None else Some n.

Definition default_max_upload : Z := (500 * 1024 * 1024)%Z.

(** [SetMaxUploadSize]: the new value of [maxUploadSize]. *)
Definition SetMaxUploadSize (env : string → string) : Z :=
  let s := env "MAX_UPLOAD_MB" in
  if String.eqb s "" then default_max_upload
  else match Sscanf_d s with
       | Some mb => if (0 <? mb)%Z && (mb <=? 10240)%Z then (mb * 1024 * 1024)%Z else default_max_upload
       | None => default_max_upload
       end.

(** The environment as [main] reads it. *)
Record Config := mkConfig {
  cf_basePath : string; cf_baseURL : string; cf_port : string; cf_keysFile : string; cf_auditPath : string;
  cf_signingKeyFile : string; cf_rate : Z; cf_window : Z; cf_maxUploadSize : Z
}.

Definition read_rate (s : string) : Z :=
  match Sscanf_d s with
  | Some n => if (n <=? 0)%Z then 100%Z else n
  | None => 100%Z
  end.

Definition read_window (s : string) : Z :=
  match ParseDuration s with Ok d => d | Err _ => minute end.

Definition read_config (env : string → string) : Config :=
  let basePath := envOrDefault env "STORAGE_PATH" "/var/lib/terraform-registry" in
  mkConfig basePath (envOrDefault env "BASE_URL" "http://localhost:8080") (envOrDefault env "PORT" "8080")
    (envOrDefault env "API_KEYS_FILE" (filepath_join [basePath; "keys.json"])) (envOrDefault env "AUDIT_LOG" "")
    (envOrDefault env "SIGNING_KEY_FILE" (filepath_join [basePath; "signing-key.asc"]))
    (read_rate (envOrDefault env "RATE_LIMIT" "100"))
    (read_window (envOrDefault env "RATE_WINDOW" "1m")) (SetMaxUploadSize env).

(** The limits are positive; that of uploads is one mebibyte to ten gibibytes,
    and the window is an [int64]. *)
Lemma read_config_limits env : let c := read_config env in
  (0 < cf_rate c)%Z ∧ (- 2 ^ 63 ≤ cf_window c < 2 ^ 63)%Z ∧ (2 ^ 20 ≤ cf_maxUploadSize c ≤ 10240 * 2 ^ 20)%Z.
Proof.
  cbn [read_config cf_rate cf_window cf_maxUploadSize]. split; [|split].
  - unfold read_rate. destruct (Sscanf_d _) as [n|]; [|lia]. destruct (Z.leb_spec n 0); lia.
  - unfold read_window. destruct (ParseDuration _) as [d|] eqn:E; [by eapply ParseDuration_range|by unfold minute, Second].
  - unfold SetMaxUploadSize, default_max_upload. destruct (String.eqb _ ""); [lia|]. destruct (Sscanf_d _) as [mb|]; [|lia].
    destruct (Z.ltb_spec 0 mb), (Z.leb_spec mb 10240); cbn [andb]; lia.
Qed.

(** What is configured by a number or a duration in whole units, exactly. *)
Lemma leading_digits_id s : sforall is_digit s = true → leading_digits s = s.
Proof. induction s as [|a s IH]; [done|]. cbn. intros H. to_props. change (in_range "0" "9" a) with (is_digit a). by rewrite H, IH. Qed.

Lemma Sscanf_d_pretty (n : N) : Sscanf_d (pretty n) = if (2 ^ 63 <=? Z.of_N n)%Z then None else Some (Z.of_N n).
Proof.
  pose proof (pretty_digits n) as Hd. pose proof (pretty_not_empty n) as Hne. pose proof (pretty_value n) as Hv. unfold Sscanf_d.
  assert (skip_space (slen (pretty n)) (pretty n) = Some (pretty n) ∧ HasPrefix (pretty n) "-" = false ∧ HasPrefix (pretty n) "+" = false)
    as (-> & E1 & E2).
  { destruct (pretty n) as [|a p]; [done|]. cbn [sforall] in Hd. to_props. apply digit_cases in H.
    rewrite !elem_of_cons, elem_of_nil in H. repeat (destruct H as [->|H]; [by split_and!|]). done. }
  cbn [mbind option_bind]. rewrite E1, E2. cbn [orb]. rewrite leading_digits_id by done.
  destruct (ParseUint (pretty n)) as [m|] eqn:E.
  - apply ParseUint_some in E as (_ & _ & -> & _). by rewrite Hv.
  - cbn. destruct (Z.leb_spec (2 ^ 63) (Z.of_N n)); [done|]. exfalso.
    assert (ParseUint (pretty n) = Some n) as E'; [|by rewrite E in E'].
    apply ParseUint_some. split_and!; [done..|]. unfold max_uint64. lia.
Qed.

Lemma read_config_exact env (rate mb : N) sign parts :
  env "RATE_LIMIT" = pretty rate → env "MAX_UPLOAD_MB" = pretty mb →
  env "RATE_WINDOW" = sign +:+ parts_text parts → sign ∈ ["-"; "+"; ""] → parts ≠ [] → whole parts →
  let c := read_config env in
  cf_rate c = (if (0 <? rate)%N && (Z.of_N rate <? 2 ^ 63)%Z then Z.of_N rate else 100%Z) ∧
  cf_maxUploadSize c = (if (0 <? mb)%N && (mb <=? 10240)%N then (Z.of_N mb * 2 ^ 20)%Z else (500 * 2 ^ 20)%Z) ∧
  cf_window c = (if String.eqb sign "-" then (if (total parts <=? 2 ^ 63)%Z then (- total parts)%Z else minute)
                 else if (total parts <=? 2 ^ 63 - 1)%Z then total parts else minute).
Proof.
  intros Er Em Ew Hs Hp Hw. cbn [read_config cf_rate cf_maxUploadSize cf_window].
  assert (∀ k d n, env k = pretty (n : N) → envOrDefault env k d = pretty n) as Hn.
  { intros k d n Ek. unfold envOrDefault. rewrite Ek. pose proof (pretty_not_empty n). by destruct (String.eqb_spec (pretty n) ""). }
  rewrite (Hn "RATE_LIMIT" "100" rate Er). unfold read_rate, SetMaxUploadSize, default_max_upload. rewrite Em, !Sscanf_d_pretty.
  split; [|split].
  - destruct (Z.leb_spec (2 ^ 63) (Z.of_N rate)), (N.ltb_spec 0 rate), (Z.ltb_spec (Z.of_N rate) (2 ^ 63)); cbn [andb]; try lia;
      destruct (Z.leb_spec (Z.of_N rate) 0); lia.
  - pose proof (pretty_not_empty mb). destruct (String.eqb_spec (pretty mb) ""); [done|].
    destruct (Z.leb_spec (2 ^ 63) (Z.of_N mb)), (N.ltb_spec 0 mb), (N.leb_spec mb 10240); cbn [andb]; try lia;
      destruct (Z.ltb_spec 0 (Z.of_N mb)), (Z.leb_spec (Z.of_N mb) 10240); cbn [andb]; lia.
  - unfold envOrDefault. rewrite Ew. destruct (String.eqb_spec (sign +:+ parts_text parts) "") as [E|_].
    + apply sapp_eq_nil in E as [_ E]. destruct parts as [|p l]; [done|]. destruct (parts_start p l) as (? & ? & ? & E' & _).
      by rewrite E' in E.
    + unfold read_window. rewrite ParseDuration_whole by done.
      destruct (String.eqb sign "-"), (total parts <=? 2 ^ 63)%Z, (total parts <=? 2 ^ 63 - 1)%Z; reflexivity.
Qed.

(** ** The audit log *)

(** [os.OpenFile(p, O_APPEND|O_CREATE|O_WRONLY, _)] *)
Definition os_OpenAppend (p : path) : M (result error path) :=
  syscall (λ w, q ←? create_at (w_fs w) p;
                Ok (q, match w_fs w !! q with Some _ => w_fs w | None => <[q := NFile "" (w_now w)]> (w_fs w) end)).

(** The file of the log, when there is one. *)
Definition NewAuditLog (cwd : path) (file : string) : M (result error (option path)) :=
  if String.eqb file "" then mret (Ok None)
  else f ←! os_OpenAppend (filepath_Abs cwd file) wrapping "open audit log"; mret (Ok (Some f)).

(** ** The start *)

Section startup.
Context {Time : Type}.
Context (dec_time : decoder Time) (enc_time : Time → option json) (zero_time : Time) (time_of : Z → Time).
Context {Entity : Type} (armor_Decode : string → result error (string * string)) (ReadKeyRing : string → result error (list Entity)).
Context (armored_private armored_public : Entity → result error string).
Context (KeyIdString : Entity → string) (DetachSign : Entity → string → result error string) (generated : result error Entity).
Context (cwd : path) (env : string → string) (random : list N).
#[local] Abbreviation server := (Server.server (Time := Time)).
#[local] Abbreviation NewSigner := (NewRegistrySigner armor_Decode ReadKeyRing armored_private armored_public KeyIdString DetachSign).

(** What [main] has built when it begins to serve. *)
Record registry := mkRegistry {
  rg_store : Store; rg_signer : RegistrySigner; rg_audit : option path; rg_maxUploadSize : Z; rg_server : server
}.

Definition key_file : path := filepath_Abs cwd (cf_keysFile (read_config env)).

(** [main] up to the router, or the status it exits with. *)
Definition start : M (Z + registry) :=
  let c := read_config env in
  r ← NewStore cwd (cf_basePath c) (cf_baseURL c);
  match r with
  | Err _ => mret (inl 1%Z)
  | Ok s =>
      r ← NewSigner generated (filepath_Abs cwd (cf_signingKeyFile c));
      match r with
      | Err _ => mret (inl 1%Z)
      | Ok signer =>
          _ ← rebuildAllProviderChecksums s (Some signer);
          r ← NewKeyStore dec_time enc_time zero_time time_of key_file (env "REGISTRY_API_KEY") random;
          match r with
          | Err _ => mret (inl 1%Z)
          | Ok ks =>
              r ← NewAuditLog cwd (cf_auditPath c);
              match r with
              | Err _ => mret (inl 1%Z)
              | Ok audit =>
                  now ← time_Now;
                  mret (inr (mkRegistry s signer audit (cf_maxUploadSize c)
                    (mkServer ks (NewRateLimiter (cf_rate c) (cf_window c) (env "TRUST_PROXY_HEADERS")) (NewMetrics now) [])))
              end
          end
      end
  end.

(** ** Every start ends *)

Lemma keeps_NewStore base url : answers true (NewStore cwd base url).
Proof using Type.
  unfold NewStore. cbv zeta. keeps_tac.
  all: try (match goal with |- keeps _ _ _ (make_dirs ?l) => induction l; cbn [make_dirs]; keeps_tac end).
Qed.

Lemma keeps_NewSigner p : answers true (NewSigner generated p).
Proof using Type. unfold NewRegistrySigner, replace_file, fill_and_rename, fail_after. keeps_tac. Qed.

Lemma keeps_rebuild s signer ns name version : answers true (rebuildProviderChecksums s signer ns name version).
Proof using Type. apply serves_answers. auto with keeps. Qed.
#[local] Hint Resolve keeps_rebuild : keeps.

Lemma keeps_rebuild_versions s signer ns name l : answers true (rebuild_versions s signer ns name l).
Proof using Type. induction l; cbn [rebuild_versions]; keeps_tac. Qed.
#[local] Hint Resolve keeps_rebuild_versions : keeps.

Lemma keeps_rebuild_providers s signer ns prefix l : answers true (rebuild_providers s signer ns prefix l).
Proof using Type. induction l; cbn [rebuild_providers]; keeps_tac. Qed.
#[local] Hint Resolve keeps_rebuild_providers : keeps.

Lemma keeps_rebuild_namespaces s signer l : answers true (rebuild_namespaces s signer l).
Proof using Type. induction l; cbn [rebuild_namespaces]; keeps_tac. Qed.
#[local] Hint Resolve keeps_rebuild_namespaces : keeps.

Lemma keeps_rebuildAll s signer : answers true (rebuildAllProviderChecksums s signer).
Proof using Type. unfold rebuildAllProviderChecksums. keeps_tac. Qed.

(** A new audit log disturbs nothing in the process. *)
Lemma quiet_NewAuditLog file : quiet (NewAuditLog cwd file).
Proof using Type. unfold NewAuditLog, os_OpenAppend, syscall. keeps_tac. Qed.

Lemma wp_answers {A} (m : M A) w : answers true m → idle w →
  wp m (λ a w', m w = Some (a, w') ∧ idle w' ∧ same_time w w') w.
Proof using Type.
  intros Hm Hw. destruct (keeps_total _ _ _ w Hm Hw) as (a & w' & E & H). unfold wp. rewrite E. by split.
Qed.

(** ** What a start leads to *)

(** The start as that of [System]: the runs of the server begin here. *)
Definition serving (rg : registry) (w : world) : Prop :=
  let c := read_config env in
  ∀ zip_NewReader gzip_NewReader ui match_route unmatched,
    reachable dec_time enc_time zero_time time_of zip_NewReader gzip_NewReader (rg_store rg) (Some (rg_signer rg))
      (rg_maxUploadSize rg) ui match_route unmatched key_file (env "REGISTRY_API_KEY") random (cf_rate c) (cf_window c)
      (env "TRUST_PROXY_HEADERS") (rg_server rg, w).

Lemma wp_start w : idle w → wp start (λ o w', idle w' ∧ same_time w w' ∧
  match o with
  | inl code => code = 1%Z
  | inr rg => rg_maxUploadSize rg = cf_maxUploadSize (read_config env) ∧
      rl_rate (sv_limiter (rg_server rg)) = cf_rate (read_config env) ∧
      rl_window (sv_limiter (rg_server rg)) = cf_window (read_config env) ∧ serving rg w'
  end) w.
Proof using Type.
  intros Hw. unfold start. cbv zeta.
  apply wp_bind. eapply wp_mono; [apply (wp_answers _ w (keeps_NewStore _ _) Hw)|]. intros [s|e] w1 (_ & Hw1 & Ht1); [|by apply wp_ret].
  apply wp_bind. eapply wp_mono; [apply (wp_answers _ w1 (keeps_NewSigner _) Hw1)|]. intros [signer|e] w2 (_ & Hw2 & Ht2).
  2:{ apply wp_ret. split; [done|]. split; [by etransitivity|done]. }
  apply wp_bind. eapply wp_mono; [apply (wp_answers _ w2 (keeps_rebuildAll _ _) Hw2)|]. intros errs w3 (_ & Hw3 & Ht3).
  assert (same_time w w3) as Ht by (do 2 (etransitivity; [done|]); done).
  apply wp_bind. eapply wp_mono; [apply (wp_answers _ w3 (keeps_NewKeyStore _ _ _ _ _ _ _) Hw3)|]. intros r w4 (Eks & Hw4 & Ht4).
  destruct r as [ks|e]; [|apply wp_ret; split; [done|]; split; [by etransitivity|done]].
  apply wp_bind. destruct (keeps_total _ _ _ w4 (quiet_NewAuditLog (cf_auditPath (read_config env))) I) as (audit & w5 & E5 & _ & Eq).
  unfold wp at 1. rewrite E5. destruct Eq as (El & Em & En).
  assert (idle w5) as Hw5 by (destruct Hw4; split; [unfold unlocked in *; by rewrite El|congruence]).
  assert (same_time w w5) as Ht5 by (etransitivity; [exact Ht|]; unfold same_time in *; congruence).
  destruct audit as [audit|e]; [|by apply wp_ret].
  apply wp_bind. unfold wp at 1, time_Now. apply wp_ret. do 5 (split; [done|]).
  intros zip gzip ui route other. eexists. split; [by eapply (Started _ _ _ _ _ _ _ _ _ _ w3 ks w4)|].
  apply rtc_once. rewrite En. apply step_outside; [done..|]. by rewrite En.
Qed.

(** C20. Every start of the registry ends: from any state of the file system,
    under any faults and whatever the environment holds, [main] exits with
    status 1 or begins to serve in a state from which the runs of the server
    are those of [System], whose invariant therefore holds from then on; with a
    positive rate limit, a window that is an [int64] of nanoseconds, and an
    upload limit of one mebibyte to ten gibibytes, whatever RATE_LIMIT,
    RATE_WINDOW and MAX_UPLOAD_MB say. *)
Theorem start_serves (w : world) : idle w →
  ∃ o w', start w = Some (o, w') ∧
    match o with
    | inl code => code = 1%Z
    | inr rg => serving rg w' ∧
        rl_rate (sv_limiter (rg_server rg)) = cf_rate (read_config env) ∧ (0 < rl_rate (sv_limiter (rg_server rg)))%Z ∧
        rl_window (sv_limiter (rg_server rg)) = cf_window (read_config env) ∧
        (- 2 ^ 63 ≤ rl_window (sv_limiter (rg_server rg)) < 2 ^ 63)%Z ∧ (2 ^ 20 ≤ rg_maxUploadSize rg ≤ 10240 * 2 ^ 20)%Z
    end.
Proof using Type.
  intros Hw. destruct (wp_total _ _ _ (wp_start w Hw)) as (o & w' & E & _ & _ & H). exists o, w'. split; [done|].
  destruct o as [code|rg]; [done|]. destruct H as (Emax & Er & Ew & H). rewrite Emax, Er, Ew.
  pose proof (read_config_limits env) as (H1 & H2 & H3). split; [exact H|]. by destruct H2, H3.
Qed.

End startup.

(** ** A concrete start *)

(** A number with what may follow it, and none. *)
Example Sscanf_runs :
  Sscanf_d "100" = Some 100%Z ∧ Sscanf_d " +10/s" = Some 10%Z ∧ Sscanf_d "-7" = Some (-7)%Z ∧
  Sscanf_d "ten" = None ∧ Sscanf_d "" = None ∧ Sscanf_d "9223372036854775808" = None.
Proof. vm_compute. split_and!; reflexivity. Qed.

(** An environment that names a directory, an upload limit and a window. *)
Definition small_env (key : string) : string :=
  if String.eqb key "STORAGE_PATH" then "/srv"
  else if String.eqb key "MAX_UPLOAD_MB" then "1"
  else if String.eqb key "REGISTRY_API_KEY" then "secret"
  else if String.eqb key "RATE_LIMIT" then "-1"
  else if String.eqb key "RATE_WINDOW" then "1.5m" else "".

Definition small_start : M (Z + registry (Time := string)) :=
  start text_time time_text "" (λ _, "2024-01-01T00:00:00Z") toy_decode (λ body, Ok [body]) toy_armor
    (λ name, Ok ("PUBLIC:" +:+ name)) (λ _, "00ff00ff00ff00ff") (λ name data, Ok (name +:+ " signed " +:+ data)) (Ok "first")
    [] small_env [].

Lemma start_serves_witness : ∃ rg w', small_start (key_world []) = Some (inr rg, w') ∧
  rl_rate (sv_limiter (rg_server rg)) = 100%Z ∧ rl_window (sv_limiter (rg_server rg)) = (90 * Second)%Z ∧
  (2 ^ 20 ≤ rg_maxUploadSize rg ≤ 10240 * 2 ^ 20)%Z.
Proof.
  assert (idle (key_world [])) as Hw by (split; [intros k Hk; discriminate Hk|reflexivity]).
  destruct (start_serves text_time time_text "" (λ _, "2024-01-01T00:00:00Z") toy_decode (λ body, Ok [body]) toy_armor
    (λ name, Ok ("PUBLIC:" +:+ name)) (λ _, "00ff00ff00ff00ff") (λ name data, Ok (name +:+ " signed " +:+ data)) (Ok "first")
    [] small_env [] (key_world []) Hw) as (o & w' & E & H).
  assert (match small_start (key_world []) with Some (inr rg, _) =>
            (rl_rate (sv_limiter (rg_server rg)) =? 100)%Z && (rl_window (sv_limiter (rg_server rg)) =? 90 * Second)%Z
          | _ => false end = true)
    as Hs by (vm_compute; reflexivity).
  unfold small_start in Hs. rewrite E in Hs. destruct o as [code|rg]; [discriminate Hs|].
  exists rg, w'. split; [exact E|]. apply andb_true_iff in Hs as [Hs1 Hs2].
  split; [by apply Z.eqb_eq|]. split; [by apply Z.eqb_eq|]. destruct H as (_ & _ & _ & _ & _ & H). exact H.
Defined.
