(* ===== verification/Lifetime.v ===== *)
(** * The life of the server process (main.go)

    [main] from its arguments to its exit status: the version is printed, or
    the registry starts, serves, and ends when [ListenAndServe] fails or a
    signal arrives. *)

From stdpp Require Import relations.
From S2P Require Import Prelude GoString GoPath Os OsFacts Frame Json Decode Store Archive Signing Http Auth RateLimit Duration.
From S2P Require Import Metrics Server AuditText Serving Guard KeysFile System Startup.

Definition ErrServerClosed : error := EText "http: Server closed".

(** What [select] receives: what [ListenAndServe] returned, or a signal. *)
Inductive stop := listen_returned (err : option error) | signalled.

(** The end of [main], when [srv.Shutdown] returns [shutdown]; [os.Exit] does not
    run the deferred closing of the audit log. *)
Definition finish (audit : option path) (why : stop) (shutdown : result error unit) : M Z :=
  let stopped :=
    match shutdown with
    | Err _ => mret 1%Z
    | Ok _ => _ ← AuditLog_Close audit; mret 0%Z
    end in
  match why with
  | listen_returned (Some err) => if bool_decide (err = ErrServerClosed) then stopped else mret 1%Z
  | listen_returned None | signalled => stopped
  end.

(** [os.Args[1:]] asks for the version. *)
Definition version_asked (args : list string) : bool :=
  match args with a :: _ => String.eqb a "--version" || String.eqb a "version" | [] => false end.

Section lifetime.
Context {Time : Type}.
Context (dec_time : decoder Time) (enc_time : Time → option json) (zero_time : Time) (time_of : Z → Time).
Context {Entity : Type} (armor_Decode : string → result error (string * string)) (ReadKeyRing : string → result error (list Entity)).
Context (armored_private armored_public : Entity → result error string).
Context (KeyIdString : Entity → string) (DetachSign : Entity → string → result error string) (generated : result error Entity).
Context (zip_NewReader : string → Z → result error (list zip_file)) (gzip_NewReader : string → result error tar_stream).
Context (ui : assets) (match_route : request → option (route * Vars)) (unmatched : request → response).
Context (version : string) (args : list string) (cwd : path) (env : string → string) (random : list N).
#[local] Abbreviation start := (Startup.start dec_time enc_time zero_time time_of armor_Decode ReadKeyRing armored_private
  armored_public KeyIdString DetachSign generated cwd env random).
#[local] Abbreviation steps rg := (rtc (step dec_time enc_time zero_time zip_NewReader gzip_NewReader (rg_store rg)
  (Some (rg_signer rg)) (rg_maxUploadSize rg) ui match_route unmatched)).

(** [main]: what it prints on standard output, its exit status, and the world
    it leaves. *)
Inductive main_runs (w : world) : string → Z → world → Prop :=
| main_version : version_asked args = true → main_runs w ("terraform-registry " +:+ version +:+ String "010" "") 0 w
| main_refused code w' : version_asked args = false → start w = Some (inl code, w') → main_runs w "" code w'
| main_served rg w1 sv w2 why shutdown code w' : version_asked args = false →
    start w = Some (inr rg, w1) → steps rg (rg_server rg, w1) (sv, w2) →
    finish (rg_audit rg) why shutdown w2 = Some (code, w') → main_runs w "" code w'.

Lemma keeps_finish audit why shutdown : answers true (finish audit why shutdown).
Proof using Type.
  assert (answers true (match shutdown with Err _ => mret 1%Z | Ok _ => _ ← AuditLog_Close audit; mret 0%Z end)) as H
    by (unfold AuditLog_Close; keeps_tac).
  unfold finish. destruct why as [[err|]|]; [destruct (bool_decide _); [exact H|keeps_tac]|exact H..].
Qed.

(** The exit status. *)
Lemma finish_status audit why shutdown w code w' : finish audit why shutdown w = Some (code, w') →
  code = if (match why with listen_returned (Some err) => bool_decide (err = ErrServerClosed) | _ => true end) && is_ok shutdown
         then 0%Z else 1%Z.
Proof using Type.
  unfold finish. intros E.
  assert (∀ c w'', (match shutdown with Err _ => mret 1%Z | Ok _ => _ ← AuditLog_Close audit; mret 0%Z end) w = Some (c, w'') →
    c = if is_ok shutdown then 0%Z else 1%Z) as H.
  { intros c w''. destruct shutdown; cbn [is_ok]; [|by intros [= <- <-]]. unfold mbind, M_bind.
    destruct (AuditLog_Close audit w) as [[? ?]|]; [|done]. by intros [= <- <-]. }
  destruct why as [[err|]|]; [destruct (bool_decide _)|..]; cbn [andb]; first [by eapply H|by injection E].
Qed.

(** [main] ends with status 0 or 1, holding no mutex; it prints its version and
    changes nothing, or prints nothing. *)
Theorem main_exits (w : world) out code w' : idle w → main_runs w out code w' →
  (version_asked args = true ∧ w' = w ∧ code = 0%Z) ∨
  (version_asked args = false ∧ out = "" ∧ idle w' ∧ (code = 0 ∨ code = 1)%Z).
Proof using Type.
  intros Hw H. destruct H as [Hv|code w' Hv E|rg w1 sv w2 why shutdown code w' Hv E Hs Ef]; [by left|right..].
  - destruct (wp_run _ _ w _ _ (wp_start dec_time enc_time zero_time time_of armor_Decode ReadKeyRing armored_private armored_public
      KeyIdString DetachSign generated cwd env random w Hw) E) as (Hi & _ & ->). by split_and!; [..|right].
  - destruct (wp_run _ _ w _ _ (wp_start dec_time enc_time zero_time time_of armor_Decode ReadKeyRing armored_private armored_public
      KeyIdString DetachSign generated cwd env random w Hw) E) as (_ & _ & _ & _ & _ & Hserving).
    specialize (Hserving zip_NewReader gzip_NewReader ui match_route unmatched).
    pose proof (reachable_sound _ _ _ _ _ _ _ _ _ _ _ _ _ _ _ _ _ _ _ Hserving) as Hsound.
    destruct (steps_sound _ _ _ _ _ _ _ _ _ _ _ _ _ _ _ _ Hs Hsound) as [[Hi _ _ _ _ _ _ _] _].
    destruct (keeps_run _ _ _ _ w2 _ _ (keeps_finish _ _ _) Hi Ef) as [Hi' _]. split_and!; [done..|].
    apply finish_status in Ef as ->. destruct (_ && _); auto.
Qed.

(** Every start can be followed to an end, whatever ends it. *)
Lemma main_can_end (w : world) (why : stop) (shutdown : result error unit) : idle w → ∃ out code w', main_runs w out code w' ∧
  (version_asked args = false → (∃ rg w1, start w = Some (inr rg, w1)) → code = 0%Z → is_ok shutdown = true).
Proof using Type.
  intros Hw. destruct (version_asked args) eqn:Hv; [by do 3 eexists; split; [by apply main_version|]|].
  destruct (wp_total _ _ _ (wp_start dec_time enc_time zero_time time_of armor_Decode ReadKeyRing armored_private armored_public
    KeyIdString DetachSign generated cwd env random w Hw)) as ([code|rg] & w1 & E & Hi & _ & H).
  { exists "", code, w1. split; [by apply main_refused|]. intros _ (rg & w2 & E2). by rewrite E in E2. }
  destruct (keeps_total _ _ _ w1 (keeps_finish (rg_audit rg) why shutdown) Hi) as (code & w' & Ef & _).
  exists "", code, w'. split; [by eapply main_served|]. intros _ _ ->. apply finish_status in Ef.
  by destruct (is_ok shutdown); [|rewrite andb_false_r in Ef].
Qed.

End lifetime.

Example finish_runs w :
  finish None signalled (Ok ()) w = Some (0%Z, w) ∧ finish None (listen_returned (Some ErrServerClosed)) (Ok ()) w = Some (0%Z, w) ∧
  finish None (listen_returned (Some (EText "listen tcp :8080: bind: address already in use"))) (Ok ()) w = Some (1%Z, w) ∧
  finish None signalled (Err (EText "context deadline exceeded")) w = Some (1%Z, w).
Proof. by split_and!. Qed.
