(* ===== verification/Transactions.v ===== *)
(** * Changes to several keys

    The handlers update several keys and undo what they did when a later step
    fails.  Frames over sets of keys, and what undoing achieves when no system
    call fails any more. *)

From S2P Require Import Prelude GoString GoPath Os OsFacts Decode Store StoreFacts KeyValue StoreSpec.
From S2P Require Import Index Archive Signing Http Api NameFacts.

(** No system call will fail. *)
Definition calm (w : world) : Prop := faults_left w = 0.

Lemma calm_env w w' : env w w' → calm w → calm w'.
Proof. unfold calm. intros [_ _ _ _ H]. lia. Qed.

Lemma calm_not_faulted w w' : calm w → ¬ faulted w w'.
Proof. unfold calm, faulted. lia. Qed.

(** The last fault has happened. *)
Lemma faulted_calm w w' : faults_left w ≤ 1 → faulted w w' → calm w'.
Proof. unfold calm, faulted. lia. Qed.

Section only.
Context (value : world → list string → option string) (dir : world → list string → Prop).

(** Only the keys of [K] and directories above them have changed. *)
Definition only (K : list (list string)) (w w' : world) : Prop :=
  (∀ l, good_key l → l ∉ K → value w' l = value w l) ∧
  (∀ l, good_key l → (∀ k, k ∈ K → ¬ l `prefix_of` k) → (dir w' l ↔ dir w l)).

Lemma only_kept k w w' : kept value dir k w w' → only [k] w w'.
Proof.
  intros [Hv Hd]. split.
  - intros l Hl Hk. apply Hv; [done|]. intros ->. apply Hk. by left.
  - intros l Hl Hk. apply Hd; [done|]. apply Hk. by left.
Qed.

Lemma only_mono K K' w w' : K ⊆ K' → only K w w' → only K' w w'.
Proof.
  intros HK [Hv Hd]. split.
  - intros l Hl Hk. apply Hv; [done|]. intros Hin. by apply Hk, HK.
  - intros l Hl Hk. apply Hd; [done|]. intros k Hin. by apply Hk, HK.
Qed.

Lemma only_trans K w1 w2 w3 : only K w1 w2 → only K w2 w3 → only K w1 w3.
Proof.
  intros [V1 D1] [V2 D2]. split.
  - intros l Hl Hk. by rewrite V2, V1.
  - intros l Hl Hk. by rewrite D2, D1.
Qed.

Lemma only_value K w w' l : only K w w' → good_key l → l ∉ K → value w' l = value w l.
Proof. intros [H _]. apply H. Qed.

End only.

(** Writing [k] with membership checked by [set_solver]-style reasoning on
    lists of keys. *)
Ltac in_keys := repeat (first [left; reflexivity | right]).

Section facts.
Context {s ok value dir} {KV : KeyValue s ok value dir}.

Lemma only_same K w w' : w_fs w' = w_fs w → only value dir K w w'.
Proof using KV. intros E. destruct (kv_frame w w' E) as (_ & Hv & Hd). by split. Qed.

Lemma only_step K k w1 w2 w3 :
  k ∈ K → only value dir K w1 w2 → kept value dir k w2 w3 → only value dir K w1 w3.
Proof using Type.
  intros Hk H1 H2. eapply only_trans; [exact H1|]. eapply only_mono; [|by apply only_kept].
  by intros x ->%list_elem_of_singleton.
Qed.

(** Changes elsewhere do not block a key. *)
Lemma only_barred K w w' l :
  ok w → ok w' → good_key l → (∀ k, k ∈ K → apart k l) → only value dir K w w' →
  barred value dir w' l → barred value dir w l.
Proof using KV.
  intros Hok Hok' Hg Hap [Hv Hd] [(d & x & -> & Hx & Hval)|Hdir].
  - left. exists d, x. split_and!; [done..|].
    assert (d ≠ []) as Hne by (intros ->; by rewrite (kv_root w' Hok') in Hval).
    rewrite <- Hv; [done|by eapply good_prefix|]. intros Hin. destruct (Hap _ Hin) as [Hp _].
    apply Hp. by eexists.
  - right. apply Hd; [done| |done]. intros k Hk. by destruct (Hap _ Hk).
Qed.

(** ** Undoing *)

Lemma wp_put_calm k data w :
  ok w → unlocked w → good_key k →
  wp (Put s (slash k) data) (λ r w', env w w' ∧ unlocked w' ∧ ok w' ∧ wrote value dir k (Some data) w r w' ∧
    (calm w → value w k ≠ None → value w' k = Some data)) w.
Proof using KV.
  intros Hok Hu Hg. eapply wp_mono; [by apply kv_put|]. intros r w' (He & Hu' & Hok' & Hw).
  do 4 (split; [done|]). intros Hc Hv. destruct Hw as [_ H]. destruct r; [done|].
  destruct H as [_ [Hf|Hb]]; [by apply calm_not_faulted in Hf|]. by apply value_not_barred in Hb.
Qed.

Lemma wp_delete_calm k w :
  ok w → unlocked w → good_key k →
  wp (Delete s (slash k)) (λ r w', env w w' ∧ unlocked w' ∧ ok w' ∧ wrote value dir k None w r w' ∧
    (calm w → value w' k = None)) w.
Proof using KV.
  intros Hok Hu Hg. eapply wp_mono; [by apply kv_delete|]. intros r w' (He & Hu' & Hok' & Hw).
  do 4 (split; [done|]). intros Hc. destruct Hw as [_ H]. destruct r; [done|]. destruct H as [-> H].
  destruct (value w k) eqn:E; [|done]. exfalso. destruct H as [Hf|Hb]; [by apply calm_not_faulted in Hf|].
  apply (value_not_barred w k Hok) in Hb; [done|]. by rewrite E.
Qed.

Lemma wp_ignoring {A} (m : M A) Q w : wp m (λ _ w', Q () w') w → wp (ignoring m) Q w.
Proof using Type. intros H. apply wp_bind. eapply wp_mono; [exact H|]. intros a w' Hq. by apply wp_ret. Qed.

(** What undoing a change of [k] guarantees. *)
Definition undone (k : list string) (goal : option string) (cond : Prop) (w w' : world) : Prop :=
  env w w' ∧ unlocked w' ∧ ok w' ∧ kept value dir k w w' ∧ (calm w → cond → value w' k = goal).

Lemma wp_restore k previous w :
  ok w → unlocked w → good_key k →
  wp (restore s (slash k) previous) (λ _ w',
    undone k (match previous with Ok d => Some d | Err _ => None end)
           (is_ok previous = true → value w k ≠ None) w w') w.
Proof using KV.
  intros Hok Hu Hg. unfold restore. destruct previous as [d|e]; apply wp_ignoring.
  - eapply wp_mono; [by apply wp_put_calm|]. intros r w' (He & Hu' & Hok' & [Hk _] & H).
    split_and!; [done..|]. intros Hc Hv. apply H; [done|by apply Hv].
  - eapply wp_mono; [by apply wp_delete_calm|]. intros r w' (He & Hu' & Hok' & [Hk _] & H).
    split_and!; [done..|]. auto.
Qed.

Lemma wp_delete_unless existed k w :
  ok w → unlocked w → good_key k →
  wp (delete_unless existed s (slash k)) (λ _ w',
    undone k (if existed then value w k else None) True w w') w.
Proof using KV.
  intros Hok Hu Hg. unfold delete_unless. destruct existed.
  - apply wp_ret. split_and!; [done..|by apply kept_refl|done].
  - apply wp_ignoring. eapply wp_mono; [by apply wp_delete_calm|].
    intros r w' (He & Hu' & Hok' & [Hk _] & H). split_and!; [done..|]. auto.
Qed.

End facts.

(** ** A handler's trace *)

(** The world after a part of a handler that may only change [K]. *)
Record within {s : Store} {ok value dir} {KV : KeyValue s ok value dir} (K : list (list string)) (w w' : world) : Prop := {
  wi_env : env w w';
  wi_unlocked : unlocked w';
  wi_ok : ok w';
  wi_only : only value dir K w w'
}.

Section within.
Context {s ok value dir} {KV : KeyValue s ok value dir}.
#[local] Abbreviation within := (within (KV := KV)).

Lemma within_refl K w : ok w → unlocked w → within K w w.
Proof using Type. intros. split; [done..|by split]. Qed.

Lemma within_trans K w1 w2 w3 : within K w1 w2 → within K w2 w3 → within K w1 w3.
Proof using Type.
  intros [He1 _ _ H1] [He2 Hu Hok H2]. split; [etransitivity; [exact He1|exact He2]|done..|by eapply only_trans].
Qed.

Lemma within_mono K K' w w' : K ⊆ K' → within K w w' → within K' w w'.
Proof using Type. intros HK []. split; [done..|by eapply only_mono]. Qed.

Lemma within_kept k w w' : env w w' → unlocked w' → ok w' → kept value dir k w w' → within [k] w w'.
Proof using Type. intros. split; [done..|by apply only_kept]. Qed.

Lemma within_same K w w' : ok w → unlocked w → same w w' → within K w w'.
Proof using Type.
  intros Hok Hu Hsm. pose proof Hsm as [He E].
  split; [done|by eapply env_unlocked|by eapply same_ok|by apply only_same].
Qed.

Lemma within_value K w w' l : within K w w' → good_key l → l ∉ K → value w' l = value w l.
Proof using Type. intros [_ _ _ H]. by eapply only_value. Qed.

Lemma within_barred K w w' l : ok w → within K w w' → good_key l → (∀ k, k ∈ K → apart k l) →
  barred value dir w' l → barred value dir w l.
Proof using Type. intros Hok [_ _ Hok' H] Hg Hap. by eapply only_barred. Qed.

(** Nothing changed when no key that could change has. *)
Lemma within_unchanged K w w' : within K w w' → (∀ k, k ∈ K → value w' k = value w k) →
  ∀ l, good_key l → value w' l = value w l.
Proof using Type.
  intros Hw HK l Hl. destruct (decide (l ∈ K)); [by apply HK|by eapply within_value].
Qed.

Lemma within_calm K w w' : within K w w' → calm w → calm w'.
Proof using Type. intros []. by apply calm_env. Qed.

(** The operations of the store, seen from the start of the handler. *)
Lemma wp_get_within k w : ok w → unlocked w → good_key k →
  wp (Get s (slash k)) (λ r w', within [] w w' ∧ same w w' ∧
    match r with Ok d => value w k = Some d | Err _ => faulted w w' ∨ value w k = None end) w.
Proof using Type.
  intros Hok Hu Hg. eapply wp_mono; [by apply kv_get|]. intros r w' [Hsm H].
  split; [by apply within_same|]. split; [done|]. destruct r; naive_solver.
Qed.

Lemma wp_put_within k data w : ok w → unlocked w → good_key k →
  wp (Put s (slash k) data) (λ r w', within [k] w w' ∧
    match r with
    | Ok _ => value w' k = Some data
    | Err _ => value w' k = value w k ∧ (faulted w w' ∨ barred value dir w k)
    end) w.
Proof using Type.
  intros Hok Hu Hg. eapply wp_mono; [by apply kv_put|]. intros r w' (He & Hu' & Hok' & Hk & H).
  split; [by apply within_kept|done].
Qed.

Lemma wp_delete_within k w : ok w → unlocked w → good_key k →
  wp (ignoring (Delete s (slash k))) (λ _ w', within [k] w w' ∧ (calm w → value w' k = None)) w.
Proof using Type.
  intros Hok Hu Hg. apply wp_ignoring. eapply wp_mono; [by apply wp_delete_calm|].
  intros r w' (He & Hu' & Hok' & [Hk _] & H). split; [by apply within_kept|done].
Qed.

Lemma wp_restore_within k previous w : ok w → unlocked w → good_key k →
  wp (restore s (slash k) previous) (λ _ w', within [k] w w' ∧
    (calm w → (is_ok previous = true → value w k ≠ None) →
     value w' k = match previous with Ok d => Some d | Err _ => None end)) w.
Proof using Type.
  intros Hok Hu Hg. eapply wp_mono; [by apply wp_restore|]. intros [] w' (He & Hu' & Hok' & Hk & H).
  split; [by apply within_kept|done].
Qed.

Lemma wp_delete_unless_within existed k w : ok w → unlocked w → good_key k →
  wp (delete_unless existed s (slash k)) (λ _ w', within [k] w w' ∧
    (calm w → value w' k = if existed then value w k else None)) w.
Proof using Type.
  intros Hok Hu Hg. eapply wp_mono; [by apply wp_delete_unless|]. intros [] w' (He & Hu' & Hok' & Hk & H).
  split; [by apply within_kept|auto].
Qed.

(** The superseded artifact, when there is one to delete. *)
Definition superseded (prefix : list string) (filename : string) (old : option string) : list (list string) :=
  match old with
  | Some f => if bool_decide (f = "" ∨ f = filename) then [] else [prefix ++ [f]]
  | None => []
  end.

Lemma elem_of_superseded k prefix filename old :
  k ∈ superseded prefix filename old → ∃ f, old = Some f ∧ f ≠ "" ∧ f ≠ filename ∧ k = prefix ++ [f].
Proof using Type.
  unfold superseded. destruct old as [f|]; [|by intros ?%elem_of_nil].
  case_bool_decide as Hf; [by intros ?%elem_of_nil|]. intros ->%list_elem_of_singleton.
  exists f. split; [done|]. split; [|split; [|done]]; intros E; apply Hf; [by left|by right].
Qed.

Lemma wp_delete_old prefix filename old w : ok w → unlocked w →
  (∀ k, k ∈ superseded prefix filename old → good_key k) →
  wp (delete_old s prefix filename old) (λ _ w', within (superseded prefix filename old) w w' ∧
    (calm w → ∀ k, k ∈ superseded prefix filename old → value w' k = None)) w.
Proof using Type.
  intros Hok Hu Hg. unfold delete_old, superseded in *.
  destruct old as [f|]; [|apply wp_ret; split; [by apply within_refl|by intros _ k ?%elem_of_nil]].
  destruct (String.eqb_spec f "") as [->|Hf].
  { apply wp_ret. rewrite bool_decide_eq_true_2 by auto. split; [by apply within_refl|by intros _ k ?%elem_of_nil]. }
  destruct (String.eqb_spec f filename) as [->|Hne]; simpl.
  { apply wp_ret. rewrite bool_decide_eq_true_2 by auto. split; [by apply within_refl|by intros _ k ?%elem_of_nil]. }
  rewrite bool_decide_eq_false_2 in * by (intros [E|E]; [exact (Hf E)|exact (Hne E)]).
  eapply wp_mono; [apply (wp_delete_within (prefix ++ [f])); [done..|apply Hg; left]|].
  intros [] w2 [Hw H]. split; [done|]. intros Hc k ->%list_elem_of_singleton. auto.
Qed.

End within.

(** ** The mutation mutex *)

Definition free (w : world) : Prop := w_mutation w = false.

(** A handler that holds the mutation mutex releases it. *)
Lemma wp_with_mutation {A} (body : M A) (R : A → world → Prop) w :
  free w → wp body (λ a w', env (set_mutation true w) w' ∧ R a (set_mutation false w')) (set_mutation true w) →
  wp (with_mutation body) (λ a w', free w' ∧ env w w' ∧ R a w') w.
Proof.
  intros Hf H. unfold with_mutation. apply wp_bind. unfold wp at 1, lock_mutation. rewrite Hf.
  apply wp_bind. eapply wp_mono; [exact H|]. intros a w' [He HR]. apply wp_bind.
  change (wp (mret a) (λ a w', free w' ∧ env w w' ∧ R a w') (set_mutation false w')).
  apply wp_ret. split; [done|]. split; [|done]. destruct He as [El Em En Er Ef].
  by split; [exact El|rewrite Hf|..].
Qed.

(** ** Reading when no system call fails *)

Section reading.
Context {s ok value dir} {KV : KeyValue s ok value dir}.

Lemma wp_get_calm l w : calm w → ok w → good_key l →
  wp (Get s (slash l)) (λ r w', same w w' ∧
    match value w l with Some d => r = Ok d | None => is_ok r = false end) w.
Proof using KV.
  intros Hc Hok Hg. eapply wp_mono; [by apply kv_get|]. intros [d|e] w' [Hsm H]; (split; [done|]).
  - by rewrite H.
  - destruct H as [[Hf _]|[-> _]]; [by apply calm_not_faulted in Hf|done].
Qed.

Lemma wp_exists_calm l w : calm w → ok w → good_key l →
  wp (Exists s (slash l)) (λ b w', same w w' ∧ (b = true ↔ value w l ≠ None ∨ dir w l)) w.
Proof using KV.
  intros Hc Hok Hg. eapply wp_mono; [by apply kv_exists|]. intros [] w' [Hsm H]; (split; [done|]).
  - tauto.
  - destruct H as [Hf|[-> ?]]; [by apply calm_not_faulted in Hf|]. split; [done|tauto].
Qed.

End reading.

(** Opening a key of the file store. *)
Lemma wp_open_calm s l d w : calm w → ready s w → good_key l → value s w l = Some d →
  wp (Open s (slash l)) (λ r w', same w w' ∧ ∃ t, r = Ok (NFile d t)) w.
Proof.
  intros Hc Hs Hg Hv. pose proof (sf_clean _ _ Hs) as Hcl. apply file_some in Hv as [t Ht].
  apply wp_try. eapply wp_mono; [by apply wp_resolve|]. intros [q|e] w1 [Hsm H1].
  - subst q. destruct Hsm as [He Hf]. eapply wp_mono; [apply wp_stat; [by rewrite Hf|by eapply key_plain]|].
    rewrite Hf. intros [n|e] w2 [Hsm2 H2]; (split; [by transitivity w1|]).
    + exists t. congruence.
    + exfalso. destruct H2 as [[Hft _]|[HN _]]; [|congruence].
      by eapply calm_not_faulted, Hft; eapply calm_env, Hc.
  - exfalso. destruct H1 as [_ [Hft|Hw]]; [by apply calm_not_faulted in Hft|].
    by rewrite (not_way_none _ _ Hcl Hw) in Ht.
Qed.

(** Whatever fails, what is opened is what is there. *)
Lemma wp_open_entry_at s l w : ready s w → good_key l →
  wp (Open s (slash l)) (λ r w', same w w' ∧ match r with Ok n => w_fs w !! (basePath s ++ l) = Some n | Err _ => True end) w.
Proof.
  intros Hs Hg. apply wp_try. eapply wp_mono; [by apply wp_resolve|]. intros [q|e] w1 [Hsm H1]; [|done].
  subst q. destruct Hsm as [He Hf]. eapply wp_mono.
  { apply wp_stat; [rewrite Hf; apply Hs|by eapply key_plain]. }
  rewrite Hf. intros [n|e] w2 [Hsm2 H2]; (split; [by transitivity w1|]); done.
Qed.
