(* ===== verification/DownloadFacts.v ===== *)
(** * Downloads of published artifacts

    What the download endpoints answer when no system call fails, for any
    artifact that is in the store under a public name. *)

From S2P Require Import Prelude GoString SemVer GoPath Regex Validation Sha256 Os OsFacts Json JsonFacts Utf8Facts.
From S2P Require Import Decode DecodeFacts Store StoreFacts KeyValue Confine StoreSpec Index IndexFacts.
From S2P Require Import Archive Signing Http Api Protocol NameFacts Transactions.

Lemma published_good l : Forall file_name l → PublishedPath l → good_key l.
Proof. intros Hf Hp. apply good_names; [by apply PublishedPath_nonempty|done]. Qed.

(** The public name of a key. *)
Definition path_vars (l : list string) : Vars := {["path" := slash l]}.

Lemma var_path l : var (path_vars l) "path" = slash l.
Proof. reflexivity. Qed.

(** [/download/<key>] sends the bytes stored under the key. *)
Lemma wp_fileDownload s l d w : calm w → ready s w → good_key l → PublishedPath l → value s w l = Some d →
  wp (fileDownloadHandler s (path_vars l)) (λ r w', same w w' ∧ status r = 200%Z ∧ ∃ t, content r = BFile d t) w.
Proof.
  intros Hc Hs Hg Hp Hv. unfold fileDownloadHandler. rewrite var_path.
  unfold slash at 1. rewrite published_key_public by done. simpl negb. cbv iota.
  apply wp_bind. eapply wp_mono; [by apply wp_open_calm|]. intros r w1 [Hsm [t ->]].
  apply wp_bind. eapply wp_mono; [apply wp_f_noop|]. intros [[]|e] w2 [Hsm2 Hft].
  - apply wp_ret. split; [by transitivity w1|]. split; [done|]. by exists t.
  - exfalso. apply (calm_not_faulted w1 w2); [|by apply Hft]. eapply calm_env; [apply Hsm|done].
Qed.

Lemma sha_digest d : digest_suffix ("_" +:+ sha256_hex d).
Proof.
  right. exists (sha256_hex d). split; [done|]. split; [|apply sha256_hex_length].
  eapply sforall_impl; [|apply sha256_hex_lower]. intros a. by rewrite lower_hex_eq.
Qed.
