(* ===== verification/ModuleUpload.v ===== *)
(** * Uploading a module

    What [uploadModuleHandler] does to the store: on success the artifact, its
    metadata and the index are all in place; on failure, with at most one
    failed system call, nothing has changed. *)

From S2P Require Import Prelude GoString SemVer GoPath Regex Validation Sha256 Os OsFacts Json JsonFacts Utf8Facts.
From S2P Require Import Decode DecodeFacts Store StoreFacts KeyValue Confine StoreSpec Index IndexFacts.
From S2P Require Import Archive Signing Http Api Protocol NameFacts Transactions DownloadFacts.

#[local] Opaque sha256_hex.

(** ** The metadata document *)

Definition module_meta (data : string) : ModuleArtifactMeta :=
  mkModuleArtifactMeta (module_filename data) (sha256_hex data).

(** What the file name in a stored document is, when it decodes. *)
Definition named_artifact (v : option string) : option string :=
  v ≫= λ data, previous_filename dec_ModuleArtifactMeta zero_ModuleArtifactMeta mam_filename (Ok data).

Lemma dec_enc_ModuleArtifactMeta t :
  dec_ModuleArtifactMeta zero_ModuleArtifactMeta (enc_ModuleArtifactMeta t) = (t, true).
Proof. by destruct t. Qed.

Lemma module_filename_utf8 data : valid_utf8 (module_filename data) = true.
Proof. apply file_chars_utf8. unfold module_filename. by rewrite !sforall_app, sha_file. Qed.

Lemma textual_ModuleArtifactMeta data : textual (enc_ModuleArtifactMeta (module_meta data)).
Proof.
  apply textual_obj. repeat apply Forall_cons_2; [..|apply Forall_nil_2]; (split; [done|]); constructor.
  - apply module_filename_utf8.
  - apply file_chars_utf8, sha_file.
Qed.

Lemma decode_module_meta data :
  Unmarshal dec_ModuleArtifactMeta (print (enc_ModuleArtifactMeta (module_meta data))) zero_ModuleArtifactMeta
  = (module_meta data, true).
Proof. rewrite Unmarshal_print by apply textual_ModuleArtifactMeta. apply dec_enc_ModuleArtifactMeta. Qed.

Lemma named_artifact_meta data :
  named_artifact (Some (print (enc_ModuleArtifactMeta (module_meta data)))) = Some (module_filename data).
Proof.
  unfold named_artifact, previous_filename. cbn [mbind option_bind]. by rewrite decode_module_meta.
Qed.

Lemma module_file_named data : file_name (module_filename data).
Proof.
  unfold module_filename. split; [by rewrite !sforall_app, sha_file|]. eexists "m"%char, _. split; reflexivity.
Qed.

(** ** The keys of an upload *)

(** Validated route variables. *)
Record module_names (ns name provider version : string) : Prop := {
  mn_ns : validArtifactName ns = true;
  mn_name : validArtifactName name = true;
  mn_provider : validArtifactName provider = true;
  mn_version : valid version
}.

Definition module_dir (ns name provider : string) : list string := ["modules"; ns; name; provider].
Definition module_key (ns name provider version file : string) : list string :=
  (module_dir ns name provider ++ [version]) ++ [file].
Definition module_index (ns name provider : string) : list string :=
  module_dir ns name provider ++ ["index.json"].

Section keys.
Context (ns name provider version : string) (HN : module_names ns name provider version).

Lemma module_dir_names : Forall file_name (module_dir ns name provider).
Proof using HN.
  destruct HN. repeat apply Forall_cons_2; [..|apply Forall_nil_2]; by apply name_file.
Qed.

Lemma good_module_key file : file_name file → good_key (module_key ns name provider version file).
Proof using HN.
  intros Hf. apply good_names; [done|]. unfold module_key. rewrite !Forall_app, !Forall_singleton.
  split; [split; [apply module_dir_names|apply version_file, HN]|done].
Qed.

Lemma good_module_index : good_key (module_index ns name provider).
Proof using HN.
  apply good_names; [done|]. unfold module_index. rewrite Forall_app, Forall_singleton.
  split; [apply module_dir_names|]. split; [done|]. by eexists "i"%char, _.
Qed.

Lemma good_meta_key : good_key (module_key ns name provider version "artifact.json").
Proof using HN. apply good_module_key. split; [done|]. by eexists "a"%char, _. Qed.

Lemma module_files_apart f g : f ≠ g →
  apart (module_key ns name provider version f) (module_key ns name provider version g).
Proof using Type. intros. by apply apart_siblings. Qed.

Lemma module_index_apart f :
  apart (module_index ns name provider) (module_key ns name provider version f).
Proof using HN. apply apart_below. apply not_eq_sym, version_not_index, HN. Qed.

Lemma module_filename_not_meta data : module_filename data ≠ "artifact.json".
Proof using Type.
  apply last_byte_neq. unfold module_filename.
  rewrite !last_byte_app; [done..|by destruct (sha256_hex data)].
Qed.

End keys.

(** ** After the artifact is stored *)

Section publication.
Context {s : Store} {ok value dir} {KV : KeyValue s ok value dir}.
Context (ns name provider version : string) (HN : module_names ns name provider version).
Context (data : string).
#[local] Abbreviation within := (within (KV := KV)).
#[local] Abbreviation key := (module_key ns name provider version).
#[local] Abbreviation zipK := (key (module_filename data)).
#[local] Abbreviation metaK := (key "artifact.json").
#[local] Abbreviation idxK := (module_index ns name provider).

Definition oldK (w : world) : list (list string) :=
  superseded (module_dir ns name provider ++ [version]) (module_filename data) (named_artifact (value w metaK)).

(** Stored metadata names an artifact the way uploads do. *)
Definition names_artifact (w : world) : Prop :=
  ∀ f, named_artifact (value w metaK) = Some f → f = "" ∨ ∃ d, f = module_filename d.

(** What but a failed system call stands in the way of the upload. *)
Definition unsound (w : world) : Prop :=
  index_at (value w idxK) = None ∨ barred value dir w idxK ∨ barred value dir w metaK.

(** At most one thing goes wrong. *)
Definition steady (w : world) : Prop := calm w ∨ (faults_left w ≤ 1 ∧ ¬ unsound w).

Lemma steady_failure w wa wb : steady w → env w wa → env wa wb →
  faulted wa wb ∨ unsound w → calm wb ∧ ¬ faulted w wa.
Proof using Type.
  intros Hs [_ _ _ _ H1] [_ _ _ _ H2] Hf. unfold steady, calm, faulted in *.
  destruct Hs as [?|[? ?]]; [lia|]. destruct Hf; [lia|done].
Qed.

(** What a published module consists of. *)
Definition module_published (w w' : world) : Prop :=
  value w' metaK = Some (print (enc_ModuleArtifactMeta (module_meta data))) ∧
  (∃ idx idx', index_at (value w idxK) = Some idx ∧ index_at (value w' idxK) = Some idx' ∧
     reindexed (with_version version idx) idx idx') ∧
  (calm w → ∀ k, k ∈ oldK w → value w' k = None).

Definition module_outcome (w : world) (zip : option string) (resp : response) (w' : world) : Prop :=
  within (zipK :: metaK :: idxK :: oldK w) w w' ∧
  ((status resp = 200%Z ∧ module_published w w' ∧ value w' zipK = zip) ∨
   ((400 ≤ status resp)%Z ∧ (faulted w w' ∨ unsound w) ∧
    (steady w → ∀ l, good_key l → value w' l = value w l))).

Let good_file f := good_module_key ns name provider version HN f.

Lemma neqs : zipK ≠ metaK ∧ idxK ≠ zipK ∧ idxK ≠ metaK.
Proof using HN.
  split_and!.
  - apply apart_neq, module_files_apart, module_filename_not_meta.
  - by apply apart_neq, module_index_apart.
  - by apply apart_neq, module_index_apart.
Qed.

Lemma oldK_good w k : names_artifact w → k ∈ oldK w → ∃ d, k = key (module_filename d) ∧ k ≠ zipK ∧ good_key k.
Proof using HN.
  intros Hn (f & Ef & Hf & Hne & ->)%elem_of_superseded. destruct (Hn f Ef) as [?|[d ->]]; [done|].
  exists d. split; [done|]. split; [|apply good_file, module_file_named].
  intros E. by apply app_inj_tail in E as [_ ?].
Qed.

Lemma oldK_apart w l : names_artifact w → l = zipK ∨ l = metaK ∨ l = idxK → l ∉ oldK w.
Proof using HN.
  intros Hn Hl Hin. destruct (oldK_good w l Hn Hin) as (d & E & Hne & _).
  destruct Hl as [->|[->| ->]]; [done| |].
  - apply app_inj_tail in E as [_ E]. by apply (module_filename_not_meta d).
  - by eapply apart_neq in E; [|apply (module_index_apart _ _ _ _ HN)].
Qed.

#[local] Abbreviation K := [zipK; metaK; idxK].

Lemma good_keys : good_key zipK ∧ good_key metaK ∧ good_key idxK.
Proof using HN.
  split_and!; [apply good_file, module_file_named|by apply good_meta_key|by eapply good_module_index].
Qed.

Lemma K_all w k : k ∈ K → k ∈ zipK :: metaK :: idxK :: oldK w.
Proof using Type. rewrite !elem_of_cons, elem_of_nil. tauto. Qed.

(** Undoing has put everything back. *)
Lemma module_rolled_back w w' zip resp :
  within K w w' → (400 ≤ status resp)%Z → (faulted w w' ∨ unsound w) →
  (steady w → value w' zipK = value w zipK ∧ value w' metaK = value w metaK ∧ value w' idxK = value w idxK) →
  module_outcome w zip resp w'.
Proof using Type.
  intros Hw Hst Hf H. split; [eapply within_mono; [|exact Hw]; intros k; apply K_all|].
  right. do 2 (split; [done|]). intros Hs. eapply within_unchanged; [exact Hw|].
  destruct (H Hs) as (? & ? & ?). intros k. rewrite !elem_of_cons, elem_of_nil.
  by intros [->|[->|[->|[]]]].
Qed.

#[local] Ltac unaffected H :=
  rewrite (within_value _ _ _ _ H);
  [|solve [auto]|solve [rewrite ?list_elem_of_singleton; first [apply not_elem_of_nil|by auto using not_eq_sym]]].

#[local] Ltac in_K := let k := fresh in intros k; rewrite !elem_of_cons, elem_of_nil; tauto.

(** The metadata could not be written. *)
Lemma wp_meta_failed w w2 w3 (existed : bool) zip :
  ok w → within [zipK] w w2 → within [metaK] w2 w3 →
  (if existed then value w2 zipK = value w zipK else value w zipK = None) →
  value w3 metaK = value w2 metaK → faulted w2 w3 ∨ barred value dir w2 metaK →
  wp (delete_unless existed s (slash zipK);; mret (writeJSON 500 false (Msg "Metadata store failed")))
     (module_outcome w zip) w3.
Proof using HN.
  intros Hok H2 H3 Hex Hm Hbad. destruct neqs as (N1 & N2 & N3).
  destruct good_keys as (Gz & Gm & Gi).
  assert (faulted w2 w3 ∨ unsound w) as Hbad'.
  { destruct Hbad as [?|Hb]; [by left|right; right; right].
    apply (within_barred [zipK] w w2); [done..| |done]. intros k ->%list_elem_of_singleton.
    apply module_files_apart, module_filename_not_meta. }
  apply wp_bind. eapply wp_mono; [apply wp_delete_unless_within; [apply H3..|auto]|].
  intros [] w4 [H4 Hz]. apply wp_ret. apply module_rolled_back.
  - do 2 (eapply within_trans; [eapply within_mono; [|eassumption]; in_K|]).
    eapply within_mono; [|exact H4]; in_K.
  - done.
  - destruct Hbad' as [Hf|?]; [left|by right].
    eapply faulted_l; [eapply faulted_r; [apply H2|exact Hf]|apply H4].
  - intros Hs. destruct (steady_failure w w2 w3) as [Hc _]; [done|apply H2|apply H3|done|].
    split_and!.
    + rewrite Hz by done. destruct existed; [|done]. by unaffected H3.
    + unaffected H4. rewrite Hm. by unaffected H2.
    + unaffected H4. unaffected H3. by unaffected H2.
Qed.

(** The index could not be updated. *)
Lemma wp_index_failed w w2 w3 w4 (existed : bool) previous zip :
  ok w → within [zipK] w w2 → within [metaK] w2 w3 → within [idxK] w3 w4 →
  (if existed then value w2 zipK = value w zipK else value w zipK = None) →
  match previous with Ok d => value w metaK = Some d | Err _ => faulted w w2 ∨ value w metaK = None end →
  value w3 metaK ≠ None → value w4 idxK = value w3 idxK →
  faulted w3 w4 ∨ index_at (value w3 idxK) = None ∨ barred value dir w3 idxK →
  wp (restore s (slash metaK) previous;; delete_unless existed s (slash zipK);;
      mret (writeJSON 500 false (Msg "Index update failed"))) (module_outcome w zip) w4.
Proof using HN.
  intros Hok H2 H3 H4 Hex Hprev Hm Hi Hbad. destruct neqs as (N1 & N2 & N3).
  destruct good_keys as (Gz & Gm & Gi).
  assert (within [zipK; metaK] w w3) as H23.
  { eapply within_trans; [|eapply within_mono; [|exact H3]]; [eapply within_mono; [|exact H2]|]; in_K. }
  assert (faulted w3 w4 ∨ unsound w) as Hbad'.
  { destruct Hbad as [?|[Hb|Hb]]; [by left|right; left|right; right; left].
    - rewrite <- Hb. unaffected H3. by unaffected H2.
    - apply (within_barred [zipK; metaK] w w3); [done..| |done].
      intros k. rewrite !elem_of_cons, elem_of_nil. intros [->|[->|[]]]; by apply apart_sym, module_index_apart. }
  apply wp_bind. eapply wp_mono; [apply wp_restore_within; [apply H4..|auto]|].
  intros [] w5 [H5 Hr]. apply wp_bind. eapply wp_mono; [apply wp_delete_unless_within; [apply H5..|auto]|].
  intros [] w6 [H6 Hz]. apply wp_ret. apply module_rolled_back.
  - eapply within_trans; [eapply within_mono; [|exact H23]; in_K|].
    do 2 (eapply within_trans; [eapply within_mono; [|eassumption]; in_K|]).
    eapply within_mono; [|exact H6]; in_K.
  - done.
  - destruct Hbad' as [Hf|?]; [left|by right]. eapply faulted_l; [eapply faulted_r; [apply H23|exact Hf]|].
    etransitivity; [apply H5|apply H6].
  - intros Hs. destruct (steady_failure w w3 w4) as [Hc Hnf]; [done|apply H23|apply H4|done|].
    assert (calm w5) as Hc5 by (by eapply within_calm).
    assert (value w2 metaK = value w metaK) as E2 by (by unaffected H2). split_and!.
    + rewrite Hz by done. destruct existed; [|done]. unaffected H5. unaffected H4. by unaffected H3.
    + unaffected H6. rewrite Hr; [|done|intros _; by unaffected H4].
      destruct previous; [done|]. destruct Hprev as [Hf|?]; [|done]. destruct Hnf.
      eapply faulted_l; [exact Hf|apply H3].
    + unaffected H6. unaffected H5. rewrite Hi. unaffected H3. by unaffected H2.
Qed.

(** Everything is in place. *)
Lemma module_all_done w w4 zip previous text :
  ok w → names_artifact w → within K w w4 → value w4 zipK = zip →
  match previous with Ok d => value w metaK = Some d | Err _ => faulted w w4 ∨ value w metaK = None end →
  value w4 metaK = Some (print (enc_ModuleArtifactMeta (module_meta data))) →
  (∃ idx idx', index_at (value w idxK) = Some idx ∧ index_at (value w4 idxK) = Some idx' ∧
     reindexed (with_version version idx) idx idx') →
  wp (delete_old s (module_dir ns name provider ++ [version]) (module_filename data)
        (previous_filename dec_ModuleArtifactMeta zero_ModuleArtifactMeta mam_filename previous);;
      mret (counting ModuleUploads (writeJSON 200 true (Msg text)))) (module_outcome w zip) w4.
Proof using HN.
  intros Hok Hn H4 Hz Hprev Hm Hi. destruct good_keys as (Gz & Gm & Gi).
  pose proof (oldK_apart w zipK Hn ltac:(auto)) as Nz. pose proof (oldK_apart w metaK Hn ltac:(auto)) as Nm.
  pose proof (oldK_apart w idxK Hn ltac:(auto)) as Ni.
  assert (superseded (module_dir ns name provider ++ [version]) (module_filename data)
    (previous_filename dec_ModuleArtifactMeta zero_ModuleArtifactMeta mam_filename previous) ⊆ oldK w) as Hsub.
  { unfold oldK. destruct previous; [by rewrite Hprev|apply list_subseteq_nil]. }
  apply wp_bind. eapply wp_mono.
  { apply wp_delete_old; [apply H4..|]. intros k Hk%Hsub. by destruct (oldK_good w k Hn Hk) as (_ & _ & _ & ?). }
  intros [] w5 [H5 Hd]. apply wp_ret. apply (within_mono _ _ _ _ Hsub) in H5. split.
  - eapply within_trans; [eapply within_mono; [intros k; apply K_all|exact H4]|].
    eapply within_mono; [|exact H5]. intros k. rewrite !elem_of_cons. tauto.
  - left. split; [done|]. split; [|by unaffected H5]. split_and!.
    + by unaffected H5.
    + by unaffected H5.
    + intros Hc k Hk. destruct previous as [d|e].
      * apply Hd; [by eapply within_calm|]. unfold oldK in Hk. by rewrite Hprev in Hk.
      * destruct Hprev as [Hf|Hv]; [by apply calm_not_faulted in Hf|]. exfalso. revert Hk.
        unfold oldK. rewrite Hv. apply not_elem_of_nil.
Qed.

Lemma wp_publish_module w w1 (existed : bool) :
  ok w → names_artifact w → within [zipK] w w1 →
  (if existed then value w1 zipK = value w zipK else value w zipK = None) →
  wp (publish_module s ns name provider version data (slash zipK) existed)
     (module_outcome w (value w1 zipK)) w1.
Proof using HN.
  intros Hok Hn H1 Hex. destruct neqs as (N1 & N2 & N3). destruct good_keys as (Gz & Gm & Gi).
  unfold publish_module. apply wp_bind. eapply wp_mono; [apply (wp_get_within metaK); [apply H1..|done]|].
  intros previous w2 (H2 & Hsm & Hprev).
  assert (within [zipK] w w2) as H12.
  { eapply within_trans; [exact H1|]. eapply within_mono; [|exact H2]. apply list_subseteq_nil. }
  assert (value w1 metaK = value w metaK) as E1 by (by unaffected H1).
  assert (match previous with Ok d => value w metaK = Some d | Err _ => faulted w w2 ∨ value w metaK = None end)
    as Hprev'.
  { rewrite E1 in Hprev. destruct previous; [done|]. destruct Hprev as [?|?]; [left|by right].
    by eapply faulted_r; [apply H1|]. }
  assert (value w2 zipK = value w1 zipK) as Ez by (by apply same_value).
  rewrite <- Ez in Hex.
  apply wp_bind. eapply wp_mono; [apply (wp_put_within metaK); [apply H2..|done]|].
  intros [[]|e] w3 [H3 Hm]; [|destruct Hm; by eapply wp_meta_failed].
  apply wp_bind. eapply wp_mono.
  { apply (wp_addVersionToIndex idxK); [apply H3..|done|]. apply file_chars_utf8, file_chars, version_file, HN. }
  intros r w4 (He4 & Hu4 & Hok4 & [Hk4 H]).
  pose proof (within_kept idxK w3 w4 He4 Hu4 Hok4 Hk4) as H4.
  destruct r as [[]|e]; [|destruct H; eapply wp_index_failed; [done|exact H12|done..|congruence|done|done]].
  apply module_all_done; [done..| | | | |].
  - eapply within_trans; [eapply within_mono; [|exact H12]; in_K|].
    eapply within_trans; [eapply within_mono; [|exact H3]; in_K|]. eapply within_mono; [|exact H4]; in_K.
  - unaffected H4. by unaffected H3.
  - destruct previous; [done|]. destruct Hprev' as [?|?]; [left|by right].
    eapply faulted_l; [done|]. etransitivity; [apply H3|done].
  - by unaffected H4.
  - destruct H as (idx & idx' & E & E' & Hr). exists idx, idx'. split_and!; [|done..]. rewrite <- E. f_equal.
    unaffected H3. by unaffected H12.
Qed.

End publication.

(** ** The handler *)

(** The artifact of a request; none without a file part. *)
Definition upload_data (up : upload) : string :=
  match multipartUploadPart up with Ok file => r_data file | Err _ => "" end.

(** The request carries a valid module archive within the size limit. *)
Definition module_accepted gzip_NewReader (maxUploadSize : Z) (up : upload) : Prop :=
  ∃ file, multipartUploadPart up = Ok file ∧ 2 ≤ slen (peeked file) ∧
    ValidateUpload (buffer4 (peeked file)) "tar.gz" = Ok () ∧
    acceptable file maxUploadSize (Some (module_validate gzip_NewReader maxUploadSize)).

Lemma writeUploadError_status e : (400 ≤ status (writeUploadError e))%Z.
Proof. unfold writeUploadError. by destruct (isUploadTooLarge e). Qed.

Lemma write_store_error_status e : (400 ≤ status (write_store_error e))%Z.
Proof. unfold write_store_error. destruct (isUploadTooLarge e), (is_invalid_archive e); done. Qed.

Section handler.
Context {s : Store} {ok value dir} {KV : KeyValue s ok value dir}.
Context (ns name provider version : string) (HN : module_names ns name provider version).
Context (gzip_NewReader : string → result error tar_stream) (maxUploadSize : Z) (up : upload).
Context (HM : (0 ≤ maxUploadSize < 2^63 - 1)%Z).
#[local] Abbreviation data := (upload_data up).
#[local] Abbreviation zipK := (module_key ns name provider version (module_filename data)).
#[local] Abbreviation unsound := (unsound ns name provider version (value := value) (dir := dir)).
#[local] Abbreviation steady := (steady ns name provider version (value := value) (dir := dir)).

(** What may keep an acceptable upload from succeeding. *)
Definition hindered (w w' : world) : Prop :=
  faulted w w' ∨ unsound w ∨ barred value dir w zipK ∨ ∃ d p, ¬ temp_room w d p.

Definition module_upload_outcome (w : world) (resp : response) (w' : world) : Prop :=
  within (KV := KV) (zipK :: module_key ns name provider version "artifact.json" :: module_index ns name provider
    :: oldK (value := value) ns name provider version data w) w w' ∧
  ((status resp = 200%Z ∧ module_accepted gzip_NewReader maxUploadSize up ∧
    module_published (value := value) ns name provider version data w w' ∧
    (¬ dir w zipK → (∀ d, value w zipK = Some d → d = data) → value w' zipK = Some data)) ∨
   ((400 ≤ status resp)%Z ∧ (¬ module_accepted gzip_NewReader maxUploadSize up ∨ hindered w w') ∧
    (steady w → ∀ l, good_key l → value w' l = value w l))).

Lemma module_refused w resp : ok w → unlocked w → (400 ≤ status resp)%Z →
  ¬ module_accepted gzip_NewReader maxUploadSize up → module_upload_outcome w resp w.
Proof using Type. intros. split; [by apply within_refl|]. right. by split_and!; [|left|]. Qed.

Definition module_upload_body : M response :=
  match multipartUploadPart up with
  | Err e => mret (writeUploadError e)
  | Ok file =>
      if slen (peeked file) <? 2 then mret (writeJSON 400 false (Msg "File too small"))
      else match ValidateUpload (buffer4 (peeked file)) "tar.gz" with
      | Err e => mret (writeJSON 400 false (MsgErr "" e))
      | Ok _ =>
          r ← PutStreamImmutable s file maxUploadSize (Some (module_validate gzip_NewReader maxUploadSize))
                (λ data, slash ["modules"; ns; name; provider; version; module_filename data]);
          match r with
          | Err e => mret (write_store_error e)
          | Ok st => publish_module s ns name provider version (r_data file) (st_key st) (st_existed st)
          end
      end
  end.

Lemma wp_module_upload_body w :
  ok w → unlocked w → names_artifact (value := value) ns name provider version w →
  wp module_upload_body (module_upload_outcome w) w.
Proof using HN HM.
  intros Hok Hu Hn. unfold module_upload_body.
  destruct (multipartUploadPart up) as [file|e] eqn:Eup.
  2:{ apply wp_ret, module_refused; [done..|apply writeUploadError_status|]. intros (f & E & _). congruence. }
  destruct (slen (peeked file) <? 2) eqn:E2; to_props.
  { apply wp_ret, module_refused; [done..|]. intros (f & E & H & _). assert (f = file) as -> by congruence. lia. }
  destruct (ValidateUpload _ _) as [[]|e] eqn:EV.
  2:{ apply wp_ret, module_refused; [done..|]. intros (f & E & _ & H & _). assert (f = file) as -> by congruence. congruence. }
  assert (data = r_data file) as Ed by (unfold upload_data; by rewrite Eup).
  pose proof (good_module_key _ _ _ _ HN _ (module_file_named data)) as Gz.
  apply wp_bind. eapply wp_mono.
  { apply (kv_publish file maxUploadSize (Some (module_validate gzip_NewReader maxUploadSize))
      (λ d, module_key ns name provider version (module_filename d))); [done..| |done]. by rewrite <- Ed. }
  rewrite <- Ed. intros [st|e] w1 (He & Hu1 & Hok1 & [Hk H]);
    pose proof (within_kept zipK w w1 He Hu1 Hok1 Hk) as H1.
  - destruct H as (Hacc & _ & -> & Hex). eapply wp_mono.
    { apply (wp_publish_module ns name provider version HN data w w1); [done..|].
      destruct (st_existed st); apply Hex. }
    intros resp w' [Hw' [(Hs & Hpub & Hz)|(Hs & Hbad & Hun)]]; (split; [done|]); [left|right].
    + split; [done|]. split; [by exists file|]. split; [done|]. intros Hd Hv. rewrite Hz. rewrite <- Ed in Hex.
      destruct (st_existed st); [|apply Hex]. destruct Hex as [-> [Hne|?]]; [|done].
      destruct (value w zipK) eqn:E; [|done]. f_equal. by apply Hv.
    + split; [done|]. split; [right|done]. destruct Hbad; [by left|right; by left].
  - apply wp_ret. split; [eapply within_mono; [|exact H1]; intros k; rewrite !elem_of_cons, elem_of_nil; tauto|].
    right. split; [apply write_store_error_status|]. split.
    + destruct H as [_ [?|[Hna|[?|?]]]]; [right; by left|left|right; right; right; by left|right; right; right; by right].
      intros (f & E & _ & _ & Ha). assert (f = file) as -> by congruence. by apply Hna.
    + intros _. eapply within_unchanged; [exact H1|]. intros k ->%list_elem_of_singleton. apply H.
Qed.

End handler.

(** ** Downloading what was uploaded *)

(** The route variables of the request. *)
Record module_route (vars : Vars) (ns name provider version : string) : Prop := {
  mr_ns : var vars "namespace" = ns;
  mr_name : var vars "name" = name;
  mr_provider : var vars "provider" = provider;
  mr_version : var vars "version" = version
}.

Lemma module_filename_shape data : module_filename data = module_file ("_" +:+ sha256_hex data).
Proof. reflexivity. Qed.

Section download.
Context {s : Store} {ok value dir} {KV : KeyValue s ok value dir}.
Context (ns name provider version : string) (HN : module_names ns name provider version).

Lemma wp_moduleArtifactKey_published data w :
  calm w → ok w →
  value w (module_key ns name provider version "artifact.json") =
    Some (print (enc_ModuleArtifactMeta (module_meta data))) →
  value w (module_key ns name provider version (module_filename data)) ≠ None →
  wp (moduleArtifactKey s ns name provider version) (λ r w', same w w' ∧
    r = Ok (slash (module_key ns name provider version (module_filename data)))) w.
Proof using HN KV.
  intros Hc Hok Hm Hz. unfold moduleArtifactKey. apply wp_bind.
  eapply wp_mono; [apply (wp_get_calm (module_key ns name provider version "artifact.json"));
    [done..|by apply good_meta_key]|].
  intros r w1 [Hsm Hr]. rewrite Hm in Hr. subst r. rewrite decode_module_meta. cbn [module_meta mam_filename].
  assert (MatchString moduleFileRE (module_filename data) = true) as ->.
  { apply moduleFileRE_iff. eexists. split; [apply module_filename_shape|apply sha_digest]. }
  cbn [negb orb]. apply wp_bind. eapply wp_mono.
  { apply (wp_exists_calm (module_key ns name provider version (module_filename data)));
      [eapply calm_env; [apply Hsm|done]|by eapply same_ok|].
    apply good_module_key; [done|apply module_file_named]. }
  intros b w2 [Hsm2 Hb]. assert (b = true) as ->.
  { apply Hb. left. by rewrite (same_value w w1). }
  apply wp_ret. split; [by transitivity w1|done].
Qed.

(** The reply of the download endpoint for the artifact of [data]. *)
Definition module_redirect (data : string) : response :=
  counting ModuleDownloads (mkResponse 204
    [("X-Terraform-Get", DownloadURL s (slash (module_key ns name provider version (module_filename data))));
     ("Content-Type", "application/json")] BNone []).

Lemma wp_moduleDownload_published vars data w :
  module_route vars ns name provider version → calm w → ok w →
  value w (module_key ns name provider version "artifact.json") =
    Some (print (enc_ModuleArtifactMeta (module_meta data))) →
  value w (module_key ns name provider version (module_filename data)) ≠ None →
  wp (moduleDownloadHandler s vars) (λ r w', same w w' ∧ r = module_redirect data) w.
Proof using HN KV.
  intros [E1 E2 E3 E4] Hc Hok Hm Hz. unfold moduleDownloadHandler. apply wp_bind, wp_bind. rewrite E1, E2, E3, E4.
  eapply wp_mono; [by apply wp_moduleArtifactKey_published|]. intros r w2 [Hsm ->]. by apply wp_ret, wp_ret.
Qed.

End download.

Lemma published_module_path ns name provider version data : module_names ns name provider version →
  PublishedPath (module_key ns name provider version (module_filename data)).
Proof. intros []. apply (published_module ns name provider version ("_" +:+ sha256_hex data)); [done..|apply sha_digest]. Qed.

(** ** The properties *)

Section properties.
Context (gzip_NewReader : string → result error tar_stream) (s : Store) (maxUploadSize : Z).

(** What the theorems about module uploads assume of the server's state, its
    configuration and the request's route. *)
Record module_upload_ready (vars : Vars) (ns name provider version : string) (w : world) : Prop := {
  mu_serving : serving s w;
  mu_free : free w;
  mu_limit : (0 ≤ maxUploadSize < 2^63 - 1)%Z;
  mu_route : module_route vars ns name provider version;
  mu_names : module_names ns name provider version;
  mu_stored : names_artifact (value := value s) ns name provider version w
}.

Lemma wp_uploadModuleHandler vars ns name provider version up w :
  module_upload_ready vars ns name provider version w →
  wp (uploadModuleHandler gzip_NewReader s maxUploadSize vars up) (λ resp w', free w' ∧ env w w' ∧
    serving s w' ∧
    module_upload_outcome (KV := file_store s) ns name provider version gzip_NewReader maxUploadSize up w resp w') w.
Proof using Type.
  intros [[Hrd Hul] Hf Hm [E1 E2 E3 E4] HN Hst].
  apply (wp_with_mutation _ (λ resp w', serving s w' ∧
    module_upload_outcome (KV := file_store s) ns name provider version gzip_NewReader maxUploadSize up w resp w'));
    [done|].
  rewrite E1, E2, E3, E4. eapply wp_mono.
  { apply (wp_module_upload_body (KV := file_store s) ns name provider version HN
      gzip_NewReader maxUploadSize up Hm (set_mutation true w)); done. }
  intros resp w' [[He Hu Hok Ho] H]. split; [done|]. split; [done|]. split; [|exact H].
  split; [|done|done|exact Ho]. destruct He as [L Em En Er Ef].
  by split; [exact L|rewrite Hf|..].
Qed.

End properties.

#[local] Abbreviation meta_key ns name provider version := (module_key ns name provider version "artifact.json").

(** C2. An upload of a module always replies, leaves a usable store and the
    mutation mutex free, whatever system calls fail.  When it replies 200, the
    request carried an archive that passes validation, and the store holds
    together: the archive's bytes under the name made of its SHA-256 (unless
    something else already was under that name), the metadata that names it,
    and an index that lists the version besides those it listed.  It replies
    anything else only if the archive is not acceptable, or a system call
    failed, or the index is corrupt, or a key is blocked, or no temporary name
    is free.  No other key changes, except that the artifact the previous
    metadata named is deleted. *)
Theorem uploadModule_publishes gzip_NewReader s maxUploadSize vars ns name provider version up w :
  module_upload_ready s maxUploadSize vars ns name provider version w →
  let data := upload_data up in
  let zipK := module_key ns name provider version (module_filename data) in
  let metaK := meta_key ns name provider version in
  let idxK := module_index ns name provider in
  ∃ resp w', uploadModuleHandler gzip_NewReader s maxUploadSize vars up w = Some (resp, w') ∧
    serving s w' ∧ free w' ∧
    (∀ l, good_key l → l ∉ [zipK; metaK; idxK] →
       (∀ f, named_artifact (value s w metaK) = Some f → l ≠ module_key ns name provider version f) →
       value s w' l = value s w l) ∧
    (status resp = 200%Z →
       module_accepted gzip_NewReader maxUploadSize up ∧
       value s w' metaK = Some (print (enc_ModuleArtifactMeta (mkModuleArtifactMeta (module_filename data) (sha256_hex data)))) ∧
       (∃ idx idx', index_at (value s w idxK) = Some idx ∧ index_at (value s w' idxK) = Some idx' ∧
          reindexed (with_version version idx) idx idx') ∧
       (¬ dir s w zipK → (∀ d, value s w zipK = Some d → d = data) → value s w' zipK = Some data)) ∧
    (status resp ≠ 200%Z →
       ¬ module_accepted gzip_NewReader maxUploadSize up ∨ faulted w w' ∨
       index_at (value s w idxK) = None ∨ barred (value s) (dir s) w idxK ∨ barred (value s) (dir s) w metaK ∨
       barred (value s) (dir s) w zipK ∨ ∃ d p, ¬ temp_room w d p).
Proof.
  intros Hr data zipK metaK idxK.
  destruct (wp_total _ _ _ (wp_uploadModuleHandler gzip_NewReader s maxUploadSize vars ns name provider version up w Hr))
    as (resp & w' & E & Hf & _ & Hs & [_ _ _ Ho] & H).
  exists resp, w'. do 3 (split; [done|]). split.
  - intros l Hg Hn Hold. apply Ho; [done|]. rewrite !elem_of_cons. unfold oldK.
    rewrite !elem_of_cons, elem_of_nil in Hn. fold metaK zipK idxK data. intros [?|[?|[?|Hin]]]; [tauto..|].
    apply elem_of_superseded in Hin as (f & Ef & _ & _ & ->). by apply (Hold f).
  - destruct H as [(Hst & Hacc & (Hm & Hi & _) & Hz)|(Hst & Hbad & _)]; split; try done; intros Est; [lia|].
    clear Est. unfold hindered, unsound in Hbad. tauto.
Qed.

(** C11. A module upload is atomic under any single failed system call: with at
    most one failure, and an index and keys that do not block it, a reply other
    than 200 means that no key of the whole store changed (the artifact, the
    metadata and the index are back to what they were).  Without any failure
    this holds in every state. *)
Theorem uploadModule_rolls_back gzip_NewReader s maxUploadSize vars ns name provider version up w :
  module_upload_ready s maxUploadSize vars ns name provider version w →
  calm w ∨
    (faults_left w ≤ 1 ∧
     ¬ (index_at (value s w (module_index ns name provider)) = None ∨
        barred (value s) (dir s) w (module_index ns name provider) ∨
        barred (value s) (dir s) w (meta_key ns name provider version))) →
  ∃ resp w', uploadModuleHandler gzip_NewReader s maxUploadSize vars up w = Some (resp, w') ∧
    serving s w' ∧ free w' ∧
    (status resp ≠ 200%Z → ∀ l, good_key l → value s w' l = value s w l).
Proof.
  intros Hr Hst.
  destruct (wp_total _ _ _ (wp_uploadModuleHandler gzip_NewReader s maxUploadSize vars ns name provider version up w Hr))
    as (resp & w' & E & Hf & _ & Hs & _ & H).
  exists resp, w'. do 3 (split; [done|]). intros Hne. destruct H as [[? _]|(_ & _ & H)]; [done|by apply H].
Qed.

(** C15. Publishing a module is a round trip: when no system call fails, an
    acceptable upload whose keys are free (or hold the same bytes already) is
    answered 200; the module download endpoint then redirects to the URL of
    the artifact, and that URL serves exactly the uploaded bytes. *)
Theorem uploaded_module_downloads gzip_NewReader s maxUploadSize vars ns name provider version up w :
  module_upload_ready s maxUploadSize vars ns name provider version w →
  let zipK := module_key ns name provider version (module_filename (upload_data up)) in
  calm w →
  module_accepted gzip_NewReader maxUploadSize up →
  index_at (value s w (module_index ns name provider)) ≠ None →
  ¬ barred (value s) (dir s) w (module_index ns name provider) →
  ¬ barred (value s) (dir s) w (meta_key ns name provider version) →
  ¬ barred (value s) (dir s) w zipK →
  (∀ d, value s w zipK = Some d → d = upload_data up) →
  (∀ d p, temp_room w d p) →
  ∃ resp w1, uploadModuleHandler gzip_NewReader s maxUploadSize vars up w = Some (resp, w1) ∧ status resp = 200%Z ∧
  ∃ r2 w2, moduleDownloadHandler s vars w1 = Some (r2, w2) ∧ status r2 = 204%Z ∧
    ("X-Terraform-Get", DownloadURL s (slash zipK)) ∈ headers r2 ∧
  ∃ r3 w3 t, fileDownloadHandler s (path_vars zipK) w2 = Some (r3, w3) ∧ status r3 = 200%Z ∧
    content r3 = BFile (upload_data up) t.
Proof.
  intros Hr zipK Hc Hacc Hi Hbi Hbm Hbz Hz Hroom.
  destruct (wp_total _ _ _ (wp_uploadModuleHandler gzip_NewReader s maxUploadSize vars ns name provider version up w Hr))
    as (resp & w1 & E & _ & He & [Hrd _] & _ & H). exists resp, w1. split; [done|].
  destruct H as [(Hst & _ & (Hm & _) & Hv)|(_ & Hbad & _)].
  2:{ exfalso. unfold hindered, unsound in Hbad. fold zipK in Hbad.
      destruct Hbad as [?|[?|[[?|[?|?]]|[?|(d & p & Hno)]]]]; [done|by eapply calm_not_faulted|done..|by apply Hno]. }
  split; [done|]. fold zipK in Hv. assert (value s w1 zipK = Some (upload_data up)) as Hz1.
  { apply Hv; [|done]. intros Hd. apply Hbz. by right. }
  destruct Hr as [_ _ _ Hroute HN _]. assert (calm w1) as Hc1 by (by eapply calm_env).
  assert (wp (moduleDownloadHandler s vars) (λ r2 w2, same w1 w2 ∧ r2 = module_redirect (s := s) ns name provider version (upload_data up)) w1) as H2.
  { apply (wp_moduleDownload_published (KV := file_store s)); [done..|]. by fold zipK; rewrite Hz1. }
  apply wp_total in H2 as (r2 & w2 & Er2 & Hsm & ->). eexists _, w2. split; [exact Er2|]. split; [done|]. split; [left|].
  assert (wp (fileDownloadHandler s (path_vars zipK)) (λ r w3, same w2 w3 ∧ status r = 200%Z ∧
    ∃ t, content r = BFile (upload_data up) t) w2) as H3.
  { apply wp_fileDownload; [eapply calm_env; [apply Hsm|done]|by eapply (same_ok (KV := file_store s))|
      apply good_module_key; [done|apply module_file_named]|by apply published_module_path|].
    by rewrite (same_value (KV := file_store s) w1). }
  apply wp_total in H3 as (r3 & w3 & Er3 & _ & Hs3 & t & Ht). by exists r3, w3, t.
Qed.

(** ** A concrete upload *)

(** A file system in which no name ends with the digit 7. *)
Lemma room_checked (l : list (path * node)) faults locks :
  forallb (λ pn, bool_decide (last_byte (base_name pn.1) ≠ Some "7"%char)) l = true →
  ∀ d p, temp_room (World (list_to_map l) faults (λ _, 7%N) 0 (10 ^ 18) locks false) d p.
Proof.
  intros H dir p d. exists 0. split; [unfold max_tries; lia|]. cbn [w_fs w_rand].
  destruct ((list_to_map l : fs) !! _) as [n|] eqn:E; [|done]. exfalso.
  apply elem_of_list_to_map_2, list_elem_of_In in E. rewrite forallb_forall in H. apply H in E.
  apply bool_decide_eq_true in E. apply E. unfold base_name. cbn [fst]. rewrite List.last_last.
  by rewrite last_byte_app.
Qed.

Definition vpc_index : Index := mkIndex (Some ["0.9.0"]) None.
Definition module_entries : list (path * node) := [
  ([], NDir); (["srv"], NDir); (["srv"; "modules"], NDir); (["srv"; "modules"; "acme"], NDir);
  (["srv"; "modules"; "acme"; "vpc"], NDir); (["srv"; "modules"; "acme"; "vpc"; "aws"], NDir);
  (["srv"; "modules"; "acme"; "vpc"; "aws"; "index.json"], NFile (print_indent 0 (enc_Index vpc_index)) 0)].
Definition module_world (faults : list (option nat)) : world :=
  World (list_to_map module_entries) faults (λ _, 7%N) 0 (10 ^ 18) ∅ false.

Definition vpc_vars : Vars :=
  {["namespace" := "acme"; "name" := "vpc"; "provider" := "aws"; "version" := "1.0.0"]}.
Definition vpc_archive : string := String "031" (String "139" "tar").
Definition vpc_upload : upload := Part "file" "vpc.tar.gz" (Reader vpc_archive None).
(** One configuration file behind the gzip magic bytes. *)
Definition vpc_reader (data : string) : result error tar_stream :=
  if HasPrefix data (String "031" (String "139" "")) then
    Ok (mkTarStream [mkTarEntry "main.tf" TypeReg 3 3 None] None None None)
  else Err (EText "gzip: invalid header").

Lemma vpc_ready faults : module_upload_ready srv 1000 vpc_vars "acme" "vpc" "aws" "1.0.0" (module_world faults).
Proof.
  split; [|done|lia|by split|by split|].
  - split; [apply (store_fs_checked ["srv"] module_entries); vm_compute; reflexivity|].
    intros k. simpl. by rewrite lookup_empty.
  - intros f Hf. exfalso. revert Hf.
    assert (value srv (module_world faults) (meta_key "acme" "vpc" "aws" "1.0.0") = None) as ->; [|done].
    vm_compute. reflexivity.
Qed.

Lemma vpc_accepted : module_accepted vpc_reader 1000 vpc_upload.
Proof. exists (Reader vpc_archive None). split_and!; try done; vm_compute; lia. Qed.

Definition run_status {A} (m : option (response * A)) : option Z := (λ x, status x.1) <$> m.

(** The upload succeeds; without a working index update it is undone. *)
Example vpc_runs :
  run_status (uploadModuleHandler vpc_reader srv 1000 vpc_vars vpc_upload (module_world [])) = Some 200%Z ∧
  run_status (uploadModuleHandler vpc_reader srv 1000 vpc_vars vpc_upload
    (module_world (replicate 25 None ++ [Some 0]))) = Some 500%Z.
Proof. vm_compute. done. Qed.

Lemma uploadModule_publishes_witness :
  ∃ resp w', uploadModuleHandler vpc_reader srv 1000 vpc_vars vpc_upload (module_world []) = Some (resp, w') ∧
    status resp = 200%Z ∧ serving srv w' ∧ free w' ∧
    value srv w' (meta_key "acme" "vpc" "aws" "1.0.0") =
      Some (print (enc_ModuleArtifactMeta (module_meta vpc_archive))) ∧
    (∃ idx', index_at (value srv w' (module_index "acme" "vpc" "aws")) = Some idx' ∧
       versions_of idx' ≡ₚ ["1.0.0"; "0.9.0"]).
Proof.
  destruct (uploadModule_publishes vpc_reader srv 1000 vpc_vars "acme" "vpc" "aws" "1.0.0" vpc_upload
    (module_world []) (vpc_ready [])) as (resp & w' & E & Hs & Hf & _ & H & _).
  assert (status resp = 200%Z) as Hst.
  { pose proof (proj1 vpc_runs) as R. rewrite E in R. by injection R. }
  exists resp, w'. destruct (H Hst) as (_ & Hm & (idx & idx' & Ei & Ei' & Hr & _) & _).
  do 5 (split; [done|]). exists idx'. split; [done|].
  assert (index_at (value srv (module_world []) (module_index "acme" "vpc" "aws")) = Some vpc_index) as Ev
    by (vm_compute; reflexivity).
  rewrite Ev in Ei. injection Ei as <-. exact Hr.
Defined.

Lemma uploadModule_rolls_back_witness :
  let w := module_world (replicate 25 None ++ [Some 0]) in
  ∃ resp w', uploadModuleHandler vpc_reader srv 1000 vpc_vars vpc_upload w = Some (resp, w') ∧
    status resp = 500%Z ∧ serving srv w' ∧ free w' ∧ ∀ l, good_key l → value srv w' l = value srv w l.
Proof.
  intros w. destruct (uploadModule_rolls_back vpc_reader srv 1000 vpc_vars "acme" "vpc" "aws" "1.0.0" vpc_upload
    w (vpc_ready _)) as (resp & w' & E & Hs & Hf & H).
  { right. split; [vm_compute; lia|]. intros [Hi|[Hb|Hb]].
    - revert Hi. vm_compute. discriminate.
    - revert Hb. apply unbarred_checked. vm_compute. reflexivity.
    - revert Hb. apply unbarred_checked. vm_compute. reflexivity. }
  assert (status resp = 500%Z) as Hst.
  { pose proof (proj2 vpc_runs) as R. change (run_status (uploadModuleHandler vpc_reader srv 1000 vpc_vars vpc_upload w) = Some 500%Z) in R.
    rewrite E in R. by injection R. }
  exists resp, w'. do 4 (split; [done|]). apply H. by rewrite Hst.
Defined.

Lemma uploaded_module_downloads_witness :
  ∃ resp w1, uploadModuleHandler vpc_reader srv 1000 vpc_vars vpc_upload (module_world []) = Some (resp, w1) ∧
    status resp = 200%Z ∧
  ∃ r2 w2, moduleDownloadHandler srv vpc_vars w1 = Some (r2, w2) ∧ status r2 = 204%Z ∧
    ("X-Terraform-Get", DownloadURL srv (slash (module_key "acme" "vpc" "aws" "1.0.0" (module_filename vpc_archive))))
      ∈ headers r2 ∧
  ∃ r3 w3 t, fileDownloadHandler srv
      (path_vars (module_key "acme" "vpc" "aws" "1.0.0" (module_filename vpc_archive))) w2 = Some (r3, w3) ∧
    status r3 = 200%Z ∧ content r3 = BFile vpc_archive t.
Proof.
  apply (uploaded_module_downloads vpc_reader srv 1000 vpc_vars "acme" "vpc" "aws" "1.0.0" vpc_upload
    (module_world []) (vpc_ready [])); try (apply unbarred_checked; vm_compute; reflexivity).
  - done.
  - apply vpc_accepted.
  - vm_compute. discriminate.
  - assert (value srv (module_world []) (module_key "acme" "vpc" "aws" "1.0.0"
      (module_filename (upload_data vpc_upload))) = None) as -> by (vm_compute; reflexivity). done.
  - apply (room_checked module_entries). vm_compute. reflexivity.
Defined.
