(* ===== verification/ProviderUpload.v ===== *)
(** * Uploading a provider

    What [uploadProviderHandler] does to the store: on success the artifact,
    its metadata, the checksums with a signature over them and the index are in
    place; on failure the index is as it was, and everything is when no system
    call failed. *)

From S2P Require Import Prelude GoString SemVer GoPath Regex Validation Sha256 Os OsFacts Frame Json JsonFacts Utf8Facts.
From S2P Require Import Decode DecodeFacts Store StoreFacts KeyValue Confine StoreSpec Index IndexFacts.
From S2P Require Import Archive Signing Http Api Protocol ReadFacts NameFacts Transactions DownloadFacts ModuleUpload.

#[local] Opaque sha256_hex.

(** ** The keys of an upload *)

Record provider_names (ns name version os arch : string) : Prop := {
  pn_ns : validArtifactName ns = true;
  pn_name : validArtifactName name = true;
  pn_version : valid version;
  pn_os : validArtifactName os = true;
  pn_arch : validArtifactName arch = true
}.

Definition provider_dir (ns name : string) : list string := ["providers"; ns; name].
Definition provider_key (ns name version file : string) : list string :=
  (provider_dir ns name ++ [version]) ++ [file].
Definition provider_index (ns name : string) : list string := provider_dir ns name ++ ["index.json"].
Definition platform_file (os arch : string) : string := os +:+ "_" +:+ arch +:+ ".json".
Definition sums_file (name version : string) : string := (providerChecksumsNames name version).1.
Definition signature_file (name version : string) : string := (providerChecksumsNames name version).2.

Definition provider_meta (name version os arch data : string) : PlatformMeta :=
  mkPlatformMeta os arch (provider_filename name version os arch data) (sha256_hex data) (Some ["5.0"]).

Lemma file_chars_name n : validArtifactName n = true → sforall is_file_char n = true.
Proof. intros. by apply file_chars, name_file. Qed.
Lemma file_chars_version v : valid v → sforall is_file_char v = true.
Proof. intros. by apply file_chars, version_file. Qed.

#[local] Ltac file_chars :=
  rewrite ?sforall_app, ?andb_true_iff; split_and!;
  solve [reflexivity|by apply file_chars_name|by apply file_chars_version|apply sha_file].

Section keys.
Context (ns name version os arch : string) (HN : provider_names ns name version os arch).

Lemma provider_dir_names : Forall file_name (provider_dir ns name).
Proof using HN. destruct HN. repeat apply Forall_cons_2; [..|apply Forall_nil_2]; by apply name_file. Qed.

Lemma good_provider_key file : file_name file → good_key (provider_key ns name version file).
Proof using HN.
  intros Hf. apply good_names; [done|]. unfold provider_key. rewrite !Forall_app, !Forall_singleton.
  split; [split; [apply provider_dir_names|apply version_file, HN]|done].
Qed.

Lemma good_provider_index : good_key (provider_index ns name).
Proof using HN.
  apply good_names; [done|]. unfold provider_index. rewrite Forall_app, Forall_singleton.
  split; [apply provider_dir_names|]. split; [done|]. by eexists "i"%char, _.
Qed.

Lemma provider_file_named data : file_name (provider_filename name version os arch data).
Proof using HN.
  destruct HN. unfold provider_filename. split; [|by eexists "t"%char, _].
  file_chars.
Qed.

Lemma platform_file_named : file_name (platform_file os arch).
Proof using HN.
  destruct HN. apply file_name_app; [by apply name_file|]. file_chars.
Qed.

Lemma sums_file_named : file_name (sums_file name version).
Proof using HN.
  destruct HN. unfold sums_file, providerChecksumsNames. simpl fst. split; [|by eexists "t"%char, _].
  file_chars.
Qed.

Lemma signature_file_named : file_name (signature_file name version).
Proof using HN. unfold signature_file. simpl snd. by apply file_name_app; [apply sums_file_named|]. Qed.

(** The names of an upload end differently. *)
Lemma provider_ends data :
  last_byte (provider_filename name version os arch data) = Some "p"%char ∧
  last_byte (platform_file os arch) = Some "n"%char ∧
  last_byte (sums_file name version) = Some "S"%char ∧
  last_byte (signature_file name version) = Some "g"%char.
Proof using Type.
  unfold provider_filename, platform_file, signature_file, sums_file, providerChecksumsNames. cbn [fst snd].
  split_and!; rewrite ?last_byte_app; try done; intros E; repeat apply sapp_eq_nil in E as [_ E]; done.
Qed.

Lemma provider_apart f g : last_byte f ≠ last_byte g →
  apart (provider_key ns name version f) (provider_key ns name version g).
Proof using Type. intros H. apply apart_siblings. by apply last_byte_neq. Qed.

Lemma provider_index_apart f : apart (provider_index ns name) (provider_key ns name version f).
Proof using HN. apply apart_below. apply not_eq_sym, version_not_index, HN. Qed.

End keys.

(** ** Checksums *)

Section checksums.
Context {s : Store} {ok value dir} {KV : KeyValue s ok value dir}.
Context (ns name version : string).
#[local] Abbreviation sumsK := (provider_key ns name version (sums_file name version)).
#[local] Abbreviation sigK := (provider_key ns name version (signature_file name version)).
Context (Gc : good_key sumsK) (Gs : good_key sigK) (Hcs : sumsK ≠ sigK).
#[local] Abbreviation within := (within (KV := KV)).

(** The checksum document of [entries] and its signature are in the store. *)
Definition signed_entries (g : RegistrySigner) (entries : list checksumEntry) (w : world) : Prop :=
  entries ≠ [] ∧ value w sumsK = Some (checksums_document entries) ∧
  ∃ signature, Sign g (checksums_document entries) = Ok signature ∧ value w sigK = Some signature.

Definition signed_checksums (signer : option RegistrySigner) (w : world) : Prop :=
  ∃ g entries, signer = Some g ∧ signed_entries g entries w.

(** Signing and storing the document of [entries]. *)
Definition write_checksums (g : RegistrySigner) (entries : list checksumEntry) : M (result error unit) :=
  match entries with
  | [] => mret (Err (EText "provider version has no published artifacts"))
  | _ =>
      let checksums := checksums_document entries in
      signature ←! mret (Sign g checksums);
      let '(checksumsName, signatureName) := providerChecksumsNames name version in
      _ ←! Put s (slash ["providers"; ns; name; version; checksumsName]) checksums;
      _ ←! Put s (slash ["providers"; ns; name; version; signatureName]) signature;
      mret (Ok ())
  end.

Lemma rebuild_unfold g :
  rebuildProviderChecksums s (Some g) ns name version =
  (platforms ←! GetProviderPlatforms s ns name version;
   entries ← existing_entries s ns name version platforms;
   write_checksums g entries).
Proof using Type. reflexivity. Qed.

Lemma wp_write_checksums g entries w :
  ok w → unlocked w →
  wp (write_checksums g entries) (λ r w', within [sumsK; sigK] w w' ∧
    (value w sumsK ≠ None → value w' sumsK ≠ None) ∧ (value w sigK ≠ None → value w' sigK ≠ None) ∧
    match r with
    | Ok _ => signed_entries g entries w'
    | Err _ => entries = [] ∨ is_ok (Sign g (checksums_document entries)) = false ∨ faulted w w' ∨
               barred value dir w sumsK ∨ barred value dir w sigK
    end) w.
Proof using KV Gc Gs Hcs.
  intros Hok Hu. unfold write_checksums.
  destruct entries as [|en entries]; [apply wp_ret; split; [by apply within_refl|auto]|].
  apply wp_try, wp_ret. destruct (Sign g _) as [signature|e] eqn:Es;
    [|split; [by apply within_refl|split; [done|split; [done|right; left; reflexivity]]]].
  cbn [providerChecksumsNames]. apply wp_try.
  eapply wp_mono; [apply (wp_put_within sumsK); [done..|]|]; [done|]. intros r w3 [H3 Hr3].
  assert (value w3 sigK = value w sigK) as Eg.
  { eapply within_value; [exact H3|done|]. rewrite list_elem_of_singleton. auto. }
  destruct r as [[]|e].
  2:{ destruct Hr3 as [Ev Hbad]. rewrite Ev, Eg. split; [eapply within_mono; [|exact H3]|tauto].
      intros k ->%list_elem_of_singleton. left. }
  apply wp_try. eapply wp_mono; [apply (wp_put_within sigK); [apply H3..|done]|]. intros r w4 [H4 Hr4].
  assert (within [sumsK; sigK] w w4) as H24.
  { eapply within_trans; eapply within_mono; [|exact H3| |exact H4]; intros k ->%list_elem_of_singleton;
      [left|right; left]. }
  assert (value w4 sumsK = value w3 sumsK) as Ec.
  { eapply within_value; [exact H4|done|]. by rewrite list_elem_of_singleton. }
  destruct r as [[]|e]; [apply wp_ret|]; (split; [done|]); rewrite Ec, Hr3.
  - rewrite Hr4. split_and!; [done..|]. split; [done|]. rewrite Ec. split; [done|]. by exists signature.
  - destruct Hr4 as [-> Hbad]. rewrite Eg. split_and!; [done..|]. right. right.
    destruct Hbad as [?|Hb]; [left; by eapply faulted_r; [apply H3|]|right; right].
    eapply (within_barred [sumsK]); [done|exact H3|done| |done]. intros k ->%list_elem_of_singleton.
    apply provider_apart. destruct (provider_ends name version "" "" "") as (_ & _ & -> & ->). done.
Qed.

(** Rebuilding the checksums changes nothing else, and erases nothing. *)
Lemma wp_rebuildProviderChecksums signer w :
  ok w → unlocked w →
  wp (rebuildProviderChecksums s signer ns name version) (λ r w', within [sumsK; sigK] w w' ∧
    (value w sumsK ≠ None → value w' sumsK ≠ None) ∧ (value w sigK ≠ None → value w' sigK ≠ None) ∧
    (is_ok r = true → signed_checksums signer w')) w.
Proof using KV Gc Gs Hcs.
  intros Hok Hu. destruct signer as [g|]; [|apply wp_ret; split; [by apply within_refl|done]].
  rewrite rebuild_unfold. apply wp_try. eapply wp_mono; [apply reads_wp, keeps_GetProviderPlatforms|]. intros [platforms|e] w1 Hsm1.
  2:{ split; [by apply within_same|]. by rewrite !(same_value w w1). }
  apply wp_bind. eapply wp_mono; [apply reads_wp, keeps_existing_entries|]. intros entries w2 Hsm2.
  assert (same w w2) as Hsm by (by transitivity w1). pose proof (within_same [sumsK; sigK] _ _ Hok Hu Hsm) as H2.
  eapply wp_mono; [apply wp_write_checksums; apply H2|]. intros r w3 (H3 & Hc & Hs & Hr).
  rewrite <- (same_value w w2 sumsK Hsm), <- (same_value w w2 sigK Hsm).
  split; [by eapply within_trans|]. split; [done|]. split; [done|]. intros Hok'. destruct r as [[]|]; [|done].
  by exists g, entries.
Qed.

End checksums.

(** ** After the artifact is stored *)

(** The file name in a stored platform document, when it decodes. *)
Definition named_archive (v : option string) : option string :=
  v ≫= λ data, previous_filename dec_PlatformMeta zero_PlatformMeta Filename (Ok data).

Section publication.
Context {s : Store} {ok value dir} {KV : KeyValue s ok value dir}.
Context (ns name version os arch : string) (HN : provider_names ns name version os arch).
Context (signer : option RegistrySigner) (data : string).
#[local] Abbreviation within := (within (KV := KV)).
#[local] Abbreviation key := (provider_key ns name version).
#[local] Abbreviation zipK := (key (provider_filename name version os arch data)).
#[local] Abbreviation metaK := (key (platform_file os arch)).
#[local] Abbreviation sumsK := (key (sums_file name version)).
#[local] Abbreviation sigK := (key (signature_file name version)).
#[local] Abbreviation idxK := (provider_index ns name).
#[local] Abbreviation K := [zipK; metaK; sumsK; sigK; idxK].

Definition old_archives (w : world) : list (list string) :=
  superseded (provider_dir ns name ++ [version]) (provider_filename name version os arch data)
    (named_archive (value w metaK)).

(** Stored metadata names an archive the way uploads do. *)
Definition names_archive (w : world) : Prop :=
  ∀ f, named_archive (value w metaK) = Some f → f = "" ∨ ∃ d, f = provider_filename name version os arch d.

Definition provider_published (w w' : world) : Prop :=
  value w' metaK = Some (print (enc_PlatformMeta (provider_meta name version os arch data))) ∧
  signed_checksums (value := value) ns name version signer w' ∧
  (∃ idx idx', index_at (value w idxK) = Some idx ∧ index_at (value w' idxK) = Some idx' ∧
     reindexed (with_version version idx) idx idx') ∧
  (calm w → ∀ k, k ∈ old_archives w → value w' k = None).

Definition provider_outcome (w : world) (zip : option string) (resp : response) (w' : world) : Prop :=
  within (K ++ old_archives w) w w' ∧
  ((status resp = 200%Z ∧ provider_published w w' ∧ value w' zipK = zip) ∨
   ((400 ≤ status resp)%Z ∧ value w' idxK = value w idxK ∧
    (calm w → ∀ l, good_key l → value w' l = value w l))).

Lemma good_provider_keys : good_key zipK ∧ good_key metaK ∧ good_key sumsK ∧ good_key sigK ∧ good_key idxK.
Proof using HN.
  split_and!; try (eapply good_provider_key; [exact HN|]).
  - by eapply provider_file_named.
  - by eapply platform_file_named.
  - by eapply sums_file_named.
  - by eapply signature_file_named.
  - by eapply good_provider_index.
Qed.

Lemma provider_neqs :
  (zipK ≠ metaK ∧ zipK ≠ sumsK ∧ zipK ≠ sigK) ∧ (metaK ≠ sumsK ∧ metaK ≠ sigK ∧ sumsK ≠ sigK) ∧
  (idxK ≠ zipK ∧ idxK ≠ metaK ∧ idxK ≠ sumsK ∧ idxK ≠ sigK).
Proof using HN.
  destruct (provider_ends name version os arch data) as (Ez & Em & Ec & Es).
  split_and!;
    first [by eapply apart_neq, provider_index_apart|apply apart_neq, provider_apart; rewrite ?Ez, ?Em, ?Ec, ?Es; done].
Qed.

#[local] Ltac unaffected H :=
  rewrite (within_value _ _ _ _ H);
  [|solve [auto]|solve [rewrite ?not_elem_of_cons; split_and?; first [apply not_elem_of_nil|by auto using not_eq_sym]]].

#[local] Ltac in_K := let k := fresh in intros k; rewrite !elem_of_cons, elem_of_nil; tauto.

(** What a read before the changes says, and what undoing needs. *)
Definition read_before (w : world) (k : list string) (previous : result error string) (wa : world) : Prop :=
  match previous with
  | Ok d => value w k = Some d ∧ value wa k ≠ None
  | Err _ => calm w → value w k = None
  end.

Lemma wp_put_back k previous w wa :
  good_key k → within K w wa → read_before w k previous wa →
  wp (restore s (slash k) previous) (λ _ wb, within [k] wa wb ∧ (calm w → value wb k = value w k)) wa.
Proof using Type.
  intros Hg Hw Hr. eapply wp_mono; [apply wp_restore_within; [apply Hw..|done]|].
  intros [] wb [Hb H]. split; [done|]. intros Hc. rewrite H; [|by eapply within_calm|].
  - destruct previous; [by destruct Hr|symmetry; by apply Hr].
  - destruct previous; [by destruct Hr|done].
Qed.

(** Undoing puts everything back when no system call fails. *)
Lemma wp_undo_provider w wa (existed : bool) meta sums sig zip resp :
  within K w wa → (400 ≤ status resp)%Z → value wa idxK = value w idxK →
  read_before w metaK meta wa → read_before w sumsK sums wa → read_before w sigK sig wa →
  (if existed then value wa zipK = value w zipK else value w zipK = None) →
  wp (_ ← (restore s (slash metaK) meta;; restore s (slash sumsK) sums;; restore s (slash sigK) sig;;
           delete_unless existed s (slash zipK)); mret resp) (provider_outcome w zip) wa.
Proof using HN.
  intros Ha Hst Hi Hm Hc Hs Hz. destruct good_provider_keys as (Gz & Gm & Gc & Gs & Gi).
  destruct provider_neqs as ((N1 & N2 & N3) & (N4 & N5 & N6) & N7 & N8 & N9 & N10).
  assert (∀ k wb wc, k ∈ K → within K w wb → within [k] wb wc → within K w wc) as Hstep.
  { intros k wb wc Hk Hb H. eapply within_trans; [exact Hb|]. eapply within_mono; [|exact H].
    by intros x ->%list_elem_of_singleton. }
  do 2 apply wp_bind. eapply wp_mono; [by apply (wp_put_back metaK _ w)|]. intros [] w1 [H1 V1].
  assert (within K w w1) as K1 by (eapply Hstep; [|done..]; right; left).
  apply wp_bind. eapply wp_mono.
  { apply (wp_put_back sumsK sums w); [done..|]. destruct sums; [|done]. destruct Hc. split; [done|]. by unaffected H1. }
  intros [] w2 [H2 V2]. assert (within K w w2) as K2 by (eapply Hstep; [|done..]; do 2 right; left).
  apply wp_bind. eapply wp_mono.
  { apply (wp_put_back sigK sig w); [done..|]. destruct sig; [|done]. destruct Hs. split; [done|].
    unaffected H2. by unaffected H1. }
  intros [] w3 [H3 V3]. assert (within K w w3) as K3 by (eapply Hstep; [|done..]; do 3 right; left).
  eapply wp_mono; [apply wp_delete_unless_within; [apply K3..|done]|]. intros [] w4 [H4 V4].
  apply wp_ret. assert (within K w w4) as K4 by (eapply Hstep; [|done..]; left).
  assert (value w4 idxK = value w idxK) as Ei by (unaffected H4; unaffected H3; unaffected H2; by unaffected H1).
  split; [eapply within_mono; [|exact K4]; intros k; rewrite elem_of_app; tauto|].
  right. do 2 (split; [done|]). intros Hcalm. eapply within_unchanged; [exact K4|].
  intros k. rewrite !elem_of_cons, elem_of_nil. intros [->|[->|[->|[->|[->|[]]]]]].
  - rewrite V4 by by eapply within_calm. destruct existed; [|done]. unaffected H3. unaffected H2. by unaffected H1.
  - unaffected H4. unaffected H3. unaffected H2. by apply V1.
  - unaffected H4. unaffected H3. by apply V2.
  - unaffected H4. by apply V3.
  - done.
Qed.

(** The superseded archive is none of the keys of the upload. *)
Lemma old_archives_good w k : names_archive w → k ∈ old_archives w → good_key k ∧ k ∉ K.
Proof using HN.
  intros Hn (f & Ef & Hf & Hne & ->)%elem_of_superseded. destruct (Hn f Ef) as [?|[d ->]]; [done|].
  change ((provider_dir ns name ++ [version]) ++ [provider_filename name version os arch d])
    with (key (provider_filename name version os arch d)). split.
  { eapply good_provider_key; [exact HN|by eapply provider_file_named]. }
  destruct (provider_ends name version os arch d) as (Ez & Em & Ec & Es).
  rewrite !elem_of_cons, elem_of_nil. intros [E|[E|[E|[E|[E|[]]]]]].
  - by apply app_inj_tail in E as [_ E].
  - revert E. apply apart_neq, provider_apart. by rewrite Ez, Em.
  - revert E. apply apart_neq, provider_apart. by rewrite Ez, Ec.
  - revert E. apply apart_neq, provider_apart. by rewrite Ez, Es.
  - symmetry in E. revert E. by eapply apart_neq, provider_index_apart.
Qed.

(** Everything is in place. *)
Lemma wp_provider_done w w7 zip previous text :
  names_archive w → within K w w7 → value w7 zipK = zip →
  match previous with Ok d => value w metaK = Some d | Err _ => calm w → value w metaK = None end →
  value w7 metaK = Some (print (enc_PlatformMeta (provider_meta name version os arch data))) →
  signed_checksums (value := value) ns name version signer w7 →
  (∃ idx idx', index_at (value w idxK) = Some idx ∧ index_at (value w7 idxK) = Some idx' ∧
     reindexed (with_version version idx) idx idx') →
  wp (delete_old s (provider_dir ns name ++ [version]) (provider_filename name version os arch data)
        (previous_filename dec_PlatformMeta zero_PlatformMeta Filename previous);;
      mret (counting ProviderUploads (writeJSON 200 true (Msg text)))) (provider_outcome w zip) w7.
Proof using HN.
  intros Hn H7 Hz Hprev Hm Hsig Hi. destruct good_provider_keys as (Gz & Gm & Gc & Gs & Gi).
  assert (superseded (provider_dir ns name ++ [version]) (provider_filename name version os arch data)
    (previous_filename dec_PlatformMeta zero_PlatformMeta Filename previous) ⊆ old_archives w) as Hsub.
  { unfold old_archives. destruct previous; [by rewrite Hprev|apply list_subseteq_nil]. }
  apply wp_bind. eapply wp_mono.
  { apply wp_delete_old; [apply H7..|]. intros k Hk%Hsub. by apply (old_archives_good w). }
  intros [] w8 [H8 Hd]. apply wp_ret. apply (within_mono _ _ _ _ Hsub) in H8.
  assert (∀ k, k ∈ K → good_key k → value w8 k = value w7 k) as Hkeep.
  { intros k Hk Hg. eapply within_value; [exact H8|done|]. intros Hin.
    by apply (old_archives_good w k Hn Hin). }
  repeat setoid_rewrite elem_of_cons in Hkeep. split.
  - eapply within_trans; eapply within_mono; [|exact H7| |exact H8]; intros k; rewrite elem_of_app; tauto.
  - left. split; [done|]. split; [|rewrite Hkeep; auto]. split_and!.
    + rewrite Hkeep; auto.
    + destruct Hsig as (g & entries & ? & ? & Hv & signature & ? & ?). exists g, entries. split; [done|].
      split; [done|]. split; [rewrite Hkeep; auto 10|]. exists signature. rewrite Hkeep; auto 10.
    + rewrite Hkeep; auto 10.
    + intros Hc k Hk. destruct previous as [d|e].
      * apply Hd; [by eapply within_calm|]. unfold old_archives in Hk. by rewrite Hprev in Hk.
      * exfalso. revert Hk. unfold old_archives. rewrite Hprev by done. apply not_elem_of_nil.
Qed.

(** The metadata could not be written. *)
Lemma wp_provider_meta_failed w w2 w3 (existed : bool) zip resp :
  within K w w2 → value w2 metaK = value w metaK → within [metaK] w2 w3 → value w3 metaK = value w2 metaK →
  value w3 idxK = value w idxK → value w3 sumsK = value w sumsK → value w3 sigK = value w sigK →
  (400 ≤ status resp)%Z →
  (if existed then value w3 zipK = value w zipK else value w zipK = None) →
  wp (delete_unless existed s (slash zipK);; mret resp) (provider_outcome w zip) w3.
Proof using HN.
  intros H2 E2 H3 E3 Ei Ec Es Hst Hz. destruct good_provider_keys as (Gz & Gm & Gc & Gs & Gi).
  destruct provider_neqs as ((N1 & N2 & N3) & (N4 & N5 & N6) & N7 & N8 & N9 & N10).
  apply wp_bind. eapply wp_mono; [apply wp_delete_unless_within; [apply H3..|done]|]. intros [] w4 [H4 V4].
  apply wp_ret. assert (within K w w4) as K4.
  { eapply within_trans; [exact H2|]. eapply within_trans; eapply within_mono; [|exact H3| |exact H4]; in_K. }
  assert (∀ k, k ≠ zipK → good_key k → value w4 k = value w3 k) as Hkeep by (intros; by unaffected H4).
  split; [eapply within_mono; [|exact K4]; intros k; rewrite elem_of_app; tauto|].
  right. split; [done|]. split; [by rewrite Hkeep|]. intros Hcalm. eapply within_unchanged; [exact K4|].
  intros k. rewrite !elem_of_cons, elem_of_nil. intros [->|[->|[->|[->|[->|[]]]]]];
    [|rewrite Hkeep by auto; congruence..].
  rewrite V4 by (eapply calm_env; [apply H3|]; by eapply within_calm). by destruct existed.
Qed.

Lemma within_K k wa wb wc : k ∈ K → within K wa wb → within [k] wb wc → within K wa wc.
Proof using Type.
  intros Hk Hb H. eapply within_trans; [exact Hb|]. eapply within_mono; [|exact H].
  by intros x ->%list_elem_of_singleton.
Qed.

Lemma within_K0 wa wb wc : within K wa wb → within [] wb wc → within K wa wc.
Proof using Type.
  intros Hb H. eapply within_trans; [exact Hb|]. eapply within_mono; [apply list_subseteq_nil|exact H].
Qed.

(** A read before the changes, kept in mind while [k] keeps a value. *)
Lemma read_before_get w wa wb wc k (previous : result error string) :
  within K w wa → value wa k = value w k →
  match previous with Ok d => value wa k = Some d | Err _ => faulted wa wb ∨ value wa k = None end →
  (value wa k ≠ None → value wc k ≠ None) → read_before w k previous wc.
Proof using Type.
  intros Ka E H Hc. unfold read_before. destruct previous as [d|e].
  - rewrite <- E. split; [done|]. apply Hc. by rewrite H.
  - intros Hcalm. rewrite <- E. destruct H as [Hf|?]; [|done]. exfalso.
    eapply calm_not_faulted, Hf. by eapply within_calm.
Qed.

(** The continuation once the metadata is written. *)
Definition publish_provider_rest (meta : result error string) (existed : bool) : M response :=
  previousChecksums ← Get s (slash sumsK);
  previousSignature ← Get s (slash sigK);
  let restorePublication :=
    restore s (slash metaK) meta;;
    restore s (slash sumsK) previousChecksums;;
    restore s (slash sigK) previousSignature;;
    delete_unless existed s (slash zipK) in
  r ← rebuildProviderChecksums s signer ns name version;
  match r with
  | Err _ => restorePublication;; mret (writeJSON 500 false (Msg "Checksum publication failed"))
  | Ok _ =>
      r ← AddProviderVersion s ns name version;
      match r with
      | Err _ => restorePublication;; mret (writeJSON 500 false (Msg "Index update failed"))
      | Ok _ =>
          delete_old s (provider_dir ns name ++ [version]) (provider_filename name version os arch data)
            (previous_filename dec_PlatformMeta zero_PlatformMeta Filename meta);;
          mret (counting ProviderUploads (writeJSON 200 true (Msg
            ("Provider " +:+ ns +:+ "/" +:+ name +:+ "@" +:+ version
             +:+ " (" +:+ os +:+ "/" +:+ arch +:+ ") uploaded"))))
      end
  end.

Lemma wp_publish_provider_rest w w3 meta (existed : bool) zip :
  names_archive w → within K w w3 → value w3 zipK = zip →
  (if existed then value w3 zipK = value w zipK else value w zipK = None) →
  match meta with Ok d => value w metaK = Some d | Err _ => calm w → value w metaK = None end →
  value w3 metaK = Some (print (enc_PlatformMeta (provider_meta name version os arch data))) →
  value w3 idxK = value w idxK → value w3 sumsK = value w sumsK → value w3 sigK = value w sigK →
  wp (publish_provider_rest meta existed) (provider_outcome w zip) w3.
Proof using HN.
  intros Hn K3 Hz Hex Hmeta Em Ei Ec Es. destruct good_provider_keys as (Gz & Gm & Gc & Gs & Gi).
  destruct provider_neqs as ((N1 & N2 & N3) & (N4 & N5 & N6) & N7 & N8 & N9 & N10).
  apply wp_bind. eapply wp_mono; [apply (wp_get_within sumsK); [apply K3..|done]|]. intros sums w4 (H4 & Hsm4 & Hsums).
  assert (within K w w4) as K4 by by eapply within_K0.
  apply wp_bind. eapply wp_mono; [apply (wp_get_within sigK); [apply K4..|done]|]. intros sig w5 (H5 & Hsm5 & Hsig).
  assert (within K w w5) as K5 by by eapply within_K0.
  assert (∀ k, value w5 k = value w3 k) as V5.
  { intros k. rewrite (same_value w4 w5) by done. by apply same_value. }
  cbv zeta. apply wp_bind. eapply wp_mono; [apply wp_rebuildProviderChecksums; [done..|apply K5|apply K5]|].
  intros r w6 (H6 & Hc6 & Hs6 & Hok6).
  assert (within K w w6) as K6 by (eapply within_trans; [exact K5|eapply within_mono; [|exact H6]; in_K]).
  assert (∀ wc, value wc metaK = value w5 metaK → (value w5 sumsK ≠ None → value wc sumsK ≠ None) →
    (value w5 sigK ≠ None → value wc sigK ≠ None) →
    read_before w metaK meta wc ∧ read_before w sumsK sums wc ∧ read_before w sigK sig wc) as Hread.
  { intros wc Hm Hc Hs. split_and!.
    - unfold read_before. destruct meta; [|done]. split; [done|]. by rewrite Hm, V5, Em.
    - eapply (read_before_get w w3 w4); [done..|]. by rewrite <- V5.
    - apply (read_before_get w w4 w5); [done| |done|].
      + by rewrite (same_value w3 w4).
      + by rewrite <- (same_value w4 w5). }
  assert (value w6 zipK = value w3 zipK ∧ value w6 metaK = value w5 metaK ∧ value w6 idxK = value w idxK) as (Ez6 & Em6 & Ei6).
  { split_and!; unaffected H6; by rewrite ?V5. }
  destruct r as [[]|e].
  2:{ destruct (Hread w6) as (R1 & R2 & R3); [done..|]. apply wp_undo_provider; [done..|]. by destruct existed; congruence. }
  apply wp_bind. eapply wp_mono.
  { apply (wp_addVersionToIndex idxK); [apply K6..|done|]. apply file_chars_utf8, file_chars, version_file, HN. }
  intros r w7 (He7 & Hu7 & Hok7 & [Hk7 H]). pose proof (within_kept idxK w6 w7 He7 Hu7 Hok7 Hk7) as H7.
  assert (within K w w7) as K7 by (eapply (within_K idxK); [do 4 right; left|done..]).
  assert (value w7 zipK = value w6 zipK ∧ value w7 metaK = value w6 metaK ∧ value w7 sumsK = value w6 sumsK ∧
          value w7 sigK = value w6 sigK) as (Ez7 & Em7 & Ec7 & Es7) by (split_and!; by unaffected H7).
  destruct r as [[]|e].
  - apply wp_provider_done; [done..|congruence|done|congruence| |].
    + destruct Hok6 as (g & en & ? & ? & Hv & sg & ? & ?); [done|]. exists g, en. split; [done|]. split; [done|].
      split; [congruence|]. exists sg. split; [done|congruence].
    + destruct H as (idx & idx' & E & E' & Hr). exists idx, idx'. split_and!; [congruence|done..].
  - destruct H as [E7 _]. destruct (Hread w7) as (R1 & R2 & R3); [congruence|by rewrite Ec7|by rewrite Es7|].
    apply wp_undo_provider; [done..|congruence|done|done|done|]. by destruct existed; congruence.
Qed.

Lemma wp_publish_provider w w1 (existed : bool) :
  names_archive w → within [zipK] w w1 →
  (if existed then value w1 zipK = value w zipK else value w zipK = None) →
  wp (publish_provider s signer ns name version os arch data (slash zipK) existed)
     (provider_outcome w (value w1 zipK)) w1.
Proof using HN.
  intros Hn H1 Hex. destruct good_provider_keys as (Gz & Gm & Gc & Gs & Gi).
  destruct provider_neqs as ((N1 & N2 & N3) & (N4 & N5 & N6) & N7 & N8 & N9 & N10).
  assert (within K w w1) as K1 by (eapply within_mono; [|exact H1]; in_K).
  assert (∀ k, k ≠ zipK → good_key k → value w1 k = value w k) as V1 by (intros; by unaffected H1).
  unfold publish_provider. apply wp_bind. eapply wp_mono; [apply (wp_get_within metaK); [apply H1..|done]|].
  intros meta w2 (H2 & Hsm2 & Hmeta). assert (within K w w2) as K2 by by eapply within_K0.
  assert (∀ k, value w2 k = value w1 k) as V2 by (intros; by apply same_value).
  apply wp_bind. eapply wp_mono; [apply (wp_put_within metaK); [apply H2..|done]|].
  intros r w3 [H3 Hm3].
  assert (∀ k, k ≠ metaK → good_key k → value w3 k = value w1 k) as V3.
  { intros. unaffected H3. apply V2. }
  assert (if existed then value w3 zipK = value w zipK else value w zipK = None) as Hex3.
  { destruct existed; [|done]. by rewrite V3. }
  destruct r as [[]|e].
  - apply wp_publish_provider_rest; [done| |by rewrite V3|done| |done| | |];
      [by eapply (within_K metaK); [right; left|..]| |by rewrite V3, V1 by auto..].
    rewrite V1 in Hmeta by auto. destruct meta; [done|]. intros Hc. destruct Hmeta as [Hf|?]; [|done].
    exfalso. eapply calm_not_faulted, Hf. by eapply within_calm.
  - destruct Hm3 as [Hm3 _]. apply (wp_provider_meta_failed w w2); try done; try by rewrite V3, V1 by auto.
    by rewrite V2, V1 by auto.
Qed.

End publication.

(** ** The handler *)

(** The request carries a valid provider archive within the size limit. *)
Definition provider_accepted zip_NewReader (maxUploadSize : Z) (name : string) (up : upload) : Prop :=
  ∃ file, multipartUploadPart up = Ok file ∧ 4 ≤ slen (peeked file) ∧
    ValidateUpload (peeked file) "zip" = Ok () ∧
    acceptable file maxUploadSize (Some (provider_validate zip_NewReader maxUploadSize name)).

Section handler.
Context {s : Store} {ok value dir} {KV : KeyValue s ok value dir}.
Context (ns name version os arch : string) (HN : provider_names ns name version os arch).
Context (zip_NewReader : string → Z → result error (list zip_file)) (signer : option RegistrySigner).
Context (maxUploadSize : Z) (up : upload) (HM : (0 ≤ maxUploadSize < 2^63 - 1)%Z).
#[local] Abbreviation data := (upload_data up).
#[local] Abbreviation zipK := (provider_key ns name version (provider_filename name version os arch data)).

(** A reply 200 for an accepted request whose parts are published, or another
    reply with the index as it was, and everything when no call failed. *)
Definition provider_upload_outcome (w : world) (resp : response) (w' : world) : Prop :=
  within (KV := KV) ([zipK; provider_key ns name version (platform_file os arch);
      provider_key ns name version (sums_file name version);
      provider_key ns name version (signature_file name version); provider_index ns name]
    ++ old_archives (value := value) ns name version os arch data w) w w' ∧
  ((status resp = 200%Z ∧ provider_accepted zip_NewReader maxUploadSize name up ∧
    provider_published (value := value) ns name version os arch signer data w w' ∧
    (¬ dir w zipK → (∀ d, value w zipK = Some d → d = data) → value w' zipK = Some data)) ∨
   ((400 ≤ status resp)%Z ∧ value w' (provider_index ns name) = value w (provider_index ns name) ∧
    (calm w → ∀ l, good_key l → value w' l = value w l))).

Lemma provider_refused w resp : ok w → unlocked w → (400 ≤ status resp)%Z → provider_upload_outcome w resp w.
Proof using Type. intros. split; [by apply within_refl|]. by right. Qed.

Definition provider_upload_body : M response :=
  match multipartUploadPart up with
  | Err e => mret (writeUploadError e)
  | Ok file =>
      if slen (peeked file) <? 4 then mret (writeJSON 400 false (Msg "File too small"))
      else match ValidateUpload (peeked file) "zip" with
      | Err e => mret (writeJSON 400 false (MsgErr "" e))
      | Ok _ =>
          r ← PutStreamImmutable s file maxUploadSize (Some (provider_validate zip_NewReader maxUploadSize name))
                (λ data, slash ["providers"; ns; name; version; provider_filename name version os arch data]);
          match r with
          | Err e => mret (write_store_error e)
          | Ok st => publish_provider s signer ns name version os arch (r_data file) (st_key st) (st_existed st)
          end
      end
  end.

Lemma wp_provider_upload_body w :
  ok w → unlocked w → names_archive (value := value) ns name version os arch w →
  wp provider_upload_body (provider_upload_outcome w) w.
Proof using HN HM.
  intros Hok Hu Hn. unfold provider_upload_body.
  destruct (multipartUploadPart up) as [file|e] eqn:Eup.
  2:{ apply wp_ret, provider_refused; [done..|apply writeUploadError_status]. }
  destruct (slen (peeked file) <? 4) eqn:E4; to_props; [by apply wp_ret, provider_refused|].
  destruct (ValidateUpload _ _) as [[]|e] eqn:EV; [|by apply wp_ret, provider_refused].
  assert (data = r_data file) as Ed by (unfold upload_data; by rewrite Eup).
  destruct (good_provider_keys ns name version os arch HN data) as (Gz & _ & _ & _ & Gi).
  destruct (provider_neqs ns name version os arch HN data) as (_ & _ & N & _).
  apply wp_bind. eapply wp_mono.
  { apply (kv_publish file maxUploadSize (Some (provider_validate zip_NewReader maxUploadSize name))
      (λ d, provider_key ns name version (provider_filename name version os arch d))); [done..| |done]. by rewrite <- Ed. }
  rewrite <- Ed. intros [st|e] w1 (He & Hu1 & Hok1 & [Hk H]);
    pose proof (within_kept zipK w w1 He Hu1 Hok1 Hk) as H1.
  - destruct H as (Hacc & _ & -> & Hex). eapply wp_mono.
    { apply (wp_publish_provider ns name version os arch HN signer data w w1); [done..|].
      destruct (st_existed st); apply Hex. }
    intros resp w' [Hw' [(Hs & Hpub & Hz)|Hbad]]; (split; [done|]); [left|by right].
    split; [done|]. split; [by exists file|]. split; [done|]. intros Hd Hv. rewrite Hz. rewrite <- Ed in Hex.
    destruct (st_existed st); [|apply Hex]. destruct Hex as [-> [Hne|?]]; [|done].
    destruct (value w zipK) eqn:E; [|done]. f_equal. by apply Hv.
  - apply wp_ret. split; [eapply within_mono; [|exact H1]; intros k ->%list_elem_of_singleton; left|].
    right. split; [apply write_store_error_status|]. split.
    + eapply within_value; [exact H1|done|]. by rewrite list_elem_of_singleton.
    + intros _. eapply within_unchanged; [exact H1|]. intros k ->%list_elem_of_singleton. apply H.
Qed.

End handler.

(** ** The properties *)

Section properties.
Context (zip_NewReader : string → Z → result error (list zip_file)) (s : Store) (signer : option RegistrySigner).
Context (maxUploadSize : Z).

(** The route variables of an upload ([name]) or of a download ([type]). *)
Record provider_route (name_var : string) (vars : Vars) (ns name version os arch : string) : Prop := {
  pr_ns : var vars "namespace" = ns;
  pr_name : var vars name_var = name;
  pr_version : var vars "version" = version;
  pr_os : var vars "os" = os;
  pr_arch : var vars "arch" = arch
}.

(** What the theorems about provider uploads assume of the server's state, its
    configuration and the request's route. *)
Record provider_upload_ready (vars : Vars) (ns name version os arch : string) (w : world) : Prop := {
  pu_serving : serving s w;
  pu_free : free w;
  pu_limit : (0 ≤ maxUploadSize < 2^63 - 1)%Z;
  pu_route : provider_route "name" vars ns name version os arch;
  pu_names : provider_names ns name version os arch;
  pu_stored : names_archive (value := value s) ns name version os arch w
}.

Lemma wp_uploadProviderHandler vars ns name version os arch up w :
  provider_upload_ready vars ns name version os arch w →
  wp (uploadProviderHandler zip_NewReader s signer maxUploadSize vars up) (λ resp w', free w' ∧ env w w' ∧
    serving s w' ∧
    provider_upload_outcome (KV := file_store s) ns name version os arch zip_NewReader signer maxUploadSize up w resp w') w.
Proof using Type.
  intros [[Hrd Hul] Hf Hm [E1 E2 E3 E4 E5] HN Hst].
  apply (wp_with_mutation _ (λ resp w', serving s w' ∧
    provider_upload_outcome (KV := file_store s) ns name version os arch zip_NewReader signer maxUploadSize up w resp w'));
    [done|].
  rewrite E1, E2, E3, E4, E5. eapply wp_mono.
  { apply (wp_provider_upload_body (KV := file_store s) ns name version os arch HN
      zip_NewReader signer maxUploadSize up Hm (set_mutation true w)); done. }
  intros resp w' [[He Hu Hok Ho] H]. split; [done|]. split; [done|]. split; [|exact H].
  split; [|done|done|exact Ho]. destruct He as [L Em En Er Ef].
  by split; [exact L|rewrite Hf|..].
Qed.

End properties.

(** C3. An upload of a provider always replies, leaves a usable store and the
    mutation mutex free, whatever system calls fail.  When it replies 200, the
    request carried an archive that passes validation, and the store holds
    together: the archive's bytes under the name made of its SHA-256 (unless
    something else already was under that name), the metadata that names it, a
    checksum document with a signature of exactly that document by the
    registry's key, and an index that lists the version besides those it
    listed.  When it replies anything else the index is as it was, whatever
    happened; and when no system call failed nothing at all has changed.  No
    other key changes, except that the archive the previous metadata named is
    deleted. *)
Theorem uploadProvider_publishes zip_NewReader s signer maxUploadSize vars ns name version os arch up w :
  provider_upload_ready s maxUploadSize vars ns name version os arch w →
  let data := upload_data up in
  let key := provider_key ns name version in
  let zipK := key (provider_filename name version os arch data) in
  let metaK := key (platform_file os arch) in
  let sumsK := key (sums_file name version) in
  let sigK := key (signature_file name version) in
  let idxK := provider_index ns name in
  ∃ resp w', uploadProviderHandler zip_NewReader s signer maxUploadSize vars up w = Some (resp, w') ∧
    serving s w' ∧ free w' ∧
    (∀ l, good_key l → l ∉ [zipK; metaK; sumsK; sigK; idxK] →
       (∀ f, named_archive (value s w metaK) = Some f → l ≠ key f) → value s w' l = value s w l) ∧
    (status resp = 200%Z →
       provider_accepted zip_NewReader maxUploadSize name up ∧
       value s w' metaK = Some (print (enc_PlatformMeta (mkPlatformMeta os arch
         (provider_filename name version os arch data) (sha256_hex data) (Some ["5.0"])))) ∧
       (∃ g entries signature, signer = Some g ∧ entries ≠ [] ∧ value s w' sumsK = Some (checksums_document entries) ∧
          Sign g (checksums_document entries) = Ok signature ∧ value s w' sigK = Some signature) ∧
       (∃ idx idx', index_at (value s w idxK) = Some idx ∧ index_at (value s w' idxK) = Some idx' ∧
          reindexed (with_version version idx) idx idx') ∧
       (¬ dir s w zipK → (∀ d, value s w zipK = Some d → d = data) → value s w' zipK = Some data)) ∧
    (status resp ≠ 200%Z →
       value s w' idxK = value s w idxK ∧ (calm w → ∀ l, good_key l → value s w' l = value s w l)).
Proof.
  intros Hr data key zipK metaK sumsK sigK idxK.
  destruct (wp_total _ _ _ (wp_uploadProviderHandler zip_NewReader s signer maxUploadSize vars ns name version os arch up w Hr))
    as (resp & w' & E & Hf & _ & Hs & [_ _ _ [Ho _]] & H).
  exists resp, w'. do 3 (split; [done|]). split; [|split].
  - intros l Hl Hn Hold. apply Ho; [done|]. rewrite elem_of_app. intros [Hin|Hin]; [by apply Hn|].
    apply elem_of_superseded in Hin as (f & Ef & _ & _ & ->). by apply (Hold f).
  - intros Hst. destruct H as [(_ & Hacc & (Hm & Hsig & Hi & _) & Hz)|(? & _)]; [|lia].
    do 2 (split; [done|]). split; [|done]. destruct Hsig as (g & entries & ? & ? & ? & sg & ? & ?).
    by exists g, entries, sg.
  - intros Hst. by destruct H as [(? & _)|(_ & H)].
Qed.

Lemma dec_published_meta name version os arch data :
  provider_names "x" name version os arch →
  Unmarshal dec_PlatformMeta (print (enc_PlatformMeta (provider_meta name version os arch data))) zero_PlatformMeta =
  (provider_meta name version os arch data, true).
Proof.
  intros HN. rewrite Unmarshal_print.
  - by rewrite dec_enc_PlatformMeta.
  - apply textual_PlatformMeta. split; cbn [OS Arch Filename Shasum Protocols provider_meta default].
    + apply file_chars_utf8, file_chars_name, HN.
    + apply file_chars_utf8, file_chars_name, HN.
    + eapply file_chars_utf8, file_chars, provider_file_named, HN.
    + apply file_chars_utf8, sha_file.
    + by repeat constructor.
Qed.

Section download.
Context {s : Store} {ok value dir} {KV : KeyValue s ok value dir}.
Context (ns name version os arch : string) (HN : provider_names ns name version os arch).

Lemma wp_find_download g signer data w : signer = Some g →
  calm w → ok w →
  let key := provider_key ns name version in
  let zipK := key (provider_filename name version os arch data) in
  value w (key (platform_file os arch)) = Some (print (enc_PlatformMeta (provider_meta name version os arch data))) →
  value w zipK ≠ None → value w (key (sums_file name version)) ≠ None → value w (key (signature_file name version)) ≠ None →
  wp (find_download s signer ns name version os arch) (λ r w', same w w' ∧
    r = inr (mkDownload os arch (provider_filename name version os arch data) (DownloadURL s (slash zipK))
               (DownloadURL s (slash (key (sums_file name version))))
               (DownloadURL s (slash (key (signature_file name version)))) (sha256_hex data), g)) w.
Proof using HN KV.
  intros -> Hc Hok key zipK Hm Hz Hs Hg.
  destruct (good_provider_keys ns name version os arch HN data) as (Gz & Gm & Gc & Gs & _).
  assert (∀ w1, same w w1 → calm w1) as Hcalm by (intros w1 [He _]; by eapply calm_env).
  assert (∀ w1, same w w1 → ok w1) as Hok' by (intros w1 Hsm; by eapply same_ok).
  assert (∀ k w1 (Q : bool → world → Prop), good_key k → value w k ≠ None → same w w1 →
    (∀ w2, same w w2 → Q true w2) → wp (Exists s (slash k)) Q w1) as Hexists.
  { intros k w1 Q Gk Hk Hsm HQ. eapply wp_mono; [apply wp_exists_calm; auto|]. intros b w2 [Hsm2 Hb].
    assert (b = true) as ->; [|apply HQ; by transitivity w1]. apply Hb. left. by rewrite (same_value w w1). }
  unfold find_download. apply wp_bind.
  eapply wp_mono; [apply (wp_get_calm (key (platform_file os arch))); done|].
  intros r w1 [Hsm Hr]. rewrite Hm in Hr. subst r.
  rewrite dec_published_meta by by destruct HN. cbn [negb Filename provider_meta].
  apply wp_bind. apply (Hexists zipK); [done..|]. intros w2 H2. cbn [negb providerChecksumsNames].
  apply wp_bind. apply (Hexists (key (sums_file name version))); [done..|]. intros w3 H3. cbn [negb].
  apply wp_bind. apply (Hexists (key (signature_file name version))); [done..|]. intros w4 H4. by apply wp_ret.
Qed.

End download.

Section public_keys.
Context (ns name version os arch : string) (HN : provider_names ns name version os arch).

Lemma published_provider_path data :
  PublishedPath (provider_key ns name version (provider_filename name version os arch data)).
Proof using HN.
  destruct HN. apply (published_provider ns name version os arch ("_" +:+ sha256_hex data)); [done..|apply sha_digest].
Qed.

Lemma sums_file_shape : sums_file name version = checksum_file name version "".
Proof using Type. unfold sums_file, checksum_file, providerChecksumsNames. cbn [fst]. by rewrite sapp_nil_r. Qed.

Lemma signature_file_shape : signature_file name version = checksum_file name version ".sig".
Proof using Type.
  unfold signature_file, checksum_file, providerChecksumsNames. cbn [snd]. by rewrite !sapp_assoc.
Qed.

Lemma published_sums_path : PublishedPath (provider_key ns name version (sums_file name version)).
Proof using HN.
  destruct HN. rewrite sums_file_shape. apply (published_checksums ns name version ""); [done..|by left].
Qed.

Lemma published_signature_path : PublishedPath (provider_key ns name version (signature_file name version)).
Proof using HN.
  destruct HN. rewrite signature_file_shape. apply (published_checksums ns name version ".sig"); [done..|by right].
Qed.

End public_keys.

(** [/download/<key>] from [w] replies with the bytes [d]. *)
Definition serves (s : Store) (w : world) (l : list string) (d : string) : Prop :=
  ∃ r w' t, fileDownloadHandler s (path_vars l) w = Some (r, w') ∧ status r = 200%Z ∧ content r = BFile d t.

Lemma serves_published s w l d : calm w → ready s w → good_key l → PublishedPath l → value s w l = Some d →
  serves s w l d.
Proof.
  intros Hc Hs Hg Hp Hv. destruct (wp_total _ _ _ (wp_fileDownload s l d w Hc Hs Hg Hp Hv))
    as (r & w' & E & _ & Hst & t & Ht). by exists r, w', t.
Qed.

(** C16. Publishing a provider is a round trip: when no system call fails and
    the name of the archive is free (or holds the same bytes already), a reply
    200 to an upload means that the download endpoint then describes exactly
    that archive: its SHA-256 and the URLs of the archive, of the checksum
    document and of its signature; those URLs serve the uploaded bytes, a
    document, and the registry's signature of that document. *)
Theorem uploaded_provider_downloads zip_NewReader s signer maxUploadSize vars vars' ns name version os arch up w :
  provider_upload_ready s maxUploadSize vars ns name version os arch w →
  provider_route "type" vars' ns name version os arch →
  let data := upload_data up in
  let key := provider_key ns name version in
  let zipK := key (provider_filename name version os arch data) in
  calm w → ¬ dir s w zipK → (∀ d, value s w zipK = Some d → d = data) →
  ∃ resp w1, uploadProviderHandler zip_NewReader s signer maxUploadSize vars up w = Some (resp, w1) ∧
  (status resp = 200%Z →
   ∃ g sums signature r2 w2, signer = Some g ∧ Sign g sums = Ok signature ∧
     providerDownloadHandler s signer vars' w1 = Some (r2, w2) ∧ status r2 = 200%Z ∧
     content r2 = BJson (enc_ProviderDownloadResponse (mkDownload os arch (provider_filename name version os arch data)
       (DownloadURL s (slash zipK)) (DownloadURL s (slash (key (sums_file name version))))
       (DownloadURL s (slash (key (signature_file name version)))) (sha256_hex data)) g) ∧
     serves s w2 zipK data ∧ serves s w2 (key (sums_file name version)) sums ∧
     serves s w2 (key (signature_file name version)) signature).
Proof.
  intros Hr [F1 F2 F3 F4 F5] data key zipK Hc Hd Hz.
  destruct (wp_total _ _ _ (wp_uploadProviderHandler zip_NewReader s signer maxUploadSize vars ns name version os arch up w Hr))
    as (resp & w1 & E & _ & He & [Hrd _] & _ & H).
  exists resp, w1. split; [done|]. intros Hst. destruct H as [(_ & _ & (Hm & Hsig & _) & Hv)|(? & _)]; [|lia].
  assert (value s w1 zipK = Some data) as Hz1 by exact (Hv Hd Hz). clear Hv. destruct Hsig as (g & entries & Eg & _ & Vc & signature & Es & Vs).
  destruct Hr as [_ _ _ _ HN _]. assert (calm w1) as Hc1 by (by eapply calm_env).
  destruct (good_provider_keys ns name version os arch HN data) as (Gz & _ & Gc & Gs & _).
  assert (wp (providerDownloadHandler s signer vars') (λ r2 w2, same w1 w2 ∧ status r2 = 200%Z ∧
    content r2 = BJson (enc_ProviderDownloadResponse (mkDownload os arch (provider_filename name version os arch data)
       (DownloadURL s (slash zipK)) (DownloadURL s (slash (key (sums_file name version))))
       (DownloadURL s (slash (key (signature_file name version)))) (sha256_hex data)) g)) w1) as H2.
  { unfold providerDownloadHandler. apply wp_bind, wp_bind. rewrite F1, F2, F3, F4, F5.
    eapply wp_mono; [apply (wp_find_download (KV := file_store s) ns name version os arch HN g signer data); try done|].
    - change (value s w1 zipK ≠ None). by rewrite Hz1.
    - by rewrite Vc.
    - by rewrite Vs.
    - intros r w2 [Hsm ->]. by do 2 apply wp_ret. }
  apply wp_total in H2 as (r2 & w2 & Er2 & Hsm & Hs2 & Hb2).
  exists g, (checksums_document entries), signature, r2, w2. do 5 (split; [done|]).
  assert (calm w2) by (eapply calm_env; [apply Hsm|done]).
  assert (ready s w2) by (by eapply (same_ok (KV := file_store s))).
  split_and!; (apply serves_published; [done..| |by rewrite (same_value (KV := file_store s) w1)]).
  - by eapply published_provider_path.
  - by eapply published_sums_path.
  - by eapply published_signature_path.
Qed.

(** ** A concrete upload *)

Definition null_entries : list (path * node) := [
  ([], NDir); (["srv"], NDir); (["srv"; "providers"], NDir)].
Definition null_world (faults : list (option nat)) : world :=
  World (list_to_map null_entries) faults (λ _, 7%N) 0 (10 ^ 18) ∅ false.

Definition null_vars (name_var : string) : Vars :=
  {["namespace" := "acme"; name_var := "null"; "version" := "1.0.0"; "os" := "linux"; "arch" := "amd64"]}.
Definition null_archive : string := "PK" +:+ String "003" (String "004" "zip").
Definition null_upload : upload := Part "file" "null.zip" (Reader null_archive None).
(** One regular file, the provider's binary, behind the magic bytes. *)
Definition null_reader (data : string) (size : Z) : result error (list zip_file) :=
  if HasPrefix data "PK" then
    Ok [mkZipFile "terraform-provider-null_v1.0.0" 493 3 (Ok (mkDrained 3 None None))]
  else Err (EText "zip: not a valid zip file").
(** A toy signature scheme. *)
Definition null_signer : RegistrySigner := mkSigner "ABCD" "ARMOR" (λ data, Ok ("signed:" +:+ data)).

Lemma null_ready faults :
  provider_upload_ready srv 1000 (null_vars "name") "acme" "null" "1.0.0" "linux" "amd64" (null_world faults).
Proof.
  split; [|done|lia|by split|by split|].
  - split; [apply (store_fs_checked ["srv"] null_entries); vm_compute; reflexivity|].
    intros k. simpl. by rewrite lookup_empty.
  - intros f Hf. exfalso. revert Hf.
    assert (value srv (null_world faults) (provider_key "acme" "null" "1.0.0" (platform_file "linux" "amd64")) = None)
      as ->; [|done]. vm_compute. reflexivity.
Qed.

(** The upload succeeds; without a signer it is undone. *)
Example null_runs :
  run_status (uploadProviderHandler null_reader srv (Some null_signer) 1000 (null_vars "name") null_upload (null_world []))
    = Some 200%Z ∧
  run_status (uploadProviderHandler null_reader srv None 1000 (null_vars "name") null_upload (null_world []))
    = Some 500%Z.
Proof. vm_compute. done. Qed.

Lemma uploadProvider_publishes_witness :
  ∃ resp w', uploadProviderHandler null_reader srv (Some null_signer) 1000 (null_vars "name") null_upload
      (null_world []) = Some (resp, w') ∧ status resp = 200%Z ∧ serving srv w' ∧ free w' ∧
    ∃ entries, entries ≠ [] ∧
      value srv w' (provider_key "acme" "null" "1.0.0" (sums_file "null" "1.0.0")) = Some (checksums_document entries) ∧
      value srv w' (provider_key "acme" "null" "1.0.0" (signature_file "null" "1.0.0")) =
        Some ("signed:" +:+ checksums_document entries).
Proof.
  destruct (uploadProvider_publishes null_reader srv (Some null_signer) 1000 (null_vars "name")
    "acme" "null" "1.0.0" "linux" "amd64" null_upload (null_world []) (null_ready [])) as (resp & w' & E & Hs & Hf & _ & H & _).
  assert (status resp = 200%Z) as Hst.
  { pose proof (proj1 null_runs) as R. rewrite E in R. by injection R. }
  exists resp, w'. destruct (H Hst) as (_ & _ & (g & entries & sg & [= <-] & Hne & Hc & [= <-] & Hg) & _).
  split; [exact E|]. split; [exact Hst|]. split; [exact Hs|]. split; [exact Hf|].
  exists entries. split; [exact Hne|]. split; [exact Hc|exact Hg].
Defined.

Lemma uploaded_provider_downloads_witness :
  let zipK := provider_key "acme" "null" "1.0.0" (provider_filename "null" "1.0.0" "linux" "amd64" null_archive) in
  ∃ resp w1, uploadProviderHandler null_reader srv (Some null_signer) 1000 (null_vars "name") null_upload
      (null_world []) = Some (resp, w1) ∧ status resp = 200%Z ∧
    ∃ r2 w2, providerDownloadHandler srv (Some null_signer) (null_vars "type") w1 = Some (r2, w2) ∧
      status r2 = 200%Z ∧ serves srv w2 zipK null_archive.
Proof.
  intros zipK.
  destruct (uploaded_provider_downloads null_reader srv (Some null_signer) 1000 (null_vars "name") (null_vars "type")
    "acme" "null" "1.0.0" "linux" "amd64" null_upload (null_world []) (null_ready [])) as (resp & w1 & E & H).
  - by split.
  - done.
  - intros Hd. eapply unbarred_checked; [|right; exact Hd]. vm_compute. reflexivity.
  - assert (value srv (null_world []) (provider_key "acme" "null" "1.0.0"
      (provider_filename "null" "1.0.0" "linux" "amd64" (upload_data null_upload))) = None) as -> by (vm_compute; reflexivity).
    done.
  - assert (status resp = 200%Z) as Hst.
    { pose proof (proj1 null_runs) as R. rewrite E in R. by injection R. }
    destruct (H Hst) as (g & sums & sg & r2 & w2 & _ & _ & E2 & H2 & _ & Hz & _).
    exists resp, w1. split; [exact E|]. split; [exact Hst|]. exists r2, w2. split; [exact E2|].
    split; [exact H2|exact Hz].
Defined.
