(* ===== verification/Checksums.v ===== *)
(** * What the checksum document lists

    In a version directory that only holds what uploads put there, and without
    failed system calls, [rebuildProviderChecksums] lists exactly the published
    artifacts. *)

From S2P Require Import Prelude GoString SemVer GoPath Regex Validation Sha256 Os OsFacts Json JsonFacts Utf8Facts.
From S2P Require Import Decode DecodeFacts Store StoreFacts KeyValue Confine StoreSpec Index IndexFacts.
From S2P Require Import Archive Signing Http Api Protocol ReadFacts NameFacts Transactions ProviderUpload.

Lemma slash_inj k l : good_key k → good_key l → slash k = slash l → k = l.
Proof.
  intros [Hk Gk] [Hl Gl] E. apply (f_equal (λ x, Split x "/")) in E. unfold slash in E.
  by rewrite !Split_Join in E by (done || by apply good_slash).
Qed.

(** The platforms whose key is new. *)
Definition platform_id (pm : PlatformMeta) : string := OS pm +:+ "/" +:+ Arch pm.

Fixpoint first_platforms (seen : list string) (l : list PlatformMeta) : list PlatformMeta :=
  match l with
  | [] => []
  | pm :: l => if bool_decide (platform_id pm ∈ seen) then first_platforms seen l
               else pm :: first_platforms (platform_id pm :: seen) l
  end.

Lemma first_platforms_all l : ∀ seen, NoDup (map platform_id l) → (∀ pm, pm ∈ l → platform_id pm ∉ seen) →
  first_platforms seen l = l.
Proof.
  induction l as [|pm l IH]; intros seen Hnd Hs; [done|]. simpl in *. apply NoDup_cons in Hnd as [Hn Hnd].
  rewrite bool_decide_eq_false_2 by (apply Hs; left). f_equal. apply IH; [done|]. intros pm' Hin.
  rewrite not_elem_of_cons. split; [|apply Hs; by right]. intros E. apply Hn, list_elem_of_fmap. by exists pm'.
Qed.

Section listing.
Context (s : Store) (dirK : list string) (Hg : good_key dirK).
#[local] Abbreviation base := (basePath s).

(** The files below the directory, in the order of the walk. *)
Definition files (w : world) : list (list string) :=
  map (λ qn, drop (length (base ++ dirK)) qn.1)
      (List.filter (λ qn, negb (is_dir qn.2)) (tree (w_fs w) (base ++ dirK))).

Definition objects (w : world) : list string := map (λ x, slash (dirK ++ x)) (files w).

Lemma in_tree_files (w : world) (qn : path * node) : ready s w →
  In qn (List.filter (λ qn, negb (is_dir qn.2)) (tree (w_fs w) (base ++ dirK))) ↔
  ∃ x, qn.1 = (base ++ dirK) ++ x ∧ value s w (dirK ++ x) ≠ None ∧ w_fs w !! qn.1 = Some qn.2.
Proof using Type.
  intros Hs. destruct qn as [q n]. rewrite filter_In. cbn [fst snd]. split.
  - intros [Hin Hn]. apply list_elem_of_In, elem_of_tree in Hin as [[x ->] Hq]. exists x.
    split; [done|]. split; [|done]. rewrite <- app_assoc in Hq. unfold value, file. rewrite Hq.
    destruct n; [done..|]. by destruct (cf_nolink _ (sf_clean _ _ Hs) _ _ _ _ Hq).
  - intros (x & -> & Hv & Hq). split; [apply list_elem_of_In, elem_of_tree; split; [by exists x|done]|].
    rewrite <- app_assoc in Hq. unfold value, file in Hv. rewrite Hq in Hv. by destruct n.
Qed.

Lemma elem_of_files w x : ready s w → x ∈ files w ↔ value s w (dirK ++ x) ≠ None.
Proof using Type.
  intros Hs. unfold files. rewrite list_elem_of_fmap. split.
  - intros (qn & -> & Hin). apply list_elem_of_In, in_tree_files in Hin as (x & -> & Hv & _); [|done].
    by rewrite drop_app_length.
  - intros Hv. destruct (w_fs w !! (base ++ dirK ++ x)) as [n|] eqn:E;
      [|exfalso; apply Hv; unfold value, file; by rewrite E].
    exists ((base ++ dirK) ++ x, n). cbn [fst]. rewrite drop_app_length. split; [done|].
    apply list_elem_of_In, in_tree_files; [done|]. exists x. cbn [fst snd]. rewrite <- app_assoc. by split_and!.
Qed.

Lemma files_NoDup w : NoDup (files w).
Proof using Type.
  unfold files. rewrite <- (map_map fst (drop (length (base ++ dirK)))).
  apply NoDup_fmap_2_strong; [|apply NoDup_filter_fst, tree_NoDup].
  assert (∀ q, q ∈ map fst (List.filter (λ qn : path * node, negb (is_dir qn.2)) (tree (w_fs w) (base ++ dirK))) →
    ∃ x, q = (base ++ dirK) ++ x) as Hq.
  { intros q ([q' n] & -> & Hin)%list_elem_of_fmap. apply list_elem_of_In, filter_In in Hin as [Hin _].
    apply list_elem_of_In, elem_of_tree in Hin as [[x ->] _]. by exists x. }
  intros q r [x ->]%Hq [y ->]%Hq. rewrite !drop_app_length. congruence.
Qed.

(** Listing the directory recursively. *)
Lemma wp_list_objects w : ready s w → dir s w dirK →
  wp (List_ s (slash (dirK ++ [""])) "") (λ r w', same w w' ∧
    (faulted w w' ∨ r = Ok (objects w, []))) w.
Proof using Hg.
  intros Hs Hd. apply wp_try. eapply wp_mono; [apply (wp_resolve_key _ _ dirK); [done..|by apply slash_end_names]|].
  intros [q|e] w1 [Hsm H1].
  2:{ split; [done|]. destruct H1 as [_ [?|Hw]]; [by left|]. exfalso. apply Hw, way_parent, way_dir; [apply Hs|done]. }
  subst q. destruct (Hsm) as [He Hf]. cbn [String.eqb negb]. apply wp_bind. eapply wp_mono.
  { apply (wp_walk _ w1 NDir); [rewrite Hf; apply Hs|by rewrite Hf]. }
  intros [visited werr] w2 [Hsm2 H2]. simpl in H2.
  assert (same w w2) as Hsm12 by (by transitivity w1).
  destruct H2 as [[-> ->]|(e & -> & Hft & j & _)].
  - apply wp_ret. split; [done|]. right. unfold objects, files. rewrite Hf, map_map. do 2 f_equal.
    apply map_ext_in. intros qn (x & -> & _)%in_tree_files; [|done].
    by rewrite drop_app_length, <- app_assoc, Rel_app.
  - assert (faulted w w2) by (by eapply faulted_r).
    destruct (os_IsNotExist e); apply wp_ret; (split; [done|by left]).
Qed.

(** ** Platform documents *)

(** The platform document in a file. *)
Definition document (w : world) (x : list string) : option PlatformMeta :=
  if is_platform_object (slash (dirK ++ x)) then
    value s w (dirK ++ x) ≫= λ data,
      let '(pm, ok) := Unmarshal dec_PlatformMeta data zero_PlatformMeta in if ok : bool then Some pm else None
  else None.

Lemma wp_collect_platforms w xs : ∀ seen w1, ready s w → calm w → same w w1 →
  (∀ x, x ∈ xs → good_key (dirK ++ x)) →
  wp (collect_platforms s seen (map (λ x, slash (dirK ++ x)) xs))
     (λ l w', same w w' ∧ l = first_platforms seen (omap (document w) xs)) w1.
Proof using Type.
  induction xs as [|x xs IH]; intros seen w1 Hs Hc Hsm Hx; cbn [map collect_platforms omap list_omap]; [by apply wp_ret|].
  assert (∀ y, y ∈ xs → good_key (dirK ++ y)) as Hx' by (intros; apply Hx; by right).
  unfold document at 1. destruct (is_platform_object _); [|by apply IH].
  apply wp_bind. eapply wp_mono.
  { apply (wp_get_calm (KV := file_store s) (dirK ++ x));
      [eapply calm_env; [apply Hsm|done]|by eapply (same_ok (KV := file_store s))|apply Hx; left]. }
  intros r w2 [Hsm2 Hr]. assert (same w w2) as Hsm12 by by transitivity w1.
  rewrite (same_value (KV := file_store s) w w1) in Hr by done.
  destruct (value s w (dirK ++ x)) as [data|]; [subst r|destruct r; [done|by apply IH]]. cbn [mbind option_bind].
  destruct (Unmarshal _ _ _) as [pm [|]]; cbn [negb orb]; [|by apply IH].
  cbn [first_platforms]. fold (platform_id pm). case_bool_decide; [by apply IH|].
  apply wp_bind. eapply wp_mono; [by apply IH|]. intros l w3 [Hsm3 ->]. by apply wp_ret.
Qed.

(** A directory that holds only what uploads put there: ordinary names, and
    each platform document stored under the name of its platform and naming an
    ordinary file. *)
Definition tidy (w : world) : Prop :=
  (∀ x, value s w (dirK ++ x) ≠ None → good_key (dirK ++ x)) ∧
  (∀ x pm, document w x = Some pm → x = [platform_file (OS pm) (Arch pm)] ∧ good_key (dirK ++ [Filename pm])).

(** Two documents of one platform are one file. *)
Lemma same_platform x y pm pm' : good_key (dirK ++ x) → good_key (dirK ++ y) →
  x = [platform_file (OS pm) (Arch pm)] → y = [platform_file (OS pm') (Arch pm')] →
  platform_id pm = platform_id pm' → x = y.
Proof using Type.
  unfold platform_id. intros [_ Gx] [_ Gy] -> -> E. apply good_slash in Gx, Gy. rewrite Forall_app, Forall_singleton in Gx, Gy.
  destruct Gx as [_ Gx], Gy as [_ Gy]. unfold platform_file in Gx, Gy. rewrite !no_char_app in Gx, Gy.
  assert ([OS pm; Arch pm] = [OS pm'; Arch pm']) as [= -> ->]; [|done].
  apply (f_equal (λ x, Split x "/")) in E.
  change (Split (Join [OS pm; Arch pm] "/") "/" = Split (Join [OS pm'; Arch pm'] "/") "/") in E.
  rewrite !Split_Join in E; [done|done| |done|]; repeat constructor; first [apply Gx|apply Gy].
Qed.

Definition documents (w : world) : list PlatformMeta := omap (document w) (files w).

Lemma documents_NoDup w : ready s w → tidy w → NoDup (map platform_id (documents w)).
Proof using Type.
  intros Hs [Ht1 Ht2]. unfold documents. pose proof (files_NoDup w) as Hnd.
  assert (∀ x, x ∈ files w → good_key (dirK ++ x)) as Hgood by (intros x Hx%elem_of_files; auto).
  induction (files w) as [|x xs IH]; [constructor|]. apply NoDup_cons in Hnd as [Hx Hnd]. cbn [omap list_omap].
  assert (∀ y, y ∈ xs → good_key (dirK ++ y)) as Hgood' by (intros; apply Hgood; by right).
  destruct (document w x) as [pm|] eqn:E; [|by apply IH]. cbn [map]. apply NoDup_cons. split; [|by apply IH].
  intros (pm' & E' & (y & Hy & Ey)%list_elem_of_omap)%list_elem_of_fmap. apply Hx.
  assert (x = y) as ->; [|done]. destruct (Ht2 _ _ E), (Ht2 _ _ Ey).
  eapply same_platform; try eassumption; [apply Hgood; left|by apply Hgood'].
Qed.

End listing.

(** ** The checksum document *)

Section checksums.
Context (s : Store) (ns name version : string).
#[local] Abbreviation dirK := (provider_dir ns name ++ [version]).
#[local] Abbreviation key := (provider_key ns name version).
Context (Hg : good_key dirK).

(** The artifact of [pm] can be downloaded. *)
Definition present (w : world) (pm : PlatformMeta) : Prop :=
  value s w (key (Filename pm)) ≠ None ∨ dir s w (key (Filename pm)).

Lemma wp_GetProviderPlatforms_tidy w : ready s w → calm w → dir s w dirK → tidy s dirK w →
  wp (GetProviderPlatforms s ns name version) (λ r w', same w w' ∧ r = Ok (documents s dirK w)) w.
Proof using Hg.
  intros Hs Hc Hd Ht. apply wp_try. eapply wp_mono; [by apply (wp_list_objects s dirK Hg)|].
  intros r w1 [Hsm [Hf| ->]]; [by apply calm_not_faulted in Hf|].
  apply wp_bind. eapply wp_mono.
  { apply (wp_collect_platforms s dirK w); [done..|]. intros x Hx%elem_of_files; [|done]. by apply Ht. }
  intros l w2 [Hsm2 ->]. apply wp_ret. split; [done|]. f_equal. apply first_platforms_all.
  - by apply documents_NoDup.
  - intros pm _. apply not_elem_of_nil.
Qed.

Lemma wp_existing_entries w platforms : ∀ w1, ready s w → calm w → same w w1 →
  (∀ pm, pm ∈ platforms → good_key (key (Filename pm))) →
  wp (existing_entries s ns name version platforms) (λ l w', same w w' ∧ ∀ e, e ∈ l ↔
    ∃ pm, pm ∈ platforms ∧ present w pm ∧ e = (Filename pm, Shasum pm)) w1.
Proof using Type.
  induction platforms as [|pm platforms IH]; intros w1 Hs Hc Hsm Hpm; cbn [existing_entries].
  { apply wp_ret. split; [done|]. intros e. split; [by intros ?%elem_of_nil|by intros (pm & ?%elem_of_nil & _)]. }
  apply wp_bind. eapply wp_mono.
  { apply (wp_exists_calm (KV := file_store s) (key (Filename pm)));
      [eapply calm_env; [apply Hsm|done]|by eapply (same_ok (KV := file_store s))|apply Hpm; left]. }
  intros b w2 [Hsm2 Hb]. assert (same w w2) as Hsm12 by by transitivity w1.
  rewrite (same_value (KV := file_store s) w w1), (same_dir (KV := file_store s) w w1) in Hb by done.
  apply wp_bind. eapply wp_mono; [apply IH; [done..|]|]; [intros; apply Hpm; by right|].
  intros l w3 [Hsm3 Hl]. apply wp_ret. split; [done|]. intros e.
  transitivity ((b = true ∧ e = (Filename pm, Shasum pm)) ∨ e ∈ l).
  { destruct b; [rewrite elem_of_cons; tauto|]. split; [by right|by intros [[? _]|?]]. }
  rewrite Hl, Hb. setoid_rewrite elem_of_cons. unfold present. split.
  - intros [[? ->]|(pm' & ? & ? & ->)]; [exists pm|exists pm']; auto.
  - intros (pm' & [->|?] & ? & ->); [by left|right; by exists pm'].
Qed.

End checksums.

(** The document has one line for each entry, sorted by file name. *)
#[export] Instance filename_total : TotalCmp always (λ a b : checksumEntry, Compare a.1 b.1).
Proof. split; intros; [apply Compare_antisym|by eapply Compare_trans]. Qed.

Definition by_filename (a b : checksumEntry) : Prop := String.le a.1 b.1.

Lemma checksums_document_sorted entries : ∃ sorted, sorted ≡ₚ entries ∧ StronglySorted by_filename sorted ∧
  checksums_document entries = Join (map checksum_line sorted) "".
Proof.
  destruct (SliceStable_stable_sort always (λ a b : checksumEntry, Compare a.1 b.1) entries) as (Hp & Hs & _).
  { by apply Forall_forall. }
  exists (SliceStable filename_less entries). split; [exact Hp|]. split; [|done]. clear Hp. revert Hs.
  change (SliceStable (cmp_less _) entries) with (SliceStable filename_less entries).
  generalize (SliceStable filename_less entries). intros l0 Hs.
  induction Hs as [|a l _ IH Ha]; [constructor|]. constructor; [exact IH|]. eapply Forall_impl; [exact Ha|]. intros b H. by apply Compare_le.
Qed.

(** C12. The signed checksums are exact.  In a version directory that holds only
    what uploads put there, and when no system call fails,
    [rebuildProviderChecksums] writes the document whose lines are those of
    the stored platform documents whose artifact exists (no other file, none
    left out), sorted by file name, and a signature of exactly that
    document; it fails only if no artifact is published, or signing fails, or
    one of the two keys is blocked; no other key changes. *)
Theorem rebuildProviderChecksums_exact s g ns name version os arch w :
  serving s w → calm w → provider_names ns name version os arch →
  dir s w (provider_dir ns name ++ [version]) → tidy s (provider_dir ns name ++ [version]) w →
  let key := provider_key ns name version in
  let published f h := ∃ x pm, document s (provider_dir ns name ++ [version]) w x = Some pm ∧
    Filename pm = f ∧ Shasum pm = h ∧ (value s w (key f) ≠ None ∨ dir s w (key f)) in
  ∃ r w' entries, rebuildProviderChecksums s (Some g) ns name version w = Some (r, w') ∧ serving s w' ∧
    (∀ f h, (f, h) ∈ entries ↔ published f h) ∧ StronglySorted by_filename entries ∧
    (∀ l, good_key l → l ∉ [key (sums_file name version); key (signature_file name version)] →
       value s w' l = value s w l) ∧
    let document := Join (map checksum_line entries) "" in
    match r with
    | Ok _ => entries ≠ [] ∧ value s w' (key (sums_file name version)) = Some document ∧
        ∃ signature, Sign g document = Ok signature ∧ value s w' (key (signature_file name version)) = Some signature
    | Err _ => entries = [] ∨ is_ok (Sign g document) = false ∨
        barred (value s) (dir s) w (key (sums_file name version)) ∨
        barred (value s) (dir s) w (key (signature_file name version))
    end.
Proof.
  intros [Hs Hu] Hc HN Hd Ht key published.
  destruct (good_provider_keys ns name version os arch HN "") as (_ & _ & Gc & Gs & _).
  destruct (provider_neqs ns name version os arch HN "") as (_ & (_ & _ & Ncs) & _).
  assert (good_key (provider_dir ns name ++ [version])) as Hg.
  { apply (good_prefix _ [sums_file name version]); [exact Gc|done]. }
  assert (wp (rebuildProviderChecksums s (Some g) ns name version) (λ r w', ∃ entries,
    (∀ f h, (f, h) ∈ entries ↔ published f h) ∧
    within (KV := file_store s) [key (sums_file name version); key (signature_file name version)] w w' ∧
    match r with
    | Ok _ => signed_entries (value := value s) ns name version g entries w'
    | Err _ => entries = [] ∨ is_ok (Sign g (checksums_document entries)) = false ∨
        barred (value s) (dir s) w (key (sums_file name version)) ∨
        barred (value s) (dir s) w (key (signature_file name version))
    end) w) as H.
  { rewrite rebuild_unfold. apply wp_try. eapply wp_mono; [by apply wp_GetProviderPlatforms_tidy|].
    intros r w1 [Hsm1 ->]. apply wp_bind. eapply wp_mono.
    { apply (wp_existing_entries s ns name version w); [done..|]. intros pm (x & _ & Hx)%list_elem_of_omap.
      by apply Ht in Hx as [_ ?]. }
    intros entries w2 [Hsm He].
    pose proof (within_same (KV := file_store s) [] w w2 Hs Hu Hsm) as H2.
    eapply wp_mono; [apply (wp_write_checksums (KV := file_store s)); [done..|apply H2|apply H2]|].
    intros r w3 (H3 & _ & _ & Hr). exists entries. split_and!.
    - intros f h. rewrite He. unfold published, documents. setoid_rewrite list_elem_of_omap. split.
      + intros (pm & (x & Hx & Hpm) & Hpr & [= -> ->]). by exists x, pm.
      + intros (x & pm & Hpm & <- & <- & Hpr). exists pm. split; [|done]. exists x. split; [|done].
        apply elem_of_files; [done|]. unfold document in Hpm.
        destruct (is_platform_object _); [|done]. by destruct (value s w _).
    - eapply within_trans; [|exact H3]. eapply within_mono; [apply list_subseteq_nil|exact H2].
    - destruct r as [|e]; [done|]. destruct Hsm as [He2 Hf].
      rewrite !(barred_frame (KV := file_store s) w w2) in Hr by done.
      destruct Hr as [?|[?|[Hft|?]]]; [auto..| |auto]. exfalso. eapply calm_not_faulted, Hft. by eapply calm_env. }
  apply wp_total in H as (r & w' & E & entries & He & [_ Hu' Hs' [Ho _]] & Hr).
  destruct (checksums_document_sorted entries) as (sorted & Hp & Hso & Ed).
  exists r, w', sorted. split; [done|]. split; [done|]. split; [intros f h; by rewrite Hp|]. do 2 (split; [done|]).
  cbv zeta. rewrite <- Ed. assert (sorted = [] ↔ entries = []) as Hn.
  { split; intros ->; [by apply Permutation_nil_l in Hp|by apply Permutation_nil_r in Hp]. }
  unfold signed_entries in Hr. destruct r; rewrite Hn; exact Hr.
Qed.

(** ** A concrete directory *)

(** A directory is tidy when this holds. *)
Definition tidy_check (s : Store) (dirK : list string) (w : world) : bool :=
  forallb (λ x, bool_decide (Forall key_part (dirK ++ x)) &&
    match document s dirK w x with
    | Some pm => bool_decide (x = [platform_file (OS pm) (Arch pm)]) &&
                 bool_decide (Forall key_part (dirK ++ [Filename pm]))
    | None => true
    end) (files s dirK w).

Lemma tidy_checked s dirK w : ready s w → dirK ≠ [] → tidy_check s dirK w = true → tidy s dirK w.
Proof.
  intros Hs Hn H. unfold tidy_check in H. rewrite forallb_forall in H.
  assert (∀ l, Forall key_part (dirK ++ l) → good_key (dirK ++ l)) as Hg.
  { intros l Hl. split; [by destruct dirK|done]. }
  split.
  - intros x Hx. apply elem_of_files, list_elem_of_In, H in Hx; [|done].
    apply andb_true_iff in Hx as [Hx%bool_decide_eq_true _]. by apply Hg.
  - intros x pm Hd. assert (In x (files s dirK w)) as Hx.
    { apply list_elem_of_In, elem_of_files; [done|]. unfold document in Hd.
      destruct (is_platform_object _); [|done]. by destruct (value s w _). }
    apply H in Hx. rewrite Hd in Hx. apply andb_true_iff in Hx as [_ Hx].
    apply andb_true_iff in Hx as [->%bool_decide_eq_true Hf%bool_decide_eq_true]. split; [done|]. by apply Hg.
Qed.

Definition sums_entries : list (path * node) :=
  let v := ["srv"; "providers"; "acme"; "null"; "1.0.0"] in [
  ([], NDir); (["srv"], NDir); (["srv"; "providers"], NDir); (["srv"; "providers"; "acme"], NDir);
  (["srv"; "providers"; "acme"; "null"], NDir); (v, NDir);
  (v ++ ["linux_amd64.json"], NFile (print (enc_PlatformMeta sample_platform)) 0);
  (v ++ ["p.zip"], NFile "PK" 0)].
Definition sums_world : world := world_of (list_to_map sums_entries) [].

Lemma sums_serving : serving srv sums_world.
Proof.
  split; [apply (store_fs_checked ["srv"] sums_entries); vm_compute; reflexivity|].
  intros k. simpl. by rewrite lookup_empty.
Qed.

Example sums_run :
  match rebuildProviderChecksums srv (Some null_signer) "acme" "null" "1.0.0" sums_world with
  | Some (Ok tt, w) => value srv w (provider_key "acme" "null" "1.0.0" (sums_file "null" "1.0.0"))
  | _ => None
  end = Some ("00ff  p.zip" +:+ String "010" "").
Proof. vm_compute. done. Qed.

Lemma rebuildProviderChecksums_exact_witness :
  ∃ r w' (entries : list checksumEntry), rebuildProviderChecksums srv (Some null_signer) "acme" "null" "1.0.0" sums_world = Some (r, w') ∧
    (∀ f h, (f, h) ∈ entries ↔ ∃ x pm,
       document srv (provider_dir "acme" "null" ++ ["1.0.0"]) sums_world x = Some pm ∧ Filename pm = f ∧ Shasum pm = h ∧
       (value srv sums_world (provider_key "acme" "null" "1.0.0" f) ≠ None ∨
        dir srv sums_world (provider_key "acme" "null" "1.0.0" f))).
Proof.
  destruct (rebuildProviderChecksums_exact srv null_signer "acme" "null" "1.0.0" "linux" "amd64" sums_world)
    as (r & w' & entries & E & _ & He & _).
  - apply sums_serving.
  - done.
  - by split.
  - unfold dir. apply (bool_decide_eq_true_1 (w_fs sums_world !! _ = Some NDir)). vm_compute. reflexivity.
  - apply tidy_checked; [apply sums_serving|done|]. vm_compute. reflexivity.
  - exists r, w', entries. split; [exact E|exact He].
Defined.

(** A temporary file left by a crash between writing a platform document and
    renaming it is listed first and read as a document: the checksums are
    rebuilt from metadata that was never committed, and as its artifact is
    gone, the rebuild fails although the committed artifact is there. *)
Example leftover_shadows :
  let leftover := mkPlatformMeta "linux" "amd64" "gone.zip" "bad0" None in
  let f := <[["srv"; "providers"; "acme"; "null"; "1.0.0"; ".tmp-linux_amd64.json"] :=
             NFile (print (enc_PlatformMeta leftover)) 0]> (list_to_map sums_entries) in
  match rebuildProviderChecksums srv (Some null_signer) "acme" "null" "1.0.0" (world_of f []) with
  | Some (Err (EText m), _) => m = "provider version has no published artifacts"
  | _ => False
  end.
Proof. vm_compute. done. Qed.
