(* ===== verification/Deletion.v ===== *)
(** * Deleting a version

    The delete handlers hide the version's tree, update the index and erase
    the tree; when the index cannot be updated they move the tree back. *)

From S2P Require Import Prelude GoString SemVer GoPath Regex Validation Os OsFacts Json Decode Store StoreFacts StageFacts.
From S2P Require Import KeyValue Confine StoreSpec Index IndexFacts Archive Signing Http Api NameFacts Transactions.
From S2P Require Import ModuleUpload ProviderUpload Checksums.

(** ** Trash names are good keys *)

Lemma good_trash_key k n : good_key k → good_key (trash_key k n).
Proof.
  intros [Hn Hk]. unfold trash_key. split; [by destruct (removelast k)|].
  rewrite (app_removelast_last "/" Hn) in Hk. apply Forall_app in Hk as [Hp Hb].
  apply Forall_app. split; [done|]. rewrite Forall_singleton in Hb. apply Forall_singleton.
  unfold base_name. destruct Hb as (_ & Hs & Hb & _). split; [split_and!; done|].
  assert (∀ c, is_digit c = false → no_char c (pretty n)) as Hd.
  { intros c Hc. eapply no_char_sforall; [exact Hc|apply pretty_digits]. }
  split; [|split; [|done]]; rewrite !no_char_app; split_and!; first [done|by apply Hd].
Qed.

(** ** A tree erased in part is still a tree *)

Lemma child_after q c n m : ¬ entry_le (q ++ [c], m) (q, n).
Proof. unfold entry_le. cbn [fst]. induction q as [|d q IH]; [done|]. simpl. by rewrite String.eqb_refl. Qed.

(** The removed entries are the last ones, so contents go before directories. *)
Lemma removed_after k f p a b : a ∈ take k (reverse (tree f p)) → b ∈ tree f p → ¬ entry_le b a →
  b ∈ take k (reverse (tree f p)).
Proof.
  rewrite take_reverse, !elem_of_reverse. generalize (length (tree f p) - k). intros m Ha Hb Hle.
  assert (StronglySorted entry_le (tree f p)) as Hs by (apply StronglySorted_merge_sort; apply _).
  rewrite <- (take_drop m (tree f p)) in Hs, Hb. apply elem_of_app in Hb as [Hb|?]; [|done].
  by eapply StronglySorted_app_1_elem_of in Hs.
Qed.

Lemma lookup_prune_some_eq k p f q :
  prune_some k p f !! q = if decide (q ∈ (take k (reverse (tree f p))).*1) then None else f !! q.
Proof.
  unfold prune_some. induction (take k (reverse (tree f p))) as [|[q' n] l IH]; [done|]. cbn [foldr fmap list_fmap fst].
  destruct (decide (q = q')) as [->|Hne].
  - rewrite lookup_delete_eq, decide_True; [done|left].
  - rewrite lookup_delete_ne, IH by done. apply decide_ext. rewrite elem_of_cons. naive_solver.
Qed.

Lemma clean_prune_some k p f : clean_fs f → p ≠ [] → clean_fs (prune_some k p f).
Proof.
  intros Hc Hp.
  assert (∀ q n, prune_some k p f !! q = Some n → f !! q = Some n ∧ q ∉ (take k (reverse (tree f p))).*1) as Hinv.
  { intros q n. rewrite lookup_prune_some_eq. by case_decide. }
  split.
  - rewrite lookup_prune_some_eq, decide_False; [by apply cf_root|]. intros ([q n] & E & Hin)%list_elem_of_fmap.
    simpl in E. subst q. apply elem_of_take in Hin as (? & Hin & _). apply list_elem_of_lookup_2 in Hin.
    apply elem_of_reverse, elem_of_tree in Hin as [[y E] _]. symmetry in E. by apply app_eq_nil in E as [? _].
  - intros q c n [H Hn]%Hinv. pose proof (cf_parent f Hc _ _ _ H) as Hq.
    rewrite lookup_prune_some_eq, decide_False; [done|]. intros ([q' m] & E & Hin)%list_elem_of_fmap.
    simpl in E. subst q'. apply Hn, list_elem_of_fmap. exists (q ++ [c], n). split; [done|].
    eapply removed_after; [exact Hin| |apply child_after]. apply elem_of_tree. split; [|done].
    apply elem_of_take in Hin as (? & Hin & _). apply list_elem_of_lookup_2 in Hin.
    apply elem_of_reverse, elem_of_tree in Hin as [[y ->] _]. exists (y ++ [c]). by rewrite app_assoc.
  - intros q b t m [H _]%Hinv. by eapply cf_nolink in H.
  - intros q n [H _]%Hinv. by eapply cf_plain.
Qed.

Lemma clean_prune p f : clean_fs f → p ≠ [] → clean_fs (prune p f).
Proof.
  intros Hc Hp. split.
  - apply lookup_prune. split; [by apply cf_root|]. by intros ?%prefix_nil_inv.
  - intros q c n [H Hn]%lookup_prune. apply lookup_prune. split; [by eapply cf_parent|].
    intros Hx. apply Hn. etransitivity; [exact Hx|by eexists].
  - intros q b t m [H _]%lookup_prune. by eapply cf_nolink in H.
  - intros q n [H _]%lookup_prune. by eapply cf_plain.
Qed.

(** The store stays usable whatever part of a tree is erased. *)
Lemma wp_removeall_ready s p w : ready s w → Forall plain p → ¬ p `prefix_of` basePath s →
  wp (os_RemoveAll p) (λ _ w', ready s w') w.
Proof.
  intros Hs Hp Hb. pose proof (sf_clean _ _ Hs) as Hc.
  assert (p ≠ []) as Hne by (intros ->; apply Hb, prefix_nil).
  assert (∀ f, clean_fs f → (∀ q, f !! q = w_fs w !! q ∨ f !! q = None ∧ p `prefix_of` q) → store_fs (basePath s) f) as Hready.
  { intros f Hf Hq. split; [done| |].
    - destruct (Hq (basePath s)) as [->|[_ ?]]; [apply (sf_root _ _ Hs)|done].
    - intros q c Hq' Hh. destruct (Hq (q ++ [c])) as [->|[-> _]]; [|done]. by apply (sf_tmp _ _ Hs). }
  assert (∀ w', w_fs w' = w_fs w → ready s w') as Hsame by (intros w' E; unfold ready; by rewrite E).
  apply wp_bind, wp_next_fault; intros w'; [intros k|]; intros He Hf _ _; [intros Hft|];
    apply wp_bind, wp_get; rewrite Hf; (destruct (locate (w_fs w) p) as [q|e] eqn:E;
      [|destruct e as [[]| | | | |]; by apply wp_ret, Hsame]).
  all: apply locate_inv in E as [-> _]; [|done..]; apply wp_bind; unfold wp, put_fs; simpl; apply Hready.
  - by apply clean_prune_some.
  - intros q. apply lookup_prune_some.
  - by apply clean_prune.
  - intros q. destruct (decide (p `prefix_of` q)) as [Hx|Hx].
    + right. split; [|done]. destruct (prune p (w_fs w) !! q) eqn:Eq; [|done].
      by apply lookup_prune in Eq as [_ ?].
    + left. apply option_eq. intros n. cbn [set_fs w_fs]. rewrite lookup_prune. naive_solver.
Qed.

(** ** Moving one key's tree to another's *)

Section move.
Context (s : Store) (a b : list string) (Ga : good_key a) (Gb : good_key b).
#[local] Abbreviation base := (basePath s).
Context (w : world) (Hs : ready s w) (Hex : w_fs w !! (base ++ a) ≠ None) (HN : w_fs w !! (base ++ b) = None).
Context (Hab : ¬ a `prefix_of` b).

Lemma move_not_above : ¬ b `prefix_of` a.
Proof using Hs Hex HN.
  intros Hp. destruct (w_fs w !! (base ++ a)) eqn:E; [|done].
  apply (prefix_exists (w_fs w) (base ++ b)) in E; [done|apply Hs|by apply base_prefix].
Qed.

Lemma store_move w' : w_fs w !! parent (base ++ b) = Some NDir →
  w_fs w' = move (base ++ a) (base ++ b) (w_fs w) → ready s w'.
Proof using Ga Gb Hs Hex HN Hab.
  intros Hpar E. unfold ready. rewrite E. pose proof (sf_clean _ _ Hs) as Hc. pose proof move_not_above as Hba.
  assert (¬ base ++ a `prefix_of` base ++ b) as Hab' by by rewrite base_prefix.
  assert (¬ base ++ b `prefix_of` base ++ a) as Hba' by by rewrite base_prefix.
  assert (∀ l, good_key l → ¬ base ++ l `prefix_of` base) as Hbase.
  { intros l [Hl _] [x Ex]. rewrite <- app_assoc in Ex. rewrite <- (app_nil_r base) in Ex at 1.
    apply app_inv_head in Ex. by destruct l. }
  split.
  - apply clean_move; auto using key_nonempty. by eapply key_plain.
  - apply lookup_move; [done..|]. right. split_and!; [by apply Hbase..|apply (sf_root _ _ Hs)].
  - intros q c Hq Hh. rewrite lookup_move by done. intros [(r & Er & Hr)|(_ & _ & Hr)].
    + destruct r as [|d r _] using rev_ind.
      * rewrite app_nil_r in Er. destruct Gb as [Hn Hb]. rewrite (app_removelast_last "" Hn), Forall_app, Forall_singleton in Hb.
        rewrite (app_removelast_last "" Hn), app_assoc in Er. apply app_inj_tail in Er as [_ ->].
        destruct Hb as [_ (_ & _ & _ & Hb)]. unfold hidden in Hb. congruence.
      * rewrite app_assoc in Er. apply app_inj_tail in Er as [-> ->]. rewrite app_assoc in Hr.
        apply (sf_tmp _ _ Hs) in Hr; [done| |done]. exists (a ++ r). by rewrite app_assoc.
    + by apply (sf_tmp _ _ Hs) in Hr.
Qed.

Lemma value_move w' l : w_fs w' = move (base ++ a) (base ++ b) (w_fs w) →
  value s w' l = match strip b l with
                 | Some r => value s w (a ++ r)
                 | None => if decide (a `prefix_of` l) then None else value s w l
                 end.
Proof using Hs Hex HN Hab.
  intros E. pose proof move_not_above as Hba.
  assert (¬ base ++ a `prefix_of` base ++ b) as Hab' by by rewrite base_prefix.
  assert (¬ base ++ b `prefix_of` base ++ a) as Hba' by by rewrite base_prefix.
  unfold value, file. rewrite E. destruct (strip b l) as [r|] eqn:Er.
  - apply strip_some in Er as ->. rewrite !app_assoc. by rewrite lookup_move_in.
  - apply strip_none in Er. case_decide as Hp.
    + by rewrite lookup_move_gone by by rewrite ?base_prefix.
    + by rewrite lookup_move_out by by rewrite ?base_prefix.
Qed.

End move.

(** ** Rolling back *)

Section rollback.
Context (s : Store) (k : list string) (Hg : good_key k).
#[local] Abbreviation base := (basePath s).
Context (n : N) (w w1 : world) (Hs : ready s w).
#[local] Abbreviation trashK := (trash_key k n).
Context (Hex : w_fs w !! (base ++ k) ≠ None) (HN : w_fs w !! (base ++ trashK) = None) (Hs1 : ready s w1).
Context (Hmove : w_fs w1 = move (base ++ k) (base ++ trashK) (w_fs w)).

Lemma trash_apart : ¬ k `prefix_of` trashK ∧ ¬ trashK `prefix_of` k.
Proof using Hg Hs Hex HN.
  assert (¬ k `prefix_of` trashK) as H.
  { rewrite <- (base_prefix s), <- trash_name_key by done. by apply trash_neq. }
  split; [done|]. apply (move_not_above s k trashK w Hs Hex HN).
Qed.

(** Moving the tree back after changes of an index restores every other key. *)
Lemma wp_rollback_index idxK w2 :
  ready s w2 → ¬ k `prefix_of` idxK → ¬ trashK `prefix_of` idxK →
  kept (value s) (dir s) idxK w1 w2 →
  wp (rollback (mkStaged (base ++ k) (base ++ trashK))) (λ r w3, env w2 w3 ∧ ready s w3 ∧
    value s w3 idxK = value s w2 idxK ∧
    match r with
    | Ok _ => ∀ l, good_key l → l ≠ idxK → value s w3 l = value s w l
    | Err _ => w_fs w3 = w_fs w2 ∧ faulted w2 w3
    end) w2.
Proof using Hs Hs1 Hex HN Hmove Hg.
  intros Hs2 Hki Hti [Hv Hd]. destruct trash_apart as [Hkt Htk]. pose proof (good_trash_key k n Hg) as Gt.
  pose proof (value_move s k trashK w Hs Hex HN Hkt w1) as Hv1.
  assert (∀ l, good_key l → ¬ l `prefix_of` idxK → w_fs w1 !! (base ++ l) ≠ None ↔ w_fs w2 !! (base ++ l) ≠ None) as Hiff.
  { intros l Gl Hl. rewrite !lookup_value by done. by rewrite Hv, Hd by (done || by intros ->). }
  assert (w_fs w2 !! (base ++ trashK) ≠ None) as Ht2.
  { apply Hiff; [done..|]. rewrite Hmove. pose proof (lookup_move_in (base ++ k) (base ++ trashK) (w_fs w)) as E.
    rewrite !base_prefix in E. specialize (E Hkt Htk []). rewrite !app_nil_r in E. by rewrite E. }
  assert (w_fs w2 !! (base ++ k) = None) as Hk2.
  { destruct (w_fs w2 !! (base ++ k)) eqn:E; [|done]. exfalso.
    assert (w_fs w2 !! (base ++ k) ≠ None) as H by (by rewrite E). apply Hiff in H; [|done..].
    apply H. rewrite Hmove. apply lookup_move_gone; rewrite ?base_prefix; done. }
  assert (w_fs w2 !! parent (base ++ k) = Some NDir) as Hpar.
  { destruct (w_fs w2 !! (base ++ trashK)) as [nd|] eqn:E; [|done].
    rewrite <- trash_name_key in E by done.
    apply clean_parent_dir in E; [|apply Hs2|apply trash_nonempty]. by rewrite trash_parent in E. }
  destruct (w_fs w2 !! (base ++ trashK)) as [nd|] eqn:E2; [|done]. eapply wp_mono.
  { apply (wp_rename_free _ _ nd); first [apply Hs2|by apply key_nonempty|done|cbn [sd_trash sd_path]; by rewrite base_prefix]. }
  intros r w3 [He3 H3]. split; [done|]. destruct r as [[]|e]; [simpl in H3|].
  - assert (w_fs w2 !! (base ++ trashK) ≠ None) as Ht2' by by rewrite E2.
    split; [by eapply (store_move s trashK k)|]. split.
    { rewrite (value_move s trashK k w2 Hs2 Ht2' Hk2 Htk w3 idxK) by done.
      rewrite (proj2 (strip_none k idxK)) by done. by rewrite decide_False. }
    intros l Gl Hl.
    rewrite (value_move s trashK k w2 Hs2 Ht2' Hk2 Htk w3 l) by done. destruct (strip k l) as [r|] eqn:Er.
    + apply strip_some in Er as ->. rewrite Hv.
      * rewrite Hv1, (proj2 (strip_some trashK _ r)) by done. done.
      * destruct Gl as [_ Gr], Gt as [Hn Gt]. apply Forall_app in Gr as [_ Gr].
        split; [by destruct trashK|by apply Forall_app].
      * intros <-. apply Hti. by eexists.
    + apply strip_none in Er. case_decide as Hp.
      * symmetry. unfold value, file. destruct (w_fs w !! (base ++ l)) eqn:E; [|done]. exfalso.
        apply (prefix_exists (w_fs w) (base ++ trashK)) in E; [done|apply Hs|by rewrite base_prefix].
      * rewrite Hv, Hv1 by done. rewrite (proj2 (strip_none trashK l)) by done. by rewrite decide_False.
  - destruct H3 as [Ef [Hft _]]. split; [unfold ready; by rewrite Ef|].
    split; [unfold value; by rewrite Ef|done].
Qed.

End rollback.

(** ** The handlers *)

Section deletion.
Context (s : Store) (dirK : list string) (version : string).
Context (Hdir : dirK ≠ [] ∧ Forall file_name dirK) (Hver : valid version).
#[local] Abbreviation k := (dirK ++ [version]).
#[local] Abbreviation idxK := (dirK ++ ["index.json"]).

Lemma ordinary_version : ordinary k.
Proof using Hdir Hver.
  apply ordinary_names; [by destruct dirK|]. rewrite Forall_app, Forall_singleton.
  split; [apply Hdir|by apply version_file].
Qed.

Lemma ordinary_index : ordinary idxK.
Proof using Hdir.
  apply ordinary_names; [by destruct dirK|]. rewrite Forall_app, Forall_singleton.
  split; [apply Hdir|]. split; [done|]. by eexists "i"%char, _.
Qed.

Lemma version_index_apart : apart k idxK.
Proof using Hver. apply apart_siblings. by apply version_not_index. Qed.

(** The version is gone: no key below it, and the index lists the others. *)
Definition version_deleted (w w' : world) : Prop :=
  (∀ l, ordinary l → l ≠ idxK → value s w' l = if decide (k `prefix_of` l) then None else value s w l) ∧
  ∃ idx idx', index_at (value s w idxK) = Some idx ∧ index_at (value s w' idxK) = Some idx' ∧
    reindexed (without_version version idx) idx idx'.

(** At most one thing goes wrong. *)
Definition steady_index (w : world) : Prop :=
  calm w ∨ (faults_left w ≤ 1 ∧ ¬ (index_at (value s w idxK) = None ∨ barred (value s) (dir s) w idxK)).

Definition delete_outcome (w : world) (resp : response) (w' : world) : Prop :=
  (version_deleted w w' ∧ (status resp = 200%Z ∨ faulted w w')) ∨
  (status resp ≠ 200%Z ∧ value s w' idxK = value s w idxK ∧
   (∀ l, ordinary l → ¬ k `prefix_of` l → value s w' l = value s w l) ∧
   (∀ l, ordinary l → value s w' l = value s w l ∨ value s w' l = None) ∧
   (steady_index w → ∀ l, ordinary l → value s w' l = value s w l)).

(** What staging leaves unchanged. *)
Lemma staged_index w w1 n :
  ready s w → w_fs w !! (basePath s ++ k) ≠ None → w_fs w !! (basePath s ++ trash_key k n) = None →
  w_fs w1 = move (basePath s ++ k) (basePath s ++ trash_key k n) (w_fs w) →
  (∀ l, ordinary l → value s w1 l = if decide (k `prefix_of` l) then None else value s w l) ∧
  value s w1 idxK = value s w idxK ∧ (barred (value s) (dir s) w1 idxK → barred (value s) (dir s) w idxK).
Proof using Hdir Hver.
  intros Hs Hex HN E. pose proof ordinary_version as [Gk _]. pose proof ordinary_index as Oi.
  destruct (trash_apart s k Gk n w Hs Hex HN) as [Hkt Htk]. pose proof version_index_apart as [Hki Hik].
  assert (∀ l, ordinary l → value s w1 l = if decide (k `prefix_of` l) then None else value s w l) as Hv.
  { intros l Hl. rewrite (value_move s k (trash_key k n) w Hs Hex HN Hkt w1 l E).
    rewrite (proj2 (strip_none _ _)); [done|]. by apply ordinary_not_trash. }
  split; [done|]. split; [rewrite Hv by done; by rewrite decide_False|].
  intros [(d & x & Ed & Hx & Hval)|Hd].
  - left. exists d, x. split; [done|]. split; [done|]. rewrite Hv in Hval; [by case_decide|].
    assert (d ≠ []) as Hne.
    { intros ->. apply Hval. unfold value, file. rewrite app_nil_r, E.
      rewrite lookup_move_out; [by rewrite (sf_root _ _ Hs)|rewrite ?base_prefix; done..| |];
        intros [y Ey]; rewrite <- app_assoc in Ey; rewrite <- (app_nil_r (basePath s)) in Ey at 1;
        apply app_inv_head in Ey; [by destruct dirK|].
      destruct (good_trash_key k n Gk) as [Hn _]. by destruct (trash_key k n). }
    destruct Oi as [Gi Hi]. rewrite Ed in Gi, Hi. split; [by eapply good_prefix|].
    by apply Forall_app in Hi as [? _].
  - right. unfold dir in *. rewrite E, lookup_move_out in Hd; rewrite ?base_prefix in *; try done.
    by apply ordinary_not_trash.
Qed.

(** Erasing the tree once the index is updated. *)
Lemma wp_delete_commit w w1 w2 n deleted :
  ready s w → w_fs w !! (basePath s ++ k) ≠ None → w_fs w !! (basePath s ++ trash_key k n) = None →
  env w w2 → ready s w2 → kept (value s) (dir s) idxK w1 w2 →
  (∀ l, ordinary l → value s w1 l = if decide (k `prefix_of` l) then None else value s w l) →
  w_fs w2 !! trash_name s k n ≠ None →
  (∃ idx idx', index_at (value s w idxK) = Some idx ∧ index_at (value s w2 idxK) = Some idx' ∧
     reindexed (without_version version idx) idx idx') →
  wp (r ← commit (mkStaged (basePath s ++ k) (trash_name s k n));
      match r with
      | Err _ => mret (writeJSON 500 false (Msg "Delete cleanup failed"))
      | Ok _ => mret (writeJSON 200 true (Msg deleted))
      end) (λ resp w', env w w' ∧ ready s w' ∧ delete_outcome w resp w') w2.
Proof using Hdir Hver.
  intros Hs Hex HN He2 Hs2 [Hk _] Hv1 Htr Hidx. pose proof ordinary_version as [Gk _]. pose proof ordinary_index as Oi.
  assert (Forall plain (trash_name s k n)) as Hpl by by eapply trash_plain_path.
  assert (wp (commit (mkStaged (basePath s ++ k) (trash_name s k n))) (λ r w', (env w2 w' ∧
    (∀ q, w_fs w' !! q = w_fs w2 !! q ∨ w_fs w' !! q = None ∧ trash_name s k n `prefix_of` q) ∧
    (is_ok r = false → faulted w2 w')) ∧ ready s w') w2) as Hcommit.
  { pose proof (wp_commit s k n w2 Hs2 Hpl) as H1.
    assert (wp (commit (mkStaged (basePath s ++ k) (trash_name s k n))) (λ _ w', ready s w') w2) as H2.
    { apply wp_removeall_ready; [done..|]. intros [x Ex]. pose proof (good_trash_key k n Gk) as [Hn _].
      cbn [sd_trash] in Ex. rewrite trash_name_key, <- app_assoc in Ex by done. rewrite <- (app_nil_r (basePath s)) in Ex at 1.
      apply app_inv_head in Ex. by destruct (trash_key k n). }
    unfold wp in *. destruct (commit _ w2) as [[r w']|]; [|done]. split; [|done].
    destruct H1 as (He & Hq & _ & Hf). split; [done|]. split; [done|]. intros Hr.
    destruct (Hf Hr) as [?|Hw]; [done|]. exfalso. apply Hw.
    destruct (w_fs w2 !! trash_name s k n) as [nd|] eqn:En; [|done].
    apply way_dir; [apply Hs2|]. eapply clean_parent_dir; [apply Hs2|apply trash_nonempty|done]. }
  apply wp_bind. eapply wp_mono; [exact Hcommit|]. intros r w3 [(He3 & Hq & Hf) Hs3].
  assert (∀ l, ordinary l → value s w3 l = value s w2 l) as Hv3.
  { intros l Hl. unfold value, file. destruct (Hq (basePath s ++ l)) as [->|[_ Hp]]; [done|].
    rewrite trash_name_key in Hp by done. by apply base_prefix, ordinary_not_trash in Hp. }
  assert (version_deleted w w3) as Hdel.
  { split; [|by rewrite Hv3]. intros l Hl Hne. rewrite Hv3 by done. rewrite Hk by (done || apply Hl). by apply Hv1. }
  destruct r as [[]|e]; apply wp_ret; (split; [by etransitivity|]); (split; [done|]); left; (split; [done|]).
  - by left.
  - right. eapply faulted_r; [exact He2|]. by apply Hf.
Qed.

(** What is left when the index could not be updated. *)
Lemma delete_undone w w1 w2 w3 e text (r : result error unit) :
  (∀ l, ordinary l → value s w1 l = if decide (k `prefix_of` l) then None else value s w l) →
  value s w1 idxK = value s w idxK → (barred (value s) (dir s) w1 idxK → barred (value s) (dir s) w idxK) →
  env w w1 → env w1 w2 → index_updated (value := value s) (dir := dir s) idxK (without_version version) w1 (Err e) w2 →
  value s w3 idxK = value s w2 idxK →
  match r with
  | Ok _ => ∀ l, good_key l → l ≠ idxK → value s w3 l = value s w l
  | Err _ => w_fs w3 = w_fs w2 ∧ faulted w2 w3
  end → delete_outcome w (writeJSON 500 false (Msg text)) w3.
Proof using Hdir Hver.
  intros Hv1 Hi1 Hb1 He1 He2 [[Hv2 _] [E2 Hbad]] E3 Hr. right. split; [done|].
  assert (value s w3 idxK = value s w idxK) as Ei by congruence. split; [done|].
  assert (steady_index w → ∀ l, ordinary l → value s w3 l = value s w l) as Hsteady.
  { intros Hst l Hl. destruct (decide (l = idxK)) as [->|Hne]; [done|].
    destruct r as [[]|er]; [by apply Hr; [apply Hl|]|]. exfalso. destruct Hr as [_ Hf].
    destruct He1 as [_ _ _ _ L1], He2 as [_ _ _ _ L2]. unfold steady_index, calm, faulted in *.
    destruct Hst as [?|[? Hns]]; [lia|]. rewrite Hi1 in Hbad. destruct Hbad as [?|Hbad]; [lia|].
    apply Hns. destruct Hbad; auto. }
  assert (∀ l, ordinary l → value s w3 l = value s w l ∨ value s w3 l = None ∧ k `prefix_of` l) as Hall.
  { intros l Hl. destruct (decide (l = idxK)) as [->|Hne]; [by left|].
    destruct r as [[]|er]; [left; by apply Hr; [apply Hl|]|]. destruct Hr as [Ef _].
    assert (value s w3 l = value s w2 l) as -> by (unfold value; by rewrite Ef).
    rewrite Hv2 by (done || apply Hl). rewrite Hv1 by done. case_decide; [by right|by left]. }
  split; [|split; [|done]]; intros l Hl; destruct (Hall l Hl) as [?|[? ?]]; auto; done.
Qed.

Lemma wp_delete_version w deleted : serving s w →
  wp (delete_version s (slash k) (removeVersionFromIndex s (slash idxK) version) deleted)
     (λ resp w', env w w' ∧ ready s w' ∧ delete_outcome w resp w') w.
Proof using Hdir Hver.
  intros Hw. pose proof ordinary_version as Ov. pose proof ordinary_index as Oi. pose proof (proj1 Ov) as Gk.
  pose proof (proj1 Oi) as Gi. pose proof version_index_apart as [Hki Hik].
  unfold delete_version. apply wp_bind. eapply wp_mono; [apply (wp_StageDeleteTree s k Gk); apply Hw|].
  intros [d|e] w1 [He1 H1]; pose proof (stage_serving s k w _ w1 Hw Gk He1 H1) as [Hs1 Hu1].
  2:{ apply wp_ret. split; [done|]. split; [done|]. right.
      assert (∀ l, ordinary l → value s w1 l = value s w l) as Hl.
      { intros l Hl. by apply (stage_err_values s k w e w1 l). }
      split; [done|]. split; [by apply Hl|]. split_and!; intros; [by apply Hl|left; by apply Hl|by apply Hl]. }
  destruct H1 as (n & -> & Hex & HN & Hmove). destruct Hw as [Hs Hu].
  pose proof (trash_name_key s k Gk n) as Et. rewrite Et in HN, Hmove.
  destruct (staged_index w w1 n Hs Hex HN Hmove) as (Hv1 & Hi1 & Hb1).
  destruct (trash_apart s k Gk n w Hs Hex HN) as [Hkt Htk].
  apply wp_bind. eapply wp_mono; [by apply (wp_removeVersionFromIndex (KV := file_store s))|].
  intros r w2 (He2 & Hu2 & Hs2 & [Hk2 H2]).
  assert (env w w2) as He by by etransitivity.
  assert (¬ trash_key k n `prefix_of` idxK) as Hti by by apply ordinary_not_trash.
  destruct r as [[]|e].
  - apply (wp_delete_commit w w1); try done; [|by rewrite <- Hi1].
    rewrite Et. destruct Hk2 as [Hv2 Hd2].
    pose proof (lookup_move_in (basePath s ++ k) (basePath s ++ trash_key k n) (w_fs w)) as E.
    rewrite !base_prefix in E. specialize (E Hkt Htk []). rewrite !app_nil_r, <- Hmove in E.
    rewrite <- E in Hex. pose proof (good_trash_key k n Gk) as Gt.
    rewrite lookup_value in Hex |- * by done.
    rewrite Hv2, Hd2 by (done || by intros Ex; apply Hti; rewrite Ex). done.
  - apply wp_bind. rewrite Et. apply wp_ignoring.
    eapply wp_mono; [by apply (wp_rollback_index s k Gk n w w1 Hs Hex HN Hs1 Hmove idxK w2)|].
    intros r w3 (He3 & Hs3 & E3 & H3). apply wp_ret. split; [by etransitivity|]. split; [done|].
    by apply (delete_undone w w1 w2 w3 e _ r).
Qed.

End deletion.

(** ** The properties *)

(** A mutating handler run from a store in service. *)
Lemma wp_mutating_handler s (body : M response) (Q : world → response → world → Prop) w :
  serving s w → free w →
  (∀ w0 resp w', w_fs w0 = w_fs w → faults_left w0 = faults_left w → Q w0 resp w' →
     Q w resp (set_mutation false w')) →
  (∀ w0, serving s w0 → wp body (λ resp w', env w0 w' ∧ ready s w' ∧ Q w0 resp w') w0) →
  ∃ resp w', with_mutation body w = Some (resp, w') ∧ serving s w' ∧ free w' ∧ Q w resp w'.
Proof.
  intros [Hs Hu] Hf HQ HB.
  assert (wp (with_mutation body) (λ resp w', free w' ∧ env w w' ∧ ready s w' ∧ unlocked w' ∧ Q w resp w') w) as H.
  { apply (wp_with_mutation body (λ resp w', ready s w' ∧ unlocked w' ∧ Q w resp w')); [done|].
    eapply wp_mono; [by apply (HB (set_mutation true w))|].
    intros resp w' (He & Hs' & HQ'). split; [done|]. split; [exact Hs'|]. split; [|by eapply HQ; [| |exact HQ']].
    by apply (env_unlocked _ _ He). }
  apply wp_total in H as (resp & w' & E & Hf' & _ & Hs' & Hu' & HQ'). by exists resp, w'.
Qed.

Lemma delete_outcome_frame s dirK version w w0 resp w' :
  w_fs w0 = w_fs w → faults_left w0 = faults_left w → delete_outcome s dirK version w0 resp w' →
  delete_outcome s dirK version w resp (set_mutation false w').
Proof.
  intros Ef Eft. unfold delete_outcome, version_deleted, steady_index, calm, faulted, barred, value, dir.
  cbn [set_mutation w_fs]. rewrite !Ef, !Eft. exact id.
Qed.

(** C13. Deleting a provider version always replies, leaves a usable store and
    the mutation mutex free, whatever system calls fail.  Either the version
    is gone (no key below it, the index lists exactly the other versions, and
    no other key changed) and the reply is 200 unless a system call failed; or
    the reply is an error, the index is as it was and so is every key outside
    the version, and below it nothing is altered, at worst hidden.  With at most one failed system call and an index that can be
    updated, such an error means that nothing at all has changed: the hidden
    tree has been put back. *)
Theorem deleteProviderVersion_all_or_nothing s vars ns name version os arch w :
  serving s w → free w → provider_route "name" vars ns name version os arch →
  provider_names ns name version os arch →
  ∃ resp w', deleteProviderVersionHandler s vars w = Some (resp, w') ∧ serving s w' ∧ free w' ∧
    let k := provider_dir ns name ++ [version] in
    let idxK := provider_index ns name in
    ((((∀ l, ordinary l → l ≠ idxK → value s w' l = if decide (k `prefix_of` l) then None else value s w l) ∧
       ∃ idx idx', index_at (value s w idxK) = Some idx ∧ index_at (value s w' idxK) = Some idx' ∧
         reindexed (without_version version idx) idx idx') ∧
      (status resp = 200%Z ∨ faulted w w')) ∨
     (status resp ≠ 200%Z ∧ value s w' idxK = value s w idxK ∧
      (∀ l, ordinary l → ¬ k `prefix_of` l → value s w' l = value s w l) ∧
      (∀ l, ordinary l → value s w' l = value s w l ∨ value s w' l = None) ∧
      (calm w ∨ (faults_left w ≤ 1 ∧ ¬ (index_at (value s w idxK) = None ∨ barred (value s) (dir s) w idxK)) →
       ∀ l, ordinary l → value s w' l = value s w l))).
Proof.
  intros Hw Hf [E1 E2 E3 _ _] HN. apply (wp_mutating_handler s _ (delete_outcome s (provider_dir ns name) version));
    [done..|by intros; eapply delete_outcome_frame|].
  intros w0 Hw0. rewrite E1, E2, E3. apply (wp_delete_version s (provider_dir ns name) version); [|apply HN|done].
  split; [done|]. by eapply provider_dir_names.
Qed.

(** Deleting a module version gives the same guarantees. *)
Theorem deleteModuleVersion_all_or_nothing s vars ns name provider version w :
  serving s w → free w → module_route vars ns name provider version →
  module_names ns name provider version →
  ∃ resp w', deleteModuleVersionHandler s vars w = Some (resp, w') ∧ serving s w' ∧ free w' ∧
    let k := module_dir ns name provider ++ [version] in
    let idxK := module_index ns name provider in
    ((((∀ l, ordinary l → l ≠ idxK → value s w' l = if decide (k `prefix_of` l) then None else value s w l) ∧
       ∃ idx idx', index_at (value s w idxK) = Some idx ∧ index_at (value s w' idxK) = Some idx' ∧
         reindexed (without_version version idx) idx idx') ∧
      (status resp = 200%Z ∨ faulted w w')) ∨
     (status resp ≠ 200%Z ∧ value s w' idxK = value s w idxK ∧
      (∀ l, ordinary l → ¬ k `prefix_of` l → value s w' l = value s w l) ∧
      (∀ l, ordinary l → value s w' l = value s w l ∨ value s w' l = None) ∧
      (calm w ∨ (faults_left w ≤ 1 ∧ ¬ (index_at (value s w idxK) = None ∨ barred (value s) (dir s) w idxK)) →
       ∀ l, ordinary l → value s w' l = value s w l))).
Proof.
  intros Hw Hf [E1 E2 E3 E4] HN. apply (wp_mutating_handler s _ (delete_outcome s (module_dir ns name provider) version));
    [done..|by intros; eapply delete_outcome_frame|].
  intros w0 Hw0. rewrite E1, E2, E3, E4. apply (wp_delete_version s (module_dir ns name provider) version); [|apply HN|done].
  split; [done|]. by eapply module_dir_names.
Qed.

(** ** A concrete deletion *)

Definition deletion_entries : list (path * node) :=
  let v := ["srv"; "modules"; "acme"; "vpc"; "aws"; "0.9.0"] in
  module_entries ++ [(v, NDir); (v ++ ["module.tar.gz"], NFile "tar" 0)].
Definition deletion_world (faults : list (option nat)) : world :=
  World (list_to_map deletion_entries) faults (λ _, 7%N) 0 (10 ^ 18) ∅ false.
Definition old_vars : Vars :=
  {["namespace" := "acme"; "name" := "vpc"; "provider" := "aws"; "version" := "0.9.0"]}.
Definition module_tar : list string := module_key "acme" "vpc" "aws" "0.9.0" "module.tar.gz".

Lemma deletion_serving faults : serving srv (deletion_world faults).
Proof.
  split; [apply (store_fs_checked ["srv"] deletion_entries); vm_compute; reflexivity|].
  intros k. simpl. by rewrite lookup_empty.
Qed.

(** The reply and the archive afterwards; in the second run writing the index fails. *)
Example deletion_runs :
  let run faults := (λ rw, (status rw.1, value srv rw.2 module_tar)) <$>
    deleteModuleVersionHandler srv old_vars (deletion_world faults) in
  run [] = Some (200%Z, None) ∧ run (replicate 12 None ++ [Some 0]) = Some (500%Z, Some "tar").
Proof. vm_compute. done. Qed.

Lemma deleteModuleVersion_all_or_nothing_witness :
  let w := deletion_world (replicate 12 None ++ [Some 0]) in
  ∃ resp w', deleteModuleVersionHandler srv old_vars w = Some (resp, w') ∧ serving srv w' ∧ free w' ∧
    (status resp = 200%Z ∨ faulted w w' ∨ ∀ l, ordinary l → value srv w' l = value srv w l).
Proof.
  intros w. destruct (deleteModuleVersion_all_or_nothing srv old_vars "acme" "vpc" "aws" "0.9.0" w)
    as (resp & w' & E & Hs & Hf & H).
  - apply deletion_serving.
  - done.
  - by split.
  - by split.
  - exists resp, w'. split; [exact E|]. split; [exact Hs|]. split; [exact Hf|].
    destruct H as [[_ [H|H]]|(_ & _ & _ & H)]; [by left|by right; left|right; right].
    apply H. right. split; [vm_compute; lia|]. intros [Hi|Hb].
    + revert Hi. vm_compute. discriminate.
    + revert Hb. apply unbarred_checked. vm_compute. reflexivity.
Defined.

Lemma deleteProviderVersion_all_or_nothing_witness :
  let w := sums_world in
  let k := provider_dir "acme" "null" ++ ["1.0.0"] in
  ∃ resp w', deleteProviderVersionHandler srv (null_vars "name") w = Some (resp, w') ∧ serving srv w' ∧ free w' ∧
    (status resp = 200%Z ∨ faulted w w' ∨ ∀ l, ordinary l → value srv w' l = value srv w l).
Proof.
  intros w k. destruct (deleteProviderVersion_all_or_nothing srv (null_vars "name") "acme" "null" "1.0.0" "linux" "amd64" w)
    as (resp & w' & E & Hs & Hf & H).
  - apply sums_serving.
  - done.
  - by split.
  - by split.
  - exists resp, w'. split; [exact E|]. split; [exact Hs|]. split; [exact Hf|].
    destruct H as [[_ [H|H]]|(_ & _ & _ & H)]; [by left|by right; left|right; right].
    apply H. by left.
Defined.
