(* ===== verification/Flags.v ===== *)
(** * Options of the command line (cmd/tfreg/main.go)

    The flag sets of the commands and [Parse].  A flag is read by its name,
    which is what the pointers of the source come to, as the names of a set
    are distinct.  What goes to standard error is left out. *)

From S2P Require Import Prelude GoString.

Record flag := mkFlag { fl_name : string; fl_value : string; fl_def : string; fl_desc : string }.
Record boolFlag := mkBoolFlag { bf_name : string; bf_value : bool; bf_def : bool; bf_desc : string }.

Record flagSet := mkFlagSet {
  fs_name : string;
  fs_flags : list flag;
  fs_boolFlags : list boolFlag
}.

Definition newFlagSet (name : string) : flagSet := mkFlagSet name [] [].

(** [StringVar] and [BoolVar]; [String] and [Bool] only differ in who owns the
    variable. *)
Definition StringVar (name def desc : string) (fs : flagSet) : flagSet :=
  mkFlagSet (fs_name fs) (fs_flags fs ++ [mkFlag name def def desc]) (fs_boolFlags fs).
Definition BoolVar (name : string) (def : bool) (desc : string) (fs : flagSet) : flagSet :=
  mkFlagSet (fs_name fs) (fs_flags fs) (fs_boolFlags fs ++ [mkBoolFlag name def def desc]).

(** [os.Getenv], with a default. *)
Definition envOr (env : string → string) (key defaultVal : string) : string :=
  if String.eqb (env key) "" then defaultVal else env key.

(** Set the first flag of that name. *)
Fixpoint set_value (key value : string) (l : list flag) : option (list flag) :=
  match l with
  | [] => None
  | f :: l =>
      if String.eqb (fl_name f) key then Some (mkFlag (fl_name f) value (fl_def f) (fl_desc f) :: l)
      else cons f <$> set_value key value l
  end.

Fixpoint set_true (key : string) (l : list boolFlag) : option (list boolFlag) :=
  match l with
  | [] => None
  | f :: l =>
      if String.eqb (bf_name f) key then Some (mkBoolFlag (bf_name f) true (bf_def f) (bf_desc f) :: l)
      else cons f <$> set_true key l
  end.

Definition known (key : string) (l : list flag) : bool := existsb (λ f, String.eqb (fl_name f) key) l.

(** The loop of [Parse]: the set and the other arguments, or the code the
    process exits with. *)
Fixpoint parse_args (fs : flagSet) (remaining : list string) (args : list string) : result Z (flagSet * list string) :=
  match args with
  | [] => Ok (fs, remaining)
  | arg :: args =>
      if HasPrefix arg "--" then
        let key := TrimPrefix arg "--" in
        if String.eqb key "help" then Err 0%Z
        else
          let bools := set_true key (fs_boolFlags fs) in
          let fs := mkFlagSet (fs_name fs) (fs_flags fs) (default (fs_boolFlags fs) bools) in
          if known key (fs_flags fs) then
            match args with
            | [] => Err 2%Z
            | value :: args =>
                if HasPrefix value "--" then Err 2%Z
                else parse_args (mkFlagSet (fs_name fs) (default (fs_flags fs) (set_value key value (fs_flags fs)))
                                   (fs_boolFlags fs)) remaining args
            end
          else if bools then parse_args fs remaining args
          else Err 2%Z
      else parse_args fs (remaining ++ [arg]) args
  end.

Definition Parse (fs : flagSet) (args : list string) : result Z flagSet :=
  match parse_args fs [] args with
  | Err code => Err code
  | Ok (fs, []) => Ok fs
  | Ok (_, _ :: _) => Err 2%Z
  end.

(** The value of a flag after [Parse]. *)
Definition value_of (fs : flagSet) (key : string) : string :=
  match List.find (λ f, String.eqb (fl_name f) key) (fs_flags fs) with Some f => fl_value f | None => "" end.
Definition is_set (fs : flagSet) (key : string) : bool :=
  match List.find (λ f, String.eqb (bf_name f) key) (fs_boolFlags fs) with Some f => bf_value f | None => false end.

(** ** The grammar of arguments *)

Inductive option_arg := Valued (key value : string) | Switch (key : string).

Definition spelled (o : option_arg) : list string :=
  match o with Valued key value => ["--" +:+ key; value] | Switch key => ["--" +:+ key] end.

(** The options of a set; [--help] is reserved. *)
Definition fits (fs : flagSet) (o : option_arg) : Prop :=
  match o with
  | Valued key value => key ≠ "help" ∧ key ∈ fl_name <$> fs_flags fs ∧ HasPrefix value "--" = false
  | Switch key => key ≠ "help" ∧ key ∈ bf_name <$> fs_boolFlags fs
  end.

#[export] Instance fits_dec fs o : Decision (fits fs o).
Proof. destruct o; unfold fits; apply _. Defined.

(** The last value given, or else the default. *)
Definition given (key def : string) (opts : list option_arg) : string :=
  foldl (λ v o, match o with Valued k w => if String.eqb k key then w else v | Switch _ => v end) def opts.
Definition switched (key : string) (def : bool) (opts : list option_arg) : bool :=
  def || existsb (λ o, match o with Switch k => String.eqb k key | Valued _ _ => false end) opts.

(** The set with the values of [opts]. *)
Definition applied (opts : list option_arg) (fs : flagSet) : flagSet :=
  mkFlagSet (fs_name fs)
    (map (λ f, mkFlag (fl_name f) (given (fl_name f) (fl_value f) opts) (fl_def f) (fl_desc f)) (fs_flags fs))
    (map (λ f, mkBoolFlag (bf_name f) (switched (bf_name f) (bf_value f) opts) (bf_def f) (bf_desc f)) (fs_boolFlags fs)).

(** Names of a set are distinct, and no name is both. *)
Definition distinct (fs : flagSet) : Prop := NoDup ((fl_name <$> fs_flags fs) ++ (bf_name <$> fs_boolFlags fs)).

(** ** Lemmas *)

Lemma applied_nil fs : applied [] fs = fs.
Proof.
  destruct fs as [n fl bl]. unfold applied. simpl. f_equal.
  - induction fl as [|[] fl IH]; [done|]. simpl. by rewrite IH.
  - induction bl as [|[] bl IH]; [done|]. simpl. rewrite IH. unfold switched. simpl. by rewrite orb_false_r.
Qed.

Lemma applied_cons o opts fs : applied (o :: opts) fs = applied opts (applied [o] fs).
Proof.
  unfold applied. simpl. rewrite !map_map. f_equal. apply map_ext. intros b. simpl. unfold switched. simpl.
  by rewrite orb_false_r, orb_assoc.
Qed.

Lemma applied_names opts fs :
  fl_name <$> fs_flags (applied opts fs) = fl_name <$> fs_flags fs ∧
  bf_name <$> fs_boolFlags (applied opts fs) = bf_name <$> fs_boolFlags fs.
Proof. unfold applied. simpl. split; rewrite <- list_fmap_compose; by apply list_fmap_ext. Qed.

Lemma fits_applied opts fs o : fits (applied opts fs) o ↔ fits fs o.
Proof. destruct (applied_names opts fs) as [E1 E2]. destruct o; unfold fits; by rewrite ?E1, ?E2. Qed.

Lemma distinct_applied opts fs : distinct fs → distinct (applied opts fs).
Proof. unfold distinct. destruct (applied_names opts fs) as [-> ->]. done. Qed.

Lemma known_iff key l : known key l = true ↔ key ∈ fl_name <$> l.
Proof.
  unfold known. rewrite existsb_exists, list_elem_of_fmap. split.
  - intros (f & Hin & E%String.eqb_eq). exists f. by rewrite list_elem_of_In.
  - intros (f & -> & Hin). exists f. by rewrite <- list_elem_of_In, String.eqb_refl.
Qed.

Lemma set_value_absent key value l : key ∉ fl_name <$> l →
  map (λ f, mkFlag (fl_name f) (given (fl_name f) (fl_value f) [Valued key value]) (fl_def f) (fl_desc f)) l = l.
Proof.
  induction l as [|[] l IH]; [done|]. rewrite fmap_cons, not_elem_of_cons. intros [Hne Hl]. simpl in *.
  destruct (String.eqb_spec key fl_name0); [done|]. by rewrite IH.
Qed.

Lemma set_value_map key value l : NoDup (fl_name <$> l) → key ∈ fl_name <$> l →
  set_value key value l =
    Some (map (λ f, mkFlag (fl_name f) (given (fl_name f) (fl_value f) [Valued key value]) (fl_def f) (fl_desc f)) l).
Proof.
  induction l as [|[] l IH]; [by intros _ ?%elem_of_nil|]. rewrite fmap_cons, NoDup_cons, elem_of_cons. intros [Hn Hnd] Hk.
  pose proof (set_value_absent fl_name0 value l Hn) as Ha.
  simpl in *. rewrite String.eqb_sym. destruct (String.eqb_spec key fl_name0) as [->|Hne].
  - by rewrite Ha.
  - destruct Hk as [?|Hk]; [done|]. by rewrite IH.
Qed.

Lemma set_true_absent key l : key ∉ bf_name <$> l → set_true key l = None ∧
  map (λ f, mkBoolFlag (bf_name f) (switched (bf_name f) (bf_value f) [Switch key]) (bf_def f) (bf_desc f)) l = l.
Proof.
  induction l as [|[] l IH]; [done|]. rewrite fmap_cons, not_elem_of_cons. intros [Hne Hl]. simpl in *.
  destruct (IH Hl) as [-> ->]. unfold switched. simpl. rewrite String.eqb_sym.
  destruct (String.eqb_spec key bf_name0); [done|]. by rewrite !orb_false_r.
Qed.

Lemma set_true_map key l : NoDup (bf_name <$> l) → key ∈ bf_name <$> l →
  set_true key l =
    Some (map (λ f, mkBoolFlag (bf_name f) (switched (bf_name f) (bf_value f) [Switch key]) (bf_def f) (bf_desc f)) l).
Proof.
  induction l as [|[] l IH]; [by intros _ ?%elem_of_nil|]. rewrite fmap_cons, NoDup_cons, elem_of_cons. intros [Hn Hnd] Hk.
  simpl in *. unfold switched at 1. simpl. rewrite String.eqb_sym. destruct (String.eqb_spec key bf_name0) as [->|Hne].
  - rewrite (proj2 (set_true_absent _ _ Hn)). by rewrite orb_true_r.
  - destruct Hk as [?|Hk]; [done|]. rewrite IH by done. simpl. by rewrite !orb_false_r.
Qed.

(** One option of the grammar is one turn of the loop. *)
Lemma parse_args_option fs o remaining args : distinct fs → fits fs o →
  parse_args fs remaining (spelled o ++ args) = parse_args (applied [o] fs) remaining args.
Proof.
  unfold distinct. rewrite NoDup_app. intros (Hf & Hx & Hb) Ho. destruct o as [key value|key].
  - destruct Ho as (Hh & Hk & Hv). cbn [spelled app parse_args]. rewrite HasPrefix_app, TrimPrefix_app.
    destruct (String.eqb_spec key "help"); [done|]. cbn [fs_flags fs_boolFlags fs_name].
    destruct (set_true_absent key (fs_boolFlags fs) (Hx _ Hk)) as [Hn _]. rewrite Hn.
    rewrite (proj2 (known_iff _ _) Hk), Hv, set_value_map by done. cbn [default]. unfold applied. f_equal. f_equal.
    symmetry. erewrite map_ext; [apply map_id|]. intros []. simpl. unfold switched. simpl. by rewrite orb_false_r.
  - destruct Ho as (Hh & Hk). cbn [spelled app parse_args]. rewrite HasPrefix_app, TrimPrefix_app.
    destruct (String.eqb_spec key "help"); [done|]. cbn [fs_flags fs_boolFlags fs_name].
    destruct (known key (fs_flags fs)) eqn:Ek; [apply known_iff in Ek; by destruct (Hx _ Ek)|].
    rewrite set_true_map by done. cbn [default]. unfold applied. f_equal. f_equal.
    symmetry. erewrite map_ext; [apply map_id|]. by intros [].
Qed.

Lemma parse_args_complete fs opts : distinct fs → Forall (fits fs) opts →
  parse_args fs [] (concat (map spelled opts)) = Ok (applied opts fs, []).
Proof.
  intros Hd Hf. revert fs Hd Hf. induction opts as [|o opts IH]; intros fs Hd Hf; simpl; [by rewrite applied_nil|].
  apply Forall_cons in Hf as [Ho Hf]. rewrite parse_args_option, (applied_cons o opts) by done. apply IH; [by apply distinct_applied|].
  eapply Forall_impl; [exact Hf|]. intros. by apply fits_applied.
Qed.

Lemma set_true_some key l : is_Some (set_true key l) → key ∈ bf_name <$> l.
Proof.
  induction l as [|[] l IH]; simpl; [by intros []|]. destruct (String.eqb_spec bf_name0 key) as [->|]; [by left|].
  destruct (set_true key l); [|by intros []]. right. by apply IH.
Qed.

Lemma split_option arg : HasPrefix arg "--" = true → arg = "--" +:+ TrimPrefix arg "--".
Proof. intros [t ->]%HasPrefix_iff. by rewrite TrimPrefix_app. Qed.

(** What [Parse] lets through: arguments that are no options stay, and without
    any the arguments are options. *)
Lemma parse_args_sound n : ∀ fs remaining args fs' remaining', length args ≤ n → distinct fs →
  parse_args fs remaining args = Ok (fs', remaining') → ∃ more, remaining' = remaining ++ more ∧
    (more = [] → ∃ opts, Forall (fits fs) opts ∧ args = concat (map spelled opts) ∧ fs' = applied opts fs).
Proof.
  induction n as [|n IH]; intros fs remaining [|arg args] fs' remaining' Hn Hd E; simpl in Hn; try lia.
  1,2: injection E as <- <-; exists []; rewrite app_nil_r; split; [done|]; intros _; exists []; by rewrite applied_nil.
  assert (∀ o rest, fits fs o → arg :: args = spelled o ++ rest → length rest ≤ n →
    parse_args (applied [o] fs) remaining rest = Ok (fs', remaining') →
    ∃ more, remaining' = remaining ++ more ∧
      (more = [] → ∃ opts, Forall (fits fs) opts ∧ arg :: args = concat (map spelled opts) ∧ fs' = applied opts fs)) as Hopt.
  { intros o rest Ho Ea Hlen E'. apply IH in E' as (more & Er & Hm); [|done|by apply distinct_applied].
    exists more. split; [done|]. intros Hnil. destruct (Hm Hnil) as (opts & Hf & -> & ->). exists (o :: opts).
    rewrite (applied_cons o opts). split; [constructor; [done|]|by split]. eapply Forall_impl; [exact Hf|]. intros. by apply (fits_applied [o]). }
  cbn [parse_args] in E. destruct (HasPrefix arg "--") eqn:Ep.
  - pose proof (split_option _ Ep) as Earg. destruct (String.eqb_spec (TrimPrefix arg "--") "help") as [|Hh]; [done|].
    cbn [fs_flags fs_boolFlags fs_name] in E. destruct (known (TrimPrefix arg "--") (fs_flags fs)) eqn:Ek.
    + destruct args as [|value args]; [done|]. destruct (HasPrefix value "--") eqn:Ev; [done|].
      assert (fits fs (Valued (TrimPrefix arg "--") value)) as Ho by (split_and!; [done|by apply known_iff|done]).
      apply (Hopt (Valued (TrimPrefix arg "--") value) args Ho); [simpl; by rewrite <- Earg|simpl in Hn; lia|].
      rewrite <- parse_args_option by done. cbn [spelled app parse_args]. rewrite <- Earg, Ep.
      destruct (String.eqb_spec (TrimPrefix arg "--") "help"); [done|]. cbn [fs_flags fs_boolFlags fs_name]. by rewrite Ek, Ev.
    + destruct (set_true (TrimPrefix arg "--") (fs_boolFlags fs)) eqn:Es; [|done].
      assert (fits fs (Switch (TrimPrefix arg "--"))) as Ho by (split; [done|by apply set_true_some; rewrite Es]).
      apply (Hopt (Switch (TrimPrefix arg "--")) args Ho); [simpl; by rewrite <- Earg|lia|].
      rewrite <- parse_args_option by done. cbn [spelled app parse_args]. rewrite <- Earg, Ep.
      destruct (String.eqb_spec (TrimPrefix arg "--") "help"); [done|]. cbn [fs_flags fs_boolFlags fs_name]. by rewrite Ek, Es.
  - apply IH in E as (more & -> & _); [|lia|done]. exists (arg :: more). by rewrite <- app_assoc.
Qed.

Lemma parse_args_code fs remaining args code : parse_args fs remaining args = Err code →
  code = 2%Z ∨ code = 0%Z ∧ "--help" ∈ args.
Proof.
  revert fs remaining. induction args as [args IH] using (induction_ltof1 _ (@length string)). unfold ltof in IH.
  intros fs remaining E. destruct args as [|arg args]; [done|]. simpl in IH. cbn [parse_args] in E.
  assert (∀ more, suffix more args → length more ≤ length args ∧ ("--help" ∈ more → "--help" ∈ arg :: args)) as Hsub.
  { intros more [k ->]. rewrite length_app. split; [lia|]. intros ?. right. apply elem_of_app. by right. }
  assert (∀ fs remaining more, suffix more args → parse_args fs remaining more = Err code →
    code = 2%Z ∨ code = 0%Z ∧ "--help" ∈ arg :: args) as Hrec.
  { intros fs' remaining' more Hm E'. destruct (Hsub more Hm) as [Hl Hi]. destruct (IH more ltac:(lia) _ _ E') as [|[]]; auto. }
  destruct (HasPrefix arg "--") eqn:Ep; [|by eapply Hrec; [|exact E]].
  destruct (String.eqb_spec (TrimPrefix arg "--") "help") as [Eh|_].
  { injection E as <-. right. split; [done|]. apply split_option in Ep. rewrite Eh in Ep. rewrite Ep. left. }
  destruct (known _ _).
  - destruct args as [|value args]; [simplify_eq; auto|]. destruct (HasPrefix value "--"); [simplify_eq; auto|].
    eapply Hrec; [|exact E]. by exists [value].
  - destruct (set_true _ _); [|simplify_eq; auto]. by eapply Hrec; [|exact E].
Qed.

(** C24. [Parse] accepts exactly the argument lists that spell options of the
    set - a value flag with a value that does not begin with two hyphens, a
    switch alone, in any order and number - and gives each value flag the last
    value given or else its default, each switch whether it was given; on any
    other arguments the process exits with status 2, or with 0 when [--help] is
    among them. *)
Theorem Parse_exact (fs : flagSet) (args : list string) : distinct fs →
  (∀ fs', Parse fs args = Ok fs' ↔
     ∃ opts, Forall (fits fs) opts ∧ args = concat (map spelled opts) ∧ fs' = applied opts fs) ∧
  (∀ code, Parse fs args = Err code → code = 2%Z ∨ code = 0%Z ∧ "--help" ∈ args).
Proof.
  intros Hd. unfold Parse. split.
  - intros fs'. split.
    + destruct (parse_args fs [] args) as [[fs1 remaining]|] eqn:E; [|done].
      apply (parse_args_sound (length args)) in E as (more & -> & Hm); [|done|done]. destruct more; [|done].
      intros [= <-]. by apply Hm.
    + intros (opts & Hf & -> & ->). by rewrite parse_args_complete.
  - intros code. destruct (parse_args fs [] args) as [[fs1 []]|c] eqn:E; intros [= <-]; [by left|]. by eapply parse_args_code.
Qed.

(** ** A concrete set *)

Definition list_flags : flagSet :=
  BoolVar "oci-plain-http" false "" (StringVar "output" "." "" (StringVar "namespace" "" "" (newFlagSet "tfreg"))).

Lemma Parse_exact_witness : distinct list_flags ∧
  ∃ fs', Parse list_flags ["--namespace"; "acme"; "--oci-plain-http"; "--namespace"; "corp"] = Ok fs' ∧
    value_of fs' "namespace" = "corp" ∧ value_of fs' "output" = "." ∧ is_set fs' "oci-plain-http" = true.
Proof.
  assert (distinct list_flags) as Hd by (apply (bool_decide_eq_true_1 _); reflexivity). split; [exact Hd|].
  destruct (Parse_exact list_flags ["--namespace"; "acme"; "--oci-plain-http"; "--namespace"; "corp"] Hd) as [H _].
  exists (applied [Valued "namespace" "acme"; Switch "oci-plain-http"; Valued "namespace" "corp"] list_flags).
  split; [|split; [reflexivity|split; reflexivity]]. apply H.
  exists [Valued "namespace" "acme"; Switch "oci-plain-http"; Valued "namespace" "corp"].
  split; [|split; reflexivity]. apply (bool_decide_eq_true_1 (Forall _ _)). reflexivity.
Defined.
