(* ===== verification/Client.v ===== *)
(** * The command line as a client (cmd/tfreg/main.go)

    The process of the CLI: a file system, a network and standard output, with
    [os.Exit]; requests, uploads and downloads.  The network is whatever
    answers requests; what is printed on standard error is left out. *)

From S2P Require Import Prelude GoString GoPath Sha256 Os Json Decode Store Http Auth RateLimit.

(** ** Requests and responses *)

(** [*http.Request]: the body, when there is one, is a form with one file. *)
Record client_request := mkClientRequest {
  q_method : string; q_url : string; q_header : list (string * string); q_body : option upload
}.

(** [*http.Response]: headers under their canonical names; the body, and its
    first JSON value as a [json.Decoder] reads it. *)
Record client_response := mkClientResponse {
  c_status : Z; c_header : gmap string string; c_body : reader; c_json : option json
}.

(** ** The process *)

Section client.
Context {Net : Type}.

Record machine := mkMachine { m_world : world; m_net : Net; m_out : string }.

Definition set_world w (m : machine) := mkMachine w (m_net m) (m_out m).
Definition set_net n (m : machine) := mkMachine (m_world m) n (m_out m).
Definition set_out o (m : machine) := mkMachine (m_world m) (m_net m) o.

(** [inr]: the process has exited with this status. *)
Definition C (A : Type) : Type := machine → option ((A + Z) * machine).

#[export] Instance C_ret : MRet C := λ A a m, Some (inl a, m).
#[export] Instance C_bind : MBind C := λ A B k c m,
  match c m with
  | Some (inl a, m') => k a m'
  | Some (inr code, m') => Some (inr code, m')
  | None => None
  end.

Definition os_Exit {A} (code : Z) : C A := λ m, Some (inr code, m).
Definition Printf (s : string) : C unit := λ m, Some (inl (), set_out (m_out m +:+ s) m).

(** System calls. *)
Definition sys {A} (c : M A) : C A := λ m,
  match c (m_world m) with Some (a, w) => Some (inl a, set_world w m) | None => None end.

(** [if err != nil { return wrap(err) }] *)
Definition try_c {A B} (wrap : error → error) (k : A → C (result error B)) (c : C (result error A)) : C (result error B) :=
  r ← c; match r with Ok a => k a | Err e => mret (Err (wrap e)) end.

(** [if err != nil { ...; os.Exit(1) }] *)
Definition or_exit {A} (c : C (result error A)) : C A :=
  r ← c; match r with Ok a => mret a | Err _ => os_Exit 1 end.

(** A deferred call on [C]. *)
Definition deferred_c {A B} (cleanup : C B) (body : C A) : C A :=
  r ← body; _ ← cleanup; mret r.

(** ** The network *)

Context (send : client_request → Net → result error client_response * Net).
(** what [url.Parse] accepts in [http.NewRequest] *)
Context (url_ok : string → bool).
(** the working directory *)
Context (cwd : path).

Definition http_NewRequest (method url : string) (body : option upload) : result error client_request :=
  if url_ok url then Ok (mkClientRequest method url [] body) else Err (EText "parse").

(** [httpClient.Do] *)
Definition httpClient_Do (q : client_request) : C (result error client_response) := λ m,
  let '(r, net) := send q (m_net m) in Some (inl r, set_net net m).

Definition httpClient_Get (url : string) : C (result error client_response) :=
  match http_NewRequest "GET" url None with
  | Err e => mret (Err e)
  | Ok q => httpClient_Do q
  end.

(** [req.Header.Set("X-API-Key", apiKey)], when there is a key. *)
Definition with_key (apiKey : string) (q : client_request) : client_request :=
  if String.eqb apiKey "" then q
  else mkClientRequest (q_method q) (q_url q) (q_header q ++ [("X-Api-Key", apiKey)]) (q_body q).

(** ** Uploads *)

(** Reading an open file to the end, through [io.Copy]. *)
Definition read_open (n : node) : M reader :=
  ft ← next_fault;
  mret (match n, ft with
        | NFile d _, None => Reader d None
        | NFile d _, Some k => Reader (stake k d) (Some (EOS EIO))
        | _, _ => Reader "" (Some (EOS EISDIR))
        end).

Definition Abs (s : string) : path := filepath_Abs cwd s.

(** The body is piped from the file while the request is sent.  The file path
    comes as the absolute path and as [filepath.Base] of it. *)
Definition uploadFile (url : string) (filePath : path) (filename apiKey : string) : C (result error client_response) :=
  try_c (EWrap "cannot open file") (λ n,
    match http_NewRequest "POST" url None with
    | Err e => mret (Err e)
    | Ok q =>
        content ← sys (read_open n);
        httpClient_Do (with_key apiKey
          (mkClientRequest (q_method q) (q_url q) [("Content-Type", "multipart/form-data")]
             (Some (Part "file" filename content))))
    end) (sys (os_Open filePath)).

(** ** Downloads *)

(** [filepath.Dir] *)
Definition Dir (s : string) : string :=
  match Split s "/" with
  | [] | [_] => "."
  | l => Clean (Join (removelast l) "/" +:+ "/")
  end.

(** [io.Copy(io.MultiWriter(f, hash), body)] *)
Definition copy_all (h : path) (r : reader) : M (result error unit) :=
  _ ←! f_Write h (r_data r);
  mret (match r_err r with Some e => Err e | None => Ok () end).

(** The part of [downloadFileWithChecksum] after the response: [dir] is the
    directory of [dest]. *)
Definition save_body (dir dest : path) (expectedSHA256 : string) (body : reader) : M (result error unit) :=
  _ ←! os_MkdirAll dir;
  '(tmp, f) ←! os_CreateTemp dir ".tfreg-download-";
  deferred (remove_unless_ok f tmp) (
    _ ←! copy_all f body;
    if negb (String.eqb expectedSHA256 "") && negb (EqualFold (sha256_hex (r_data body)) expectedSHA256)
    then mret (Err (EText "SHA256 mismatch"))
    else
      _ ←! f_Sync f;
      _ ←! f_Close f;
      os_Rename tmp dest).

Definition downloadFileWithChecksum (url destPath expectedSHA256 : string) : C (result error unit) :=
  try_c id (λ resp,
    if negb (c_status resp =? 200)%Z then mret (Err (EText ("HTTP " +:+ pretty (c_status resp))))
    else sys (save_body (Abs (Dir destPath)) (Abs destPath) expectedSHA256 (c_body resp))) (httpClient_Get url).

Definition downloadFile (url destPath : string) : C (result error unit) := downloadFileWithChecksum url destPath "".

Definition downloadFileVerified (url destPath expectedSHA256 : string) : C (result error unit) :=
  if negb (slen expectedSHA256 =? 64) then mret (Err (EText "invalid expected SHA256 checksum"))
  else downloadFileWithChecksum url destPath expectedSHA256.

(** ** Replies *)

(** [json.Unmarshal] into a map from names to values: the last member of each
    name; [null] is the empty map. *)
Definition members (body : string) : option (list (string * json)) :=
  match parse body with
  | Some (JObj l) => Some (reverse l)
  | Some JNull => Some []
  | _ => None
  end.

Definition member (l : list (string * json)) (key : string) : option json :=
  snd <$> List.find (λ kv, String.eqb (fst kv) key) l.

Definition newline : string := String "010" "".

(** [io.ReadAll(resp.Body)]: what arrives, the error is dropped. *)
Definition printResponse (resp : client_response) : C unit :=
  let body := r_data (c_body resp) in
  if (c_status resp <? 200)%Z || (300 <=? c_status resp)%Z then os_Exit 1
  else match members body with
       | None => Printf (body +:+ newline)
       | Some l =>
           match member l "message" with
           | Some (JStr msg) =>
               match member l "success" with
               | Some (JBool true) => Printf ("✓ " +:+ msg +:+ newline)
               | _ => os_Exit 1
               end
           | _ => Printf (body +:+ newline)
           end
       end.

(** [uploadArtifact] (publish.go): the reply is read up to a limit, an error
    of that read shows only before it. *)
Definition uploadArtifact (url : string) (path : path) (filename apiKey : string) : C (result error unit) :=
  try_c (EWrap "upload artifact") (λ resp,
    let body := c_body resp in
    let failed := if slen (r_data body) <? N.to_nat (2 ^ 20) then r_err body else None in
    mret (match failed with
          | Some e => Err (EWrap "read upload response" e)
          | None =>
              if (c_status resp <? 200)%Z || (300 <=? c_status resp)%Z
              then Err (EText ("registry returned HTTP " +:+ pretty (c_status resp) +:+ ": "
                               +:+ TrimSpace (stake (N.to_nat (2 ^ 20)) (r_data body))))
              else Ok ()
          end)) (uploadFile url path filename apiKey).

(** ** Workspaces *)

(** [os.MkdirTemp(dir, prefix + "*")] *)
Fixpoint mkdir_temp (tries : nat) (dir : path) (prefix : string) : M (result error path) :=
  n ← next_random;
  let p := dir ++ [prefix +:+ pretty n] in
  r ← os_Mkdir p;
  match r with
  | Ok _ => mret (Ok p)
  | Err (EOS EEXIST) =>
      match tries with
      | O => mret (Err (EOS EEXIST))
      | S tries => mkdir_temp tries dir prefix
      end
  | Err e => mret (Err e)
  end.

Definition os_MkdirTemp (dir : path) (prefix : string) : M (result error path) :=
  mkdir_temp (pred max_tries) dir prefix.

End client.
