(* ===== verification/ClientRuns.v ===== *)
(** * Runs of the client

    Weakest preconditions for the process of the CLI, workspaces, and what an
    upload sends. *)

From S2P Require Import Prelude GoString GoPath Os OsFacts Store StoreFacts KeyValue Http Client.

(** ** Runs of the client *)

Section wpc.
Context {Net : Type}.
#[local] Abbreviation C := (C (Net := Net)).
#[local] Abbreviation machine := (machine (Net := Net)).

Definition wpc {A} (c : C A) (Q : A + Z → machine → Prop) (m : machine) : Prop :=
  match c m with Some (o, m') => Q o m' | None => False end.

Lemma wpc_ret {A} (a : A) Q m : Q (inl a) m → wpc (mret a) Q m.
Proof. done. Qed.

Lemma wpc_mono {A} (c : C A) (P Q : A + Z → machine → Prop) m : wpc c P m → (∀ o m', P o m' → Q o m') → wpc c Q m.
Proof. unfold wpc. destruct (c m) as [[]|]; auto. Qed.

(** A computation that does not exit. *)
Definition returns {A} (Q : A → machine → Prop) (o : A + Z) (m : machine) : Prop :=
  match o with inl a => Q a m | inr _ => False end.

Lemma wpc_bind {A B} (c : C A) (k : A → C B) Q m : wpc c (returns (λ a, wpc (k a) Q)) m → wpc (c ≫= k) Q m.
Proof. unfold wpc, mbind, C_bind. by destruct (c m) as [[[a|z] m']|]. Qed.

Lemma wpc_try {A B} wrap (k : A → C (result error B)) c Q m :
  wpc c (returns (λ r m', match r with Ok a => wpc (k a) Q m' | Err e => Q (inl (Err (wrap e))) m' end)) m →
  wpc (try_c wrap k c) Q m.
Proof. intros H. apply wpc_bind. eapply wpc_mono; [exact H|]. intros [[a|e]|z] m' Hq; done. Qed.

Lemma wpc_sys {A} (c : M A) (Q : A + Z → machine → Prop) m :
  wp c (λ a w', Q (inl a) (set_world w' m)) (m_world m) → wpc (sys c) Q m.
Proof. unfold wpc, sys, wp. by destruct (c (m_world m)) as [[]|]. Qed.

Lemma wpc_total {A} (c : C A) Q m : wpc c Q m → ∃ o m', c m = Some (o, m') ∧ Q o m'.
Proof. unfold wpc. destruct (c m) as [[o m']|]; [|done]. by exists o, m'. Qed.

End wpc.

(** ** Workspaces *)

Lemma wp_mkdir_temp prefix tries dir w : (∀ n : N, plain (prefix +:+ pretty n)) → clean_fs (w_fs w) → Forall plain dir →
  wp (mkdir_temp tries dir prefix) (λ r w', env w w' ∧
    match r with
    | Ok p => (∃ n : N, p = dir ++ [prefix +:+ pretty n]) ∧ w_fs w !! p = None ∧ w_fs w !! dir = Some NDir ∧
              w_fs w' = <[p := NDir]> (w_fs w)
    | Err _ => w_fs w' = w_fs w
    end) w.
Proof.
  intros Hpre Hc Hd. revert w Hc. induction tries as [|tries IH]; intros w Hc; cbn [mkdir_temp];
    apply wp_bind; unfold wp at 1, next_random; cbv zeta; apply wp_bind;
    set (p := dir ++ [prefix +:+ pretty (w_rand w (w_drawn w))]);
    (assert (Forall plain p) as Hp by (apply Forall_app; split; [done|by constructor]));
    (eapply wp_mono; [by apply (wp_mkdir p)|]); simpl; intros [[]|e] w1 [He H1].
  1,3: destruct H1 as (HN & Hpd & Hf); unfold p in Hpd; rewrite parent_app in Hpd; apply wp_ret; split; [by destruct He|];
       split; [by eexists|done].
  - destruct H1 as [Hf _]. destruct e as [[]| | | | |]; apply wp_ret; (split; [by destruct He|exact Hf]).
  - destruct H1 as [Hf _]. assert (env w w1) as Hw1 by by destruct He.
    destruct e as [[]| | | | |]; try (apply wp_ret; by split).
    eapply wp_mono; [apply IH; by rewrite Hf|]. rewrite Hf. intros r w2 [He2 H2]. split; [by etransitivity|exact H2].
Qed.

(** What a computation in the fresh directory [p] leaves: only what is below
    [p] may have changed. *)
Definition inside {Net} (p : path) (m m' : machine (Net := Net)) : Prop :=
  env (m_world m) (m_world m') ∧ clean_fs (w_fs (m_world m')) ∧ m_out m' = m_out m ∧
  ∀ q, ¬ p `prefix_of` q → w_fs (m_world m') !! q = w_fs (m_world m) !! q.

(** The workspace is gone afterwards, with all that was in it, unless a system
    call failed. *)
Definition tidied {Net} (dir : path) (m m' : machine (Net := Net)) : Prop :=
  env (m_world m) (m_world m') ∧ m_out m' = m_out m ∧
  (∀ q, ¬ dir `prefix_of` q → w_fs (m_world m') !! q = w_fs (m_world m) !! q) ∧
  (w_fs (m_world m') = w_fs (m_world m) ∨ faulted (m_world m) (m_world m')).

Section workspace.
Context {Net : Type} (prefix : string) (dir : path) (m : machine (Net := Net)).
Context (Hprefix : ∀ n : N, plain (prefix +:+ pretty n)) (Hdir : Forall plain dir) (Hc : clean_fs (w_fs (m_world m))).

(** The workspace [p], just made. *)
Definition fresh (p : path) (m1 : machine (Net := Net)) : Prop :=
  (∃ n : N, p = dir ++ [prefix +:+ pretty n]) ∧ Forall plain p ∧ w_fs (m_world m) !! p = None ∧
  w_fs (m_world m) !! dir = Some NDir ∧ env (m_world m) (m_world m1) ∧ m_net m1 = m_net m ∧ m_out m1 = m_out m ∧
  w_fs (m_world m1) = <[p := NDir]> (w_fs (m_world m)) ∧ clean_fs (w_fs (m_world m1)).

Lemma fresh_below p q : w_fs (m_world m) !! p = None → p `prefix_of` q → w_fs (m_world m) !! q = None.
Proof using Hc.
  intros HN [x ->]. destruct (w_fs (m_world m) !! (p ++ x)) eqn:E; [|done]. exfalso.
  destruct x; [rewrite app_nil_r in E; congruence|]. apply clean_prefix in E; [congruence|done|done].
Qed.

Lemma wpc_tidy {B} p m1 m2 (R : B → Net → Prop) r : fresh p m1 → inside p m1 m2 → R r (m_net m2) →
  wpc (_ ← sys (os_RemoveAll p); mret r) (returns (λ r m', tidied dir m m' ∧ R r (m_net m'))) m2.
Proof using Hc.
  intros ([n Ep] & Hp & HN & Hd & He1 & _ & Eo1 & Ef1 & _) (He2 & Hc2 & Eo2 & Hq2) HR. apply wpc_bind, wpc_sys.
  eapply wp_mono; [by apply wp_removeall|]. intros x w3 (He3 & Hq3 & H3). apply wpc_ret. cbn [returns set_world m_net m_world m_out].
  assert (env (m_world m) (m_world m2)) as He by by etransitivity.
  assert (∀ q, ¬ p `prefix_of` q → w_fs w3 !! q = w_fs (m_world m) !! q) as Hout.
  { intros q Hq. destruct (Hq3 q) as [->|[_ ?]]; [|done]. rewrite Hq2, Ef1, lookup_insert_ne; [done|by intros ->|done]. }
  split; [|done]. split; [by etransitivity|]. split; [cbn; congruence|]. split.
  - intros q Hq. apply Hout. intros [y ->]. apply Hq. rewrite Ep, <- app_assoc. by eexists.
  - destruct x as [[]|e].
    + left. apply map_eq. intros q. cbn [set_world m_world]. destruct (decide (p `prefix_of` q)) as [Hq|]; [|by apply Hout].
      rewrite (fresh_below p q HN Hq). rewrite H3. destruct (prune p _ !! q) eqn:E; [|done].
      by apply lookup_prune in E as [_ ?].
    + right. destruct H3 as [H3|H3]; [by eapply faulted_r|]. destruct H3. rewrite Ep, parent_app. apply way_dir; [done|].
      rewrite Hq2, Ef1, lookup_insert_ne; [done|congruence|].
      rewrite Ep. intros [y E]. apply (f_equal length) in E. rewrite !length_app in E. simpl in E. clear -E. lia.
Qed.

Lemma wpc_with_workspace {B} wrap (body : path → C (Net := Net) (result error B)) (R : result error B → Net → Prop) :
  (∀ e, R (Err e) (m_net m)) →
  (∀ p m1, fresh p m1 → wpc (body p) (returns (λ r m2, inside p m1 m2 ∧ R r (m_net m2))) m1) →
  wpc (try_c wrap (λ p, deferred_c (sys (os_RemoveAll p)) (body p)) (sys (os_MkdirTemp dir prefix)))
    (returns (λ r m', tidied dir m m' ∧ R r (m_net m'))) m.
Proof using All.
  intros HE HB. apply wpc_try, wpc_sys. eapply wp_mono; [by apply wp_mkdir_temp|].
  intros [p|e] w1 [He1 H1]; cbn [returns].
  - destruct H1 as ([n ->] & HN & Hd & Hf1).
    assert (Forall plain (dir ++ [prefix +:+ pretty n])) as Hp by (apply Forall_app; split; [done|by constructor]).
    assert (fresh (dir ++ [prefix +:+ pretty n]) (set_world w1 m)) as Hfr.
    { split; [by eexists|]. split_and!; try done. cbn [set_world m_world]. rewrite Hf1.
      by apply clean_mkdir; [..|rewrite parent_app|]. }
    apply wpc_bind. eapply wpc_mono; [by apply HB|]. intros [r|z] m2; cbn [returns]; [|done]. intros [Hin HR].
    eapply wpc_tidy; done.
  - split; [|apply HE]. split; [done|]. split; [done|]. cbn [set_world m_world]. rewrite H1. by split; [|left].
Qed.

End workspace.

Section upload.
Context {Net : Type} (send : client_request → Net → result error client_response * Net).
Context (url_ok : string → bool) (apiKey : string).
#[local] Abbreviation machine := (machine (Net := Net)).

(** The request that uploads [content] as [filename]. *)
Definition upload_request (url filename : string) (content : reader) : client_request :=
  with_key apiKey (mkClientRequest "POST" url [("Content-Type", "multipart/form-data")] (Some (Part "file" filename content))).

(** ** Uploading *)

(** The upload of a file that holds [data]: nothing is sent, or the data is,
    unless a read broke off. *)
Lemma wpc_uploadArtifact url h filename data (m : machine) :
  clean_fs (w_fs (m_world m)) → Forall plain h → file (w_fs (m_world m)) h = Some data →
  wpc (uploadArtifact send url_ok url h filename apiKey) (returns (λ r m',
    same (m_world m) (m_world m') ∧ m_out m' = m_out m ∧
    (is_ok r = false ∧ m_net m' = m_net m ∨
     ∃ content, (content = Reader data None ∨ r_err content ≠ None) ∧
       m_net m' = (send (upload_request url filename content) (m_net m)).2 ∧
       (is_ok r = true → ∃ resp, (send (upload_request url filename content) (m_net m)).1 = Ok resp ∧
          (200 ≤ c_status resp < 300)%Z)))) m.
Proof using Type.
  intros Hc Hp [t Hf]%file_some.
  unfold uploadArtifact, uploadFile. apply wpc_try, wpc_try, wpc_sys.
  eapply wp_mono; [by apply wp_stat|]. intros [n|e] w1 [Hs H1]; cbn [returns].
  2:{ split; [done|]. split; [done|]. by left. }
  rewrite Hf in H1. injection H1 as <-. unfold http_NewRequest. destruct (url_ok url).
  2:{ apply wpc_ret. cbn [returns]. split; [done|]. split; [done|]. by left. }
  apply wpc_bind, wpc_sys. cbn [set_world m_world].
  assert (wp (read_open (NFile data t)) (λ content w2, same w1 w2 ∧ (content = Reader data None ∨ r_err content ≠ None)) w1) as Hr.
  { unfold read_open. apply wp_bind, wp_next_fault.
    - intros w2 k He E _ _ _. apply wp_ret. split; [done|]. by right.
    - intros w2 He E _ _. apply wp_ret. split; [done|]. by left. }
  eapply wp_mono; [exact Hr|]. intros content w2 [Hs2 Hcont]. cbn [returns q_method q_url].
  assert (same (m_world m) w2) as Hsame by by etransitivity.
  change (with_key apiKey (mkClientRequest "POST" url _ _)) with (upload_request url filename content).
  unfold wpc at 1, httpClient_Do. cbn [set_world m_net]. unfold wpc. cbn [set_world m_net].
  destruct (send (upload_request url filename content) (m_net m)) as [[resp|e] net] eqn:Es; cbn [returns].
  2:{ split; [exact Hsame|]. split; [done|]. right. exists content. rewrite Es. by split. }
  cbn [mret C_ret wpc]. split; [exact Hsame|]. split; [done|]. right. exists content. rewrite Es. split; [done|]. split; [done|].
  destruct (if _ <? _ then r_err (c_body resp) else None); [done|].
  destruct (_ || _) eqn:Est; [done|]. intros _. exists resp. split; [done|]. apply orb_false_iff in Est as [?%Z.ltb_ge ?%Z.leb_gt]. lia.
Qed.

End upload.
