(* ===== verification/ClientFacts.v ===== *)
(** * What downloads and uploads of the CLI do

    A download changes its destination only to a complete body with the
    expected digest. *)

From S2P Require Import Prelude GoString GoPath Sha256 Os OsFacts Store StoreFacts Http Auth RateLimit Draft Client.

#[local] Opaque sha256_hex.

Definition download_name (n : N) : string := ".tfreg-download-" +:+ pretty n.

Lemma download_name_plain n : plain (download_name n).
Proof. by repeat split. Qed.

(** The body has another digest than the one expected. *)
Definition mismatch (data expected : string) : Prop := expected ≠ "" ∧ EqualFold (sha256_hex data) expected = false.

(** Why a download fails, apart from faults. *)
Definition spoilt (p : path) (expected : string) (body : reader) (w : world) : Prop :=
  hampered p download_name w ∨ is_Some (r_err body) ∨ mismatch (r_data body) expected.

Section save.
Context (p : path) (expected : string) (body : reader).
Context (Hp : Forall plain p) (Hn : p ≠ []) (Hd : ¬ draft p download_name p).
#[local] Abbreviation begun := (begun p download_name).

(** What is known before the deferred call. *)
Definition fetched (h : path) (f0 : fs) (w2 : world) (r : result error unit) (w3 : world) : Prop :=
  match r with
  | Ok _ => filled p h f0 (r_data body) w2 (Ok ()) w3 ∧ r_err body = None ∧ ¬ mismatch (r_data body) expected
  | Err _ => env w2 w3 ∧ (∃ d, drafting h f0 d w3) ∧
      (faulted w2 w3 ∨ f0 !! p = Some NDir ∨ is_Some (r_err body) ∨ mismatch (r_data body) expected)
  end.

Definition fetch (h : path) : M (result error unit) :=
  _ ←! copy_all h body;
  if negb (String.eqb expected "") && negb (EqualFold (sha256_hex (r_data body)) expected)
  then mret (Err (EText "SHA256 mismatch"))
  else _ ←! f_Sync h; _ ←! f_Close h; os_Rename h p.

Lemma wp_fetch h f0 w w2 : begun h f0 w w2 → wp (fetch h) (fetched h f0 w2) w2.
Proof.
  intros Hb. pose proof (be_content _ _ _ _ _ _ Hb) as H0. destruct (draft_apart p download_name Hd h (be_draft _ _ _ _ _ _ Hb)) as [Hph Hdh].
  unfold fetch. apply wp_try. unfold copy_all. apply wp_try.
  eapply wp_mono; [by apply wp_drafting_write|]. intros [[]|e] w3 (He3 & [d Hdr] & H3).
  2:{ apply wp_ret. split; [done|]. split; [by exists d|]. by left. }
  simpl in H3. destruct (r_err body) as [e|] eqn:Ee.
  { apply wp_ret. split; [done|]. split; [by eexists|]. right. right. left. by exists e. }
  destruct (negb (String.eqb expected "") && negb (EqualFold (sha256_hex (r_data body)) expected)) eqn:Em.
  { apply wp_ret. split; [done|]. split; [by eexists|]. do 3 right. apply andb_true_iff in Em as [E1%negb_true_iff E2%negb_true_iff].
    split; [by apply String.eqb_neq|done]. }
  assert (¬ mismatch (r_data body) expected) as Hm.
  { intros [H1 H2]. rewrite H2, andb_true_r in Em. apply negb_false_iff, String.eqb_eq in Em. done. }
  apply wp_try. eapply wp_mono; [by apply wp_drafting_noop|]. intros [[]|e] w4 (He4 & H4 & Hf4).
  2:{ split; [by etransitivity|]. split; [by eexists|]. left. eapply faulted_r; [exact He3|]. by apply Hf4. }
  assert (env w2 w4) as Hw4 by by etransitivity.
  apply wp_try. eapply wp_mono; [by apply wp_drafting_noop|]. intros [[]|e] w5 (He5 & H5 & Hf5).
  2:{ split; [by etransitivity|]. split; [by eexists|]. left. eapply faulted_r; [exact Hw4|]. by apply Hf5. }
  assert (env w2 w5) as Hw5 by by etransitivity.
  eapply wp_mono; [apply (wp_drafting_rename p h f0 (r_data body)); [done..|by apply (be_dir _ _ _ _ _ _ Hb)|done|done]|].
  intros [[]|e] w6 [He6 H6].
  - split; [|done]. split; [by etransitivity|done].
  - destruct H6 as [Hdr6 Hwhy]. split; [by etransitivity|]. split; [done|].
    destruct Hwhy as [Hft|Hdir]; [left; by eapply faulted_r|by right; left].
Qed.

(** [save_body], whatever the body and under any faults. *)
Definition saved (w : world) (r : result error unit) (w' : world) : Prop :=
  beside p download_name w w' ∧
  match r with
  | Ok _ => file (w_fs w') p = Some (r_data body) ∧ r_err body = None ∧ ¬ mismatch (r_data body) expected
  | Err _ => file (w_fs w') p = file (w_fs w) p ∧ (faulted w w' ∨ spoilt p expected body w)
  end.

Lemma wp_remove_unless_ok h f0 w w2 r w3 : begun h f0 w w2 → fetched h f0 w2 r w3 →
  wp (remove_unless_ok h h r) (λ _ w', saved w r w') w3.
Proof.
  intros Hb Hr. unfold remove_unless_ok. apply wp_bind. eapply wp_mono; [apply wp_f_noop|]. intros x w4 [[He4 E4] _].
  destruct r as [[]|e].
  - destruct Hr as (Hfill & Hrest). destruct (draft_taken p download_name h f0 w w2 w3 _ Hb Hfill) as ((He & Hc & Hq) & Hf).
    apply wp_ret. unfold saved, beside. rewrite E4. split; [|done]. split; [by etransitivity|done].
  - destruct Hr as (He3 & [d Hdr] & Hwhy). apply wp_bind.
    assert (env w2 w4) as He24 by by etransitivity.
    eapply wp_mono; [apply (wp_draft_given_up p download_name Hd h f0 d w w2 w4); [done|done|]|].
    { by eapply drafting_same. }
    intros y w5 (Hbe & Hf & He5). apply wp_ret. split; [exact Hbe|]. split; [exact Hf|].
    pose proof (be_env _ _ _ _ _ _ Hb) as He2.
    destruct Hwhy as [Hft|Hwhy]; [left|right].
    + eapply faulted_r; [exact He2|]. eapply faulted_l; [exact Hft|]. by etransitivity.
    + unfold spoilt, hampered. rewrite <- (be_target _ _ _ _ _ _ Hb). tauto.
Qed.

Lemma wp_save_body w : clean_fs (w_fs w) → wp (save_body (parent p) p expected body) (saved w) w.
Proof.
  intros Hc. apply (wp_with_draft p download_name Hp Hn download_name_plain Hd
    (λ '(tmp, f), deferred (remove_unless_ok f tmp) _)); [done| |].
  - intros e w' Hb Hf Hwhy. split; [done|]. split; [done|]. unfold spoilt. tauto.
  - intros h f0 w2 Hb. unfold deferred. apply wp_bind. eapply wp_mono; [by apply (wp_fetch h f0 w)|].
    intros r w3 Hr. apply wp_bind. eapply wp_mono; [by eapply wp_remove_unless_ok|]. intros y w4 H. by apply wp_ret.
Qed.

End save.

(** ** Downloads *)

Section download.
Context {Net : Type} (send : client_request → Net → result error client_response * Net).
Context (url_ok : string → bool) (cwd : path).

(** The destination is an entry of the directory that [filepath.Dir] names. *)
Definition placed (dest : string) : Prop :=
  Abs cwd dest ≠ [] ∧ Abs cwd (Dir dest) = parent (Abs cwd dest) ∧ ¬ draft (Abs cwd dest) download_name (Abs cwd dest).

Lemma Abs_plain s : Forall plain (Abs cwd s).
Proof using Type.
  unfold Abs, filepath_Abs. destruct (clean_parts_shape true (if IsAbs s then Split s "/" else cwd ++ Split s "/")) as (u & d & -> & Hd & Hu).
  by rewrite Hu.
Qed.

(** The reply to the one request a download sends. *)
Definition reply (url : string) (net : Net) : result error client_response :=
  if url_ok url then fst (send (mkClientRequest "GET" url [] None) net) else Err (EText "parse").

(** Why a download may fail. *)
Definition unfetched (url dest expected : string) (m : machine) (w' : world) : Prop :=
  match reply url (m_net m) with
  | Err _ => True
  | Ok resp => c_status resp ≠ 200%Z ∨ faulted (m_world m) w' ∨ spoilt (Abs cwd dest) expected (c_body resp) (m_world m)
  end.

Lemma download_run url dest expected (m : machine (Net := Net)) :
  placed dest → clean_fs (w_fs (m_world m)) →
  ∃ r m', downloadFileWithChecksum send url_ok cwd url dest expected m = Some (inl r, m') ∧ m_out m' = m_out m ∧
    beside (Abs cwd dest) download_name (m_world m) (m_world m') ∧
    match r with
    | Ok _ => ∃ resp, reply url (m_net m) = Ok resp ∧ c_status resp = 200%Z ∧ r_err (c_body resp) = None ∧
        file (w_fs (m_world m')) (Abs cwd dest) = Some (r_data (c_body resp)) ∧
        ¬ mismatch (r_data (c_body resp)) expected
    | Err _ => file (w_fs (m_world m')) (Abs cwd dest) = file (w_fs (m_world m)) (Abs cwd dest) ∧
        unfetched url dest expected m (m_world m')
    end.
Proof using Type.
  intros (Hn & Hdir & Hd) Hc. unfold unfetched.
  assert (beside (Abs cwd dest) download_name (m_world m) (m_world m)) as Hrefl by by split.
  unfold downloadFileWithChecksum, try_c, httpClient_Get, http_NewRequest, reply.
  destruct (url_ok url); [|by exists (Err (EText "parse")), m].
  unfold httpClient_Do. cbv [mbind C_bind mret C_ret]. destruct (send _ (m_net m)) as [[resp|e] net]; simpl.
  2:{ by exists (Err e), (set_net net m). }
  destruct (Z.eqb_spec (c_status resp) 200) as [E200|E200]; cbn [negb].
  2:{ eexists (Err _), (set_net net m). split; [reflexivity|]. split; [done|]. split; [done|]. split; [done|]. by left. }
  destruct (wp_total _ _ _ (wp_save_body (Abs cwd dest) expected (c_body resp) (Abs_plain dest) Hn Hd (m_world m) Hc))
    as (r & w' & E & Hb & Hr).
  exists r, (set_world w' (set_net net m)). unfold sys. rewrite Hdir. simpl. rewrite E. split; [done|]. split; [done|].
  split; [done|]. destruct r as [[]|e].
  - exists resp. split_and!; [done|done|apply Hr..].
  - split; [apply Hr|]. right. apply Hr.
Qed.

End download.
