(* ===== verification/Commands.v ===== *)
(** * Commands that talk to a registry (cmd/tfreg/main.go)

    push, pull, list and delete: options, the request, and what is done with
    the reply.  A command returns, or exits with a status; [main] returning is
    status 0. *)

From S2P Require Import Prelude GoString GoPath Os Json Decode Store Http Index Client Flags.

(** [strings.Repeat(s, n)] and [fmt]'s padding to a width, in runes. *)
Fixpoint Repeat (s : string) (n : nat) : string := match n with O => "" | S n => s +:+ Repeat s n end.
Definition padded (width : nat) (s : string) : string := s +:+ Repeat " " (width - length (runes s)).

Section commands.
Context {Net : Type} (send : client_request → Net → result error client_response * Net).
Context (url_ok : string → bool) (cwd : path) (env : string → string).
#[local] Abbreviation C := (C (Net := Net)).
(** [uploadFile(url, filePath, apiKey)] *)
Definition upload_path (url filePath apiKey : string) : C (result error client_response) :=
  uploadFile send url_ok url (Abs cwd filePath) (Base filePath) apiKey.

Definition default_registry : string := envOr env "TFREG_REGISTRY" "http://localhost:8080".
Definition default_key : string := envOr env "TFREG_API_KEY" "".

(** [fs.Parse(args)] *)
Definition parsed (fs : flagSet) (args : list string) : C flagSet :=
  match Parse fs args with Ok fs => mret fs | Err code => os_Exit code end.

(** Exit with status 1 when one of these options is empty. *)
Definition require (fs : flagSet) (keys : list string) : C unit :=
  if existsb (λ k, String.eqb (value_of fs k) "") keys then os_Exit 1 else mret ().

(** [resp, err := ...; if err != nil { os.Exit(1) }; printResponse(resp)] *)
Definition and_print (c : C (result error client_response)) : C unit :=
  resp ← or_exit c; printResponse resp.

(** A command with a subcommand. *)
Definition dispatch (table : list (string * (list string → C unit))) (args : list string) : C unit :=
  match args with
  | [] => os_Exit 1
  | arg :: args =>
      match List.find (λ kv, String.eqb (fst kv) arg) table with
      | Some kv => snd kv args
      | None => os_Exit 1
      end
  end.

(** ** push *)

Definition api_url (registry : string) (parts : list string) : string :=
  registry +:+ "/api/v1/" +:+ Join parts "/".

Definition provider_flags (fs : flagSet) : flagSet :=
  StringVar "version" "" "Provider version" (StringVar "name" "" "Provider name"
    (StringVar "namespace" "" "Provider namespace" fs)).
Definition module_flags (fs : flagSet) : flagSet :=
  StringVar "version" "" "Module version" (StringVar "provider" "" "Provider name"
    (StringVar "name" "" "Module name" (StringVar "namespace" "" "Module namespace" fs))).
Definition registry_flag (fs : flagSet) : flagSet := StringVar "registry" default_registry "Registry URL" fs.
Definition key_flag (fs : flagSet) : flagSet := StringVar "api-key" default_key "API key" fs.
Definition platform_flags (fs : flagSet) : flagSet :=
  StringVar "arch" "amd64" "Architecture" (StringVar "os" "linux" "Operating system" fs).
Definition output_flag (fs : flagSet) : flagSet := StringVar "output" "." "Output directory" fs.

Definition provider_id (fs : flagSet) : string :=
  value_of fs "namespace" +:+ "/" +:+ value_of fs "name" +:+ "@" +:+ value_of fs "version".
Definition module_id (fs : flagSet) : string :=
  value_of fs "namespace" +:+ "/" +:+ value_of fs "name" +:+ "/" +:+ value_of fs "provider".
Definition platform_id (fs : flagSet) : string := " (" +:+ value_of fs "os" +:+ "/" +:+ value_of fs "arch" +:+ ")...".

Definition pushProvider (args : list string) : C unit :=
  fs ← parsed (platform_flags (StringVar "file" "" "Path to provider ZIP file"
         (provider_flags (key_flag (registry_flag (newFlagSet "tfreg push provider")))))) args;
  require fs ["namespace"; "name"; "version"; "file"];;
  let v := value_of fs in
  let url := api_url (v "registry") ["providers"; v "namespace"; v "name"; v "version"; v "os"; v "arch"] in
  Printf ("Pushing provider " +:+ provider_id fs +:+ platform_id fs +:+ newline);;
  and_print (upload_path url (v "file") (v "api-key")).

Definition pushModule (args : list string) : C unit :=
  fs ← parsed (StringVar "file" "" "Path to module tarball (.tar.gz)"
         (module_flags (key_flag (registry_flag (newFlagSet "tfreg push module"))))) args;
  require fs ["namespace"; "name"; "provider"; "version"; "file"];;
  let v := value_of fs in
  let url := api_url (v "registry") ["modules"; v "namespace"; v "name"; v "provider"; v "version"] in
  Printf ("Pushing module " +:+ module_id fs +:+ "@" +:+ v "version" +:+ "..." +:+ newline);;
  and_print (upload_path url (v "file") (v "api-key")).

Definition handlePush : list string → C unit := dispatch [("provider", pushProvider); ("module", pushModule)].

(** ** pull *)

(** The anonymous struct of [pullProvider]. *)
Record pull_meta := mkPullMeta { pm_filename : string; pm_download_url : string; pm_shasum : string }.

Definition dec_pull_meta : decoder pull_meta := dec_struct [
  ("filename", field pm_filename (λ x t, mkPullMeta x (pm_download_url t) (pm_shasum t)) dec_string);
  ("download_url", field pm_download_url (λ x t, mkPullMeta (pm_filename t) x (pm_shasum t)) dec_string);
  ("shasum", field pm_shasum (λ x t, mkPullMeta (pm_filename t) (pm_download_url t) x) dec_string)].

(** [json.NewDecoder(resp.Body).Decode(&meta)] *)
Definition decode_meta (resp : client_response) : option pull_meta :=
  match c_json resp with
  | None => None
  | Some v => match dec_pull_meta (mkPullMeta "" "" "") v with (meta, true) => Some meta | (_, false) => None end
  end.

(** From the reply to the metadata request on. *)
Definition save_provider (output : string) (resp : client_response) : C unit :=
  if negb (c_status resp =? 200)%Z then os_Exit 1
  else match decode_meta resp with
  | None => os_Exit 1
  | Some meta =>
      let filename := Base (pm_filename meta) in
      if String.eqb filename "." || String.eqb filename "" then os_Exit 1
      else if negb (slen (pm_shasum meta) =? 64) then os_Exit 1
      else
        Printf ("Downloading " +:+ filename +:+ " (sha256: " +:+ stake 16 (pm_shasum meta) +:+ "...)..." +:+ newline);;
        let dest := Join2 output filename in
        or_exit (downloadFileVerified send url_ok cwd (pm_download_url meta) dest (pm_shasum meta));;
        Printf ("Saved to " +:+ dest +:+ newline)
  end.

Definition pullProvider (args : list string) : C unit :=
  fs ← parsed (output_flag (platform_flags (provider_flags (registry_flag (newFlagSet "tfreg pull provider"))))) args;
  require fs ["namespace"; "name"; "version"];;
  let v := value_of fs in
  let metaURL := v "registry" +:+ "/v1/providers/" +:+ Join [v "namespace"; v "name"; v "version"] "/"
                 +:+ "/download/" +:+ v "os" +:+ "/" +:+ v "arch" in
  Printf ("Fetching download info for " +:+ provider_id fs +:+ platform_id fs +:+ newline);;
  resp ← or_exit (httpClient_Get send url_ok metaURL);
  save_provider (v "output") resp.

(** The end of [pullModule]. *)
Definition save_module (outFile : string) (resp : client_response) : C unit :=
  if negb (c_status resp =? 204)%Z then os_Exit 1
  else
    let artifactURL := default "" (c_header resp !! CanonicalHeaderKey "X-Terraform-Get") in
    if String.eqb artifactURL "" then os_Exit 1
    else
      or_exit (downloadFile send url_ok cwd artifactURL outFile);;
      Printf ("Saved to " +:+ outFile +:+ newline).

Definition pullModule (args : list string) : C unit :=
  fs ← parsed (output_flag (module_flags (registry_flag (newFlagSet "tfreg pull module")))) args;
  require fs ["namespace"; "name"; "provider"];;
  let v := value_of fs in
  let latest := String.eqb (v "version") "" in
  let downloadURL := v "registry" +:+ "/v1/modules/" +:+ module_id fs
                     +:+ (if latest then "" else "/" +:+ v "version") +:+ "/download" in
  Printf ("Downloading module " +:+ module_id fs +:+ "..." +:+ newline);;
  resp ← or_exit (httpClient_Get send url_ok downloadURL);
  let outFile := Join2 (v "output") (Join ([v "namespace"; v "name"; v "provider"] ++ (if latest then [] else [v "version"])) "-"
                                       +:+ ".tar.gz") in
  save_module outFile resp.

Definition handlePull : list string → C unit := dispatch [("provider", pullProvider); ("module", pullModule)].

(** ** delete *)

Definition delete_at (url apiKey : string) : C unit :=
  match http_NewRequest url_ok "DELETE" url None with
  | Err _ => os_Exit 1
  | Ok q => and_print (httpClient_Do send (with_key apiKey q))
  end.

Definition deleteProvider (args : list string) : C unit :=
  fs ← parsed (provider_flags (key_flag (registry_flag (newFlagSet "tfreg delete provider")))) args;
  require fs ["namespace"; "name"; "version"];;
  let v := value_of fs in
  Printf ("Deleting provider " +:+ provider_id fs +:+ "..." +:+ newline);;
  delete_at (api_url (v "registry") ["providers"; v "namespace"; v "name"; v "version"]) (v "api-key").

Definition deleteModule (args : list string) : C unit :=
  fs ← parsed (module_flags (key_flag (registry_flag (newFlagSet "tfreg delete module")))) args;
  require fs ["namespace"; "name"; "provider"; "version"];;
  let v := value_of fs in
  Printf ("Deleting module " +:+ module_id fs +:+ "@" +:+ v "version" +:+ "..." +:+ newline);;
  delete_at (api_url (v "registry") ["modules"; v "namespace"; v "name"; v "provider"; v "version"]) (v "api-key").

Definition handleDelete : list string → C unit := dispatch [("provider", deleteProvider); ("module", deleteModule)].

(** ** list *)

(** The arguments without [--registry] and [--api-key], which are taken. *)
Fixpoint list_args (registry apiKey : string) (args : list string) : string * string * list string :=
  match args with
  | [] => (registry, apiKey, [])
  | arg :: args =>
      let keep := let '(r, k, clean) := list_args registry apiKey args in (r, k, arg :: clean) in
      match args with
      | value :: rest =>
          if String.eqb arg "--registry" then list_args value apiKey rest
          else if String.eqb arg "--api-key" then list_args registry value rest
          else keep
      | [] => keep
      end
  end.

Record listed := mkListed { li_namespace : string; li_name : string; li_provider : string; li_versions : option (list string) }.

(** A version of a listing: an object with a member [version]. *)
Definition dec_listed_version : decoder string := dec_struct [("version", dec_string)].

Definition dec_listed (modules : bool) : decoder listed := dec_struct (
  [("namespace", field li_namespace (λ x t, mkListed x (li_name t) (li_provider t) (li_versions t)) dec_string);
   ("name", field li_name (λ x t, mkListed (li_namespace t) x (li_provider t) (li_versions t)) dec_string)] ++
  (if modules then [("provider", field li_provider (λ x t, mkListed (li_namespace t) (li_name t) x (li_versions t)) dec_string)]
   else []) ++
  [("versions", field li_versions (λ x t, mkListed (li_namespace t) (li_name t) (li_provider t) x)
                  (dec_slice "" dec_listed_version))]).

(** [Success] and [Data] of the reply; [Data] as it is. *)
Definition dec_reply : decoder (bool * option json) := dec_struct [
  ("success", field fst (λ x t, (x, snd t)) dec_bool);
  ("data", field snd (λ x t, (fst t, x)) (λ _ v, (Some v, true)))].

Definition row (modules : bool) (t : listed) : string :=
  let versions := default [] (li_versions t) in
  let name := li_namespace t +:+ "/" +:+ li_name t +:+ (if modules then "/" +:+ li_provider t else "") in
  padded (if modules then 35 else 25) name +:+ " " +:+ padded 10 (pretty (length versions)) +:+ " "
  +:+ List.last versions "-" +:+ newline.

Definition listing (modules : bool) (l : list listed) : string :=
  let head := padded (if modules then 35 else 25) (if modules then "MODULE" else "PROVIDER") in
  match l with
  | [] => (if modules then "No modules registered." else "No providers registered.") +:+ newline
  | _ => head +:+ " " +:+ padded 10 "VERSIONS" +:+ " LATEST" +:+ newline
         +:+ Repeat "-" 60 +:+ newline +:+ Join (map (row modules) l) ""
  end.

Definition print_listing (modules : bool) (resp : client_response) : C unit :=
  match Unmarshal dec_reply (r_data (c_body resp)) (false, None) with
  | (_, false) => os_Exit 1
  | ((false, _), true) => os_Exit 1
  | ((true, data), true) =>
      let l := match data with
               | None => None
               | Some v => (dec_slice (mkListed "" "" "" None) (dec_listed modules) None v).1
               end in
      Printf (listing modules (default [] l))
  end.

Definition handleList (args : list string) : C unit :=
  match args with
  | [] => os_Exit 1
  | _ =>
      let '(registry, apiKey, cleanArgs) := list_args default_registry default_key args in
      match cleanArgs with
      | [] => os_Exit 1
      | kind :: _ =>
          if negb (String.eqb kind "providers" || String.eqb kind "modules") then os_Exit 1
          else
            match http_NewRequest url_ok "GET" (registry +:+ "/api/v1/" +:+ kind) None with
            | Err _ => os_Exit 1
            | Ok q =>
                resp ← or_exit (httpClient_Do send (with_key apiKey q));
                print_listing (String.eqb kind "modules") resp
            end
      end
  end.

End commands.
