(* ===== verification/CommandFacts.v ===== *)
(** * What the commands do

    [tfreg pull provider] keeps only what has the digest the registry gave. *)

From S2P Require Import Prelude GoString GoPath Sha256 Os OsFacts Json Decode Store StoreFacts KeyValue StoreSpec Http Auth RateLimit Draft.
From S2P Require Import Client ClientFacts Commands.

#[local] Opaque sha256_hex.

Section pull.
Context {Net : Type} (send : client_request → Net → result error client_response * Net).
Context (url_ok : string → bool) (cwd : path).

(** Where the archive of [meta] goes. *)
Definition destination (output : string) (meta : pull_meta) : string := Join2 output (Base (pm_filename meta)).

(** The digest of [data] is [expected], in either case of letters. *)
Definition has_digest (expected data : string) : Prop := EqualFold (sha256_hex data) expected = true.

Lemma no_mismatch data expected : expected ≠ "" → ¬ mismatch data expected → has_digest expected data.
Proof using Type.
  intros Hne Hm. unfold has_digest. destruct (EqualFold _ _) eqn:E; [done|]. destruct Hm. by split.
Qed.

(** C18. What [tfreg pull provider] saves is what the registry vouched for.
    From the reply to the metadata request on, whatever the network delivers
    and whatever system calls fail, the command ends; it succeeds only when
    the metadata decodes, its checksum has 64 characters, and the complete
    body of the download has that checksum, and then the file is that body;
    otherwise it exits with status 1 and the destination is as before.  No
    other file changes, but for temporary files that could not be removed. *)
Theorem pull_verified (output : string) (resp : client_response) (m : machine (Net := Net)) :
  clean_fs (w_fs (m_world m)) →
  (∀ meta, decode_meta resp = Some meta → placed cwd (destination output meta)) →
  ∃ o m', save_provider send url_ok cwd output resp m = Some (o, m') ∧
    match o with
    | inr code => code = 1%Z
    | inl _ => ∃ meta resp', c_status resp = 200%Z ∧ decode_meta resp = Some meta ∧ slen (pm_shasum meta) = 64 ∧
        reply send url_ok (pm_download_url meta) (m_net m) = Ok resp' ∧ r_err (c_body resp') = None ∧
        file (w_fs (m_world m')) (Abs cwd (destination output meta)) = Some (r_data (c_body resp')) ∧
        has_digest (pm_shasum meta) (r_data (c_body resp'))
    end ∧
    ∀ q, (∀ meta, decode_meta resp = Some meta → let dest := Abs cwd (destination output meta) in
            ¬ draft dest download_name q ∧ (o = inl () → q ≠ dest)) →
      file (w_fs (m_world m')) q = file (w_fs (m_world m)) q.
Proof.
  intros Hc Hplaced. unfold save_provider.
  destruct (Z.eqb_spec (c_status resp) 200) as [E200|E200]; cbn [negb]; [|by exists (inr 1%Z), m].
  destruct (decode_meta resp) as [meta|] eqn:Em; [|by exists (inr 1%Z), m]. cbv zeta.
  destruct (String.eqb _ "." || _); [by exists (inr 1%Z), m|].
  destruct (Nat.eqb_spec (slen (pm_shasum meta)) 64) as [E64|E64]; cbn [negb]; [|by exists (inr 1%Z), m].
  change (Join2 output (Base (pm_filename meta))) with (destination output meta).
  set (m1 := set_out (m_out m +:+ ("Downloading " +:+ Base (pm_filename meta) +:+ " (sha256: "
    +:+ stake 16 (pm_shasum meta) +:+ "...)..." +:+ newline)) m).
  destruct (download_run send url_ok cwd (pm_download_url meta) (destination output meta) (pm_shasum meta) m1
    (Hplaced _ eq_refl) Hc) as (r & m2 & E & _ & (_ & _ & Hq) & Hr).
  assert (downloadFileVerified send url_ok cwd (pm_download_url meta) (destination output meta) (pm_shasum meta) m1 =
    Some (inl r, m2)) as E2 by (unfold downloadFileVerified; by rewrite E64).
  unfold mbind, C_bind, Printf, or_exit. fold m1. unfold mbind, C_bind. rewrite E2. destruct r as [[]|e].
  - destruct Hr as (resp' & Hrep & _ & He & Hf & Hm). eexists (inl ()), _. split; [reflexivity|]. split.
    + exists meta, resp'. split_and!; try done. apply no_mismatch; [|done]. by intros Es; rewrite Es in E64.
    + intros q Hne. destruct (Hne meta eq_refl) as [Hnd Hnq]. apply Hq; [by apply Hnq|done].
  - exists (inr 1%Z), m2. split; [reflexivity|]. split; [done|]. intros q Hne. destruct (Hne meta eq_refl) as [Hnd _].
    destruct (decide (q = Abs cwd (destination output meta))) as [->|Hn]; [apply Hr|by apply Hq].
Qed.

End pull.

(** ** A concrete download *)

Definition home_entries : list (path * node) := [([], NDir); (["home"], NDir)].
Definition home_machine : machine (Net := ()) :=
  mkMachine (World (list_to_map home_entries) [] (λ _, 7%N) 0 0 ∅ false) () "".

Definition file_reply (data : string) : client_response := mkClientResponse 200 ∅ (Reader data None) None.
Definition meta_reply (digest : string) : client_response :=
  mkClientResponse 200 ∅ (Reader "" None) (Some (JObj [
    ("filename", JStr "p.zip"); ("download_url", JStr "http://registry/p.zip"); ("shasum", JStr digest)])).

(** A network with one file. *)
Definition one_file (data : string) (q : client_request) (net : ()) : result error client_response * () :=
  (if String.eqb (q_url q) "http://registry/p.zip" then Ok (file_reply data) else Err (EText "no such host"), net).

Lemma home_clean : clean_fs (w_fs (m_world home_machine)).
Proof. apply (sf_clean ["home"]), (store_fs_checked ["home"] home_entries). vm_compute. reflexivity. Qed.

(** The right digest is saved; another one, or one in upper case, is told apart. *)
Example save_provider_runs :
  (match save_provider (one_file "PK") (λ _, true) ["home"] "." (meta_reply (sha256_hex "PK")) home_machine with
   | Some (inl (), m) => file (w_fs (m_world m)) ["home"; "p.zip"] | _ => None end = Some "PK") ∧
  (match save_provider (one_file "PK") (λ _, true) ["home"] "." (meta_reply (sha256_hex "pk")) home_machine with
   | Some (inr code, m) => (code, file (w_fs (m_world m)) ["home"; "p.zip"]) | _ => (0%Z, None) end = (1%Z, None)).
Proof. vm_compute. split; reflexivity. Qed.

Lemma home_placed digest meta : decode_meta (meta_reply digest) = Some meta → placed ["home"] (destination "." meta).
Proof.
  intros E. assert (pm_filename meta = "p.zip") as Ef by (vm_compute in E; by injection E as <-).
  unfold destination, placed. rewrite Ef. split; [vm_compute; discriminate|]. split; [vm_compute; reflexivity|].
  intros [n En]. change (["home"; "p.zip"] = ["home"] ++ [download_name n]) in En. discriminate En.
Qed.

Lemma pull_verified_witness : ∃ o m',
  save_provider (one_file "PK") (λ _, true) ["home"] "." (meta_reply (sha256_hex "PK")) home_machine = Some (o, m') ∧
  match o with
  | inr code => code = 1%Z
  | inl _ => ∃ meta resp', reply (one_file "PK") (λ _, true) (pm_download_url meta) () = Ok resp' ∧
      has_digest (pm_shasum meta) (r_data (c_body resp'))
  end.
Proof.
  destruct (pull_verified (one_file "PK") (λ _, true) ["home"] "." (meta_reply (sha256_hex "PK")) home_machine
    home_clean (home_placed _)) as (o & m' & E & Ho & _).
  exists o, m'. split; [exact E|]. destruct o as [u|code]; [|exact Ho].
  destruct Ho as (meta & resp' & _ & _ & _ & Hrep & _ & _ & Hd). exists meta, resp'. split; [exact Hrep|exact Hd].
Defined.
