(* ===== verification/Network.v ===== *)
(** * The command line and the server on one network

    The CLI sends its requests into [send]; here [send] is the server itself.
    A request of the CLI becomes a request of the server, and the server's
    reply a reply to the CLI; what lies between - package net/http on both
    sides, and what mux reads from a URL - is a parameter that delivers bodies
    whole or with an error. *)

From S2P Require Import Prelude GoString SemVer GoPath Validation Sha256 Os OsFacts Frame Json Decode Store StoreFacts KeyValue.
From S2P Require Import StoreSpec Index IndexFacts Archive Signing Http Auth AuthFacts RateLimit Api Metrics Protocol ReadFacts.
From S2P Require Import Server Guard Transactions DownloadFacts ModuleUpload Client ClientRuns.

#[local] Opaque sha256_hex.

Section network.
Context {Time : Type}.
Context (dec_time : decoder Time) (enc_time : Time → option json) (zero_time : Time).
Context (zip_NewReader : string → Z → result error (list zip_file)).
Context (gzip_NewReader : string → result error tar_stream).
Context (s : Store) (signer : option RegistrySigner) (maxUploadSize : Z) (ui : assets).
Context (match_route : request → option (route * Vars)) (unmatched : request → response).
#[local] Abbreviation server := (Server.server (Time := Time)).
#[local] Abbreviation chain := (Server.chain dec_time enc_time zero_time).
#[local] Abbreviation serve_endpoint := (Server.serve_endpoint zip_NewReader gzip_NewReader s signer maxUploadSize ui).
#[local] Abbreviation ServeHTTP := (Server.ServeHTTP dec_time enc_time zero_time zip_NewReader gzip_NewReader s signer
  maxUploadSize ui match_route unmatched).

(** The path of a URL, the client's address, the transport of a body, the bytes
    of a reply that is no file, and its first JSON value. *)
Context (url_path : string → string) (remote : string) (carry : reader → reader).
Context (render : body → string) (first_json : body → option json).

(** A body that arrives without an error is the one sent: [http.MaxBytesReader],
    a broken connection and a body that breaks off at the sender all show as
    errors. *)
Definition carries : Prop := ∀ c, r_err (carry c) = None → carry c = c.

Definition request_of (q : client_request) : request :=
  mkRequest (q_method q) (url_path (q_url q)) remote (list_to_map (q_header q))
    (match q_body q with
     | Some (Part form file content) => Part form file (carry content)
     | Some up => up
     | None => NotMultipart (EText "request Content-Type isn't multipart/form-data")
     end) None.

Definition response_of (resp : response) : client_response :=
  mkClientResponse (status resp) (list_to_map (headers resp))
    (carry (Reader (match content resp with BFile data _ => data | b => render b end) None)) (first_json (content resp)).

(** The network: the state of the server and its world.  A request that is
    never answered times out. *)
Definition Net : Type := server * world.

Definition deliver (q : client_request) (net : Net) : result error client_response * Net :=
  match ServeHTTP (request_of q) net.1 net.2 with
  | Some ((resp, sv), w) => (Ok (response_of resp), (sv, w))
  | None => (Err (EText "timeout"), net)
  end.

(** ** A request under no API path *)

(** The limiter's decision on a request. *)
Definition limiter_of (r : request) (sv : server) (w : world) : bool * RateLimiter :=
  allow (w_now w) (client_ip (sv_limiter sv) r) (sv_limiter sv).

(** The state the handler runs in. *)
Definition let_in (r : request) (sv : server) (w : world) : server :=
  set_limiter (limiter_of (r) (add RequestsTotal sv) w).2 (add RequestsTotal sv).

Lemma routeValidation_vars (vars : Vars) : Forall (λ kv, valid_route_var kv.1 kv.2 = true) (map_to_list (vars : gmap string string)) →
  routeValidation (map_to_list (vars : gmap string string)) = None.
Proof. apply routeValidation_none. Qed.

(** It is let through unless the limiter is spent. *)
Lemma public_request r vars (h : Server.Handler (Time := Time)) sv w : managed r = false →
  Forall (λ kv, valid_route_var kv.1 kv.2 = true) (map_to_list (vars : gmap string string)) →
  if (limiter_of r sv w).1
  then ∀ resp sv1 w1, h r vars (let_in r sv w) w = Some ((resp, sv1), w1) →
    ∃ sv2, chain h r vars sv w = Some ((with_headers security_headers resp, sv2), w1) ∧ sv_limiter sv2 = sv_limiter sv1
  else ∃ resp sv2, chain h r vars sv w = Some ((resp, sv2), w) ∧ status resp = 429%Z ∧
    sv_limiter sv2 = (limiter_of r sv w).2.
Proof.
  intros Hm Hv. apply routeValidation_vars in Hv.
  unfold let_in, limiter_of, Server.chain, metricsMiddleware, securityHeadersMiddleware, rateLimitMiddleware, auditMiddleware,
    authMiddleware, routeValidationMiddleware.
  unfold mbind, M_bind, mret, M_ret, time_Now. cbn [sv_limiter add set_metrics].
  destruct (allow _ _ _) as [[] rl]; cbn [fst snd negb].
  - intros resp sv1 w1 E. rewrite Hm. cbn [negb orb]. rewrite Hv, E. by eexists.
  - by do 2 eexists.
Qed.

(** ** An upload *)

Section upload.
Context (ns name provider version : string) (HN : module_names ns name provider version).
#[local] Abbreviation key file := (module_key ns name provider version file).

(** What is stored under the name of a digest has that digest. *)
Definition artifacts_whole (w : world) : Prop := ∀ data,
  ¬ dir s w (key (module_filename data)) ∧ ∀ d, value s w (key (module_filename data)) = Some d → d = data.

(** The module is published with these bytes. *)
Definition holds_module (data : string) (w : world) : Prop :=
  value s w (key "artifact.json") = Some (print (enc_ModuleArtifactMeta (module_meta data))) ∧
  value s w (key (module_filename data)) = Some data.

(** Its version is in the index. *)
Definition lists_version (w : world) : Prop :=
  ∃ idx, index_at (value s w (module_index ns name provider)) = Some idx ∧ version ∈ versions_of idx.

Lemma reindexed_lists idx idx' : reindexed (with_version version idx) idx idx' → version ∈ versions_of idx'.
Proof using Type.
  intros [Hp _]. rewrite Hp. unfold with_version. case_bool_decide; [done|left].
Qed.

Lemma upload_ready_same vars w w1 : same w w1 → module_upload_ready s maxUploadSize vars ns name provider version w →
  module_upload_ready s maxUploadSize vars ns name provider version w1.
Proof using Type.
  intros Hs [[Hr Hu] Hf Hm Hv Hn Ha]. split; try done.
  - split; [by eapply (same_ok (KV := file_store s))|by eapply env_unlocked; [apply Hs|]].
  - unfold free. by rewrite (env_mutation _ _ (proj1 Hs)).
  - unfold names_artifact. by rewrite (same_value (KV := file_store s) w).
Qed.

(** A request answered in the two hundreds carried the whole file, and the
    server then holds it. *)
Lemma deliver_upload apiKey url file content rt vars sv w resp sv' w' :
  carries → store_ok (sv_keys sv) → keys_current (sv_keys sv) w →
  module_upload_ready s maxUploadSize vars ns name provider version w → artifacts_whole w →
  match_route (request_of (upload_request apiKey url file content)) = Some (rt, vars) → target rt = UploadModule →
  deliver (upload_request apiKey url file content) (sv, w) = (Ok resp, (sv', w')) → (200 ≤ c_status resp < 300)%Z →
  r_err content = None ∧ holds_module (r_data content) w' ∧ lists_version w' ∧ serving s w'.
Proof using HN.
  intros Hcarry Hok Hcur Hready Hwhole Hrt Ht E Hst. unfold deliver in E. cbn [fst snd] in E.
  set (q := request_of _) in *. unfold Server.ServeHTTP in E. rewrite Hrt, Ht in E.
  destruct (chain_gate dec_time enc_time zero_time q vars sv w Hok)
    as [(r0 & sv0 & w0 & Hs & E0)|(sv1 & w1 & post & ([_ Hadm] & _ & _) & Hf & E1)].
  { rewrite E0 in E. injection E as <- _ _. exfalso. cbn [response_of c_status] in Hst. unfold refusals in Hs.
    rewrite !elem_of_cons, elem_of_nil in Hs. lia. }
  destruct (Hadm Hcur) as [Hsame _]. rewrite E1 in E. cbn [Server.serve_endpoint] in E.
  assert (r_upload q = Part "file" file (carry content)) as Hup.
  { unfold q, upload_request, with_key. by destruct (String.eqb apiKey ""). }
  rewrite Hup in E.
  destruct (wp_total _ _ _ (wp_uploadModuleHandler gzip_NewReader s maxUploadSize vars ns name provider version
    (Part "file" file (carry content)) w1 (upload_ready_same vars w w1 Hsame Hready))) as (r2 & w2 & E2 & _ & _ & Hserv & Hout).
  unfold answer, mbind, M_bind, mret, M_ret in E. rewrite E2 in E.
  destruct (Hf r2 (respond r2 sv1).2 w2) as (r3 & sv3 & E3 & Es3). rewrite <- respond_split in E3. rewrite E3 in E.
  injection E as <- <- <-. cbn [response_of c_status] in Hst.
  destruct Hout as [_ [(_ & Hacc & (Hmeta & Hidx & _) & Hzip)|(? & _)]]; [|lia].
  destruct Hacc as (f & Ef & _ & _ & Hacc). unfold upload_data in *. rewrite Ef in *.
  assert (f = carry content) as ->.
  { cbn [multipartUploadPart] in Ef. destruct (_ || _); [done|]. by injection Ef. }
  destruct Hacc as (He & _ & _). pose proof (Hcarry content He) as Hce. rewrite Hce in He, Hmeta, Hzip. split; [done|].
  destruct (Hwhole (r_data content)) as [Hnd Hv].
  assert (∀ l, value s w1 l = value s w l) as same_at by (intros l; by apply (same_value (KV := file_store s))).
  split; [split; [done|]|split; [|done]].
  - apply Hzip; [|intros d; rewrite same_at; apply Hv]. by rewrite (same_dir (KV := file_store s) w w1).
  - destruct Hidx as (idx & idx' & _ & Ei' & Hr). exists idx'. split; [done|]. by eapply reindexed_lists.
Qed.

End upload.

(** ** Downloads *)

Lemma respond_limiter resp (sv : server) : sv_limiter (respond resp sv).2 = sv_limiter sv.
Proof using Type.
  unfold respond. cbn [snd]. generalize sv. induction (counted resp) as [|c l IH]; intros sv'; [done|].
  cbn [foldl]. by rewrite IH.
Qed.

(** A request for a route of the read-only endpoints whose path is not under
    the API: the reply of the endpoint, with more headers, or 429. *)
Lemma deliver_read q rt vars (e : get_endpoint) (R : response → Prop) sv w :
  match_route (request_of q) = Some (rt, vars) → target rt = Get_ e → managed (request_of q) = false →
  Forall (λ kv, valid_route_var kv.1 kv.2 = true) (map_to_list (vars : gmap string string)) →
  wp (serve_get s signer vars e) (λ r w', same w w' ∧ R r) w →
  ∃ resp sv' w', deliver q (sv, w) = (Ok resp, (sv', w')) ∧ same w w' ∧
    sv_limiter sv' = (limiter_of (request_of q) sv w).2 ∧
    if (limiter_of (request_of q) sv w).1
    then ∃ r, R r ∧ resp = response_of (with_headers security_headers r)
    else c_status resp = 429%Z.
Proof using Type.
  intros Hrt Ht Hm Hv H. unfold deliver, Server.ServeHTTP. cbn [fst snd]. rewrite Hrt, Ht.
  pose proof (public_request (request_of q) vars (serve_endpoint (Get_ e)) sv w Hm Hv) as Hp.
  destruct (limiter_of (request_of q) sv w).1.
  - apply wp_total in H as (r & w' & E & Hs & HR).
    destruct (Hp r (respond r (let_in (request_of q) sv w)).2 w') as (sv2 & E2 & El).
    { cbn [Server.serve_endpoint]. unfold answer, mbind, M_bind, mret, M_ret. by rewrite E, <- respond_split. }
    rewrite E2. do 3 eexists. split; [done|]. split; [done|]. split; [by rewrite El, respond_limiter|]. by exists r.
  - destruct Hp as (resp & sv2 & E & Es & El). rewrite E. by do 3 eexists.
Qed.

(** The path of a matched request begins with the text of its row. *)
Lemma unmanaged_route {HR : Router match_route} r rt vars : match_route r = Some (rt, vars) →
  (literal_prefix (template rt) = "/v1/modules/" ∨ literal_prefix (template rt) = "/download/") → managed r = false.
Proof using Type.
  intros E Hl. pose proof (router_path _ _ _ E) as Hp. unfold managed.
  destruct Hl as [Hl|Hl]; rewrite Hl, HasPrefix_iff in Hp; destruct Hp as [t ->]; done.
Qed.

Section download.
Context (ns name provider version : string) (HN : module_names ns name provider version).
#[local] Abbreviation zipK data := (module_key ns name provider version (module_filename data)).

Lemma deliver_module_download {HR : Router match_route} data q rt vars sv w :
  match_route (request_of q) = Some (rt, vars) → rt = get "/v1/modules/{namespace}/{name}/{provider}/{version}/download" (Get_ GetModuleDownload) →
  module_route vars ns name provider version →
  Forall (λ kv, valid_route_var kv.1 kv.2 = true) (map_to_list (vars : gmap string string)) →
  calm w → ready s w → holds_module ns name provider version data w →
  ∃ resp sv' w', deliver q (sv, w) = (Ok resp, (sv', w')) ∧ same w w' ∧
    sv_limiter sv' = (limiter_of (request_of q) sv w).2 ∧
    if (limiter_of (request_of q) sv w).1
    then c_status resp = 204%Z ∧ c_header resp !! "X-Terraform-Get" = Some (DownloadURL s (slash (zipK data)))
    else c_status resp = 429%Z.
Proof using HN.
  intros Hrt -> Hvars Hvalid Hc Hready [Hm Hz].
  destruct (deliver_read q _ vars GetModuleDownload (λ r, r = module_redirect (s := s) ns name provider version data) sv w
    Hrt eq_refl) as (resp & sv' & w' & E & Hs & El & H).
  - eapply unmanaged_route; [exact Hrt|]. by left.
  - done.
  - apply (wp_moduleDownload_published (KV := file_store s)); try done. by rewrite Hz.
  - exists resp, sv', w'. do 3 (split; [done|]). destruct (limiter_of _ _ _).1; [|done].
    destruct H as (r & -> & ->). split; reflexivity.
Qed.

Lemma deliver_file {HR : Router match_route} data q rt sv w :
  match_route (request_of q) = Some (rt, path_vars (zipK data)) → rt = get "/download/{path:.*}" (Get_ GetFile) →
  calm w → ready s w → holds_module ns name provider version data w →
  ∃ resp sv' w', deliver q (sv, w) = (Ok resp, (sv', w')) ∧ same w w' ∧
    sv_limiter sv' = (limiter_of (request_of q) sv w).2 ∧
    if (limiter_of (request_of q) sv w).1
    then c_status resp = 200%Z ∧ c_body resp = carry (Reader data None)
    else c_status resp = 429%Z.
Proof using HN.
  intros Hrt -> Hc Hready [Hm Hz].
  destruct (deliver_read q _ _ GetFile (λ r, status r = 200%Z ∧ ∃ t, content r = BFile data t) sv w
    Hrt eq_refl) as (resp & sv' & w' & E & Hs & El & H).
  - eapply unmanaged_route; [exact Hrt|]. by right.
  - assert (map_to_list (path_vars (zipK data) : gmap string string) = [("path", slash (zipK data))]) as ->
      by apply (map_to_list_singleton (M := gmap string)). by repeat constructor.
  - apply wp_fileDownload; [done|done|apply good_module_key; [done|apply module_file_named]|by apply published_module_path|done].
  - exists resp, sv', w'. do 3 (split; [done|]). destruct (limiter_of _ _ _).1; [|done].
    destruct H as (r & (Hst & t & Hct) & ->). split; [done|]. cbn [response_of c_body with_headers content]. by rewrite Hct.
Qed.

End download.

End network.
