(* ===== verification/Oci.v ===== *)
(** * OCI artifacts (cmd/tfreg/oci.go, cmd/tfreg/import.go, cmd/tfreg/publish.go)

    How the CLI packs an archive as an OCI artifact, and how it takes one
    apart again: the manifest is checked, the layer is verified against its
    digest, and only then is the archive uploaded.  The oras, image-spec and
    go-digest libraries are parameters: a target stores and delivers content, a
    digest is checked and compared, a manifest is decoded. *)

From S2P Require Import Prelude GoString SemVer Regex Validation GoPath Os Json Decode Store Http Auth Client.

Definition maxOCIManifestBytes : Z := (4 * 2 ^ 20)%Z.

Definition terraformOCIArtifactType : string := "application/vnd.terraform.registry.artifact.v1".
Definition terraformProviderLayerType : string := "application/vnd.terraform.provider.package.v1+zip".
Definition terraformModuleLayerType : string := "application/vnd.terraform.module.package.v1+tar+gzip".

(** [ocispec.Descriptor] and [ocispec.Manifest], with the fields the program
    uses. *)
Record Descriptor := mkDescriptor {
  MediaType : string; Digest : string; Size : Z; d_Annotations : gmap string string
}.
Record Manifest := mkManifest {
  SchemaVersion : Z; ArtifactType : string; Layers : list Descriptor; m_Annotations : gmap string string
}.

Definition media_type_image_manifest : string := "application/vnd.oci.image.manifest.v1+json".

(** ** Identities *)

Record ociArtifactMetadata := mkMetadata {
  Kind : string; Namespace : string; Name : string; Provider : string; Version : string; OS_ : string; Arch_ : string
}.

Definition annotation (a : gmap string string) (key : string) : string := default "" (a !! key).

Definition valid_provider (t : ociArtifactMetadata) : bool :=
  validImportName (Namespace t) && validImportName (Name t) && validImportName (OS_ t) && validImportName (Arch_ t)
  && validImportVersion (Version t).
Definition valid_module (t : ociArtifactMetadata) : bool :=
  validImportName (Namespace t) && validImportName (Name t) && validImportName (Provider t)
  && validImportVersion (Version t).

Definition metadataFromOCIManifest (manifest : Manifest) : result error ociArtifactMetadata :=
  let annotations := annotation (m_Annotations manifest) in
  let metadata := mkMetadata (annotations "io.terraform.kind") (annotations "io.terraform.namespace")
    (annotations "io.terraform.name") (annotations "io.terraform.provider") (annotations "io.terraform.version")
    (annotations "io.terraform.os") (annotations "io.terraform.arch") in
  match Layers manifest with
  | [layer] =>
      if String.eqb (Kind metadata) "provider" then
        if negb (String.eqb (MediaType layer) terraformProviderLayerType) then Err (EText "provider layer media type")
        else if negb (valid_provider metadata) then Err (EText "missing or invalid identity annotations")
        else Ok metadata
      else if String.eqb (Kind metadata) "module" then
        if negb (String.eqb (MediaType layer) terraformModuleLayerType) then Err (EText "module layer media type")
        else if negb (valid_module metadata) then Err (EText "missing or invalid identity annotations")
        else Ok metadata
      else Err (EText "unsupported Terraform artifact kind")
  | _ => Err (EText "exactly one layer")
  end.

(** [artifactAnnotations] (publish.go) *)
Definition artifactAnnotations (kind namespace name provider version osName arch title : string) : gmap string string :=
  let set k v (m : gmap string string) := if String.eqb v "" then m else <[k := v]> m in
  set "io.terraform.arch" arch (set "io.terraform.os" osName (set "io.terraform.provider" provider
    (<["io.terraform.version" := version]> (<["io.terraform.name" := name]>
      (<["io.terraform.namespace" := namespace]> (<["io.terraform.kind" := kind]>
        (<["org.opencontainers.image.title" := title]> ∅))))))).

(** ** Where an artifact is uploaded *)

(** [url.PathEscape] *)
Definition path_safe (a : ascii) : bool :=
  in_range "A" "Z" a || in_range "a" "z" a || in_range "0" "9" a ||
  sexists (λ b, bool_decide (b = a)) "-_.~$&+:=@".

Definition upper_hex (n : N) : ascii := if (n <? 10)%N then ascii_of_N (48 + n) else ascii_of_N (55 + n).

Fixpoint PathEscape (s : string) : string :=
  match s with
  | "" => ""
  | String a s =>
      if path_safe a then String a (PathEscape s)
      else String "%" (String (upper_hex (byte_of a / 16)) (String (upper_hex (byte_of a mod 16)) (PathEscape s)))
  end.

(** [*url.URL]: the fields the program reads or sets; [u_rest] is the rest. *)
Record URL (Rest : Type) := mkURL {
  Scheme : string; Host : string; has_User : bool; u_Path : string; RawQuery : string; Fragment : string; u_rest : Rest
}.
Arguments mkURL {Rest}. Arguments Scheme {Rest}. Arguments Host {Rest}. Arguments has_User {Rest}.
Arguments u_Path {Rest}. Arguments RawQuery {Rest}. Arguments Fragment {Rest}. Arguments u_rest {Rest}.

Definition with_path {Rest} (p : string) (u : URL Rest) : URL Rest :=
  mkURL (Scheme u) (Host u) (has_User u) p (RawQuery u) (Fragment u) (u_rest u).

Section urls.
Context {Rest : Type} (url_Parse : string → result error (URL Rest)) (url_String : URL Rest → string).

Definition segments (t : ociArtifactMetadata) : result error (list string) :=
  if String.eqb (Kind t) "provider" then
    if negb (valid_provider t) then Err (EText "provider identity is missing or invalid")
    else Ok ["api"; "v1"; "providers"; Namespace t; Name t; Version t; OS_ t; Arch_ t]
  else if String.eqb (Kind t) "module" then
    if negb (valid_module t) then Err (EText "module identity is missing or invalid")
    else Ok ["api"; "v1"; "modules"; Namespace t; Name t; Provider t; Version t]
  else Err (EText "unsupported Terraform artifact kind").

Definition importUploadURL (registryURL : string) (metadata : ociArtifactMetadata) : result error string :=
  match url_Parse (TrimRight registryURL "/") with
  | Err _ => Err (EText "invalid Terraform registry URL")
  | Ok base =>
      if negb (String.eqb (Scheme base) "http" || String.eqb (Scheme base) "https") || String.eqb (Host base) ""
         || has_User base || negb (String.eqb (RawQuery base) "") || negb (String.eqb (Fragment base) "")
      then Err (EText "invalid Terraform registry URL")
      else
        segs ←? segments metadata;
        Ok (url_String (with_path (TrimRight (u_Path base) "/" +:+ "/" +:+ Join (map PathEscape segs) "/") base))
  end.

End urls.

(** ** Taking an artifact apart *)

Section oci.
Context {Net : Type} (send : client_request → Net → result error client_response * Net).
Context (url_ok : string → bool).
Context {Rest : Type} (url_Parse : string → result error (URL Rest)) (url_String : URL Rest → string).
#[local] Abbreviation C := (C (Net := Net)).

(** package digest: [Digest.Validate], and whether content written to the
    [Digest.Verifier] is [Verified]; [digest.FromReader] on content. *)
Context (digest_Validate : string → bool) (digest_Verified : string → string → bool) (digest_of : string → string).
(** [json.Unmarshal] into an [ocispec.Manifest] *)
Context (decode_manifest : string → result error Manifest).

(** [oras.Target] *)
Record Target := mkTarget {
  Fetch : Descriptor → Net → result error reader * Net;
  Push : Descriptor → reader → Net → result error unit * Net;
  PackManifest : string → list Descriptor → gmap string string → Net → result error Descriptor * Net
}.

Definition on_net {A} (f : Net → A * Net) : C A := λ m,
  let '(a, net) := f (m_net m) in Some (inl a, set_net net m).

(** [io.ReadAll(io.LimitReader(r, limit))] *)
Definition read_limited (r : reader) (limit : Z) : result error string :=
  let n := Z.to_nat limit in
  match (if slen (r_data r) <? n then r_err r else None) with
  | Some e => Err e
  | None => Ok (stake n (r_data r))
  end.

Definition fetchDescriptor (source : Target) (descriptor : Descriptor) (maxBytes : Z) : C (result error string) :=
  if negb (digest_Validate (Digest descriptor)) then mret (Err (EText "invalid descriptor digest"))
  else if (Size descriptor <? 0)%Z || (maxBytes <? Size descriptor)%Z then
    mret (Err (EText "descriptor size exceeds limit"))
  else
    try_c id (λ r, mret (
      body ←? read_limited r (int64_wrap (maxBytes + 1));
      let len := Z.of_nat (slen body) in
      if (maxBytes <? len)%Z || negb (len =? Size descriptor)%Z then
        Err (EText "descriptor size mismatch or limit exceeded")
      else if negb (digest_Verified (Digest descriptor) body) then Err (EText "descriptor digest verification failed")
      else Ok body)) (on_net (Fetch source descriptor)).

(** The checks of a decoded manifest, before anything is downloaded: the
    metadata and the layer. *)
Definition check_manifest (manifest : Manifest) (maxBytes : Z) : result error (ociArtifactMetadata * Descriptor) :=
  if negb (SchemaVersion manifest =? 2)%Z then Err (EText "unsupported OCI schema version")
  else if negb (String.eqb (ArtifactType manifest) terraformOCIArtifactType) then
    Err (EText "unsupported OCI artifact type")
  else match Layers manifest with
  | [layer] =>
      metadata ←? metadataFromOCIManifest manifest;
      if negb (digest_Validate (Digest layer)) then Err (EText "invalid OCI artifact digest")
      else if (Size layer <? 0)%Z || (maxBytes <? Size layer)%Z then Err (EText "OCI artifact size exceeds limit")
      else Ok (metadata, layer)
  | _ => Err (EText "Terraform OCI artifact must contain exactly one layer")
  end.

(** The download of the layer into the open file [h]. *)
Definition unpack_layer (h : path) (r : reader) (layer : Descriptor) (maxBytes : Z) : M (result error unit) :=
  written ←! copy_limited h r (int64_wrap (maxBytes + 1)) wrapping "download OCI artifact layer";
  mret (if (maxBytes <? written)%Z then Err (EText "OCI artifact exceeds limit")
        else if negb (written =? Size layer)%Z then Err (EText "OCI artifact size mismatch")
        else if negb (digest_Verified (Digest layer) (stake (Z.to_nat written) (r_data r)))
        then Err (EText "OCI artifact digest verification failed")
        else Ok ()).

Definition unpackOCIArtifact (source : Target) (manifestDescriptor : Descriptor) (output : path) (maxBytes : Z)
    : C (result error ociArtifactMetadata) :=
  if negb (String.eqb (MediaType manifestDescriptor) media_type_image_manifest) then
    mret (Err (EText "unsupported OCI manifest media type"))
  else
    try_c (EWrap "fetch OCI manifest") (λ manifestBody,
    try_c (EWrap "decode OCI manifest") (λ manifest,
    try_c id (λ '(metadata, layer),
    try_c (EWrap "fetch OCI artifact layer") (λ r,
    try_c id (λ _, mret (Ok metadata))
      (sys (unpack_layer output r layer maxBytes)))
      (on_net (Fetch source layer)))
      (mret (check_manifest manifest maxBytes)))
      (mret (decode_manifest manifestBody)))
      (fetchDescriptor source manifestDescriptor maxOCIManifestBytes).

(** [os.TempDir()] *)
Context (tmpdir : path).

(** From the temporary file on; the file is closed whatever happens. *)
Definition import_file (source : Target) (manifestDescriptor : Descriptor) (registryURL apiKey : string) (maxBytes : Z)
    (artifactPath artifactFile : path) : C (result error ociArtifactMetadata) :=
  unpacked ← unpackOCIArtifact source manifestDescriptor artifactFile maxBytes;
  match unpacked with
  | Err e => _ ← sys (f_Close artifactFile); mret (Err e)
  | Ok metadata =>
      try_c (EWrap "close temporary artifact") (λ _,
      try_c id (λ uploadURL,
      try_c (EWrap "upload imported OCI artifact") (λ _, mret (Ok metadata))
        (uploadArtifact send url_ok uploadURL artifactPath (base_name artifactPath) apiKey))
        (mret (importUploadURL url_Parse url_String registryURL metadata)))
        (sys (f_Close artifactFile))
  end.

Definition importOCIArtifactFromTarget (source : Target) (manifestDescriptor : Descriptor) (registryURL apiKey : string)
    (maxBytes : Z) : C (result error ociArtifactMetadata) :=
  try_c (EWrap "create OCI import workspace") (λ temporaryDirectory,
    deferred_c (sys (os_RemoveAll temporaryDirectory)) (
      try_c (EWrap "create temporary artifact") (λ '(artifactPath, artifactFile),
        import_file source manifestDescriptor registryURL apiKey maxBytes artifactPath artifactFile)
        (sys (os_CreateTemp temporaryDirectory "artifact-"))))
    (sys (os_MkdirTemp tmpdir "tfreg-oci-import-")).

(** ** Packing an artifact *)

(** [time.Now().UTC().Format(time.RFC3339)] *)
Context (rfc3339 : Z → string).

Definition layer_type (kind : string) : option string :=
  if String.eqb kind "provider" then Some terraformProviderLayerType
  else if String.eqb kind "module" then Some terraformModuleLayerType else None.

(** The manifest's annotations: the given ones, and the time unless given. *)
Definition with_created (annotations : gmap string string) (now : Z) : gmap string string :=
  match annotations !! "org.opencontainers.image.created" with
  | Some _ => annotations
  | None => <["org.opencontainers.image.created" := rfc3339 now]> annotations
  end.

(** [info.Size()] of an open file; a directory, which has one of its own, then
    fails to be read. *)
Definition info_Size (n : node) : Z := match n with NFile d _ => Z.of_nat (slen d) | _ => 0 end.

Definition packOCIArtifact (target : Target) (artifactPath : path) (kind : string) (annotations : gmap string string)
    : C (result error Descriptor) :=
  match layer_type kind with
  | None => mret (Err (EText "unsupported Terraform artifact kind"))
  | Some mediaType =>
      try_c (EWrap "open artifact") (λ n,
      try_c (EWrap "stat artifact") (λ size,
      content ← sys (read_open n);
      match r_err content with
      | Some e => mret (Err (EWrap "hash artifact" e))
      | None =>
          let data := r_data content in
          try_c (EWrap "rewind artifact") (λ _,
          let layer := mkDescriptor mediaType (digest_of data) size
                         {["org.opencontainers.image.title" := base_name artifactPath]} in
          again ← sys (read_open n);
          try_c (EWrap "stage OCI layer") (λ _,
          now ← sys time_Now;
          on_net (PackManifest target terraformOCIArtifactType [layer] (with_created annotations now)))
            (on_net (Push target layer again)))
            (sys (f_Seek artifactPath))
      end)
        (sys (query (λ _, Ok (info_Size n)))))
        (sys (os_Open artifactPath))
  end.

(** ** References and repositories *)

(** [registry.Reference], with its own checks. *)
Record Reference := mkReference {
  ref_Registry : string; ref_Repository : string; ref_Reference : string; is_tag : bool; is_digest_ref : bool
}.
Context (ParseReference : string → result error Reference).

Definition splitOCIReference (value : string) : result error (string * string) :=
  match ParseReference (TrimSpace value) with
  | Err e => Err (EWrap "invalid OCI reference" e)
  | Ok ref =>
      if negb (is_tag ref) || String.eqb (ref_Reference ref) "" then
        Err (EText "OCI reference must include an explicit tag")
      else Ok (ref_Registry ref +:+ "/" +:+ ref_Repository ref, ref_Reference ref)
  end.

Definition splitOCIImportReference (value : string) : result error (string * string) :=
  match ParseReference (TrimSpace value) with
  | Err e => Err (EWrap "invalid OCI reference" e)
  | Ok ref =>
      if String.eqb (ref_Reference ref) "" then Err (EText "OCI reference must include an explicit tag or digest")
      else if negb (is_tag ref) && negb (is_digest_ref ref) then
        Err (EText "OCI reference must include a valid tag or digest")
      else Ok (ref_Registry ref +:+ "/" +:+ ref_Repository ref, ref_Reference ref)
  end.

(** A repository as a target, with [Resolve] and [Tag]. *)
Record Repository := mkRepository {
  repo_target : Target;
  Resolve : string → Net → result error Descriptor * Net;
  Tag : Descriptor → string → Net → result error unit * Net
}.

(** Credentials of package auth: those offered to a host. *)
Record Credential := mkCredential { Username : string; Password : string }.
Definition EmptyCredential : Credential := mkCredential "" "".
Definition CredentialFunc : Type := string → result error Credential.

(** [remote.Repository] as it is configured; the client retries and caches
    tokens. *)
Record RemoteRepository := mkRemote { rr_Reference : Reference; rr_PlainHTTP : bool; rr_Credential : CredentialFunc }.

(** What the program uses of the oras library; [NewStoreFromDocker] is the
    credential function of the Docker configuration, [connect] what a
    configured repository does on the network. *)
Record Oras := mkOras {
  NewRepository : string → result error Reference;
  StaticCredential : string → Credential → CredentialFunc;
  NewStoreFromDocker : result error CredentialFunc;
  connect : RemoteRepository → Repository
}.
Context (oras : Oras).

(** The repository before [connect]. *)
Definition remote_repository (repository username password : string) (plainHTTP : bool) : result error RemoteRepository :=
  match NewRepository oras repository with
  | Err e => Err (EWrap "open OCI repository" e)
  | Ok reference =>
      if negb (String.eqb username "") || negb (String.eqb password "") then
        Ok (mkRemote reference plainHTTP
              (StaticCredential oras (ref_Registry reference) (mkCredential username password)))
      else
        match NewStoreFromDocker oras with
        | Err e => Err (EWrap "open Docker credential store" e)
        | Ok credentials => Ok (mkRemote reference plainHTTP credentials)
        end
  end.

Definition openOCIRepository (repository username password : string) (plainHTTP : bool) : result error Repository :=
  repo ←? remote_repository repository username password plainHTTP; Ok (connect oras repo).

Record ociImportOptions := mkImportOptions {
  io_Registry : string; io_APIKey : string; io_OCIReference : string; io_OCIUsername : string; io_OCIPassword : string;
  io_OCIPlainHTTP : bool; io_MaxBytes : Z
}.

Definition importOCIArtifact (opts : ociImportOptions) : C (result error ociArtifactMetadata) :=
  try_c id (λ '(repository, tag),
  try_c id (λ repo,
  try_c (EWrap "resolve OCI artifact") (λ manifest,
    importOCIArtifactFromTarget (repo_target repo) manifest (io_Registry opts) (io_APIKey opts) (io_MaxBytes opts))
    (on_net (Resolve repo tag)))
    (mret (openOCIRepository repository (io_OCIUsername opts) (io_OCIPassword opts) (io_OCIPlainHTTP opts))))
    (mret (splitOCIImportReference (io_OCIReference opts))).

Record ociPushOptions := mkPushOptions {
  po_Reference : string; po_Artifact : path; po_Kind : string; po_Annotations : gmap string string;
  po_Username : string; po_Password : string; po_PlainHTTP : bool
}.

Definition pushOCIArtifact (opts : ociPushOptions) : C (result error Descriptor) :=
  try_c id (λ '(repository, tag),
  try_c id (λ repo,
  try_c (EWrap "push OCI content") (λ manifest,
  try_c (EWrap "tag OCI artifact") (λ _, mret (Ok manifest))
    (on_net (Tag repo manifest tag)))
    (packOCIArtifact (repo_target repo) (po_Artifact opts) (po_Kind opts) (po_Annotations opts)))
    (mret (openOCIRepository repository (po_Username opts) (po_Password opts) (po_PlainHTTP opts))))
    (mret (splitOCIReference (po_Reference opts))).

End oci.

(** ** A concrete library *)

(** The credentials of [StaticCredential] are offered to one host only, which is
    registry-1.docker.io for docker.io. *)
Definition static_host (registry : string) : string :=
  if String.eqb registry "docker.io" then "registry-1.docker.io" else registry.
Definition static_credential (registry : string) (c : Credential) : CredentialFunc :=
  λ host, Ok (if String.eqb host (static_host registry) then c else EmptyCredential).

(** Repositories without content. *)
Definition offline {Net : Type} : Oras (Net := Net) :=
  mkOras (λ repository, match Cut repository "/" with
                        | (registry, name, true) => Ok (mkReference registry name "" false false)
                        | _ => Err (EText "invalid reference") end)
    static_credential (Ok (λ _, Ok EmptyCredential))
    (λ _, mkRepository (mkTarget (λ _ net, (Err (EText "not found"), net)) (λ _ _ net, (Ok (), net))
                          (λ _ _ _ net, (Err (EText "read only"), net)))
            (λ _ net, (Err (EText "not found"), net)) (λ _ _ net, (Ok (), net))).
