(* ===== verification/OciFacts.v ===== *)
(** * What the OCI commands guarantee

    Identities survive packing and unpacking, the upload address is that of
    the server's route, and nothing is uploaded that was not verified. *)

From S2P Require Import Prelude GoString SemVer Regex Validation GoPath Sha256 Os OsFacts Json Decode Store StoreFacts KeyValue Confine StoreSpec.
From S2P Require Import Index Archive Signing Http Api Auth Draft NameFacts Client ClientRuns ClientFacts CommandFacts Oci.

(** ** Identities *)

(** The identity of a provider or of a module, as [push] annotates it. *)
Definition identity (t : ociArtifactMetadata) : Prop :=
  (Kind t = "provider" ∧ valid_provider t = true ∧ Provider t = "") ∨
  (Kind t = "module" ∧ valid_module t = true ∧ OS_ t = "" ∧ Arch_ t = "").

Lemma annotation_insert a k v key :
  annotation (<[k := v]> a) key = if String.eqb k key then v else annotation a key.
Proof.
  unfold annotation. destruct (String.eqb_spec k key) as [->|Hne]; [by rewrite lookup_insert_eq|by rewrite lookup_insert_ne].
Qed.

Lemma annotation_created rfc3339 a now key : key ≠ "org.opencontainers.image.created" →
  annotation (with_created rfc3339 a now) key = annotation a key.
Proof.
  intros Hk. unfold with_created. destruct (a !! _); [done|]. rewrite annotation_insert.
  by destruct (String.eqb_spec "org.opencontainers.image.created" key).
Qed.

(** One that is left out when empty. *)
Lemma annotation_set a k v key :
  annotation (if String.eqb v "" then a else <[k := v]> a) key =
    if String.eqb k key then (if String.eqb v "" then annotation a key else v) else annotation a key.
Proof. destruct (String.eqb v ""); [by destruct (String.eqb k key)|apply annotation_insert]. Qed.

(** Every annotation reads back, an absent one as the empty string. *)
Lemma annotations_read kind namespace name provider version osName arch title :
  let a := annotation (artifactAnnotations kind namespace name provider version osName arch title) in
  a "io.terraform.kind" = kind ∧ a "io.terraform.namespace" = namespace ∧ a "io.terraform.name" = name ∧
  a "io.terraform.provider" = provider ∧ a "io.terraform.version" = version ∧ a "io.terraform.os" = osName ∧
  a "io.terraform.arch" = arch.
Proof.
  intros a. subst a. unfold artifactAnnotations. cbv zeta.
  split_and!; rewrite !annotation_set, ?annotation_insert; cbn [String.eqb Ascii.eqb Bool.eqb]; try reflexivity.
  - by destruct (String.eqb_spec provider "") as [->|].
  - by destruct (String.eqb_spec osName "") as [->|].
  - by destruct (String.eqb_spec arch "") as [->|].
Qed.

(** C23. Identities survive: when the CLI packs an artifact - with the layer
    type of its kind, its identity as annotations, any title and any time of
    creation - the manifest, unpacked, gives back exactly that identity. *)
Theorem identity_round_trip (t : ociArtifactMetadata) (title : string) (rfc3339 : Z → string) (now : Z)
    (version : Z) (artifactType : string) (layer : Descriptor) :
  identity t → layer_type (Kind t) = Some (MediaType layer) →
  metadataFromOCIManifest (mkManifest version artifactType [layer] (with_created rfc3339
    (artifactAnnotations (Kind t) (Namespace t) (Name t) (Provider t) (Version t) (OS_ t) (Arch_ t) title) now)) = Ok t.
Proof.
  intros Ht Hl. unfold metadataFromOCIManifest. cbn [m_Annotations Layers]. rewrite !annotation_created by done.
  destruct (annotations_read (Kind t) (Namespace t) (Name t) (Provider t) (Version t) (OS_ t) (Arch_ t) title)
    as (-> & -> & -> & -> & -> & -> & ->).
  destruct t as [kind ns name provider v osName arch]. cbn [Kind Namespace Name Provider Version OS_ Arch_] in *.
  destruct Ht as [(Ek & Hv & Ep)|(Ek & Hv & Eo & Ea)]; cbn in Ek; subst kind; injection Hl as <-; cbn [String.eqb Ascii.eqb Bool.eqb].
  - by rewrite String.eqb_refl, Hv.
  - by rewrite String.eqb_refl, Hv.
Qed.

(** ** The upload address *)

Lemma PathEscape_safe s : sforall path_safe s = true → PathEscape s = s.
Proof. induction s as [|a s IH]; [done|]. simpl. intros [-> Hs]%andb_true_iff. by rewrite IH. Qed.

Lemma file_char_safe a : is_file_char a = true → path_safe a = true.
Proof. destruct a as [[] [] [] [] [] [] [] []]; vm_compute; congruence. Qed.

Lemma PathEscape_name n : validImportName n = true → PathEscape n = n.
Proof.
  intros Hn. apply PathEscape_safe. eapply sforall_impl; [apply file_char_safe|]. by apply file_chars, name_file.
Qed.

Lemma PathEscape_version v : validImportVersion v = true → PathEscape v = v.
Proof.
  rewrite validImportVersion_eq. intros Hv. apply PathEscape_safe. eapply sforall_impl; [apply file_char_safe|].
  apply file_chars, version_file. exact Hv.
Qed.

(** The path of the server's route for an artifact. *)
Definition route_path (t : ociArtifactMetadata) : string :=
  if String.eqb (Kind t) "provider"
  then "/" +:+ Join ["api"; "v1"; "providers"; Namespace t; Name t; Version t; OS_ t; Arch_ t] "/"
  else "/" +:+ Join ["api"; "v1"; "modules"; Namespace t; Name t; Provider t; Version t] "/".

(** The variables of that route. *)
Definition route_vars (t : ociArtifactMetadata) : list (string * string) :=
  if String.eqb (Kind t) "provider"
  then [("namespace", Namespace t); ("name", Name t); ("version", Version t); ("os", OS_ t); ("arch", Arch_ t)]
  else [("namespace", Namespace t); ("name", Name t); ("provider", Provider t); ("version", Version t)].

Lemma valid_provider_iff t : valid_provider t = true ↔ validImportName (Namespace t) = true ∧
  validImportName (Name t) = true ∧ validImportName (OS_ t) = true ∧ validImportName (Arch_ t) = true ∧
  validImportVersion (Version t) = true.
Proof. unfold valid_provider. rewrite !andb_true_iff. tauto. Qed.

Lemma valid_module_iff t : valid_module t = true ↔ validImportName (Namespace t) = true ∧
  validImportName (Name t) = true ∧ validImportName (Provider t) = true ∧ validImportVersion (Version t) = true.
Proof. unfold valid_module. rewrite !andb_true_iff. tauto. Qed.

Lemma segments_exact t segs : segments t = Ok segs →
  "/" +:+ Join (map PathEscape segs) "/" = route_path t ∧
  Forall (λ kv, valid_route_var kv.1 kv.2 = true) (route_vars t).
Proof.
  unfold segments, route_path, route_vars.
  destruct (String.eqb (Kind t) "provider").
  - destruct (valid_provider t) eqn:Ev; [|done]. intros [= <-]. apply valid_provider_iff in Ev as (H1 & H2 & H3 & H4 & H5).
    rewrite validImportVersion_eq in H5. cbn [map]. rewrite (PathEscape_version (Version t)) by by rewrite validImportVersion_eq.
    rewrite !PathEscape_name by done. split; [done|]. by repeat constructor.
  - destruct (String.eqb (Kind t) "module"); [|done]. destruct (valid_module t) eqn:Ev; [|done]. intros [= <-].
    apply valid_module_iff in Ev as (H1 & H2 & H3 & H5).
    rewrite validImportVersion_eq in H5. cbn [map]. rewrite (PathEscape_version (Version t)) by by rewrite validImportVersion_eq.
    rewrite !PathEscape_name by done. split; [done|]. by repeat constructor.
Qed.

(** Where an artifact goes: the server's route below the registry's own path,
    with variables the server's route validation accepts. *)
Lemma importUploadURL_exact {Rest} (url_Parse : string → result error (URL Rest)) url_String registry t u :
  importUploadURL url_Parse url_String registry t = Ok u →
  ∃ base, url_Parse (TrimRight registry "/") = Ok base ∧ (Scheme base = "http" ∨ Scheme base = "https") ∧
    Host base ≠ "" ∧ has_User base = false ∧ RawQuery base = "" ∧ Fragment base = "" ∧
    u = url_String (with_path (TrimRight (u_Path base) "/" +:+ route_path t) base) ∧
    Forall (λ kv, valid_route_var kv.1 kv.2 = true) (route_vars t).
Proof.
  unfold importUploadURL. destruct (url_Parse _) as [base|]; [|done].
  destruct (negb _ || _ || _ || _ || _) eqn:Eb; [done|]. rewrite !orb_false_iff, !negb_false_iff in Eb.
  destruct Eb as ((((Es & Eh) & Eu) & Eq) & Ef).
  destruct (segments t) as [segs|] eqn:E; [|done]. apply segments_exact in E as [E Hv]. cbn. intros [= <-].
  exists base. apply orb_true_iff in Es. rewrite !String.eqb_eq in Es. apply String.eqb_neq in Eh.
  apply String.eqb_eq in Eq, Ef. split_and!; try done. by rewrite <- E.
Qed.

(** ** Runs with a target *)

Lemma wpc_net {Net A} (f : Net → A * Net) Q (m : machine) :
  Q (inl (f (m_net m)).1) (set_net (f (m_net m)).2 m) → wpc (on_net f) Q m.
Proof. unfold wpc, on_net. by destruct (f (m_net m)). Qed.

Definition import_prefix : string := "tfreg-oci-import-".

Section import.
Context {Net : Type} (send : client_request → Net → result error client_response * Net).
Context (url_ok : string → bool).
Context {Rest : Type} (url_Parse : string → result error (URL Rest)) (url_String : URL Rest → string).
Context (digest_Validate : string → bool) (digest_Verified : string → string → bool).
Context (decode_manifest : string → result error Manifest).
Context (tmpdir : path) (source : Target (Net := Net)) (desc : Descriptor) (registryURL apiKey : string) (maxBytes : Z).
Context (Hmax : (maxBytes < 2 ^ 63 - 1)%Z).
#[local] Abbreviation machine := (machine (Net := Net)).

(** The network was only asked for content of the target. *)
Definition only_fetched (net net' : Net) : Prop := ∃ ds, net' = foldl (λ n d, (Fetch source d n).2) net ds.

Lemma only_fetched_one net d : only_fetched net (Fetch source d net).2.
Proof using Type. by exists [d]. Qed.

Lemma only_fetched_trans n1 n2 n3 : only_fetched n1 n2 → only_fetched n2 n3 → only_fetched n1 n3.
Proof using Type. intros [d1 ->] [d2 ->]. exists (d1 ++ d2). by rewrite foldl_app. Qed.

(** [data] is the archive the manifest vouches for, under this identity. *)
Definition vouched (net : Net) (metadata : ociArtifactMetadata) (data : string) (net2 : Net) : Prop :=
  ∃ body manifest layer net1,
    (∃ r, Fetch source desc net = (Ok r, net1)) ∧ Size desc = Z.of_nat (slen body) ∧
    digest_Verified (Digest desc) body = true ∧ decode_manifest body = Ok manifest ∧
    check_manifest digest_Validate manifest maxBytes = Ok (metadata, layer) ∧
    Fetch source layer net1 = (Ok (Reader data None), net2) ∧
    Z.of_nat (slen data) = Size layer ∧ digest_Verified (Digest layer) data = true.

(** What was vouched for was sent to the address of its identity; at most a
    read of the temporary file broke the upload off. *)
Definition uploaded (net : Net) (r : result error ociArtifactMetadata) (net' : Net) : Prop :=
  ∃ metadata data net2 url filename content,
    vouched net metadata data net2 ∧ importUploadURL url_Parse url_String registryURL metadata = Ok url ∧
    (content = Reader data None ∨ r_err content ≠ None) ∧
    net' = (send (upload_request apiKey url filename content) net2).2 ∧
    (∀ metadata', r = Ok metadata' → metadata' = metadata ∧
       ∃ resp, (send (upload_request apiKey url filename content) net2).1 = Ok resp ∧ (200 ≤ c_status resp < 300)%Z).

(** ** Unpacking *)

Lemma wpc_fetchDescriptor (m : machine) :
  wpc (fetchDescriptor digest_Validate digest_Verified source desc maxOCIManifestBytes) (returns (λ r m',
    m_world m' = m_world m ∧ m_out m' = m_out m ∧ only_fetched (m_net m) (m_net m') ∧
    match r with
    | Ok body => (∃ rd, Fetch source desc (m_net m) = (Ok rd, m_net m')) ∧ Size desc = Z.of_nat (slen body) ∧
                 digest_Verified (Digest desc) body = true
    | Err _ => True
    end)) m.
Proof using Type.
  unfold fetchDescriptor. destruct (negb (digest_Validate _)); [apply wpc_ret; split_and!; try done; by exists []|].
  destruct (_ || _); [apply wpc_ret; split_and!; try done; by exists []|].
  apply wpc_try, wpc_net. pose proof (only_fetched_one (m_net m) desc) as Hf. cbn [returns].
  destruct (Fetch source desc (m_net m)) as [[rd|e] net1] eqn:E; cbn [fst snd] in *; [|by split_and!].
  apply wpc_ret. cbn [returns set_net m_world m_out m_net]. split; [done|]. split; [done|]. split; [done|].
  destruct (read_limited rd _) as [body|]; cbn; [|done].
  destruct (_ || _) eqn:Es; [done|]. destruct (digest_Verified (Digest desc) body) eqn:Ev; [|done]. cbn.
  apply orb_false_iff in Es as [_ Es%negb_false_iff%Z.eqb_eq]. split; [by exists rd|]. by split.
Qed.

Lemma wp_unpack_layer h f0 r layer w : drafting h f0 "" w → (0 ≤ Size layer ≤ maxBytes)%Z →
  wp (unpack_layer digest_Verified h r layer maxBytes) (λ res w', env w w' ∧ (∃ d, drafting h f0 d w') ∧
    match res with
    | Ok _ => r_err r = None ∧ Z.of_nat (slen (r_data r)) = Size layer ∧
              digest_Verified (Digest layer) (r_data r) = true ∧ drafting h f0 (r_data r) w'
    | Err _ => True
    end) w.
Proof using All.
  intros Hw Hs. unfold unpack_layer, copy_limited. rewrite copy_limit_wrap by lia.
  set (n := Z.to_nat (maxBytes + 1)). set (data := stake n (r_data r)).
  assert ((Z.of_nat (slen data) ≤ maxBytes)%Z → slen (r_data r) < n ∧ data = r_data r) as Hall.
  { unfold data. rewrite slen_stake. intros H. assert (slen (r_data r) < n) by (unfold n in *; lia).
    split; [done|]. apply stake_all. lia. }
  apply wp_try, wp_try. eapply wp_mono; [by apply wp_drafting_write|].
  intros [[]|e] w2 (He & Hd & H2); [|split; [done|by split]]. simpl in H2.
  assert (∀ x, (r_err r = None ∨ n ≤ slen (r_data r)) → x = Z.of_nat (slen data) →
    wp (mret (if (maxBytes <? x)%Z then Err (EText "OCI artifact exceeds limit")
        else if negb (x =? Size layer)%Z then Err (EText "OCI artifact size mismatch")
        else if negb (digest_Verified (Digest layer) (stake (Z.to_nat x) (r_data r)))
        then Err (EText "OCI artifact digest verification failed") else Ok ()) : M (result error unit))
      (λ res w', env w w' ∧ (∃ d, drafting h f0 d w') ∧ match res with
        | Ok _ => r_err r = None ∧ Z.of_nat (slen (r_data r)) = Size layer ∧
                  digest_Verified (Digest layer) (r_data r) = true ∧ drafting h f0 (r_data r) w'
        | Err _ => True end) w2) as Hend.
  { intros x Hr ->. apply wp_ret. split; [done|]. split; [done|].
    destruct (Z.ltb_spec maxBytes (Z.of_nat (slen data))) as [|Hle]; [done|]. destruct (Hall Hle) as [Hlt E].
    destruct (Z.eqb_spec (Z.of_nat (slen data)) (Size layer)) as [Es|]; cbn [negb]; [|done].
    rewrite E in Es |- *. rewrite stake_all by lia. destruct (digest_Verified _ _) eqn:Ev; cbn [negb]; [|done].
    rewrite E in H2. split_and!; try done. destruct Hr; [done|lia]. }
  destruct (r_err r) as [e|]; [destruct (Nat.ltb_spec (slen (r_data r)) n) as [|Hge]|].
  - by apply wp_ret.
  - apply wp_ret. apply Hend; [by right|done].
  - apply wp_ret. apply Hend; [by left|done].
Qed.

Lemma check_manifest_size manifest metadata layer : check_manifest digest_Validate manifest maxBytes = Ok (metadata, layer) →
  (0 ≤ Size layer ≤ maxBytes)%Z.
Proof using All.
  unfold check_manifest. destruct (negb _); [done|]. destruct (negb _); [done|]. destruct (Layers manifest) as [|l []]; [done| |done].
  destruct (metadataFromOCIManifest manifest); [|done]. cbn. destruct (negb _); [done|]. destruct (_ || _) eqn:Es; [done|].
  intros [= _ <-]. apply orb_false_iff in Es as [H1%Z.ltb_ge H2%Z.ltb_ge]. lia.
Qed.

(** Unpacking into the empty file [h]: on success the file holds what the
    manifest vouches for. *)
Lemma wpc_unpack h f0 (m : machine) : drafting h f0 "" (m_world m) →
  wpc (unpackOCIArtifact digest_Validate digest_Verified decode_manifest source desc h maxBytes) (returns (λ r m',
    env (m_world m) (m_world m') ∧ m_out m' = m_out m ∧ (∃ d, drafting h f0 d (m_world m')) ∧
    match r with
    | Ok metadata => ∃ data, vouched (m_net m) metadata data (m_net m') ∧ drafting h f0 data (m_world m')
    | Err _ => only_fetched (m_net m) (m_net m')
    end)) m.
Proof using All.
  intros Hw. unfold unpackOCIArtifact.
  assert (∀ (m' : machine) e, m_world m' = m_world m → m_out m' = m_out m → only_fetched (m_net m) (m_net m') →
    returns (λ (r : result error ociArtifactMetadata) m', env (m_world m) (m_world m') ∧ m_out m' = m_out m ∧
      (∃ d, drafting h f0 d (m_world m')) ∧ match r with
      | Ok metadata => ∃ data, vouched (m_net m) metadata data (m_net m') ∧ drafting h f0 data (m_world m')
      | Err _ => only_fetched (m_net m) (m_net m') end) (inl (Err e)) m') as Hfail.
  { intros m' e Ew Eo Hf. unfold returns. rewrite Ew. split; [done|]. split; [done|]. split; [by exists ""|done]. }
  destruct (negb _); [apply wpc_ret, Hfail; try done; by exists []|].
  apply wpc_try. eapply wpc_mono; [apply wpc_fetchDescriptor|]. intros [[body|e]|z] m1; cbn [returns]; [| |done].
  2:{ intros (Ew & Eo & Hf & _). by apply Hfail. }
  intros (Ew & Eo & Hf & (rd & Efetch) & Hsize & Hver).
  apply wpc_try, wpc_ret. cbn [returns]. destruct (decode_manifest body) as [manifest|e] eqn:Edec; [|by apply Hfail].
  apply wpc_try, wpc_ret. cbn [returns].
  destruct (check_manifest digest_Validate manifest maxBytes) as [[metadata layer]|e] eqn:Echk; [|by apply Hfail].
  apply wpc_try, wpc_net. cbn [returns]. pose proof (only_fetched_one (m_net m1) layer) as Hf2.
  destruct (Fetch source layer (m_net m1)) as [[r2|e] net2] eqn:Elayer; cbn [fst snd] in *.
  2:{ apply (Hfail _ e); [done|done|by eapply only_fetched_trans]. }
  apply wpc_try, wpc_sys. cbn [set_net m_world]. rewrite Ew.
  eapply wp_mono; [apply (wp_unpack_layer h f0 r2 layer); [exact Hw|by eapply check_manifest_size]|].
  intros [[]|e] w2 (He & Hd & H2); cbn [returns].
  - apply wpc_ret. cbn [returns]. destruct H2 as (Er & Es & Hv & Hdr). split; [done|]. split; [done|]. split; [done|].
    exists (r_data r2). split; [|done]. exists body, manifest, layer, (m_net m1). split; [by exists rd|].
    split_and!; try done. by destruct r2; simpl in *; subst.
  - split; [done|]. split; [done|]. split; [done|]. by eapply only_fetched_trans.
Qed.

(** ** The whole import *)

(** What an import may do: nothing but fetching, or the upload. *)
Definition import_outcome (net : Net) (r : result error ociArtifactMetadata) (net' : Net) : Prop :=
  is_ok r = false ∧ only_fetched net net' ∨ uploaded net r net'.

Lemma vouched_fetched net metadata data net2 : vouched net metadata data net2 → only_fetched net net2.
Proof using Type.
  intros (body & manifest & layer & net1 & [rd E1] & _ & _ & _ & _ & E2 & _). exists [desc; layer]. cbn [foldl].
  rewrite E1. cbn [snd]. by rewrite E2.
Qed.

Lemma wpc_import_file h f0 (m : machine) : drafting h f0 "" (m_world m) →
  wpc (import_file send url_ok url_Parse url_String digest_Validate digest_Verified decode_manifest source desc
         registryURL apiKey maxBytes h h)
    (returns (λ r m', env (m_world m) (m_world m') ∧ m_out m' = m_out m ∧ (∃ d, drafting h f0 d (m_world m')) ∧
       import_outcome (m_net m) r (m_net m'))) m.
Proof using All.
  intros Hw. unfold import_file. apply wpc_bind. eapply wpc_mono; [by apply (wpc_unpack h f0)|].
  intros [[metadata|e]|z] m1; cbn [returns]; [| |done].
  2:{ intros (He & Eo & [d Hd] & Hf). apply wpc_bind, wpc_sys. eapply wp_mono; [apply wp_f_noop|].
      intros x w2 [Hs _]. apply wpc_ret. cbn [returns set_world m_world m_out m_net].
      split; [etransitivity; [exact He|apply Hs]|]. split; [done|]. split; [exists d; by eapply drafting_same|]. by left. }
  intros (He & Eo & _ & data & Hv & Hd). apply wpc_try, wpc_sys. eapply wp_mono; [by apply wp_drafting_noop|].
  intros r w2 (He2 & Hd2 & _).
  assert (∀ e, returns (λ r m', env (m_world m) (m_world m') ∧ m_out m' = m_out m ∧ (∃ d, drafting h f0 d (m_world m')) ∧
       import_outcome (m_net m) r (m_net m')) (inl (Err e)) (set_world w2 m1)) as Hfail.
  { intros e. cbn. split; [by etransitivity|]. split; [done|]. split; [by exists data|]. left. split; [done|]. by eapply vouched_fetched. }
  destruct r as [[]|e]; [|apply Hfail]. cbn [returns]. apply wpc_try, wpc_ret. cbn [returns].
  destruct (importUploadURL url_Parse url_String registryURL metadata) as [url|e] eqn:Eu; [|apply Hfail].
  apply wpc_try. eapply wpc_mono; [destruct (drafting_plain _ _ _ _ Hd2) as (Hplain & _); destruct Hd2 as (Hclean & (t & Hfile) & Hothers); apply (wpc_uploadArtifact send url_ok apiKey url h (base_name h) data); [exact Hclean|exact Hplain|by eapply file_lookup]|].
  cbn [set_world m_world m_out m_net]. intros [r|z] m3; cbn [returns]; [|done]. intros (Hs & Eo3 & Hup).
  assert (env (m_world m) (m_world m3) ∧ m_out m3 = m_out m ∧ (∃ d, drafting h f0 d (m_world m3))) as Hrest.
  { split; [etransitivity; [|apply Hs]; by etransitivity|]. split; [congruence|]. exists data. by eapply drafting_same. }
  destruct r as [[]|e]; [apply wpc_ret|]; cbn [returns]; destruct Hrest as (? & ? & ?); (split; [done|]); (split; [done|]);
    (split; [done|]).
  - destruct Hup as [[? _]|(content & Hc & En & Hok)]; [done|]. right.
    exists metadata, data, (m_net m1), url, (base_name h), content. split_and!; try done.
    intros metadata' [= <-]. split; [done|]. by apply Hok.
  - destruct Hup as [[_ En]|(content & Hc & En & _)].
    + left. split; [done|]. rewrite En. by eapply vouched_fetched.
    + right. exists metadata, data, (m_net m1), url, (base_name h), content. by split_and!.
Qed.

(** An import in the workspace [p]. *)
Lemma wpc_import_in p (m : machine) : clean_fs (w_fs (m_world m)) → Forall plain p →
  wpc (try_c (EWrap "create temporary artifact") (λ '(artifactPath, artifactFile),
        import_file send url_ok url_Parse url_String digest_Validate digest_Verified decode_manifest source desc
          registryURL apiKey maxBytes artifactPath artifactFile)
        (sys (os_CreateTemp p "artifact-")))
    (returns (λ r m', inside p m m' ∧ import_outcome (m_net m) r (m_net m'))) m.
Proof using All.
  intros Hc Hp. apply wpc_try, wpc_sys.
  eapply wp_mono; [apply wp_create_temp; [done..|by repeat split]|].
  intros [[a h]|e] w2 [He2 H2]; cbn [returns].
  2:{ destruct H2 as [Hf2 _]. unfold inside. cbn [set_world m_out m_net m_world]. rewrite Hf2. split; [done|].
      left. split; [done|by exists []]. }
  destruct H2 as (-> & k & Eh & HNh & Hdp & Hf2).
  assert (drafting h (w_fs (m_world m)) "" w2) as Hdr.
  { unfold drafting. rewrite Hf2. split; [|split].
    - subst h. apply clean_insert_file; [done|apply Forall_app; split; [done|by repeat constructor]|by intros [_ ?]%app_eq_nil
        |by rewrite parent_app|by rewrite HNh].
    - exists (w_now (m_world m)). by rewrite lookup_insert_eq.
    - intros q Hq. by rewrite lookup_insert_ne. }
  eapply wpc_mono; [by apply (wpc_import_file h (w_fs (m_world m)))|]. cbn [set_world m_world m_out m_net].
  intros [r|z] m3; cbn [returns]; [|done]. intros (He3 & Eo3 & (d & Hc3 & _ & Hq3) & Hres).
  split; [|done]. split; [by etransitivity|]. split; [done|]. split; [done|]. intros q Hq. apply Hq3. intros ->. apply Hq.
  rewrite Eh. by eexists.
Qed.

(** C17. An import uploads nothing that was not verified.  From any clean file
    system, whatever the target delivers and whatever system calls fail, the
    import ends.  Either only the target was asked for content and the result
    is an error, or exactly one request was sent, after these checks: the
    manifest has the size and digest of its descriptor and is that of a
    Terraform artifact with one layer and a valid identity, and the layer,
    complete, has its size, within the limit, and its digest.  The request
    uploads exactly that layer (or breaks off, when the temporary file cannot
    be read back) to the address of the identity, and success means a reply
    in the two hundreds.  Nothing outside the directory for temporary files
    changes, and unless a system call failed the file system is afterwards what
    it was before. *)
Theorem import_verified (m : machine) :
  clean_fs (w_fs (m_world m)) → Forall plain tmpdir →
  ∃ r m', importOCIArtifactFromTarget send url_ok url_Parse url_String digest_Validate digest_Verified decode_manifest
      tmpdir source desc registryURL apiKey maxBytes m = Some (inl r, m') ∧
    tidied tmpdir m m' ∧ import_outcome (m_net m) r (m_net m').
Proof using All.
  intros Hc Ht. assert (wpc (importOCIArtifactFromTarget send url_ok url_Parse url_String digest_Validate digest_Verified
    decode_manifest tmpdir source desc registryURL apiKey maxBytes)
      (returns (λ r m', tidied tmpdir m m' ∧ import_outcome (m_net m) r (m_net m'))) m) as H.
  2:{ apply wpc_total in H as ([r|z] & m' & E & H); [|done]. by exists r, m'. }
  apply (wpc_with_workspace import_prefix tmpdir m ltac:(by repeat split) Ht Hc _ _ (λ r, import_outcome (m_net m) r)).
  - intros e. left. split; [done|by exists []].
  - intros p m1 (_ & Hp & _ & _ & _ & En & _ & _ & Hc1). rewrite <- En. by apply wpc_import_in.
Qed.

End import.

(** ** A concrete artifact *)

#[local] Opaque sha256_hex.

Definition sha_digest (data : string) : string := "sha256:" +:+ sha256_hex data.
Definition sha_verified (digest data : string) : bool := String.eqb digest (sha_digest data).
Definition some_digest (digest : string) : bool := HasPrefix digest "sha256:".

(** ** Credentials *)

(** A repository is opened with the protocol asked for; credentials given on the
    command line are offered to the host of its registry alone, and those of
    the Docker configuration are read only when none are given. *)
Theorem openOCIRepository_credentials {Net : Type} (oras : Oras (Net := Net)) repository username password plain repo :
  (∀ registry c, StaticCredential oras registry c = static_credential registry c) →
  openOCIRepository oras repository username password plain = Ok repo →
  ∃ remote, repo = connect oras remote ∧ NewRepository oras repository = Ok (rr_Reference remote) ∧ rr_PlainHTTP remote = plain ∧
    if String.eqb username "" && String.eqb password "" then NewStoreFromDocker oras = Ok (rr_Credential remote)
    else ∀ host, rr_Credential remote host = Ok (if String.eqb host (static_host (ref_Registry (rr_Reference remote)))
                                                 then mkCredential username password else EmptyCredential).
Proof.
  intros Hstatic (remote & E & [= <-])%result_bind_ok. exists remote. unfold remote_repository in E.
  destruct (NewRepository oras repository) as [reference|e]; [|done]. rewrite <- negb_andb in E.
  destruct (String.eqb username "" && String.eqb password ""); cbn [negb] in E.
  - destruct (NewStoreFromDocker oras) as [c|e]; [|done]. injection E as <-. by split_and!.
  - injection E as <-. split_and!; [done..|]. intros host. cbn [rr_Credential rr_Reference]. by rewrite Hstatic.
Qed.

Example openOCIRepository_runs :
  (match remote_repository (offline (Net := ())) "ghcr.io/acme/vpc" "ci" "secret" false with
   | Ok r => (map (λ h, match rr_Credential r h with Ok c => Password c | Err _ => "" end) ["ghcr.io"; "evil.example"], rr_PlainHTTP r)
   | Err _ => ([], true) end) = (["secret"; ""], false) ∧
  is_ok (openOCIRepository (offline (Net := ())) "acme" "" "" true) = false.
Proof. vm_compute. by split. Qed.

Definition vpc_identity : ociArtifactMetadata := mkMetadata "module" "acme" "vpc" "aws" "1.2.0+b1" "" "".
Definition no_time (_ : Z) : string := "1970-01-01T00:00:00Z".
Definition vpc_layer : Descriptor := mkDescriptor terraformModuleLayerType (sha_digest "TGZ") 3 ∅.
Definition vpc_manifest : Manifest := mkManifest 2 terraformOCIArtifactType [vpc_layer] (with_created no_time
  (artifactAnnotations "module" "acme" "vpc" "aws" "1.2.0+b1" "" "" "vpc.tar.gz") 0).
Definition vpc_descriptor : Descriptor := mkDescriptor media_type_image_manifest (sha_digest "manifest") 8 ∅.

Definition decode_vpc (body : string) : result error Manifest :=
  if String.eqb body "manifest" then Ok vpc_manifest else Err (EText "invalid character").

(** A repository with that manifest and [data] as its layer; the network
    records the requests and accepts every upload. *)
Definition vpc_source (data : string) : Target (Net := list client_request) :=
  mkTarget (λ d net, (Ok (Reader (if String.eqb (MediaType d) media_type_image_manifest then "manifest" else data) None), net))
    (λ _ _ net, (Ok (), net)) (λ _ _ _ net, (Err (EText "read only"), net)).
Definition record (q : client_request) (net : list client_request) : result error client_response * list client_request :=
  (Ok (mkClientResponse 200 ∅ (Reader "{}" None) None), net ++ [q]).

(** Addresses of the form http://host. *)
Definition parse_plain (s : string) : result error (URL ()) :=
  match CutPrefix s "http://" with
  | (host, true) => Ok (mkURL "http" host false "" "" "" ())
  | _ => Err (EText "parse")
  end.
Definition print_plain (u : URL ()) : string := Scheme u +:+ "://" +:+ Host u +:+ u_Path u.

Definition import_vpc (data : string) : machine (Net := list client_request) → _ :=
  importOCIArtifactFromTarget record (λ _, true) parse_plain print_plain some_digest sha_verified decode_vpc ["home"]
    (vpc_source data) vpc_descriptor "http://registry" "secret" 1000.
Definition import_machine : machine (Net := list client_request) := mkMachine (m_world home_machine) [] "".

(** The layer with the right digest is uploaded; any other is not. *)
Example import_runs :
  (match import_vpc "TGZ" import_machine with
   | Some (inl (Ok t), m) => (Some t, map (λ q, (q_url q, q_body q)) (m_net m), w_fs (m_world m) !! ["home"; "tfreg-oci-import-7"])
   | _ => (None, [], None) end =
     (Some vpc_identity,
      [("http://registry/api/v1/modules/acme/vpc/aws/1.2.0+b1", Some (Part "file" "artifact-7" (Reader "TGZ" None)))], None)) ∧
  (match import_vpc "TGX" import_machine with
   | Some (inl (Err (EText e)), m) => (e, length (m_net m)) | _ => ("", 1) end = ("OCI artifact digest verification failed", 0)).
Proof. vm_compute. split; reflexivity. Qed.

Lemma identity_round_trip_witness :
  identity vpc_identity ∧ layer_type "module" = Some (MediaType vpc_layer) ∧ metadataFromOCIManifest vpc_manifest = Ok vpc_identity.
Proof.
  assert (identity vpc_identity) as Hi by (right; split; [reflexivity|split; [vm_compute; reflexivity|split; reflexivity]]).
  split; [exact Hi|]. split; [reflexivity|].
  exact (identity_round_trip vpc_identity "vpc.tar.gz" no_time 0 2 terraformOCIArtifactType vpc_layer Hi eq_refl).
Defined.

Lemma import_verified_witness : ∃ r m', import_vpc "TGZ" import_machine = Some (inl r, m') ∧
  import_outcome record parse_plain print_plain some_digest sha_verified decode_vpc (vpc_source "TGZ") vpc_descriptor
    "http://registry" "secret" 1000 [] r (m_net m').
Proof.
  destruct (import_verified record (λ _, true) parse_plain print_plain some_digest sha_verified decode_vpc ["home"]
    (vpc_source "TGZ") vpc_descriptor "http://registry" "secret" 1000 eq_refl import_machine home_clean)
    as (r & m' & E & _ & H); [by repeat constructor|].
  exists r, m'. split; [exact E|exact H].
Defined.
