(* ===== verification/Bundle.v ===== *)
(** * Bundles (cmd/tfreg/archive.go)

    What goes into the archives the CLI makes.  The writers of archive/zip,
    archive/tar and compress/gzip are parameters: an archive is a function of
    its entries.  What a failed bundling leaves in the file before it is
    removed again is taken to be nothing. *)

From S2P Require Import Prelude GoString GoPath Os OsFacts Store Client.

(** An entry of a bundle: a directory has no content. *)
Record entry := mkEntry { en_name : string; en_data : option string }.

(** ** What is left out *)

Definition excludeModuleBundlePath (path : string) : bool :=
  existsb (λ part, String.eqb part ".git" || String.eqb part ".terraform") (Split path "/") ||
  (let name := Base path in
   String.eqb name "crash.log" || (HasPrefix name "crash." && HasSuffix name ".log") ||
   HasSuffix name ".tfstate" || Contains name ".tfstate.").

Definition is_link (n : node) : bool := match n with NLink _ _ _ => true | _ => false end.

(** ** The walk over the source *)

(** [filepath.Rel(sourceDir, path)], slash-separated. *)
Definition relPath (root p : path) : string := Join (drop (length root) p) "/".

(** The callback on the entries in walking order; below a directory it skipped
    it is not called. *)
Fixpoint add_entries (root dest : path) (skipped : option path) (l : list (path * node)) : M (result error (list entry)) :=
  match l with
  | [] => mret (Ok [])
  | (p, n) :: l =>
      if match skipped with Some q => bool_decide (q `prefix_of` p) | None => false end then add_entries root dest skipped l
      else if bool_decide (p = dest) then add_entries root dest None l
      else if is_link n then mret (Err (EText "symbolic links are not supported in module bundles"))
      else if bool_decide (p = root) then add_entries root dest None l
      else if excludeModuleBundlePath (relPath root p) then
        add_entries root dest (if is_dir n then Some p else None) l
      else if is_dir n then
        rest ←! add_entries root dest None l;
        mret (Ok (mkEntry (relPath root p) None :: rest))
      else
        opened ←! os_Open p;
        content ← read_open opened;
        closed ← f_Close p;
        match r_err content, closed with
        | Some e, _ => mret (Err e)
        | None, Err e => mret (Err e)
        | None, Ok _ =>
            rest ←! add_entries root dest None l;
            mret (Ok (mkEntry (relPath root p) (Some (r_data content)) :: rest))
        end
  end.

Section archives.
(** A gzipped tar stream, and a zip file, with these entries. *)
Context (tar_gz : list entry → string) (zip_file : list entry → string).

(** Close the file; on any error remove it. *)
Definition finish_file (h dest : path) (r : result error unit) : M (result error unit) :=
  c ← f_Close h;
  let r := match r with Ok _ => c | Err e => Err e end in
  match r with
  | Ok _ => mret (Ok ())
  | Err e => _ ← os_Remove dest; mret (Err e)
  end.

Definition createTarGz (sourceDir dest : path) : M (result error unit) :=
  _ ←! os_MkdirAll (parent dest);
  f ←! os_OpenTrunc dest;
  r ← (
    '(visited, werr) ← filepath_Walk sourceDir;
    entries ←! add_entries sourceDir dest None visited;
    match werr with
    | Some e => mret (Err e)
    | None => f_Write f (tar_gz entries)
    end);
  finish_file f dest r.

Definition createZip (sourceFile dest : path) : M (result error unit) :=
  _ ←! os_MkdirAll (parent dest);
  f ←! os_OpenTrunc dest;
  r ← (
    src ←! os_Open sourceFile;
    _ ←! query (λ _, Ok ());      (* src.Stat() *)
    content ← read_open src;
    c ← f_Close sourceFile;
    match r_err content, c with
    | Some e, _ => mret (Err e)
    | None, Err e => mret (Err e)
    | None, Ok _ => f_Write f (zip_file [mkEntry (base_name sourceFile) (Some (r_data content))])
    end);
  finish_file f dest r.

End archives.
