(* ===== verification/BundleFacts.v ===== *)
(** * What a module bundle contains

    Exactly the files and directories of the source that are not left out, in
    walking order, with their content. *)

From S2P Require Import Prelude GoString GoPath Os OsFacts Store StoreFacts KeyValue StoreSpec Draft Client ClientFacts Bundle.

Section bundle.
Context (root dest : path).

(** A path below the source that is left out by its name. *)
Definition excluded (q : path) : Prop :=
  root `prefix_of` q ∧ q ≠ root ∧ excludeModuleBundlePath (relPath root q) = true.

(** What goes into the bundle: neither the bundle itself nor the source
    directory, and nothing left out on the way. *)
Definition kept (q : path) : Prop := q ≠ dest ∧ q ≠ root ∧ ∀ a, a `prefix_of` q → ¬ excluded a.

Definition entry_at (qn : path * node) : entry :=
  mkEntry (relPath root qn.1) (match qn.2 with NFile d _ => Some d | _ => None end).

(** The bundled part of the entries [l]. *)
Definition bundled (l chosen : list (path * node)) : Prop :=
  chosen `sublist_of` l ∧ ∀ q n, (q, n) ∈ chosen ↔ (q, n) ∈ l ∧ kept q.

(** The walk, with [l] still to come. *)
Record walking (f : fs) (skipped : option path) (l : list (path * node)) : Prop := {
  wa_sorted : StronglySorted entry_le l;
  wa_nodes q n : (q, n) ∈ l → root `prefix_of` q ∧ f !! q = Some n;
  wa_skipped q : skipped = Some q → excluded q ∧ ∀ p n, (p, n) ∈ l → path_leb q p = true;
  wa_above p n a : (p, n) ∈ l → a `prefix_of` p → a ≠ p → excluded a →
    (∃ m, (a, m) ∈ l) ∨ ∃ q, skipped = Some q ∧ q `prefix_of` p
}.

Context (f : fs) (Hf : clean_fs f) (Hdest : f !! dest ≠ Some NDir).

Lemma path_leb_refl p : path_leb p p = true.
Proof using Type. induction p as [|c p IH]; [done|]. simpl. by rewrite String.eqb_refl. Qed.

Lemma prefix_not_after a p : a `prefix_of` p → path_leb p a = true → a = p.
Proof using Type.
  intros [x ->]. induction a as [|c a IH]; [by destruct x|]. rewrite <- app_comm_cons. simpl. rewrite String.eqb_refl.
  intros H. by rewrite <- IH.
Qed.

(** Nothing excluded is properly above a path that is not below a skipped one. *)
Lemma walking_head skipped p n l : walking f skipped ((p, n) :: l) →
  (∀ q, skipped = Some q → ¬ q `prefix_of` p) → ∀ a, a `prefix_of` p → a ≠ p → ¬ excluded a.
Proof using Type.
  intros [Hs Hn Hsk Ha] Hq a Hap Hne Hex. destruct (Ha p n a) as [[m Hm]|(q & Eq & Hqp)]; [by left|done..| |by eapply Hq].
  apply elem_of_cons in Hm as [[= -> _]|Hm]; [done|]. apply Hne, prefix_not_after; [done|].
  inversion Hs as [|x y Hs' Hall]; subst. rewrite Forall_forall in Hall. by apply (Hall (a, m)).
Qed.

(** The rest of the walk, still under the skipped directory. *)
Lemma walking_under skipped q p n l : walking f skipped ((p, n) :: l) → skipped = Some q → q `prefix_of` p →
  walking f skipped l.
Proof using Type.
  intros [Hs Hn Hsk Ha] Eq Hqp. split.
  - by inversion Hs.
  - intros q' n' Hin. apply Hn. by right.
  - intros q' Eq'. destruct (Hsk q' Eq') as [? Hle]. split; [done|]. intros p' n' Hin. apply (Hle p' n'). by right.
  - intros p' n' a Hin Hap Hne Hex. destruct (Ha p' n' a) as [[m Hm]|?]; [by right|done..| |by right].
    apply elem_of_cons in Hm as [[= -> _]|Hm]; [|by left; exists m]. right. exists q. split; [done|by etransitivity].
Qed.

(** The rest after a path that is not below a skipped one; [p] is skipped from
    now on when it is an excluded directory. *)
Lemma walking_step skipped skipped' p n l : walking f skipped ((p, n) :: l) →
  (∀ q, skipped = Some q → ¬ q `prefix_of` p) →
  (skipped' = Some p ∧ excluded p ∨ skipped' = None ∧ (¬ excluded p ∨ n ≠ NDir)) → walking f skipped' l.
Proof using Hf.
  intros HW Hq Hsk'. pose proof HW as [Hs Hn Hsk Ha].
  inversion Hs as [|x y Hs' Hall]; subst. rewrite Forall_forall in Hall. split.
  - done.
  - intros q' n' Hin. apply Hn. by right.
  - intros q' Eq'. destruct Hsk' as [[-> Hex]|[-> _]]; [|done]. injection Eq' as <-. split; [done|].
    intros p' n' Hin. by apply (Hall (p', n')).
  - intros p' n' a Hin Hap Hne Hex. destruct (Ha p' n' a) as [[m Hm]|(q & Eq & Hqp)]; [by right|done..| |].
    + apply elem_of_cons in Hm as [[= -> ->]|Hm]; [|by left; exists m]. right.
      destruct Hsk' as [[-> _]|[_ Hno]]; [by exists p|]. exfalso. destruct Hno as [|Hno]; [done|].
      destruct (Hn p n) as [_ Hp]; [by left|]. destruct (Hn p' n') as [_ Hp']; [by right|]. apply Hno.
      destruct Hap as [x ->]. rewrite (clean_prefix f p x n' Hf Hp') in Hp; [by injection Hp|].
      intros ->. by rewrite app_nil_r in Hne.
    + exfalso. apply (Hq q Eq). destruct (Hsk q Eq) as [_ Hle].
      apply (path_between q p p'); [apply (Hle p n); by left|by apply (Hall (p', n'))|done].
Qed.

(** Reading a file of the tree. *)
Lemma wp_open_entry p n w : w_fs w = f → f !! p = Some n →
  wp (os_Open p) (λ r w', same w w' ∧ match r with Ok m => m = n | Err _ => faulted w w' end) w.
Proof using Hf.
  intros Ew Hp. assert (Forall plain p) as Hpl by by eapply cf_plain.
  eapply wp_mono; [apply wp_stat; [by rewrite Ew|done]|]. intros [m|e] w' [Hs H]; (split; [done|]).
  - rewrite Ew in H. congruence.
  - rewrite Ew in H. destruct H as [[? _]|[HN _]]; [done|congruence].
Qed.

Lemma wp_read_open d t w :
  wp (read_open (NFile d t)) (λ r w', same w w' ∧ match r_err r with None => r_data r = d | Some _ => faulted w w' end) w.
Proof using Type.
  apply wp_bind, wp_next_fault; [intros w' k He Hw _ _ Hft|intros w' He Hw _ _]; apply wp_ret; by split.
Qed.

Lemma bundled_skip p n l chosen : ¬ kept p → bundled l chosen → bundled ((p, n) :: l) chosen.
Proof using Type.
  intros Hk [Hs Hin]. split; [by apply sublist_cons|]. intros q m. rewrite Hin, elem_of_cons.
  split; [naive_solver|]. intros [[[= -> ->]|?] ?]; [done|by split].
Qed.

Lemma bundled_keep p n l chosen : kept p → bundled l chosen → bundled ((p, n) :: l) ((p, n) :: chosen).
Proof using Type.
  intros Hk [Hs Hin]. split; [by apply sublist_skip|]. intros q m. rewrite !elem_of_cons, Hin.
  split; [|naive_solver]. intros [[= -> ->]|[? ?]]; [by split; [left|]|by split; [right|]].
Qed.

Definition collects (l : list (path * node)) (w : world) (r : result error (list entry)) (w' : world) : Prop :=
  same w w' ∧ match r with
  | Ok entries => ∃ chosen, bundled l chosen ∧ entries = map entry_at chosen
  | Err _ => faulted w w'
  end.

Lemma collects_skip p n l w r w' : ¬ kept p → collects l w r w' → collects ((p, n) :: l) w r w'.
Proof using Type.
  intros Hk [Hs H]. split; [done|]. destruct r as [entries|]; [|done].
  destruct H as (chosen & Hb & E). exists chosen. split; [by apply bundled_skip|done].
Qed.

(** The entry of [p] in front of what the rest of the walk collects. *)
Lemma wp_collects_keep p n l w w1 (m : M (result error (list entry))) : kept p → same w w1 →
  wp m (collects l w1) w1 →
  wp (rest ←! m; mret (Ok (entry_at (p, n) :: rest))) (collects ((p, n) :: l) w) w1.
Proof using Type.
  intros Hk Hs Hm. apply wp_bind. eapply wp_mono; [exact Hm|]. intros [entries|e] w2 [Hs2 H]; apply wp_ret.
  - destruct H as (chosen & Hb & ->). split; [by etransitivity|]. exists ((p, n) :: chosen).
    split; [by apply bundled_keep|done].
  - split; [by etransitivity|]. by eapply faulted_r; [apply Hs|].
Qed.

Lemma wp_file_entry p d t l w (m : M (result error (list entry))) :
  kept p → w_fs w = f → f !! p = Some (NFile d t) → (∀ w', w_fs w' = f → wp m (collects l w') w') →
  wp (opened ←! os_Open p;
      content ← read_open opened;
      closed ← f_Close p;
      match r_err content, closed with
      | Some e, _ => mret (Err e)
      | None, Err e => mret (Err e)
      | None, Ok _ => rest ←! m; mret (Ok (mkEntry (relPath root p) (Some (r_data content)) :: rest))
      end) (collects ((p, NFile d t) :: l) w) w.
Proof using Hf.
  intros Hk Ew Hp Hm. apply wp_bind. eapply wp_mono; [by apply (wp_open_entry p (NFile d t))|].
  intros [m'|e] w1 [Hs1 H1]; [subst m'|by apply wp_ret].
  apply wp_bind. eapply wp_mono; [apply wp_read_open|]. intros content w2 [Hs2 H2].
  apply wp_bind. eapply wp_mono; [apply wp_f_noop|]. intros closed w3 [Hs3 H3].
  assert (same w w3) as Hs by (etransitivity; [|done]; by etransitivity).
  destruct (r_err content) as [e|] eqn:Ec.
  { apply wp_ret. split; [done|]. eapply faulted_l; [|apply Hs3]. eapply faulted_r; [apply Hs1|]. done. }
  destruct closed as [u|e].
  { rewrite H2. apply (wp_collects_keep p (NFile d t)); [done..|]. apply Hm. by rewrite (proj2 Hs). }
  apply wp_ret. split; [done|]. eapply faulted_r; [apply Hs1|]. eapply faulted_r; [apply Hs2|]. by apply H3.
Qed.

Lemma wp_add_entries l skipped w : walking f skipped l → w_fs w = f →
  wp (add_entries root dest skipped l) (collects l w) w.
Proof using Hf Hdest.
  revert skipped w. induction l as [|[p n] l IH]; intros skipped w HW Ew; cbn [add_entries].
  { apply wp_ret. split; [done|]. exists []. split; [|done]. split; [done|]. intros q m. rewrite elem_of_nil. naive_solver. }
  destruct (wa_nodes _ _ _ HW p n) as [Hroot Hp]; [by left|].
  destruct (match skipped with Some q => bool_decide (q `prefix_of` p) | None => false end) eqn:Esk.
  { destruct skipped as [q|]; [|done]. apply bool_decide_eq_true in Esk.
    destruct (wa_skipped _ _ _ HW q) as [Hex _]; [done|].
    eapply wp_mono; [apply IH; [by eapply walking_under|done]|]. intros r w'. apply collects_skip.
    intros (_ & _ & Hk). by apply (Hk q). }
  assert (∀ q, skipped = Some q → ¬ q `prefix_of` p) as Hq.
  { intros q ->. by apply bool_decide_eq_false in Esk. }
  case_bool_decide as Ed.
  { subst p. eapply wp_mono; [apply IH; [eapply walking_step; [done..|]|done]|].
    - right. split; [done|]. right. congruence.
    - intros r w'. apply collects_skip. by intros [? _]. }
  assert (is_link n = false) as -> by (destruct n; [done..|]; by destruct (cf_nolink f Hf _ _ _ _ Hp)).
  case_bool_decide as Er.
  { eapply wp_mono; [apply IH; [eapply walking_step; [done..|]|done]|].
    - right. split; [done|]. left. by intros (_ & ? & _).
    - intros r w'. apply collects_skip. by intros (_ & ? & _). }
  destruct (excludeModuleBundlePath (relPath root p)) eqn:Ex.
  { assert (excluded p) as Hexp by done.
    eapply wp_mono; [apply IH; [eapply walking_step; [done..|]|done]|].
    - destruct n; [right|left|right]; (split; [done|]); [by right|done|by right].
    - intros r w'. apply collects_skip. intros (_ & _ & Hk). by apply (Hk p). }
  assert (¬ excluded p) as Hnex by (intros (_ & _ & ?); congruence).
  assert (kept p) as Hk.
  { split; [done|]. split; [done|]. intros a Hap. destruct (decide (a = p)) as [->|Hne]; [done|].
    by eapply walking_head. }
  assert (walking f None l) as HW' by (eapply walking_step; [done..|]; right; split; [done|by left]).
  destruct n as [d t| |b t m]; [..|by destruct (cf_nolink f Hf _ _ _ _ Hp)]; cbn [is_dir].
  - apply wp_file_entry; [done..|]. intros w' Ew'. by apply IH.
  - apply (wp_collects_keep p NDir); [done..|]. by apply IH.
Qed.

End bundle.

(** ** The archive *)

(** What is bundled of the source [root] in [f], in walking order. *)
Definition bundle_of (f : fs) (root dest : path) (chosen : list (path * node)) : Prop :=
  StronglySorted entry_le chosen ∧ NoDup chosen ∧
  ∀ q n, (q, n) ∈ chosen ↔ f !! q = Some n ∧ root `prefix_of` q ∧ kept root dest q.

Lemma StronglySorted_sublist {A} (R : A → A → Prop) (l k : list A) :
  l `sublist_of` k → StronglySorted R k → StronglySorted R l.
Proof.
  intros Hs. induction Hs as [|x l k Hs IH|x l k Hs IH]; intros Hk; [constructor|..]; inversion Hk as [|? ? Hk' Hall]; subst.
  - constructor; [by apply IH|]. rewrite Forall_forall in *. intros y Hy. apply Hall. by eapply elem_of_sublist.
  - by apply IH.
Qed.

Section archive.
Context (tar_gz : list entry → string) (root dest : path).
Context (Hdest : Forall plain dest) (Hne : dest ≠ []).

(** The entries of the tree, up to where the walk gets. *)
Lemma walking_start f j : clean_fs f → walking root f None (take j (tree f root)).
Proof using Type.
  intros Hc. pose proof (tree_sorted f root) as Hs. rewrite <- (take_drop j (tree f root)) in Hs.
  assert (∀ q m, (q, m) ∈ take j (tree f root) → root `prefix_of` q ∧ f !! q = Some m) as Hin.
  { intros q m Hin. apply elem_of_tree. by eapply elem_of_sublist, sublist_take. }
  split; [|done..|].
  - eapply StronglySorted_sublist; [apply sublist_take|apply tree_sorted].
  - intros p m a Hp Hap Hna (Hra & _ & _). left. destruct (Hin p m Hp) as [_ Hfp].
    destruct Hap as [x ->]. assert (f !! a = Some NDir) as Hfa.
    { eapply clean_prefix; [done..|]. intros ->. by rewrite app_nil_r in Hna. }
    assert ((a, NDir) ∈ tree f root) as Ha by by apply elem_of_tree.
    rewrite <- (take_drop j (tree f root)) in Ha. apply elem_of_app in Ha as [Ha|Ha]; [by exists NDir|].
    destruct Hna. apply prefix_not_after; [by eexists|].
    by apply (StronglySorted_app_1_elem_of entry_le _ _ (a ++ x, m) (a, NDir) Hs).
Qed.

Lemma bundled_of f t chosen : bundled root dest (tree (<[dest := NFile "" t]> f) root) chosen → bundle_of f root dest chosen.
Proof using Type.
  intros [Hs Hin]. split; [|split].
  - eapply StronglySorted_sublist; [done|apply tree_sorted].
  - eapply sublist_NoDup; [|done]. eapply NoDup_fmap_1,  tree_NoDup.
  - intros q n. rewrite Hin, elem_of_tree. split.
    + intros [[Hr Hq] Hk]. destruct Hk as [Hqd Hk]. rewrite lookup_insert_ne in Hq by done. by split_and!; [..|split].
    + intros (Hq & Hr & Hk). destruct Hk as [Hqd Hk]. split; [|by split]. split; [done|]. by rewrite lookup_insert_ne.
Qed.

(** The walk and the writing, with the bundle open in [w]. *)
Definition written (f : fs) (w : world) (r : result error unit) (w' : world) : Prop :=
  env w w' ∧ (∃ d t, w_fs w' = <[dest := NFile d t]> f) ∧
  match r with
  | Ok _ => ∃ chosen t, bundle_of f root dest chosen ∧
      w_fs w' = <[dest := NFile (tar_gz (map (entry_at root) chosen)) t]> f
  | Err _ => faulted w w'
  end.
Lemma wp_bundle f t w n : clean_fs (w_fs w) → w_fs w = <[dest := NFile "" t]> f → w_fs w !! root = Some n →
  wp ('(visited, werr) ← filepath_Walk root;
      entries ←! add_entries root dest None visited;
      match werr with
      | Some e => mret (Err e)
      | None => f_Write dest (tar_gz entries)
      end) (written f w) w.
Proof using Type.
  intros Hc Ew Hr. assert (w_fs w !! dest = Some (NFile "" t)) as Hd by by rewrite Ew, lookup_insert_eq.
  apply wp_bind. eapply wp_mono; [by apply (wp_walk root w n)|]. intros [visited werr] w1 [Hs1 H1]. cbn [fst snd] in H1.
  assert (∃ j, visited = take j (tree (w_fs w) root)) as [j Ej].
  { destruct H1 as [[_ ->]|(e & _ & _ & ?)]; [|done]. exists (length (tree (w_fs w) root)). by rewrite take_ge. }
  apply wp_bind. eapply wp_mono; [apply (wp_add_entries root dest (w_fs w) Hc ltac:(congruence)); [|apply Hs1]|].
  { rewrite Ej. by apply walking_start. }
  intros [entries|e] w2 [Hs2 H2].
  2:{ apply wp_ret. assert (same w w2) as Hs by by etransitivity. split; [apply Hs|]. split; [|eapply faulted_r; [apply Hs1|done]].
      exists "", t. by rewrite (proj2 Hs). }
  assert (same w w2) as Hs by by etransitivity. destruct H2 as (chosen & Hb & ->).
  destruct H1 as [[-> ->]|(e & -> & Hft & _)].
  - eapply wp_mono; [apply (wp_write dest _ w2 "" t); by rewrite (proj2 Hs)|]. rewrite (proj2 Hs), Ew.
    intros r w3 [He H3]. split; [etransitivity; [apply Hs|done]|]. destruct r as [u|e].
    + rewrite H3, insert_insert_eq. split; [by do 2 eexists|]. exists chosen, (w_now w2). split; [|done].
      rewrite Ew in Hb. by eapply bundled_of.
    + destruct H3 as [Hft [d' ->]]. rewrite insert_insert_eq. split; [by do 2 eexists|]. eapply faulted_r; [apply Hs|done].
  - apply wp_ret. split; [apply Hs|]. split; [exists "", t; by rewrite (proj2 Hs)|]. eapply faulted_l; [done|apply Hs2].
Qed.

(** The outcome, relative to the tree [f]. *)
Definition finished (f : fs) (w : world) (r : result error unit) (w' : world) : Prop :=
  env w w' ∧ clean_fs (w_fs w') ∧ (∀ q, q ≠ dest → w_fs w' !! q = f !! q) ∧
  match r with
  | Ok _ => ∃ chosen, bundle_of f root dest chosen ∧ file (w_fs w') dest = Some (tar_gz (map (entry_at root) chosen))
  | Err _ => faulted w w' ∧ (w_fs w' !! dest = None ∨ faults_left w' + 2 ≤ faults_left w)
  end.

(** No bundle is left after a failure, unless removing it failed as well. *)
Lemma wp_finish f w r w1 : clean_fs (w_fs w1) → written f w r w1 →
  wp (finish_file dest dest r) (finished f w) w1.
Proof using Hdest.
  intros Hc (He & (d & t & Ew1) & Hr).
  assert (∀ w2, w_fs w2 = w_fs w1 → ∀ q, q ≠ dest → w_fs w2 !! q = f !! q) as Hsame.
  { intros w2 E q Hq. by rewrite E, Ew1, lookup_insert_ne. }
  apply wp_bind. eapply wp_mono; [apply wp_f_noop|]. intros c w2 [Hs2 Hc2].
  assert (∀ e : error, faulted w w2 → wp (_ ← os_Remove dest; mret (Err e)) (finished f w) w2) as Hfail.
  { intros e Hft. apply wp_bind. eapply wp_mono.
    { eapply (wp_remove_file dest d t); [by rewrite (proj2 Hs2)|done|]. by rewrite (proj2 Hs2), Ew1, lookup_insert_eq. }
    intros rr w3 [He3 H3]. apply wp_ret.
    split; [etransitivity; [done|]; etransitivity; [apply Hs2|done]|].
    assert (clean_fs (w_fs w2)) as Hc2' by by rewrite (proj2 Hs2).
    split; [destruct rr; [rewrite H3; apply (clean_delete_file _ _ d t); [done|]|by destruct H3 as [-> _]];
            by rewrite (proj2 Hs2), Ew1, lookup_insert_eq|].
    assert (faulted w w3) by by eapply faulted_l. destruct rr as [u|e'].
    - rewrite H3. split; [|split; [done|left; apply lookup_delete_eq]].
      intros q Hq. rewrite lookup_delete_ne by done. by apply Hsame; [apply Hs2|].
    - destruct H3 as [E3 [H3 _]]. split; [|split; [done|right; unfold faulted in *; lia]].
      apply Hsame. rewrite E3. apply Hs2. }
  destruct r as [u|e]; [destruct c as [u'|e]|].
  - apply wp_ret. split; [etransitivity; [done|apply Hs2]|]. split; [by rewrite (proj2 Hs2)|]. split; [by apply Hsame, Hs2|].
    destruct Hr as (chosen & t' & Hb & E). exists chosen. split; [done|]. rewrite (proj2 Hs2), E. unfold file. by rewrite lookup_insert_eq.
  - apply Hfail. eapply faulted_r; [done|by apply Hc2].
  - apply Hfail. eapply faulted_l; [done|apply Hs2].
Qed.

(** What creating the bundle does; [f] is the tree with the directories on the
    way to it. *)
Definition created (w : world) (r : result error unit) (w' : world) : Prop :=
  env w w' ∧ clean_fs (w_fs w') ∧ ∃ f,
    extends (parent dest) (w_fs w) f ∧ (∀ q, q ≠ dest → w_fs w' !! q = f !! q) ∧
    match r with
    | Ok _ => ∃ chosen, bundle_of f root dest chosen ∧
        file (w_fs w') dest = Some (tar_gz (map (entry_at root) chosen))
    | Err _ => faulted w w' ∧
        (w_fs w' !! dest = w_fs w !! dest ∨ w_fs w' !! dest = None ∨ faults_left w' + 2 ≤ faults_left w)
    end.

Lemma extends_below f f' : extends (parent dest) f f' → f' !! dest = f !! dest.
Proof using Hne.
  intros Hx. destruct (Hx dest) as [?|(_ & _ & [x E])]; [done|]. exfalso. pose proof (parent_base dest Hne) as Eb.
  apply (f_equal length) in E, Eb. rewrite length_app in E, Eb. simpl in Eb. clear -E Eb. lia.
Qed.

Lemma wp_createTarGz w n : clean_fs (w_fs w) → way (w_fs w) (parent dest) →
  w_fs w !! root = Some n → w_fs w !! dest ≠ Some NDir → wp (createTarGz tar_gz root dest) (created w) w.
Proof using All.
  intros Hc Hway Hr Hnd. unfold createTarGz.
  apply wp_bind. eapply wp_mono; [apply wp_mkdirall; [done|by apply plain_parent]|].
  intros [u|e] w1 (He1 & Hc1 & Hx & H1).
  2:{ apply wp_ret. split; [done|]. split; [done|]. exists (w_fs w1). destruct H1 as [H1|H1]; [|done].
      split_and!; [done..|]. left. by apply extends_below. }
  apply wp_bind. eapply wp_mono; [by apply wp_opentrunc|]. intros [h|e] w2 [He2 H2].
  2:{ apply wp_ret. destruct H2 as [E2 H2]. split; [by etransitivity|]. rewrite E2. split; [done|]. exists (w_fs w1).
      split_and!; [done..| |left; by apply extends_below].
      rewrite (extends_below _ _ Hx) in H2. eapply faulted_r; [done|]. by destruct H2 as [?|[?|?]]. }
  destruct H2 as (-> & Hnd1 & Hp1 & E2).
  assert (∃ m, w_fs w2 !! root = Some m) as [m Hm].
  { rewrite E2. destruct (decide (dest = root)) as [->|?]; [rewrite lookup_insert_eq; by eexists|].
    rewrite lookup_insert_ne by done. destruct (Hx root) as [->|(_ & -> & _)]; by eexists. }
  assert (clean_fs (w_fs w2)) as Hc2 by (rewrite E2; by apply clean_insert_file).
  apply wp_bind. eapply wp_mono; [by eapply wp_bundle|]. intros r w3 H3.
  assert (clean_fs (w_fs w3)) as Hc3.
  { destruct H3 as (_ & (d & t & ->) & _). by apply clean_insert_file. }
  eapply wp_mono; [by apply (wp_finish (w_fs w1) w2)|]. intros r' w4 (He4 & Hc4 & Hsame & H4).
  split; [etransitivity; [exact He1|]; by etransitivity|]. split; [done|]. exists (w_fs w1). split_and!; [done..|].
  destruct r' as [u'|e]; [done|].
  destruct H4 as [Hft H4]. assert (faults_left w2 ≤ faults_left w) by by destruct He1, He2; lia.
  split; [unfold faulted in *; lia|]. right. destruct H4; [by left|right; lia].
Qed.

End archive.

(** C22. A module bundle contains exactly what is to be bundled.  Creating it
    makes the directories on the way to it, and nothing else but the bundle
    itself changes; the bundle is the compressed stream of every file and
    directory of the source, in walking order and with its content, apart from
    the source directory itself, the bundle itself and whatever is, or lies
    below, a version-control or Terraform directory, a crash log or a state
    file.  It fails only when a call of the operating system fails, and then it
    leaves no bundle, unless removing it failed as well. *)
Theorem createTarGz_exact (tar_gz : list entry → string) (root dest : path) w n :
  clean_fs (w_fs w) → Forall plain dest → dest ≠ [] → way (w_fs w) (parent dest) →
  w_fs w !! root = Some n → w_fs w !! dest ≠ Some NDir →
  ∃ r w' f, createTarGz tar_gz root dest w = Some (r, w') ∧
    extends (parent dest) (w_fs w) f ∧ (∀ q, q ≠ dest → w_fs w' !! q = f !! q) ∧
    match r with
    | Ok _ => ∃ chosen, bundle_of f root dest chosen ∧
        file (w_fs w') dest = Some (tar_gz (map (entry_at root) chosen))
    | Err _ => faulted w w' ∧
        (w_fs w' !! dest = w_fs w !! dest ∨ w_fs w' !! dest = None ∨ faults_left w' + 2 ≤ faults_left w)
    end.
Proof.
  intros Hc Hd Hne Hway Hr Hnd. pose proof (wp_createTarGz tar_gz root dest Hd Hne w n Hc Hway Hr Hnd) as H.
  apply wp_total in H as (r & w' & E & _ & _ & f & H). by exists r, w', f.
Qed.

(** A module with a repository and a state file in it, and its bundle beside it. *)
Definition module_entries : list (path * node) :=
  [([], NDir); (["tmp"], NDir); (["home"], NDir); (["home"; "net"], NDir); (["home"; "net"; "main.tf"], NFile "resource" 0);
   (["home"; "net"; "sub"], NDir); (["home"; "net"; "sub"; "vars.tf"], NFile "variable" 0);
   (["home"; "net"; ".git"], NDir); (["home"; "net"; ".git"; "config"], NFile "secret" 0);
   (["home"; "net"; "prod.tfstate"], NFile "state" 0)].
Definition module_world : world := World (list_to_map module_entries) [] (λ _, 7%N) 0 0 ∅ false.

(** The archive as a readable listing. *)
Definition listing_of (l : list entry) : string :=
  foldr (λ e s, en_name e +:+ "=" +:+ default "dir" (en_data e) +:+ ";" +:+ s) "" l.

Definition module_bundle : path := ["home"; "net"; "dist"; "net.tar.gz"].

Lemma module_clean : clean_fs (w_fs module_world).
Proof. apply (sf_clean ["home"]), (store_fs_checked ["home"] module_entries). vm_compute. reflexivity. Qed.

Lemma module_way : way (w_fs module_world) (parent module_bundle).
Proof.
  intros d x E. change (["home"; "net"; "dist"] = d ++ x) in E.
  destruct d as [|a [|b [|c [|? ?]]]]; simplify_eq/=; [by right..|by left].
Qed.

Lemma createTarGz_exact_witness : ∃ w' chosen,
  createTarGz listing_of ["home"; "net"] module_bundle module_world = Some (Ok (), w') ∧
  file (w_fs w') module_bundle = Some "dist=dir;main.tf=resource;sub=dir;sub/vars.tf=variable;" ∧
  file (w_fs w') module_bundle = Some (listing_of (map (entry_at ["home"; "net"]) chosen)).
Proof.
  destruct (createTarGz_exact listing_of ["home"; "net"] module_bundle module_world NDir module_clean)
    as (r & w' & f & E & _ & _ & H); [by repeat constructor|discriminate|exact module_way|vm_compute; reflexivity|vm_compute; discriminate|].
  assert (match createTarGz listing_of ["home"; "net"] module_bundle module_world with
          | Some (Ok _, v) => file (w_fs v) module_bundle | _ => None end =
          Some "dist=dir;main.tf=resource;sub=dir;sub/vars.tf=variable;") as E' by (vm_compute; reflexivity).
  rewrite E in E'. destruct r as [[]|e]; [|discriminate E']. destruct H as (chosen & _ & H).
  exists w', chosen. split; [exact E|]. split; [exact E'|exact H].
Defined.
