(* ===== verification/Publish.v ===== *)
(** * Bundling, publishing, importing, and the entry point (cmd/tfreg)

    bundle (main.go), publish (publish.go), import (import.go) and [main].  The
    go command is a parameter: a computation on the file system with its
    arguments, directory and environment; so are the writers of archives and
    what the OCI library offers. *)

From S2P Require Import Prelude GoString GoPath Os Json Decode Store Http Index Auth Client Flags Commands Oci Bundle.

(** [strconv.ParseInt(s, 10, 64)] *)
Definition ParseInt (s : string) : option Z :=
  match s with
  | "" => None
  | String a t =>
      let neg := bool_decide (a = "-"%char) in
      un ← ParseUint (if bool_decide (a = "+"%char) || neg then t else s);
      let n := Z.of_N un in
      if neg then (if (2 ^ 63 <? n)%Z then None else Some (- n)%Z)
      else if (2 ^ 63 <=? n)%Z then None else Some n
  end.

Section publish.
Context {Net : Type} (send : client_request → Net → result error client_response * Net).
Context (url_ok : string → bool) (cwd tmpdir : path).
(** the environment, as a function and as [os.Environ()]; standard input *)
Context (env : string → string) (environ : list string) (stdin : reader).
(** [exec.Cmd.Run] of the go command *)
Context (run_go : list string → path → list string → M (result error unit)).
Context (tar_gz : list entry → string) (zip_file : list entry → string).
Context {Rest : Type} (url_Parse : string → result error (URL Rest)) (url_String : URL Rest → string).
Context (digest_Validate : string → bool) (digest_Verified : string → string → bool) (digest_of : string → string).
Context (decode_manifest : string → result error Manifest) (rfc3339 : Z → string).
Context (ParseReference : string → result error Reference).
Context (oras : Oras (Net := Net)).
(** the build's version *)
Context (version : string).
#[local] Abbreviation C := (C (Net := Net)).
#[local] Abbreviation push := (pushOCIArtifact digest_of rfc3339 ParseReference oras).

(** ** bundle *)

(** [if _, err := os.Stat(p); os.IsNotExist(err) { os.Exit(1) }] *)
Definition must_exist (p : path) : C unit :=
  r ← sys (os_Stat p);
  match r with Err e => if os_IsNotExist e then os_Exit 1 else mret () | Ok _ => mret () end.

Definition bundleProvider (args : list string) : C unit :=
  fs ← parsed (output_flag (platform_flags (StringVar "binary" "" "Path to provider binary"
         (provider_flags (newFlagSet "tfreg bundle provider"))))) args;
  require fs ["namespace"; "name"; "version"; "binary"];;
  let v := value_of fs in
  must_exist (Abs cwd (v "binary"));;
  let filename := "terraform-provider-" +:+ Join [v "name"; v "version"; v "os"; v "arch"] "_" +:+ ".zip" in
  let outPath := Join2 (v "output") filename in
  Printf ("Bundling provider " +:+ provider_id fs +:+ platform_id fs +:+ newline);;
  or_exit (sys (createZip zip_file (Abs cwd (v "binary")) (Abs cwd outPath)));;
  Printf ("Created: " +:+ outPath +:+ newline).

Definition bundleModule (args : list string) : C unit :=
  fs ← parsed (output_flag (StringVar "source" "" "Source directory containing module files"
         (module_flags (newFlagSet "tfreg bundle module")))) args;
  require fs ["namespace"; "name"; "provider"; "version"; "source"];;
  let v := value_of fs in
  must_exist (Abs cwd (v "source"));;
  let outPath := Join2 (v "output") (Join [v "namespace"; v "name"; v "provider"; v "version"] "-" +:+ ".tar.gz") in
  Printf ("Bundling module " +:+ module_id fs +:+ "@" +:+ v "version" +:+ "..." +:+ newline);;
  or_exit (sys (createTarGz tar_gz (Abs cwd (v "source")) (Abs cwd outPath)));;
  Printf ("Created: " +:+ outPath +:+ newline).

Definition handleBundle : list string → C unit := dispatch [("provider", bundleProvider); ("module", bundleModule)].

(** ** publish *)

(** [filepath.Join(dir, name)] *)
Definition joined (dir : path) (name : string) : path := join_parts dir (Split name "/").

Record publishModuleOptions := mkPublishModule {
  m_Registry : string; m_APIKey : string; m_Namespace : string; m_Name : string; m_Provider : string;
  m_Version : string; m_Source : string; m_OCIReference : string; m_OCIUsername : string; m_OCIPassword : string;
  m_OCIPlainHTTP : bool
}.

Record publishProviderOptions := mkPublishProvider {
  p_Registry : string; p_APIKey : string; p_Namespace : string; p_Name : string; p_Version : string;
  p_Source : string; p_OS : string; p_Arch : string; p_SkipTests : bool;
  p_OCIReference : string; p_OCIUsername : string; p_OCIPassword : string; p_OCIPlainHTTP : bool
}.

Definition filteredEnvironment (keys : list string) : list string :=
  List.filter (λ entry, negb (existsb (String.eqb (fst (fst (Cut entry "=")))) keys)) environ.

Definition build_keys : list string := ["GOOS"; "GOARCH"; "CGO_ENABLED"].

Definition buildProviderSource (source : string) (output : path) (osName arch : string) (skipTests : bool)
    : M (result error unit) :=
  _ ←! (if skipTests then mret (Ok ())
        else run_go ["test"; "./..."] (Abs cwd source) (filteredEnvironment build_keys)) wrapping "provider tests failed";
  _ ←! run_go ["build"; "-trimpath"; "-o"; "/" +:+ Join output "/"; "."] (Abs cwd source)
         (filteredEnvironment build_keys ++ ["GOOS=" +:+ osName; "GOARCH=" +:+ arch; "CGO_ENABLED=0"])
       wrapping "build provider";
  mret (Ok ()).

(** The optional copy to an OCI registry, at the end. *)
Definition also_push (reference : string) (opts : ociPushOptions) : C (result error unit) :=
  if String.eqb reference "" then mret (Ok ())
  else try_c (EWrap "terraform registry upload succeeded, but OCI push failed") (λ _, mret (Ok ())) (push opts).

Definition publishProviderArtifact (opts : publishProviderOptions) : C (result error unit) :=
  try_c id (λ tmp,
    deferred_c (sys (os_RemoveAll tmp)) (
      let binaryName := "terraform-provider-" +:+ p_Name opts +:+ "_v" +:+ p_Version opts in
      let binaryPath := joined tmp binaryName in
      let bundleName := "terraform-provider-" +:+ Join [p_Name opts; p_Version opts; p_OS opts; p_Arch opts] "_" +:+ ".zip" in
      let bundlePath := joined tmp bundleName in
      let url := api_url (TrimRight (p_Registry opts) "/")
                   ["providers"; p_Namespace opts; p_Name opts; p_Version opts; p_OS opts; p_Arch opts] in
      try_c id (λ _,
      try_c (EWrap "bundle provider") (λ _,
      try_c id (λ _,
        also_push (p_OCIReference opts) (mkPushOptions (p_OCIReference opts) bundlePath "provider"
          (artifactAnnotations "provider" (p_Namespace opts) (p_Name opts) "" (p_Version opts) (p_OS opts) (p_Arch opts) bundleName)
          (p_OCIUsername opts) (p_OCIPassword opts) (p_OCIPlainHTTP opts)))
        (uploadArtifact send url_ok url bundlePath (base_name bundlePath) (p_APIKey opts)))
        (sys (createZip zip_file binaryPath bundlePath)))
        (sys (buildProviderSource (p_Source opts) binaryPath (p_OS opts) (p_Arch opts) (p_SkipTests opts)))))
    (sys (os_MkdirTemp tmpdir "tfreg-provider-")).

Definition publishModuleArtifact (opts : publishModuleOptions) : C (result error unit) :=
  try_c id (λ tmp,
    deferred_c (sys (os_RemoveAll tmp)) (
      let bundleName := Join [m_Namespace opts; m_Name opts; m_Provider opts; m_Version opts] "-" +:+ ".tar.gz" in
      let bundlePath := joined tmp bundleName in
      let url := api_url (TrimRight (m_Registry opts) "/")
                   ["modules"; m_Namespace opts; m_Name opts; m_Provider opts; m_Version opts] in
      try_c (EWrap "bundle module") (λ _,
      try_c id (λ _,
        also_push (m_OCIReference opts) (mkPushOptions (m_OCIReference opts) bundlePath "module"
          (artifactAnnotations "module" (m_Namespace opts) (m_Name opts) (m_Provider opts) (m_Version opts) "" "" bundleName)
          (m_OCIUsername opts) (m_OCIPassword opts) (m_OCIPlainHTTP opts)))
        (uploadArtifact send url_ok url bundlePath (base_name bundlePath) (m_APIKey opts)))
        (sys (createTarGz tar_gz (Abs cwd (m_Source opts)) bundlePath))))
    (sys (os_MkdirTemp tmpdir "tfreg-module-")).

(** [readPasswordStdin] *)
Definition readPasswordStdin : C string :=
  value ← or_exit (mret (read_limited stdin (2 ^ 16)));
  let password := TrimSpace value in
  if String.eqb password "" then os_Exit 1 else mret password.

(** [if *passwordStdin { opts.OCIPassword = readPasswordStdin() }] *)
Definition oci_password (fs : flagSet) : C string :=
  if is_set fs "oci-password-stdin" then readPasswordStdin else mret "".

Definition oci_flags (fs : flagSet) : flagSet :=
  BoolVar "oci-plain-http" false "Use HTTP for a local OCI registry"
    (BoolVar "oci-password-stdin" false "Read OCI password/token from stdin"
      (StringVar "oci-username" (envOr env "TFREG_OCI_USERNAME" "") "OCI username (use AWS for ECR)" fs)).
Definition publish_flags (fs : flagSet) : flagSet :=
  oci_flags (StringVar "oci-ref" "" "Also push as OCI artifact (full repository:tag)" fs).
Definition target_flags (fs : flagSet) : flagSet :=
  StringVar "api-key" (default_key env) "Terraform registry API key"
    (StringVar "registry" (default_registry env) "Terraform registry URL" fs).

Definition publishProviderCommand (args : list string) : C unit :=
  fs ← parsed (publish_flags (BoolVar "skip-tests" false "Skip go test before building"
         (StringVar "arch" "amd64" "Target architecture" (StringVar "os" "linux" "Target operating system"
           (StringVar "source" "." "Provider Go source directory" (StringVar "version" "" "Provider version"
             (StringVar "name" "" "Provider name" (StringVar "namespace" "" "Provider namespace"
               (target_flags (newFlagSet "tfreg publish provider")))))))))) args;
  require fs ["namespace"; "name"; "version"];;
  let v := value_of fs in
  password ← oci_password fs;
  or_exit (publishProviderArtifact (mkPublishProvider (v "registry") (v "api-key") (v "namespace") (v "name") (v "version")
    (v "source") (v "os") (v "arch") (is_set fs "skip-tests") (v "oci-ref") (v "oci-username") password
    (is_set fs "oci-plain-http")));;
  Printf ("Published provider " +:+ provider_id fs +:+ " (" +:+ v "os" +:+ "/" +:+ v "arch" +:+ ")" +:+ newline).

Definition publishModuleCommand (args : list string) : C unit :=
  fs ← parsed (publish_flags (StringVar "source" "." "Terraform module source directory" (StringVar "version" "" "Module version"
         (StringVar "provider" "" "Primary provider name" (StringVar "name" "" "Module name"
           (StringVar "namespace" "" "Module namespace" (target_flags (newFlagSet "tfreg publish module")))))))) args;
  require fs ["namespace"; "name"; "provider"; "version"];;
  let v := value_of fs in
  password ← oci_password fs;
  or_exit (publishModuleArtifact (mkPublishModule (v "registry") (v "api-key") (v "namespace") (v "name") (v "provider")
    (v "version") (v "source") (v "oci-ref") (v "oci-username") password (is_set fs "oci-plain-http")));;
  Printf ("Published module " +:+ module_id fs +:+ "@" +:+ v "version" +:+ newline).

Definition handlePublish : list string → C unit :=
  dispatch [("provider", publishProviderCommand); ("module", publishModuleCommand)].

(** ** import *)

(** The option [--max-download-mb], in bytes. *)
Definition max_download (mb : string) : option Z :=
  match ParseInt mb with
  | Some n => if (n <=? 0)%Z || (10240 <? n)%Z then None else Some (int64_wrap (Z.shiftl n 20))
  | None => None
  end.

Definition imported (t : ociArtifactMetadata) : string :=
  if String.eqb (Kind t) "provider"
  then "Imported provider " +:+ Namespace t +:+ "/" +:+ Name t +:+ "@" +:+ Version t +:+ " (" +:+ OS_ t +:+ "/" +:+ Arch_ t +:+ ")" +:+ newline
  else "Imported module " +:+ Namespace t +:+ "/" +:+ Name t +:+ "/" +:+ Provider t +:+ "@" +:+ Version t +:+ newline.

Definition handleImport (args : list string) : C unit :=
  fs ← parsed (StringVar "max-download-mb" "500" "Maximum OCI package size in MiB"
         (oci_flags (StringVar "oci-ref" "" "OCI/ECR artifact reference (full repository:tag or repository@digest)"
           (target_flags (newFlagSet "tfreg import"))))) args;
  require fs ["oci-ref"];;
  let v := value_of fs in
  match max_download (v "max-download-mb") with
  | None => os_Exit 1
  | Some maxBytes =>
      password ← oci_password fs;
      metadata ← or_exit (importOCIArtifact send url_ok url_Parse url_String digest_Validate digest_Verified decode_manifest
        tmpdir ParseReference oras
        (mkImportOptions (v "registry") (v "api-key") (v "oci-ref") (v "oci-username") password (is_set fs "oci-plain-http") maxBytes));
      Printf (imported metadata)
  end.

(** ** main *)

Definition usage : string := "tfreg - Terraform Registry CLI

Usage: tfreg <command> [options]

Commands:
  push      Upload a provider or module to the registry
  pull      Download a provider or module from the registry
  list      List providers or modules in the registry
  bundle    Create a distributable bundle from local files
  publish   Build/bundle and push source in one command (optional OCI/ECR copy)
  import    Copy a validated Terraform OCI/ECR artifact into the registry
  delete    Remove a provider or module version from the registry
  version   Show version

Global Options:
  --registry URL    Registry URL (or TFREG_REGISTRY env var)
  --api-key KEY     API key (or TFREG_API_KEY env var)

Run 'tfreg <command> --help' for command-specific help.".
Definition printUsage : C unit := Printf (usage +:+ newline).

(** [os.Args], without the program's name. *)
Definition main (argv : list string) : C unit :=
  match argv with
  | [] => printUsage;; os_Exit 1
  | cmd :: args =>
      if String.eqb cmd "push" then handlePush send url_ok cwd env args
      else if String.eqb cmd "pull" then handlePull send url_ok cwd env args
      else if String.eqb cmd "list" || String.eqb cmd "ls" then handleList send url_ok env args
      else if String.eqb cmd "bundle" then handleBundle args
      else if String.eqb cmd "publish" then handlePublish args
      else if String.eqb cmd "import" then handleImport args
      else if String.eqb cmd "delete" || String.eqb cmd "rm" then handleDelete send url_ok env args
      else if String.eqb cmd "version" then Printf ("tfreg " +:+ version +:+ newline)
      else if String.eqb cmd "help" || String.eqb cmd "--help" || String.eqb cmd "-h" then printUsage
      else printUsage;; os_Exit 1
  end.

End publish.
