(* ===== verification/PublishFacts.v ===== *)
(** * What publishing uploads

    A module is published as the bundle of its source; the bound of an import
    is one the import is verified for. *)

From S2P Require Import Prelude GoString GoPath Os OsFacts Store StoreFacts KeyValue StoreSpec Archive Draft Http.
From S2P Require Import Client ClientRuns ClientFacts Commands CommandFacts Oci OciFacts Bundle BundleFacts Publish.

(** ** The bound of an import *)

(** The option is in MiB, from one to 10240, and its value in bytes does not
    overflow. *)
Lemma max_download_bounds mb maxBytes : max_download mb = Some maxBytes →
  ∃ n, ParseInt mb = Some n ∧ (1 ≤ n ≤ 10240)%Z ∧ maxBytes = (n * 2 ^ 20)%Z ∧ (0 < maxBytes < 2 ^ 63 - 1)%Z.
Proof.
  unfold max_download. destruct (ParseInt mb) as [n|]; [|done]. destruct (_ || _) eqn:E; [done|]. intros [= <-].
  apply orb_false_iff in E as [H1%Z.leb_gt H2%Z.ltb_ge]. exists n. rewrite Z.shiftl_mul_pow2 by lia.
  change (2 ^ 20)%Z with 1048576%Z. rewrite int64_wrap_id by lia. split_and!; [done|lia..].
Qed.

(** ** Help *)

(** Of the commands with a subcommand, none takes [--help] in its place. *)
Lemma dispatch_help {Net} (table : list (string * (list string → C (Net := Net) unit))) m :
  Forall (λ kv, kv.1 ≠ "--help") table → dispatch table ["--help"] m = Some (inr 1%Z, m).
Proof.
  intros Ht. unfold dispatch. assert (List.find (λ kv, String.eqb kv.1 "--help") table = None) as ->; [|done].
  induction Ht as [|kv table Hkv _ IH]; [done|]. cbn [List.find]. by rewrite (proj2 (String.eqb_neq _ _) Hkv).
Qed.

(** ** Publishing a module *)

Section publish.
Context {Net : Type} (send : client_request → Net → result error client_response * Net).
Context (url_ok : string → bool) (cwd tmpdir : path) (tar_gz : list entry → string).
Context (digest_of : string → string) (rfc3339 : Z → string) (ParseReference : string → result error Reference).
Context (oras : Oras (Net := Net)).
Context (opts : publishModuleOptions).
#[local] Abbreviation machine := (machine (Net := Net)).

Definition module_bundle_name : string :=
  Join [m_Namespace opts; m_Name opts; m_Provider opts; m_Version opts] "-" +:+ ".tar.gz".
Definition module_url : string :=
  api_url (TrimRight (m_Registry opts) "/") ["modules"; m_Namespace opts; m_Name opts; m_Provider opts; m_Version opts].
Definition module_source : path := Abs cwd (m_Source opts).

(** What of the source the bundle contains; [dest], the bundle, lies outside. *)
Definition module_contents (f : fs) (chosen : list (path * node)) : Prop :=
  ∃ dest, ¬ module_source `prefix_of` dest ∧ bundle_of f module_source dest chosen.

(** Nothing was sent and the result is an error, or the bundle was sent, and
    success means a reply in the two hundreds. *)
Definition published (f : fs) (net : Net) (r : result error unit) (net' : Net) : Prop :=
  is_ok r = false ∧ net' = net ∨
  ∃ chosen content, module_contents f chosen ∧
    (content = Reader (tar_gz (map (entry_at module_source) chosen)) None ∨ r_err content ≠ None) ∧
    let q := upload_request (m_APIKey opts) module_url module_bundle_name content in
    net' = (send q net).2 ∧
    (is_ok r = true → ∃ resp, (send q net).1 = Ok resp ∧ (200 ≤ c_status resp < 300)%Z).

Lemma module_bundle_plain : plain module_bundle_name.
Proof using Type.
  assert (∀ s t, slen t = 7 → 3 ≤ slen (s +:+ t)) as H by (clear; intros s t Ht; rewrite slen_app; lia).
  unfold module_bundle_name. specialize (H (Join [m_Namespace opts; m_Name opts; m_Provider opts; m_Version opts] "-") ".tar.gz" eq_refl).
  split_and!; intros E; rewrite E in H; cbn in H; clear -H; lia.
Qed.

Lemma joined_bundle p : Forall plain p → no_char "/" module_bundle_name → joined p module_bundle_name = p ++ [module_bundle_name].
Proof using Type.
  intros Hp Hn. unfold joined, join_parts. rewrite Split_no_char by done. apply clean_parts_plain, Forall_app.
  split; [done|]. constructor; [apply module_bundle_plain|done].
Qed.

(** A source that does not contain the workspace is the same once it is made. *)
Lemma module_contents_fresh f p n chosen : clean_fs f → f !! p = None → f !! module_source = Some n →
  ¬ module_source `prefix_of` p → bundle_of (<[p := NDir]> f) module_source (p ++ [module_bundle_name]) chosen →
  module_contents f chosen.
Proof using Type.
  intros Hc HN Hn Hnp (Hs & Hnd & Hin). exists (p ++ [module_bundle_name]). split.
  - intros [x E]. destruct x as [|c x _] using rev_ind.
    + rewrite app_nil_r in E. rewrite <- E in Hn. apply (cf_parent f Hc) in Hn. congruence.
    + rewrite app_assoc in E. apply app_inj_tail in E as [E _]. apply Hnp. by exists x.
  - split; [done|]. split; [done|]. intros q m. rewrite Hin. split; intros (Hq & Hpre & Hk); (split; [|done]);
      (rewrite lookup_insert_ne in *; [done|]; by intros ->).
Qed.

(** The bundle in the workspace [p]. *)
Lemma wp_bundle_in p f n w : clean_fs f → clean_fs (w_fs w) → Forall plain p → w_fs w = <[p := NDir]> f → f !! p = None →
  f !! module_source = Some n → ¬ module_source `prefix_of` p →
  wp (createTarGz tar_gz module_source (p ++ [module_bundle_name])) (λ r w', env w w' ∧ clean_fs (w_fs w') ∧
    (∀ q, ¬ p `prefix_of` q → w_fs w' !! q = w_fs w !! q) ∧
    match r with
    | Ok _ => ∃ chosen, module_contents f chosen ∧
        file (w_fs w') (p ++ [module_bundle_name]) = Some (tar_gz (map (entry_at module_source) chosen))
    | Err _ => True
    end) w.
Proof using Type.
  intros Hcf Hc Hp Ew HN Hn Hnp. assert (w_fs w !! p = Some NDir) as Hpd by by rewrite Ew, lookup_insert_eq.
  assert (p ≠ module_source) as Hne by (intros E; apply Hnp; by rewrite E).
  eapply wp_mono.
  { apply (wp_createTarGz tar_gz module_source (p ++ [module_bundle_name])) with (n := n).
    - apply Forall_app. split; [done|]. constructor; [apply module_bundle_plain|done].
    - by destruct p.
    - done.
    - rewrite parent_app. by apply way_dir.
    - rewrite Ew, lookup_insert_ne by done. done.
    - rewrite Ew, lookup_insert_ne.
      + destruct (f !! (p ++ [module_bundle_name])) eqn:E; [|done]. apply (cf_parent f Hcf) in E. congruence.
      + intros E. apply (f_equal length) in E. rewrite length_app in E. simpl in E. clear -E. lia. }
  intros r w' (He & Hc' & g & Hx & Hsame & Hr). rewrite parent_app in Hx.
  assert (g = w_fs w) as ->.
  { apply map_eq. intros q. destruct (Hx q) as [|(Hq & _ & [x ->])]; [done|]. exfalso.
    destruct x; [rewrite app_nil_r in Hpd; congruence|]. by rewrite (clean_prefix _ _ _ _ Hc Hpd) in Hq. }
  split; [done|]. split; [done|]. split.
  - intros q Hq. apply Hsame. intros ->. apply Hq. by eexists.
  - destruct r as [[]|e]; [|done]. destruct Hr as (chosen & Hb & Hf). exists chosen. split; [|done].
    rewrite Ew in Hb. by eapply module_contents_fresh.
Qed.

Lemma wpc_publish_in p n f (m : machine) : no_char "/" module_bundle_name → m_OCIReference opts = "" →
  clean_fs f → clean_fs (w_fs (m_world m)) → Forall plain p → w_fs (m_world m) = <[p := NDir]> f → f !! p = None →
  f !! module_source = Some n → ¬ module_source `prefix_of` p →
  wpc (let bundlePath := joined p module_bundle_name in
      try_c (EWrap "bundle module") (λ _,
      try_c id (λ _,
        also_push digest_of rfc3339 ParseReference oras (m_OCIReference opts)
          (mkPushOptions (m_OCIReference opts) bundlePath "module"
          (artifactAnnotations "module" (m_Namespace opts) (m_Name opts) (m_Provider opts) (m_Version opts) "" "" module_bundle_name)
          (m_OCIUsername opts) (m_OCIPassword opts) (m_OCIPlainHTTP opts)))
        (uploadArtifact send url_ok module_url bundlePath (base_name bundlePath) (m_APIKey opts)))
        (sys (createTarGz tar_gz (Abs cwd (m_Source opts)) bundlePath)))
    (returns (λ r m', inside p m m' ∧ published f (m_net m) r (m_net m'))) m.
Proof using Type.
  intros Hname Hoci Hcf Hc Hp Ew HN Hn Hnp. cbv zeta. rewrite joined_bundle by done. rewrite base_name_app.
  apply wpc_try, wpc_sys. eapply wp_mono; [by apply (wp_bundle_in p f n)|]. intros r w1 (He1 & Hc1 & Hq1 & H1). cbn [returns].
  destruct r as [[]|e].
  2:{ split; [by split_and!|]. by left. }
  destruct H1 as (chosen & Hch & Hf1).
  apply wpc_try. eapply wpc_mono.
  { apply (wpc_uploadArtifact send url_ok (m_APIKey opts)); [exact Hc1| |exact Hf1].
    apply Forall_app. split; [done|]. constructor; [apply module_bundle_plain|done]. }
  cbn [set_world m_world m_out m_net]. intros [r|z] m2; cbn [returns]; [|done]. intros ([He2 E2] & Eo2 & Hup).
  assert (inside p m m2) as Hin.
  { split; [by etransitivity|]. rewrite E2. by split_and!. }
  assert (published f (m_net m) r (m_net m2)) as Hpub.
  { destruct Hup as [?|(content & Hcont & Hsend & Hok)]; [by left|]. right. exists chosen, content. by split_and!. }
  destruct r as [[]|e]; [|by split].
  unfold also_push. rewrite Hoci. apply wpc_ret. by split.
Qed.

Lemma wpc_publishModuleArtifact (m : machine) n :
  no_char "/" module_bundle_name → m_OCIReference opts = "" → clean_fs (w_fs (m_world m)) → Forall plain tmpdir →
  w_fs (m_world m) !! module_source = Some n → ¬ module_source `prefix_of` tmpdir →
  wpc (publishModuleArtifact send url_ok cwd tmpdir tar_gz digest_of rfc3339 ParseReference oras opts)
    (returns (λ r m', tidied tmpdir m m' ∧ published (w_fs (m_world m)) (m_net m) r (m_net m'))) m.
Proof using Type.
  intros Hname Hoci Hc Ht Hn Hnt.
  apply (wpc_with_workspace "tfreg-module-" tmpdir m ltac:(by repeat split) Ht Hc _ _
    (λ r, published (w_fs (m_world m)) (m_net m) r)); [by left|].
  intros p m1 ([k Ep] & Hp & HN & Hd & He1 & En & Eo & Ef1 & Hc1). rewrite <- En.
  apply (wpc_publish_in p n (w_fs (m_world m))); try done.
  intros [x E]. rewrite E in Ep. destruct x as [|c x _] using rev_ind.
  - rewrite app_nil_r in Ep, E. congruence.
  - rewrite app_assoc in Ep. apply app_inj_tail in Ep as [Ep _]. apply Hnt. by exists x.
Qed.

(** C21. Publishing a module uploads the bundle of its source.  From any clean
    file system, whatever system calls fail and whatever the registry answers,
    publishing ends.  Either nothing was sent and the result is an error, or
    exactly one request was sent: it uploads, under the name and to the address
    of the module's identity, the bundle of exactly the files of the source
    that are not left out (or breaks off, when the bundle cannot be read back),
    and success means a reply in the two hundreds.  Nothing outside the
    directory for temporary files changes, and unless a system call failed the
    file system is afterwards what it was before.  This is without the optional
    copy to an OCI registry, and for a source that does not contain the
    directory for temporary files. *)
Theorem publishModuleArtifact_exact (m : machine) n :
  no_char "/" module_bundle_name → m_OCIReference opts = "" → clean_fs (w_fs (m_world m)) → Forall plain tmpdir →
  w_fs (m_world m) !! module_source = Some n → ¬ module_source `prefix_of` tmpdir →
  ∃ r m', publishModuleArtifact send url_ok cwd tmpdir tar_gz digest_of rfc3339 ParseReference oras opts m
      = Some (inl r, m') ∧
    tidied tmpdir m m' ∧ published (w_fs (m_world m)) (m_net m) r (m_net m').
Proof using Type.
  intros Hname Hoci Hc Ht Hn Hnt. pose proof (wpc_publishModuleArtifact m n Hname Hoci Hc Ht Hn Hnt) as H.
  apply wpc_total in H as ([r|z] & m' & E & H); [|done]. by exists r, m'.
Qed.

End publish.

(** ** A concrete module *)

Definition net_options : publishModuleOptions :=
  mkPublishModule "http://registry/" "secret" "acme" "net" "aws" "1.0.0" "net" "" "" "" false.

Definition module_machine : machine (Net := list client_request) := mkMachine module_world [] "".

Definition publish_net : machine (Net := list client_request) → _ :=
  publishModuleArtifact record (λ _, true) ["home"] ["tmp"] listing_of sha_digest no_time
    (λ _, Err (EText "no reference")) offline net_options.

(** One request with the bundle; nothing is left of the workspace. *)
Example publish_runs :
  match publish_net module_machine with
  | Some (inl (Ok _), m) => (map (λ q, (q_url q, q_header q, q_body q)) (m_net m), map fst (tree (w_fs (m_world m)) ["tmp"]))
  | _ => ([], []) end =
  ([("http://registry/api/v1/modules/acme/net/aws/1.0.0",
     [("Content-Type", "multipart/form-data"); ("X-Api-Key", "secret")],
     Some (Part "file" "acme-net-aws-1.0.0.tar.gz" (Reader "main.tf=resource;sub=dir;sub/vars.tf=variable;" None)))], [["tmp"]]).
Proof. vm_compute. reflexivity. Qed.

Lemma publishModuleArtifact_exact_witness : ∃ r m', publish_net module_machine = Some (inl r, m') ∧
  published record ["home"] listing_of net_options (w_fs module_world) [] r (m_net m').
Proof.
  destruct (publishModuleArtifact_exact record (λ _, true) ["home"] ["tmp"] listing_of sha_digest no_time
    (λ _, Err (EText "no reference")) offline net_options module_machine NDir)
    as (r & m' & E & _ & H).
  - vm_compute. reflexivity.
  - reflexivity.
  - exact module_clean.
  - by repeat constructor.
  - vm_compute. reflexivity.
  - vm_compute. intros [x Hx]. discriminate Hx.
  - exists r, m'. split; [exact E|exact H].
Defined.
