(* ===== verification/EndToEnd.v ===== *)
(** * From the publisher's source to the consumer's file

    The command line and the server together: what [tfreg publish module]
    reports as published is what [tfreg pull module] then saves. *)

From S2P Require Import Prelude GoString SemVer GoPath Validation Sha256 Os OsFacts Frame Json Decode Store StoreFacts KeyValue.
From S2P Require Import Confine StoreSpec Index IndexFacts Archive Draft Signing Http Auth AuthFacts RateLimit Api Metrics Protocol ReadFacts.
From S2P Require Import Server Guard NameFacts KeysFile ServerFacts Transactions DownloadFacts ModuleUpload Flags Client ClientRuns ClientFacts Commands CommandFacts.
From S2P Require Import Network Oci OciFacts Bundle BundleFacts Publish PublishFacts.

#[local] Opaque sha256_hex.

(** ** The identity of a module *)

Section identity.
Context (ns name provider version : string) (HN : module_names ns name provider version).

Definition module_vars : Vars := {["namespace" := ns; "name" := name; "provider" := provider; "version" := version]}.

Lemma module_vars_route : module_route module_vars ns name provider version.
Proof using Type. by split. Qed.

Lemma module_vars_valid : Forall (λ kv, valid_route_var kv.1 kv.2 = true) (map_to_list (module_vars : gmap string string)).
Proof using HN.
  apply Forall_forall. intros [k v] Hkv%elem_of_map_to_list. revert Hkv. unfold module_vars.
  rewrite !lookup_insert_Some, lookup_singleton_Some. destruct HN as [? ? ? ?].
  intros [[<- <-]|[_ [[<- <-]|[_ [[<- <-]|[_ [<- <-]]]]]]]; done.
Qed.

End identity.

(** A validated part is a word of a command line and of a path. *)
Lemma file_name_word x : file_name x → String.eqb x "" = false ∧ no_char "/" x ∧ HasPrefix x "--" = false.
Proof.
  intros [Hx (a & t & -> & Ha)]. split; [done|]. split; [by eapply no_char_sforall; [|exact Hx]|].
  change (bool_decide (a = "-"%char) && HasPrefix t "-" = false). rewrite bool_decide_eq_false_2; [done|]. intros ->. done.
Qed.

(** ** Pulling *)

Section endtoend.
Context {Time : Type}.
Context (dec_time : decoder Time) (enc_time : Time → option json) (zero_time : Time).
Context (zip_NewReader : string → Z → result error (list zip_file)).
Context (gzip_NewReader : string → result error tar_stream).
Context (s : Store) (signer : option RegistrySigner) (maxUploadSize : Z) (ui : assets).
Context (match_route : request → option (route * Vars)) (unmatched : request → response).
Context (url_path : string → string) (remote : string) (carry : reader → reader).
Context (render : body → string) (first_json : body → option json).
Context (url_ok : string → bool) (cwd : path) (env : string → string).
#[local] Abbreviation deliver := (Network.deliver dec_time enc_time zero_time zip_NewReader gzip_NewReader s signer maxUploadSize ui
  match_route unmatched url_path remote carry render first_json).
#[local] Abbreviation request_of := (Network.request_of url_path remote carry).
#[local] Abbreviation machine := (machine (Net := Network.Net (Time := Time))).
#[local] Abbreviation server_of m := (m_net m).1.
#[local] Abbreviation store_of m := (m_net m).2.

Context (ns name provider version : string) (HN : module_names ns name provider version).
#[local] Abbreviation zipK data := (module_key ns name provider version (module_filename data)).

(** What mux and net/url make of the URLs of a module. *)
Record routed (publish_url download_url : string) : Prop := {
  rt_publish q : q_method q = "POST" → q_url q = publish_url →
    ∃ rt, match_route (request_of q) = Some (rt, module_vars ns name provider version) ∧ target rt = UploadModule;
  rt_download q : q_method q = "GET" → q_url q = download_url →
    match_route (request_of q) = Some (get "/v1/modules/{namespace}/{name}/{provider}/{version}/download" (Get_ GetModuleDownload),
                                       module_vars ns name provider version);
  rt_file q data : q_method q = "GET" → q_url q = DownloadURL s (slash (zipK data)) →
    match_route (request_of q) = Some (get "/download/{path:.*}" (Get_ GetFile), path_vars (zipK data))
}.

Definition pull_url (registry : string) : string :=
  registry +:+ "/v1/modules/" +:+ (ns +:+ "/" +:+ name +:+ "/" +:+ provider) +:+ "/" +:+ version +:+ "/download".

(** [tfreg pull module --namespace ...] *)
Definition pull_args (registry output : string) : list string :=
  ["--namespace"; ns; "--name"; name; "--provider"; provider; "--version"; version; "--registry"; registry; "--output"; output].

Definition pull_flags : flagSet :=
  output_flag (module_flags (registry_flag env (newFlagSet "tfreg pull module"))).

Definition pulled_file (output : string) : string := Join2 output (Join [ns; name; provider; version] "-" +:+ ".tar.gz").

Lemma parse_pull registry output : HasPrefix registry "--" = false → HasPrefix output "--" = false →
  ∃ fs, Parse pull_flags (pull_args registry output) = Ok fs ∧ value_of fs "namespace" = ns ∧ value_of fs "name" = name ∧
    value_of fs "provider" = provider ∧ value_of fs "version" = version ∧ value_of fs "registry" = registry ∧
    value_of fs "output" = output.
Proof using HN.
  intros Hr Ho. eexists. split.
  - unfold Parse. change (pull_args registry output) with (concat (map spelled [Valued "namespace" ns; Valued "name" name;
      Valued "provider" provider; Valued "version" version; Valued "registry" registry; Valued "output" output])).
    rewrite parse_args_complete; [reflexivity|by apply (bool_decide_eq_true_1 _); reflexivity|].
    repeat (constructor; [split; [done|split; [by apply (bool_decide_eq_true_1 _); reflexivity|]]|]); [..|constructor].
    all: first [done|by apply file_name_word, name_file, HN|by apply file_name_word, version_file, HN].
  - split_and!; reflexivity.
Qed.

#[local] Abbreviation pullModule := (pullModule deliver url_ok cwd env).

Lemma pullModule_starts registry output (m : machine) : HasPrefix registry "--" = false → HasPrefix output "--" = false →
  pullModule (pull_args registry output) m =
  (Printf ("Downloading module " +:+ (ns +:+ "/" +:+ name +:+ "/" +:+ provider) +:+ "..." +:+ newline);;
   resp ← or_exit (httpClient_Get deliver url_ok (pull_url registry));
   save_module deliver url_ok cwd (pulled_file output) resp) m.
Proof using HN.
  intros Hr Ho. destruct (parse_pull registry output Hr Ho) as (fs & E & E1 & E2 & E3 & E4 & E5 & E6).
  unfold Commands.pullModule. fold pull_flags. unfold parsed. rewrite E. unfold mbind at 1, C_bind, mret, C_ret.
  assert (require fs ["namespace"; "name"; "provider"] m = Some (inl (), m)) as Hreq.
  { unfold require. cbn [existsb]. rewrite E1, E2, E3. destruct HN as [H1 H2 H3 _].
    by rewrite (proj1 (file_name_word _ (name_file _ H1))), (proj1 (file_name_word _ (name_file _ H2))),
      (proj1 (file_name_word _ (name_file _ H3))). }
  unfold mbind at 1, C_bind. rewrite Hreq. unfold module_id. rewrite E1, E2, E3, E4, E5, E6.
  rewrite (proj1 (file_name_word version (version_file version (mn_version _ _ _ _ HN)))). reflexivity.
Qed.

(** Why a pull may fail while the server holds the module and no call of the
    server fails: a URL is not understood, the limiter refuses one of the two
    requests, a body is damaged on the way, a system call of the client fails
    or the destination is hampered. *)
Definition thwarted (registry output data : string) (m m' : machine) : Prop :=
  let q1 := request_of (mkClientRequest "GET" (pull_url registry) [] None) in
  let q2 := request_of (mkClientRequest "GET" (DownloadURL s (slash (zipK data))) [] None) in
  let decision := limiter_of q1 (server_of m) (store_of m) in
  url_ok (pull_url registry) = false ∨ url_ok (DownloadURL s (slash (zipK data))) = false ∨
  decision.1 = false ∨ (allow (w_now (store_of m)) (client_ip decision.2 q2) decision.2).1 = false ∨
  (∃ c, r_err c = None ∧ carry c ≠ c) ∨ faulted (m_world m) (m_world m') ∨
  hampered (Abs cwd (pulled_file output)) download_name (m_world m).

Definition pulled (registry output data : string) (m : machine) (o : unit + Z) (m' : machine) : Prop :=
  let dest := Abs cwd (pulled_file output) in
  match o with
  | inl _ => file (w_fs (m_world m')) dest = Some data
  | inr code => code = 1%Z ∧ file (w_fs (m_world m')) dest = file (w_fs (m_world m)) dest ∧ thwarted registry output data m m'
  end.

(** The server has the module, in a calm world. *)
Definition offers (data : string) (m : machine) : Prop :=
  calm (store_of m) ∧ ready s (store_of m) ∧ holds_module s ns name provider version data (store_of m).

(** The second request: the artifact. *)
Lemma fetch_artifact {HR : Router match_route} publish_url registry output data (m m1 : machine) :
  routed publish_url (pull_url registry) → carries carry →
  placed cwd (pulled_file output) → clean_fs (w_fs (m_world m)) → m_world m1 = m_world m →
  offers data m1 → same (store_of m) (store_of m1) →
  sv_limiter (server_of m1) = (limiter_of (request_of (mkClientRequest "GET" (pull_url registry) [] None)) (server_of m) (store_of m)).2 →
  ∃ o m', (or_exit (downloadFile deliver url_ok cwd (DownloadURL s (slash (zipK data))) (pulled_file output));;
           Printf ("Saved to " +:+ pulled_file output +:+ newline)) m1 = Some (o, m') ∧ pulled registry output data m o m'.
Proof using HN.
  intros Hrt Hcarry Hpl Hc Ew (Hcalm & Hready & Hholds) Hs El. set (url := DownloadURL s (slash (zipK data))).
  destruct (download_run deliver url_ok cwd url (pulled_file output) "" m1 Hpl) as (r & m2 & E & Eo & Hb & Hr).
  { by rewrite Ew. }
  unfold mbind at 1, C_bind, or_exit, mbind at 1, C_bind. fold (downloadFile deliver url_ok cwd url (pulled_file output)) in E.
  change (downloadFile deliver url_ok cwd url (pulled_file output) m1 = Some (inl r, m2)) in E. rewrite E.
  destruct (deliver_file dec_time enc_time zero_time zip_NewReader gzip_NewReader s signer maxUploadSize ui match_route unmatched
    url_path remote carry render first_json ns name provider version HN data (mkClientRequest "GET" url [] None) _
    (server_of m1) (store_of m1) (rt_file _ _ Hrt (mkClientRequest "GET" url [] None) data eq_refl eq_refl) eq_refl Hcalm Hready Hholds)
    as (resp & sv' & w' & Ed & _ & _ & Hresp).
  assert (reply deliver url_ok url (m_net m1) = if url_ok url then Ok resp else Err (EText "parse")) as Erep.
  { unfold reply. rewrite (surjective_pairing (m_net m1)). destruct (url_ok url); [|done]. by rewrite Ed. }
  destruct r as [[]|e].
  - exists (inl ()). eexists. split; [reflexivity|]. destruct Hr as (resp2 & Er & Hst & Herr & Hf & _).
    cbn [pulled set_out m_world]. rewrite Hf. f_equal. rewrite Erep in Er. destruct (url_ok url); [|done]. injection Er as <-.
    destruct (limiter_of _ _ _).1; [|congruence]. destruct Hresp as [_ Hbody]. rewrite Hbody in *. by rewrite Hcarry.
  - exists (inr 1%Z), m2. split; [reflexivity|]. destruct Hr as [Hf Hwhy]. split; [done|]. split; [by rewrite Hf, Ew|].
    unfold unfetched in Hwhy. rewrite Erep in Hwhy. unfold thwarted. fold url. rewrite Ew in Hwhy.
    destruct (url_ok url); [|by right; left]. unfold limiter_of in Hresp at 1. rewrite (env_now _ _ (proj1 Hs)), El in Hresp.
    destruct (allow _ _ _).1; [|by do 3 right; left]. destruct Hresp as [Hst Hbody].
    destruct Hwhy as [?|[?|[?|[[x Hx]|[Hne _]]]]]; [done|by do 5 right; left|by do 6 right| |done].
    do 4 right. left. exists (Reader data None). split; [done|]. rewrite Hbody in Hx. by intros Hcd; rewrite Hcd in Hx.
Qed.

(** A pull from a server that offers the module. *)
Lemma pull_run {HR : Router match_route} publish_url registry output data (m : machine) :
  HasPrefix registry "--" = false → HasPrefix output "--" = false →
  routed publish_url (pull_url registry) → carries carry → placed cwd (pulled_file output) → clean_fs (w_fs (m_world m)) →
  offers data m →
  ∃ o m', pullModule (pull_args registry output) m = Some (o, m') ∧ pulled registry output data m o m'.
Proof using HN.
  intros Hreg Hout Hrt Hcarry Hpl Hc (Hcalm & Hready & Hholds).
  rewrite pullModule_starts by done. set (text := "Downloading module " +:+ _).
  set (m0 := set_out (m_out m +:+ text) m).
  unfold mbind at 1, C_bind. change (Printf text m) with (@Some ((unit + Z) * machine) (inl (), m0)). cbv iota beta.
  assert (∀ why, thwarted registry output data m m0 → why = 1%Z → pulled registry output data m (inr why) m0) as Hfail.
  { intros why H ->. by split. }
  unfold mbind at 1, C_bind, or_exit, mbind at 1, C_bind, httpClient_Get, http_NewRequest.
  destruct (url_ok (pull_url registry)) eqn:Eu; [|eexists _, _; split; [reflexivity|]; apply Hfail; [by left|done]].
  set (q := mkClientRequest "GET" (pull_url registry) [] None). unfold httpClient_Do.
  destruct (deliver_module_download dec_time enc_time zero_time zip_NewReader gzip_NewReader s signer maxUploadSize ui match_route
    unmatched url_path remote carry render first_json ns name provider version HN data q _ _ (server_of m) (store_of m)
    (rt_download _ _ Hrt q eq_refl eq_refl) eq_refl (module_vars_route ns name provider version)
    (module_vars_valid ns name provider version HN) Hcalm Hready Hholds) as (resp & sv' & w' & Ed & Hs & El & Hresp).
  change (m_net m0) with (m_net m). rewrite (surjective_pairing (m_net m)), Ed. cbv [mret C_ret]. cbv iota beta.
  destruct (limiter_of (request_of q) (server_of m) (store_of m)).1 eqn:Ea.
  2:{ unfold save_module. rewrite Hresp. eexists _, _. split; [reflexivity|]. split; [done|]. split; [done|].
      by do 2 right; left. }
  destruct Hresp as [Hst Hget]. unfold save_module. rewrite Hst. change (CanonicalHeaderKey "X-Terraform-Get") with "X-Terraform-Get".
  rewrite Hget. change (negb (204 =? 204)%Z) with false. change (default "" (Some ?u)) with u. cbv iota zeta.
  destruct (String.eqb_spec (DownloadURL s (slash (zipK data))) "") as [Ee|_].
  { exfalso. apply (f_equal slen) in Ee. unfold DownloadURL in Ee. rewrite !slen_app in Ee. simpl in Ee. lia. }
  apply (fetch_artifact publish_url registry output data m (set_net (sv', w') m0)); try done.
  destruct Hs as [He Hf]. split; [by eapply calm_env|]. split; [unfold ready; cbn; by rewrite Hf|].
  destruct Hholds as [H1 H2]. unfold holds_module. cbn [set_net m_net snd].
  by rewrite !(same_value (KV := file_store s) (store_of m) w').
Qed.

End endtoend.

(** ** Publishing, then pulling *)

Section publication.
Context {Time : Type}.
Context (dec_time : decoder Time) (enc_time : Time → option json) (zero_time : Time).
Context (zip_NewReader : string → Z → result error (list zip_file)).
Context (gzip_NewReader : string → result error tar_stream).
Context (s : Store) (signer : option RegistrySigner) (maxUploadSize : Z) (ui : assets).
Context (match_route : request → option (route * Vars)) (unmatched : request → response).
Context (url_path : string → string) (remote : string) (carry : reader → reader).
Context (render : body → string) (first_json : body → option json).
Context (url_ok : string → bool) (cwd tmpdir : path) (env : string → string) (tar_gz : list entry → string).
Context (digest_of : string → string) (rfc3339 : Z → string) (ParseReference : string → result error Reference).
Context (oras : Oras (Net := Network.Net (Time := Time))).
#[local] Abbreviation deliver := (Network.deliver dec_time enc_time zero_time zip_NewReader gzip_NewReader s signer maxUploadSize ui
  match_route unmatched url_path remote carry render first_json).
#[local] Abbreviation machine := (machine (Net := Network.Net (Time := Time))).

Context (opts : publishModuleOptions).
#[local] Abbreviation ns := (m_Namespace opts).
#[local] Abbreviation name := (m_Name opts).
#[local] Abbreviation provider := (m_Provider opts).
#[local] Abbreviation version := (m_Version opts).

(** The server can take the module: its keys and store are sound, the key file
    is as it was loaded, and stored artifacts have the digests in their names. *)
Definition receptive (m : machine) : Prop :=
  let '(sv, w) := m_net m in
  store_ok (sv_keys sv) ∧ keys_current (sv_keys sv) w ∧
  module_upload_ready s maxUploadSize (module_vars ns name provider version) ns name provider version w ∧
  artifacts_whole s ns name provider version w.

(** Later the server may have served others, but not changed the module. *)
Definition still_holds (data : string) (w w2 : world) : Prop :=
  calm w2 ∧ ready s w2 ∧
  ∀ file, file ∈ ["artifact.json"; module_filename data] →
    value s w2 (module_key ns name provider version file) = value s w (module_key ns name provider version file).

Lemma bundle_name_ok : module_names ns name provider version → no_char "/" (module_bundle_name opts).
Proof using Type.
  intros HN. destruct HN as [H1 H2 H3 H4]. unfold module_bundle_name. cbn [Join]. rewrite !no_char_app.
  pose proof (λ x H, proj1 (proj2 (file_name_word x H))) as Hw.
  split_and!; try done; apply Hw; first [by apply name_file|by apply version_file].
Qed.

(** C5. What is published is what is pulled.  When [tfreg publish module]
    reports success against the server of this repository, the server holds
    the module, lists its version, and its archive is the bundle of exactly the
    source's files; and any later [tfreg pull module] of that version, from a
    server that still holds it and has no failing system call, ends with the
    output file being that bundle, byte for byte, or with exit status 1, the
    output file as before, and a reason: a URL refused by net/url, the
    server's rate limit, a body damaged on the way, a failing system call of
    the client, or an output path that cannot be written. *)
Theorem published_is_pulled (registry output : string) (m m' : machine) (n : node) :
  Router match_route → carries carry →
  routed s match_route url_path remote carry ns name provider version (module_url opts) (pull_url ns name provider version registry) →
  m_OCIReference opts = "" → clean_fs (w_fs (m_world m)) → Forall plain tmpdir →
  w_fs (m_world m) !! module_source cwd opts = Some n → ¬ module_source cwd opts `prefix_of` tmpdir →
  receptive m →
  publishModuleArtifact deliver url_ok cwd tmpdir tar_gz digest_of rfc3339 ParseReference oras opts m = Some (inl (Ok ()), m') →
  ∃ chosen, module_contents cwd opts (w_fs (m_world m)) chosen ∧
    let data := tar_gz (map (entry_at (module_source cwd opts)) chosen) in
    holds_module s ns name provider version data (m_net m').2 ∧ lists_version s ns name provider version (m_net m').2 ∧
    serving s (m_net m').2 ∧
    ∀ m2 : machine, still_holds data (m_net m').2 (m_net m2).2 →
      HasPrefix registry "--" = false → HasPrefix output "--" = false →
      placed cwd (pulled_file ns name provider version output) → clean_fs (w_fs (m_world m2)) →
      ∃ o m3, pullModule deliver url_ok cwd env (pull_args ns name provider version registry output) m2 = Some (o, m3) ∧
        pulled s url_path remote carry url_ok cwd ns name provider version registry output data m2 o m3.
Proof using Type.
  intros HR Hcarry Hrt Hoci Hc Ht Hn Hnt Hserver E. unfold receptive in Hserver.
  destruct (m_net m) as [sv w] eqn:Enet. destruct Hserver as (Hok & Hcur & Hready & Hwhole).
  pose proof (mu_names _ _ _ _ _ _ _ _ Hready) as HN.
  pose proof (wpc_publishModuleArtifact deliver url_ok cwd tmpdir tar_gz digest_of rfc3339 ParseReference oras
    opts m n (bundle_name_ok HN) Hoci Hc Ht Hn Hnt) as H. unfold wpc in H. rewrite E in H.
  destruct H as [_ [[? _]|(chosen & content & Hch & Hcont & Enet' & Hsent)]]; [done|].
  destruct (Hsent eq_refl) as (resp & Eresp & Hst). set (q := upload_request _ _ _ _) in *. rewrite Enet in *.
  destruct (rt_publish _ _ _ _ _ _ _ _ _ _ _ Hrt q) as (rt & Hroute & Htarget).
  { unfold q, upload_request, with_key. by destruct (String.eqb _ ""). }
  { unfold q, upload_request, with_key. by destruct (String.eqb _ ""). }
  destruct (deliver_upload dec_time enc_time zero_time zip_NewReader gzip_NewReader s signer maxUploadSize ui match_route unmatched
    url_path remote carry render first_json ns name provider version HN (m_APIKey opts) (module_url opts)
    (module_bundle_name opts) content rt _ sv w resp (m_net m').1 (m_net m').2 Hcarry Hok Hcur Hready Hwhole Hroute Htarget)
    as (Herr & Hholds & Hlists & Hserv); [|done|].
  { fold q. rewrite (surjective_pairing (deliver q (sv, w))), Eresp, <- Enet'. by rewrite <- surjective_pairing. }
  destruct Hcont as [->|?]; [|done]. cbn [r_data] in Hholds. exists chosen. split; [done|]. cbv zeta. do 3 (split; [done|]).
  intros m2 (Hcalm & Hready2 & Hsame) Hreg Hout Hpl Hc2.
  apply (pull_run dec_time enc_time zero_time zip_NewReader gzip_NewReader s signer maxUploadSize ui match_route unmatched
    url_path remote carry render first_json url_ok cwd env ns name provider version HN (module_url opts)); try done.
  split; [done|]. split; [done|]. destruct Hholds as [Hm Hz]. split; rewrite Hsame; try done; set_solver.
Qed.

End publication.

(** ** A concrete network *)

Definition net_opts : publishModuleOptions :=
  mkPublishModule (baseURL srv) "secret" "acme" "net" "aws" "1.0.0" "net" "" "" "" false.

Definition net_vars : Vars := module_vars "acme" "net" "aws" "1.0.0".

(** What is behind the host of a URL; the three routes of a module. *)
Definition path_of (url : string) : string := TrimPrefix url (baseURL srv).

Definition publish_row : route := post "/api/v1/modules/{namespace}/{name}/{provider}/{version}" UploadModule.
Definition download_row : route := get "/v1/modules/{namespace}/{name}/{provider}/{version}/download" (Get_ GetModuleDownload).
Definition file_row : route := get "/download/{path:.*}" (Get_ GetFile).

Definition net_router (r : request) : option (route * Vars) :=
  if String.eqb (r_Method r) "POST" && String.eqb (r_Path r) "/api/v1/modules/acme/net/aws/1.0.0" then Some (publish_row, net_vars)
  else if String.eqb (r_Method r) "GET" && String.eqb (r_Path r) "/v1/modules/acme/net/aws/1.0.0/download" then Some (download_row, net_vars)
  else if String.eqb (r_Method r) "GET" && HasPrefix (r_Path r) "/download/"
  then Some (file_row, {["path" := TrimPrefix (r_Path r) "/download/"]})
  else None.

Lemma net_router_rows r rt vars : net_router r = Some (rt, vars) →
  r_Method r = "POST" ∧ r_Path r = "/api/v1/modules/acme/net/aws/1.0.0" ∧ rt = publish_row ∨
  r_Method r = "GET" ∧ r_Path r = "/v1/modules/acme/net/aws/1.0.0/download" ∧ rt = download_row ∨
  r_Method r = "GET" ∧ HasPrefix (r_Path r) "/download/" = true ∧ rt = file_row.
Proof.
  unfold net_router. destruct (_ && _) eqn:E1; [apply andb_true_iff in E1 as [?%String.eqb_eq ?%String.eqb_eq]; intros [= <- _]; by left|].
  destruct (_ && String.eqb _ "/v1/modules/acme/net/aws/1.0.0/download") eqn:E2;
    [apply andb_true_iff in E2 as [?%String.eqb_eq ?%String.eqb_eq]; intros [= <- _]; by right; left|].
  destruct (_ && HasPrefix _ _) eqn:E3; [|done]. apply andb_true_iff in E3 as [?%String.eqb_eq ?]. intros [= <- _]. by right; right.
Qed.

#[export] Instance net_router_ok : Router net_router.
Proof.
  split; intros r rt vars H; apply net_router_rows in H as [(Hm & Hp & ->)|[(Hm & Hp & ->)|(Hm & Hp & ->)]].
  1-3: apply list_elem_of_In; unfold routes; cbv zeta; vm_compute; tauto.
  1-3: intros _; rewrite Hm; by left.
  1-2: rewrite Hp; vm_compute; reflexivity.
  all: done.
Qed.

Lemma net_routed : routed srv net_router path_of "10.0.0.9:5000" (λ c, c) "acme" "net" "aws" "1.0.0"
  (module_url net_opts) (pull_url "acme" "net" "aws" "1.0.0" (baseURL srv)).
Proof.
  split; intros q.
  - intros Hm Hu. exists publish_row. unfold net_router. cbn [request_of r_Method r_Path]. rewrite Hm, Hu.
    change (path_of (module_url net_opts)) with "/api/v1/modules/acme/net/aws/1.0.0". split; reflexivity.
  - intros Hm Hu. unfold net_router. cbn [request_of r_Method r_Path]. rewrite Hm, Hu.
    change (path_of (pull_url "acme" "net" "aws" "1.0.0" (baseURL srv))) with "/v1/modules/acme/net/aws/1.0.0/download". reflexivity.
  - intros data Hm Hu. unfold net_router. cbn [request_of r_Method r_Path]. rewrite Hm, Hu.
    unfold path_of, DownloadURL. rewrite TrimPrefix_app. reflexivity.
Qed.

(** The server: an empty store beside its key file; the archive of the CLI
    begins like gzip. *)
Definition shop_entries : list (path * node) :=
  [([], NDir); (["srv"], NDir); (["srv"; "keys.json"], NFile "keys" 0); (["srv"; "modules"], NDir)].
Definition shop_world : world := World (list_to_map shop_entries) [] (λ _, 7%N) 0 (10 ^ 18) ∅ false.

Definition gzip_listing (l : list entry) : string := String "031" (String "139" (listing_of l)).

#[local] Abbreviation NetM := (Network.Net (Time := string)).
Definition shop_deliver : client_request → NetM → result error client_response * NetM :=
  deliver text_time time_text "" no_zip vpc_reader srv None 1000 no_ui net_router not_found path_of "10.0.0.9:5000" (λ c, c)
    (λ _, "") (λ _, None).

Definition shop_machine : machine (Net := NetM) := mkMachine BundleFacts.module_world (ci_server, shop_world) "".

Definition shop_publish : machine (Net := NetM) → _ :=
  publishModuleArtifact shop_deliver (λ _, true) ["home"] ["tmp"] gzip_listing sha_digest no_time
    (λ _, Err (EText "no reference")) offline net_opts.

Definition shop_pull : machine (Net := NetM) → _ :=
  pullModule shop_deliver (λ _, true) ["home"] (λ _, "") (pull_args "acme" "net" "aws" "1.0.0" (baseURL srv) ".").

(** Published and pulled: the file is the bundle. *)
Example shop_runs :
  match shop_publish shop_machine with
  | Some (inl (Ok _), m1) =>
      match shop_pull m1 with
      | Some (inl _, m2) => file (w_fs (m_world m2)) ["home"; "acme-net-aws-1.0.0.tar.gz"]
      | _ => None
      end
  | _ => None
  end = Some (String "031" (String "139" "main.tf=resource;sub=dir;sub/vars.tf=variable;")).
Proof. vm_compute. reflexivity. Qed.

Lemma shop_names : module_names "acme" "net" "aws" "1.0.0".
Proof. by split. Qed.

Lemma shop_empty k : value srv shop_world (module_key "acme" "net" "aws" "1.0.0" k) = None ∧
  ¬ dir srv shop_world (module_key "acme" "net" "aws" "1.0.0" k).
Proof.
  assert (w_fs shop_world !! (basePath srv ++ module_key "acme" "net" "aws" "1.0.0" k) = None) as E.
  { destruct (w_fs shop_world !! _) as [n|] eqn:E; [|done]. exfalso. apply elem_of_list_to_map_2 in E.
    assert (basePath srv ++ module_key "acme" "net" "aws" "1.0.0" k ∈ shop_entries.*1) as Hk
      by (apply list_elem_of_fmap; by exists (basePath srv ++ module_key "acme" "net" "aws" "1.0.0" k, n)).
    cbn [shop_entries fmap list_fmap fst] in Hk. rewrite !elem_of_cons, elem_of_nil in Hk.
    by destruct Hk as [Hk|[Hk|[Hk|[Hk|[]]]]]. }
  split; [unfold value, file|unfold dir]; by rewrite E.
Qed.

Lemma shop_receptive : receptive srv 1000 net_opts shop_machine.
Proof.
  split; [exact (loaded_ok _ _ _ ci_key_ok)|]. split; [|split].
  - split; [|split; [by repeat constructor|]].
    + apply (sf_clean ["srv"]), (store_fs_checked ["srv"] shop_entries). vm_compute. reflexivity.
    + exists "keys", 0%Z. split; [vm_compute; reflexivity|done].
  - split; [|done|lia|apply module_vars_route|exact shop_names|].
    + split; [apply (store_fs_checked ["srv"] shop_entries); vm_compute; reflexivity|]. intros k. cbn. by rewrite lookup_empty.
    + intros f Hf. unfold named_artifact in Hf. cbn [net_opts m_Namespace m_Name m_Provider m_Version] in Hf.
      by rewrite (proj1 (shop_empty "artifact.json")) in Hf.
  - intros data. destruct (shop_empty (module_filename data)) as [E Hd]. split; [exact Hd|].
    intros d. cbn [net_opts m_Namespace m_Name m_Provider m_Version]. by rewrite E.
Qed.

Lemma published_is_pulled_witness : ∃ m1 chosen,
  shop_publish shop_machine = Some (inl (Ok ()), m1) ∧
  let data := gzip_listing (map (entry_at ["home"; "net"]) chosen) in
  holds_module srv "acme" "net" "aws" "1.0.0" data (m_net m1).2 ∧
  ∃ o m2, shop_pull (mkMachine (m_world shop_machine) (m_net m1) "") = Some (o, m2) ∧
    (o = inl () → file (w_fs (m_world m2)) ["home"; "acme-net-aws-1.0.0.tar.gz"] = Some data).
Proof.
  assert (match shop_publish shop_machine with
          | Some (inl (Ok _), m1) => bool_decide (faults_left (m_net m1).2 = 0)
          | _ => false end = true) as Hrun by (vm_compute; reflexivity).
  destruct (shop_publish shop_machine) as [[[[[]|]|] m1]|] eqn:E; try discriminate Hrun.
  destruct (published_is_pulled text_time time_text "" no_zip vpc_reader srv None 1000 no_ui net_router not_found path_of
    "10.0.0.9:5000" (λ c, c) (λ _, "") (λ _, None) (λ _, true) ["home"] ["tmp"] (λ _, "") gzip_listing sha_digest no_time
    (λ _, Err (EText "no reference")) offline net_opts (baseURL srv) "." shop_machine m1 NDir)
    as (chosen & _ & Hholds & _ & [Hready _] & Hpull).
  - exact net_router_ok.
  - intros c _. reflexivity.
  - exact net_routed.
  - reflexivity.
  - exact module_clean.
  - by repeat constructor.
  - vm_compute. reflexivity.
  - vm_compute. intros [x Hx]. discriminate Hx.
  - exact shop_receptive.
  - exact E.
  - exists m1, chosen. split; [reflexivity|]. split; [exact Hholds|].
    destruct (Hpull (mkMachine (m_world shop_machine) (m_net m1) "")) as (o & m2 & E2 & H2).
    + split; [exact (bool_decide_eq_true_1 _ Hrun)|]. split; [exact Hready|reflexivity].
    + reflexivity.
    + reflexivity.
    + split; [vm_compute; discriminate|]. split; [vm_compute; reflexivity|]. intros [n En].
      change (["home"; "acme-net-aws-1.0.0.tar.gz"] = ["home"] ++ [download_name n]) in En. discriminate En.
    + exact module_clean.
    + exists o, m2. split; [exact E2|]. intros ->. exact H2.
Defined.
