(* ===== verification/WellTyped.v ===== *)
(** * The documents of the store have their types

    What each kind of object in the store is: an index lists distinct valid
    versions, metadata decodes and names an archive the way uploads do, an
    archive has the digest that is in its name.  Every change of the registry
    keeps this, whatever system calls fail, and in such a store every change
    ends with a reply. *)

From stdpp Require Import relations.
From S2P Require Import Prelude GoString SemVer GoPath Regex Validation Sha256 Os OsFacts Frame Json Decode Store StoreFacts StageFacts.
From S2P Require Import KeyValue Confine StoreSpec Index IndexFacts Archive Signing Http Api NameFacts Transactions.
From S2P Require Import ReadFacts ModuleUpload ProviderUpload Deletion.

#[local] Opaque sha256_hex.

(** ** The types *)

(** An index decodes and lists distinct valid versions. *)
Definition index_ok (v : string) : Prop :=
  ∃ idx, index_at (Some v) = Some idx ∧ NoDup (versions_of idx) ∧ Forall valid (versions_of idx).

(** The metadata of a version that has been deprecated. *)
Definition metadata_ok (version v : string) : Prop :=
  ∃ t, Unmarshal dec_VersionMetadata v zero_VersionMetadata = (t, true) ∧ Version t = version ∧ Deprecated t = true.

(** The metadata of a module's archive. *)
Definition artifact_ok (v : string) : Prop := ∃ d, v = print (enc_ModuleArtifactMeta (module_meta d)).

(** The metadata of a platform in the file [f]. *)
Definition platform_ok (name version f v : string) : Prop := ∃ os arch d,
  validArtifactName os = true ∧ validArtifactName arch = true ∧ f = platform_file os arch ∧
  v = print (enc_PlatformMeta (provider_meta name version os arch d)).

(** The file [f] of a version. *)
Record module_file_ok (version f v : string) : Prop := {
  mf_artifact : f = "artifact.json" → artifact_ok v;
  mf_metadata : f = "metadata.json" → metadata_ok version v;
  mf_archive d : f = module_filename d → module_filename v = f
}.

Record provider_file_ok (name version f v : string) : Prop := {
  pf_platform os arch : f = platform_file os arch → platform_ok name version f v;
  pf_metadata : f = "metadata.json" → metadata_ok version v;
  pf_archive os arch d : f = provider_filename name version os arch d → sha256_hex v = sha256_hex d
}.

(** What a key asks of its content. *)
Inductive document : list string → (string → Prop) → Prop :=
| doc_module_index ns name provider : document ["modules"; ns; name; provider; "index.json"] index_ok
| doc_provider_index ns name : document ["providers"; ns; name; "index.json"] index_ok
| doc_module_file ns name provider version f :
    document ["modules"; ns; name; provider; version; f] (module_file_ok version f)
| doc_provider_file ns name version f :
    document ["providers"; ns; name; version; f] (provider_file_ok name version f).

Definition typed (k : list string) (v : string) : Prop := ∀ P, document k P → P v.

Lemma typed_module_index ns name p v : index_ok v → typed (module_index ns name p) v.
Proof. intros H P Hd. by inversion Hd; subst. Qed.
Lemma typed_provider_index ns name v : index_ok v → typed (provider_index ns name) v.
Proof. intros H P Hd. by inversion Hd; subst. Qed.
Lemma typed_module_file ns name p version f v : module_file_ok version f v → typed (module_key ns name p version f) v.
Proof. intros H P Hd. by inversion Hd; subst. Qed.
Lemma typed_provider_file ns name version f v :
  provider_file_ok name version f v → typed (provider_key ns name version f) v.
Proof. intros H P Hd. by inversion Hd; subst. Qed.

(** ** Contents that uploads write *)

Lemma platform_file_end os arch : last_byte (platform_file os arch) = Some "n"%char.
Proof. unfold platform_file. rewrite !last_byte_app; [done|..]; intros E; repeat apply sapp_eq_nil in E as [_ E]; done. Qed.
Lemma provider_filename_end name version os arch d : last_byte (provider_filename name version os arch d) = Some "p"%char.
Proof. apply provider_ends. Qed.
Lemma sums_file_end name version : last_byte (sums_file name version) = Some "S"%char.
Proof. apply (provider_ends name version "" "" ""). Qed.
Lemma signature_file_end name version : last_byte (signature_file name version) = Some "g"%char.
Proof. apply (provider_ends name version "" "" ""). Qed.
Lemma module_filename_end d : last_byte (module_filename d) = Some "z"%char.
Proof. unfold module_filename. rewrite !last_byte_app; [done|..]; intros E; repeat apply sapp_eq_nil in E as [_ E]; done. Qed.

Lemma platform_not_metadata os arch : platform_file os arch ≠ "metadata.json".
Proof.
  unfold platform_file. intros E. assert (no_char "_" "metadata.json") as Hn by done.
  rewrite <- E, !no_char_app in Hn. by destruct Hn as (_ & Hn & _).
Qed.

(** The digest is the same in equal names. *)
Lemma provider_filename_digest name version os arch d os' arch' d' :
  provider_filename name version os arch d = provider_filename name version os' arch' d' → sha256_hex d = sha256_hex d'.
Proof.
  unfold provider_filename. rewrite <- !sapp_assoc. intros [E _]%sapp_inj_suffix; [|done].
  apply sapp_inj_suffix in E as [_ E]; [done|]. by rewrite !sha256_hex_length.
Qed.

(** Names with other ends are of other kinds. *)
#[local] Ltac by_end E :=
  exfalso; apply (f_equal last_byte) in E;
  rewrite ?platform_file_end, ?provider_filename_end, ?module_filename_end, ?sums_file_end, ?signature_file_end in E;
  discriminate E.

Lemma artifact_file_ok version d : module_file_ok version "artifact.json" (print (enc_ModuleArtifactMeta (module_meta d))).
Proof. split; [by exists d|done|]. intros d' E. by_end E. Qed.

Lemma module_archive_ok version d : module_file_ok version (module_filename d) d.
Proof. split; [intros E; by_end E..|done]. Qed.

Lemma module_metadata_ok version v : metadata_ok version v → module_file_ok version "metadata.json" v.
Proof. split; [done|done|]. intros d E. by_end E. Qed.

Lemma platform_doc_ok name version os arch d : validArtifactName os = true → validArtifactName arch = true →
  provider_file_ok name version (platform_file os arch) (print (enc_PlatformMeta (provider_meta name version os arch d))).
Proof.
  intros Ho Ha. split.
  - intros os' arch' _. by exists os, arch, d.
  - intros E. by destruct (platform_not_metadata os arch).
  - intros os' arch' d' E. by_end E.
Qed.

Lemma provider_archive_ok name version os arch d :
  provider_file_ok name version (provider_filename name version os arch d) d.
Proof. split; [intros os' arch' E; by_end E|intros E; by_end E|]. intros os' arch' d' E. by eapply provider_filename_digest. Qed.

Lemma provider_metadata_ok name version v : metadata_ok version v → provider_file_ok name version "metadata.json" v.
Proof. split; [intros os arch E; by destruct (platform_not_metadata os arch)|done|]. intros os arch d E. by_end E. Qed.

(** Checksums and signatures are of no kind here. *)
Lemma sums_untyped name version v : provider_file_ok name version (sums_file name version) v.
Proof. split; [intros os arch E|intros E|intros os arch d E]; by_end E. Qed.
Lemma signature_untyped name version v : provider_file_ok name version (signature_file name version) v.
Proof. split; [intros os arch E|intros E|intros os arch d E]; by_end E. Qed.

(** ** Stores in which every document is typed *)

Section typed_store.
Context (s : Store).
#[local] Existing Instance file_store.
#[local] Abbreviation value := (value s).
#[local] Abbreviation kept := (kept value (dir s)).
#[local] Abbreviation wrote := (wrote value (dir s)).
#[local] Abbreviation within := (within (KV := file_store s)).

Record typed_store (w : world) : Prop := {
  ts_ready : ready s w;
  ts_unlocked : unlocked w;
  ts_typed l v : ordinary l → value w l = Some v → typed l v
}.

Lemma typed_store_frame w w' : w_fs w' = w_fs w → unlocked w' → typed_store w → typed_store w'.
Proof using Type.
  intros Ef Hu [Hr _ Ht]. split; [by unfold ready; rewrite Ef|done|]. intros l v Hl Hv. apply Ht; [done|].
  by unfold KeyValue.value in *; rewrite Ef in Hv.
Qed.

(** Changes of a few keys. *)
Lemma typed_within K w w' : typed_store w → within K w w' →
  (∀ k v, k ∈ K → value w' k = Some v → value w k = Some v ∨ typed k v) → typed_store w'.
Proof using Type.
  intros [_ _ Ht] Hw HK. pose proof Hw as [_ Hu Hok _]. split; [done..|]. intros l v Hl Hv.
  destruct (decide (l ∈ K)) as [Hin|Hin]; [destruct (HK l v Hin Hv) as [Hv'|?]; [by apply Ht|done]|].
  apply Ht; [done|]. rewrite <- Hv. symmetry. eapply within_value; [exact Hw|apply Hl|done].
Qed.

(** What a part of a handler does to such a store. *)
Definition holds {A} (Q : A → world → Prop) (m : M A) (w : world) : Prop :=
  wp m (λ a w', env w w' ∧ typed_store w' ∧ Q a w') w.

Lemma holds_ret {A} (Q : A → world → Prop) (a : A) w : typed_store w → Q a w → holds Q (mret a) w.
Proof using Type. intros. by apply wp_ret. Qed.

Lemma holds_bind {A B} (Q : A → world → Prop) (R : B → world → Prop) m (k : A → M B) w :
  holds Q m w → (∀ a w1, typed_store w1 → Q a w1 → holds R (k a) w1) → holds R (m ≫= k) w.
Proof using Type.
  intros Hm Hk. apply wp_bind. eapply wp_mono; [exact Hm|]. intros a w1 (He & Ht & Ha).
  eapply wp_mono; [by apply Hk|]. intros b w2 (He2 & Ht2 & Hb). split; [by etransitivity|done].
Qed.

Lemma holds_mono {A} (Q R : A → world → Prop) m w : holds Q m w → (∀ a w', Q a w' → R a w') → holds R m w.
Proof using Type. intros H HR. eapply wp_mono; [exact H|]. intros a w' (? & ? & ?). auto. Qed.

Abbreviation fine := (λ _ _, True).

Lemma holds_ignoring {A} (m : M A) Q w : holds Q m w → holds fine (ignoring m) w.
Proof using Type. intros H. eapply holds_bind; [exact H|]. intros. by apply holds_ret. Qed.

(** ** The operations of the store *)

Lemma holds_get k w : typed_store w → ordinary k →
  holds (λ r _, ∀ d, r = Ok d → typed k d) (Get s (slash k)) w.
Proof using Type.
  intros Ht Hk. eapply wp_mono; [apply (kv_get k); [apply Ht|apply Hk]|]. intros r w' [Hsm H].
  split; [apply Hsm|]. split; [eapply typed_store_frame, Ht; [apply Hsm|eapply env_unlocked; [apply Hsm|apply Ht]]|].
  intros d ->. by apply Ht.
Qed.

Lemma wrote_typed k v w r w' : typed_store w → env w w' → unlocked w' → ready s w' → wrote k v w r w' →
  (∀ x, v = Some x → typed k x) → typed_store w'.
Proof using Type.
  intros Ht He Hu Hr [Hk H] Hv. eapply typed_within; [exact Ht|by apply within_kept|].
  intros k' x ->%list_elem_of_singleton Hx. destruct r as [[]|e]; [right|left]; [apply Hv; congruence|].
  by destruct H as [<- _].
Qed.

Lemma holds_put k v w : typed_store w → good_key k → typed k v → holds fine (Put s (slash k) v) w.
Proof using Type.
  intros Ht Hg Hv. eapply wp_mono; [apply (kv_put k); [apply Ht..|done]|]. intros r w' (He & Hu & Hr & H).
  split; [done|]. split; [|done]. eapply wrote_typed; [done..|]. by intros x [= <-].
Qed.

Lemma holds_delete k w : typed_store w → good_key k → holds fine (Delete s (slash k)) w.
Proof using Type.
  intros Ht Hg. eapply wp_mono; [apply (kv_delete k); [apply Ht..|done]|]. intros r w' (He & Hu & Hr & H).
  split; [done|]. split; [|done]. by eapply wrote_typed.
Qed.

Lemma holds_restore k previous w : typed_store w → good_key k → (∀ d, previous = Ok d → typed k d) →
  holds fine (restore s (slash k) previous) w.
Proof using Type.
  intros Ht Hg Hp. unfold restore. destruct previous as [d|e]; eapply holds_ignoring; [apply holds_put|apply holds_delete]; auto.
Qed.

Lemma holds_delete_unless existed k w : typed_store w → good_key k → holds fine (delete_unless existed s (slash k)) w.
Proof using Type.
  intros Ht Hg. unfold delete_unless. destruct existed; [by apply holds_ret|]. by eapply holds_ignoring, holds_delete.
Qed.

Lemma holds_delete_old prefix filename old w : typed_store w →
  (∀ f, old = Some f → good_key (prefix ++ [f])) → holds fine (delete_old s prefix filename old) w.
Proof using Type.
  intros Ht Hg. unfold delete_old. destruct old as [f|]; [|by apply holds_ret]. destruct (_ && _); [|by apply holds_ret].
  eapply holds_ignoring, holds_delete; auto.
Qed.

Lemma holds_publish file maxSize validate key w : typed_store w → good_key (key (r_data file)) →
  (0 ≤ maxSize < 2^63 - 1)%Z → typed (key (r_data file)) (r_data file) →
  holds (λ r _, ∀ st, r = Ok st → st_key st = slash (key (r_data file)))
    (PutStreamImmutable s file maxSize validate (λ d, slash (key d))) w.
Proof using Type.
  intros Ht Hg HM Hty. eapply wp_mono; [apply (kv_publish file maxSize validate key); [apply Ht..|done|done]|].
  intros r w' (He & Hu & Hr & [Hk H]). split; [done|]. split.
  - eapply typed_within; [exact Ht|by apply within_kept|]. intros k x ->%list_elem_of_singleton Hx.
    destruct r as [st|e]; [|left; by destruct H as [<- _]]. destruct H as (_ & _ & _ & H).
    destruct (st_existed st); [left; by destruct H as [<- _]|right]. destruct H as [_ H].
    by assert (x = r_data file) as -> by congruence.
  - intros st ->. apply H.
Qed.

(** ** Indexes and metadata *)

Lemma index_at_typed k w idx : typed_store w → ordinary k → (∀ v, typed k v → index_ok v) →
  index_at (value w k) = Some idx → NoDup (versions_of idx) ∧ Forall valid (versions_of idx).
Proof using Type.
  intros Ht Hk Hty Hi. destruct (value w k) as [v|] eqn:E.
  - destruct (Hty v) as (idx' & E' & ?); [by apply Ht|]. by assert (idx' = idx) as -> by congruence.
  - injection Hi as <-. split; constructor.
Qed.

Lemma index_updated_typed k f w r w' : typed_store w → ordinary k → (∀ v, typed k v ↔ index_ok v) →
  env w w' → unlocked w' → ready s w' → index_updated (value := value) (dir := dir s) k f w r w' →
  (∀ idx, NoDup (versions_of idx) → Forall valid (versions_of idx) → NoDup (f idx) ∧ Forall valid (f idx)) →
  typed_store w'.
Proof using Type.
  intros Ht Hk Hty He Hu Hr [Hkept H] Hf. eapply typed_within; [exact Ht|by apply within_kept|].
  intros k' x ->%list_elem_of_singleton Hx. destruct r as [[]|e]; [right|left; by destruct H as [<- _]].
  destruct H as (idx & idx' & E & E' & Hp & _).
  destruct (index_at_typed k w idx) as [Hnd Hval]; [done..|intros v; apply (proj1 (Hty v))|done|]. destruct (Hf idx) as [Hnd' Hval']; [done..|].
  apply (proj2 (Hty x)). exists idx'. rewrite <- Hx. split; [done|]. by rewrite Hp.
Qed.

Lemma holds_addVersion k version w : typed_store w → ordinary k → (∀ v, typed k v ↔ index_ok v) → valid version →
  holds fine (addVersionToIndex s (slash k) version) w.
Proof using Type.
  intros Ht Hk Hty Hv. eapply wp_mono.
  { apply (wp_addVersionToIndex k version); [apply Ht..|apply Hk|]. apply file_chars_utf8, file_chars. by apply version_file. }
  intros r w' (He & Hu & Hr & H). split; [done|]. split; [|done]. eapply index_updated_typed; [done..|].
  intros idx Hnd Hval. unfold with_version. case_bool_decide; [done|]. by split; constructor.
Qed.

(** What [metadata.json] asks. *)
Lemma holds_setDeprecation k version message w : typed_store w → good_key k → (∀ v, metadata_ok version v → typed k v) →
  valid version → valid_utf8 message = true → holds fine (setDeprecation s (slash k) version message) w.
Proof using Type.
  intros Ht Hk Hty Hv Hm. eapply wp_mono.
  { apply (wp_setDeprecation k version message); [apply Ht..|done| |done]. apply file_chars_utf8, file_chars. by apply version_file. }
  intros r w' (He & Hu & Hr & [Hkept H]). split; [done|]. split; [|done].
  eapply typed_within; [exact Ht|by apply within_kept|]. intros k' x ->%list_elem_of_singleton Hx.
  destruct r as [[]|e]; [right|left; by destruct H as [<- _]]. destruct H as (meta & _ & data & Hd & Hu').
  assert (data = x) as -> by congruence. apply Hty. by eexists.
Qed.

(** ** Modules *)

Section module.
Context (ns name provider version : string) (HN : module_names ns name provider version).
#[local] Abbreviation key := (module_key ns name provider version).
#[local] Abbreviation idxK := (module_index ns name provider).

Lemma ordinary_module_file f : file_name f → ordinary (key f).
Proof using HN.
  intros Hf. apply ordinary_names; [done|]. unfold module_key. rewrite !Forall_app, !Forall_singleton.
  split; [split; [by eapply module_dir_names|apply version_file, HN]|done].
Qed.

Lemma module_index_types v : typed idxK v ↔ index_ok v.
Proof using Type. split; [intros H; apply H; constructor|apply typed_module_index]. Qed.

Lemma artifact_json_named : file_name "artifact.json".
Proof using Type. split; [done|]. by eexists "a"%char, _. Qed.
Lemma metadata_json_named : file_name "metadata.json".
Proof using Type. split; [done|]. by eexists "m"%char, _. Qed.

Lemma typed_artifact v : typed (key "artifact.json") v → artifact_ok v.
Proof using Type. intros H. exact (mf_artifact _ _ _ (H _ (doc_module_file ns name provider version "artifact.json")) eq_refl). Qed.

Lemma artifact_named text f : artifact_ok text → named_artifact (Some text) = Some f → ∃ d, f = module_filename d.
Proof using Type. intros [d ->]. rewrite named_artifact_meta. intros [= <-]. by exists d. Qed.

(** The previous metadata names an archive, under a good key. *)
Lemma previous_artifact_good previous f :
  (∀ text, previous = Ok text → typed (key "artifact.json") text) →
  previous_filename dec_ModuleArtifactMeta zero_ModuleArtifactMeta mam_filename previous = Some f → good_key (key f).
Proof using HN.
  intros Hp Ef. destruct previous as [text|e]; [|done].
  destruct (artifact_named text f (typed_artifact _ (Hp _ eq_refl)) Ef) as [d ->].
  apply good_module_key; [done|]. apply module_file_named.
Qed.

Lemma holds_publish_module data existed w : typed_store w →
  holds fine (publish_module s ns name provider version data (slash (key (module_filename data))) existed) w.
Proof using HN.
  intros Ht. pose proof (good_meta_key _ _ _ _ HN) as Gm. pose proof (good_module_key _ _ _ _ HN _ (module_file_named data)) as Gz.
  unfold publish_module. cbv zeta.
  eapply holds_bind; [apply (holds_get (key "artifact.json")); [done|apply ordinary_module_file, artifact_json_named]|].
  intros previous w1 H1 Hp. cbn beta in Hp.
  eapply holds_bind; [apply (holds_put (key "artifact.json")); [done..|]; by apply typed_module_file, artifact_file_ok|].
  intros [[]|e] w2 H2 _.
  2:{ eapply holds_bind; [by apply (holds_delete_unless _ (key (module_filename data)))|]. intros. by apply holds_ret. }
  eapply holds_bind.
  { apply (holds_addVersion idxK); [done|by eapply ordinary_index, conj, module_dir_names|exact module_index_types|apply HN]. }
  intros [[]|e] w3 H3 _.
  - eapply holds_bind; [apply holds_delete_old; [done|]; intros f Hf; by eapply previous_artifact_good|].
    intros. by apply holds_ret.
  - eapply holds_bind; [by apply (holds_restore (key "artifact.json"))|]. intros [] w4 H4 _.
    eapply holds_bind; [by apply (holds_delete_unless _ (key (module_filename data)))|]. intros. by apply holds_ret.
Qed.

Lemma holds_upload_module gzip_NewReader maxUploadSize up w : (0 ≤ maxUploadSize < 2^63 - 1)%Z → typed_store w →
  holds fine (module_upload_body (s := s) ns name provider version gzip_NewReader maxUploadSize up) w.
Proof using HN.
  intros HM Ht. unfold module_upload_body. destruct (multipartUploadPart up) as [file|e]; [|by apply holds_ret].
  destruct (_ <? 2); [by apply holds_ret|]. destruct (ValidateUpload _ _); [|by apply holds_ret].
  eapply holds_bind.
  { apply (holds_publish file maxUploadSize (Some (module_validate gzip_NewReader maxUploadSize)) (λ d, key (module_filename d)));
      [done|by apply good_module_key, module_file_named|done|apply typed_module_file, module_archive_ok]. }
  intros [st|e] w1 H1 Hst; [|by apply holds_ret]. rewrite (Hst _ eq_refl). by apply holds_publish_module.
Qed.

End module.

(** ** Providers *)

Section provider.
Context (ns name version os arch : string) (HN : provider_names ns name version os arch).
#[local] Abbreviation key := (provider_key ns name version).
#[local] Abbreviation idxK := (provider_index ns name).
#[local] Abbreviation metaK := (key (platform_file os arch)).
#[local] Abbreviation sumsK := (key (sums_file name version)).
#[local] Abbreviation sigK := (key (signature_file name version)).

Lemma ordinary_provider_file f : file_name f → ordinary (key f).
Proof using HN.
  intros Hf. apply ordinary_names; [done|]. unfold provider_key. rewrite !Forall_app, !Forall_singleton.
  split; [split; [by eapply provider_dir_names|apply version_file, HN]|done].
Qed.

Lemma provider_index_types v : typed idxK v ↔ index_ok v.
Proof using Type. split; [intros H; apply H; constructor|apply typed_provider_index]. Qed.

Lemma typed_platform v : typed metaK v → platform_ok name version (platform_file os arch) v.
Proof using Type. intros H. exact (pf_platform _ _ _ _ (H _ (doc_provider_file ns name version (platform_file os arch))) _ _ eq_refl). Qed.

Lemma platform_named g text f : platform_ok name version g text → named_archive (Some text) = Some f →
  ∃ os' arch' d, validArtifactName os' = true ∧ validArtifactName arch' = true ∧ f = provider_filename name version os' arch' d.
Proof using HN.
  intros (os' & arch' & d & Ho & Ha & _ & ->). unfold named_archive, previous_filename. cbn [mbind option_bind].
  rewrite dec_published_meta by by destruct HN. cbn [provider_meta Filename]. intros [= <-]. by exists os', arch', d.
Qed.

Lemma previous_archive_good previous f : (∀ text, previous = Ok text → typed metaK text) →
  previous_filename dec_PlatformMeta zero_PlatformMeta Filename previous = Some f → good_key (key f).
Proof using HN.
  intros Hp Ef. destruct previous as [text|e]; [|done].
  destruct (platform_named _ text f (typed_platform _ (Hp _ eq_refl)) Ef) as (os' & arch' & d & Ho & Ha & ->).
  assert (provider_names ns name version os' arch') as HN' by by destruct HN.
  eapply good_provider_key; [exact HN'|by eapply provider_file_named].
Qed.

Lemma holds_rebuild signer w : typed_store w → holds fine (rebuildProviderChecksums s signer ns name version) w.
Proof using HN.
  intros Ht. destruct (good_provider_keys ns name version os arch HN "") as (_ & _ & Gc & Gs & _).
  destruct (provider_neqs ns name version os arch HN "") as (_ & (_ & _ & Hne) & _).
  eapply wp_mono; [apply (wp_rebuildProviderChecksums (KV := file_store s) ns name version Gc Gs Hne signer); apply Ht|].
  intros r w' (Hw & _). split; [apply Hw|]. split; [|done]. eapply typed_within; [exact Ht|exact Hw|].
  intros k v Hk _. right. rewrite !elem_of_cons, elem_of_nil in Hk. destruct Hk as [->|[->|[]]]; apply typed_provider_file.
  - apply sums_untyped.
  - apply signature_untyped.
Qed.

(** Undoing a publication. *)
Lemma holds_undo meta sums sig existed data resp w : typed_store w → (∀ d, meta = Ok d → typed metaK d) →
  holds fine (_ ← (restore s (slash metaK) meta;; restore s (slash sumsK) sums;; restore s (slash sigK) sig;;
    delete_unless existed s (slash (key (provider_filename name version os arch data)))); mret (resp : response)) w.
Proof using HN.
  intros Ht Hm. destruct (good_provider_keys ns name version os arch HN data) as (Gz & Gm & Gc & Gs & _).
  eapply (holds_bind fine); [|intros; by apply holds_ret].
  eapply holds_bind; [by apply (holds_restore metaK)|]. intros [] w1 H1 _.
  eapply holds_bind; [apply (holds_restore sumsK); [done..|]; intros; apply typed_provider_file, sums_untyped|]. intros [] w2 H2 _.
  eapply holds_bind; [apply (holds_restore sigK); [done..|]; intros; apply typed_provider_file, signature_untyped|]. intros [] w3 H3 _.
  by apply (holds_delete_unless _ (key _)).
Qed.

Lemma holds_publish_provider signer data existed w : typed_store w →
  holds fine (publish_provider s signer ns name version os arch data (slash (key (provider_filename name version os arch data))) existed) w.
Proof using HN.
  intros Ht. destruct (good_provider_keys ns name version os arch HN data) as (Gz & Gm & Gc & Gs & Gi).
  assert (file_name (platform_file os arch)) as Fm by (by eapply platform_file_named).
  assert (file_name (sums_file name version)) as Fc by (by eapply sums_file_named).
  assert (file_name (signature_file name version)) as Fs by (by eapply signature_file_named).
  unfold publish_provider. cbv zeta. cbn [providerChecksumsNames].
  eapply holds_bind; [apply (holds_get metaK); [done|by apply ordinary_provider_file]|]. intros meta w1 H1 Hm. cbn beta in Hm.
  eapply holds_bind; [apply (holds_put metaK); [done..|]; apply typed_provider_file, platform_doc_ok; apply HN|].
  intros [[]|e] w2 H2 _.
  2:{ eapply holds_bind; [by apply (holds_delete_unless _ (key _))|]. intros. by apply holds_ret. }
  eapply holds_bind; [apply (holds_get sumsK); [done|by apply ordinary_provider_file]|]. intros sums w3 H3 _.
  eapply holds_bind; [apply (holds_get sigK); [done|by apply ordinary_provider_file]|]. intros sig w4 H4 _.
  eapply holds_bind; [by apply holds_rebuild|]. intros [[]|e] w5 H5 _; [|by apply holds_undo].
  eapply holds_bind.
  { apply (holds_addVersion idxK); [done|by eapply ordinary_index, conj, provider_dir_names|exact provider_index_types|apply HN]. }
  intros [[]|e] w6 H6 _; [|by apply holds_undo].
  eapply holds_bind; [apply holds_delete_old; [done|]; intros f Hf; by eapply previous_archive_good|]. intros. by apply holds_ret.
Qed.

Lemma holds_upload_provider zip_NewReader signer maxUploadSize up w : (0 ≤ maxUploadSize < 2^63 - 1)%Z → typed_store w →
  holds fine (provider_upload_body (s := s) ns name version os arch zip_NewReader signer maxUploadSize up) w.
Proof using HN.
  intros HM Ht. unfold provider_upload_body. destruct (multipartUploadPart up) as [file|e]; [|by apply holds_ret].
  destruct (_ <? 4); [by apply holds_ret|]. destruct (ValidateUpload _ _); [|by apply holds_ret].
  eapply holds_bind.
  { apply (holds_publish file maxUploadSize (Some (provider_validate zip_NewReader maxUploadSize name))
      (λ d, key (provider_filename name version os arch d)));
      [done|by apply good_provider_keys|done|apply typed_provider_file, provider_archive_ok]. }
  intros [st|e] w1 H1 Hst; [|by apply holds_ret]. rewrite (Hst _ eq_refl). by apply holds_publish_provider.
Qed.

End provider.

(** ** Deletions, deprecations, collection *)

Lemma typed_same w w' : typed_store w → same w w' → typed_store w'.
Proof using Type. intros Ht [He Ef]. eapply typed_store_frame; [exact Ef|by eapply env_unlocked, Ht|done]. Qed.

Lemma holds_reads {A} (m : M A) w : reads m → typed_store w → holds fine m w.
Proof using Type.
  intros Hm Ht. eapply wp_mono; [by apply reads_wp|]. intros a w' Hsm. split; [apply Hsm|]. split; [by eapply typed_same|done].
Qed.

Lemma holds_delete_version dirK version deleted w :
  dirK ≠ [] ∧ Forall file_name dirK → valid version → (∀ v, typed (dirK ++ ["index.json"]) v ↔ index_ok v) → typed_store w →
  holds fine (delete_version s (slash (dirK ++ [version])) (removeVersionFromIndex s (slash (dirK ++ ["index.json"])) version) deleted) w.
Proof using Type.
  intros Hdir Hv Hty Ht. eapply wp_mono; [apply wp_delete_version; [done..|split; apply Ht]|].
  intros resp w' (He & Hr & Ho). split; [done|]. split; [|done]. split; [done|by eapply env_unlocked, Ht|]. intros l v Hl Hval.
  destruct Ho as [[(Hd & idx & idx' & E & E' & Hp & _) _]|(_ & _ & _ & Hall & _)].
  - destruct (decide (l = dirK ++ ["index.json"])) as [->|Hne].
    + destruct (index_at_typed (dirK ++ ["index.json"]) w idx) as [Hnd Hall]; [done..|intros x; apply (proj1 (Hty x))|done|].
      apply (proj2 (Hty v)). exists idx'. rewrite <- Hval. split; [done|]. rewrite Hp.
      split; [by apply NoDup_filter|]. apply Forall_forall. intros x [_ Hx]%list_elem_of_filter. by eapply Forall_forall in Hall.
    + rewrite Hd in Hval by done. case_decide; [done|]. by apply Ht.
  - destruct (Hall l Hl) as [E|E]; rewrite E in Hval; [by apply Ht|done].
Qed.

Lemma holds_deprecate_version idx version dep text w : reads idx → (∀ w1, typed_store w1 → holds fine dep w1) → typed_store w →
  holds fine (deprecate_version idx version dep text) w.
Proof using Type.
  intros Hi Hd Ht. eapply holds_bind; [by apply holds_reads|]. intros [i|e] w1 H1 _; [|by apply holds_ret].
  destruct (has_version i version); [|by apply holds_ret]. eapply holds_bind; [by apply Hd|].
  intros [[]|e] w2 H2 _; by apply holds_ret.
Qed.

Lemma collected_value cutoff t w w' l : collected cutoff t w w' → good_key l → value w' l = value w l.
Proof using Type.
  intros Hc [Hn Hl]. unfold KeyValue.value, file. destruct (Hc (basePath s ++ l)) as [->|(_ & n & _ & Hst)]; [done|].
  exfalso. unfold stale in Hst. cbn [fst] in Hst. rewrite (app_removelast_last "" Hn) in Hl, Hst.
  apply Forall_app in Hl as [_ [(_ & _ & _ & Hh) _]%Forall_cons]. unfold hidden in Hh.
  rewrite app_assoc, base_name_app, Hh, andb_false_r in Hst. discriminate Hst.
Qed.

Lemma holds_collect w : typed_store w → holds fine (GarbageCollect s) w.
Proof using Type.
  intros Ht. eapply wp_mono; [apply wp_GarbageCollect; apply Ht|]. intros r w' (He & Hr & Hc & _). split; [done|]. split; [|done].
  split; [done|by eapply env_unlocked, Ht|]. intros l v Hl. rewrite (collected_value _ _ _ _ _ Hc) by apply Hl. by apply Ht.
Qed.

End typed_store.

(** ** The registry over time *)

(** The requests that change the registry. *)
Inductive mutation :=
| MutUploadProvider (vars : Vars) (up : upload)
| MutUploadModule (vars : Vars) (up : upload)
| MutDeleteProvider (vars : Vars)
| MutDeleteModule (vars : Vars)
| MutDeprecateProvider (vars : Vars) (body : option json)
| MutDeprecateModule (vars : Vars) (body : option json)
| MutCollect.

Section changes.
Context (zip_NewReader : string → Z → result error (list zip_file)) (gzip_NewReader : string → result error tar_stream).
Context (s : Store) (signer : option RegistrySigner) (maxUploadSize : Z).

Definition mutation_handler (m : mutation) : M response :=
  match m with
  | MutUploadProvider vars up => uploadProviderHandler zip_NewReader s signer maxUploadSize vars up
  | MutUploadModule vars up => uploadModuleHandler gzip_NewReader s maxUploadSize vars up
  | MutDeleteProvider vars => deleteProviderVersionHandler s vars
  | MutDeleteModule vars => deleteModuleVersionHandler s vars
  | MutDeprecateProvider vars body => deprecateProviderHandler s vars body
  | MutDeprecateModule vars body => deprecateModuleHandler s vars body
  | MutCollect => gcHandler s
  end.

(** Route variables that passed the validation of routes, and a message in
    UTF-8, as the JSON decoder delivers it. *)
Definition provider_version (vars : Vars) : Prop :=
  validArtifactName (var vars "namespace") = true ∧ validArtifactName (var vars "name") = true ∧ valid (var vars "version").
Definition module_version (vars : Vars) : Prop :=
  module_names (var vars "namespace") (var vars "name") (var vars "provider") (var vars "version").

Definition validated (m : mutation) : Prop :=
  match m with
  | MutUploadProvider vars _ =>
      provider_names (var vars "namespace") (var vars "name") (var vars "version") (var vars "os") (var vars "arch")
  | MutUploadModule vars _ | MutDeleteModule vars => module_version vars
  | MutDeleteProvider vars => provider_version vars
  | MutDeprecateProvider vars body => provider_version vars ∧ valid_utf8 (body_message body) = true
  | MutDeprecateModule vars body => module_version vars ∧ valid_utf8 (body_message body) = true
  | MutCollect => True
  end.

(** What happens to the registry: changes, and time with faults to come. *)
Inductive history_step : world → world → Prop :=
| history_change m w r w' : validated m → mutation_handler m w = Some (r, w') → history_step w w'
| history_time w w' : w_fs w' = w_fs w → w_locks w' = w_locks w → w_mutation w' = w_mutation w → history_step w w'.

Definition sane (w : world) : Prop := typed_store s w ∧ free w.

Lemma provider_version_names vars : provider_version vars →
  provider_names (var vars "namespace") (var vars "name") (var vars "version") "linux" "amd64".
Proof using Type. by intros (? & ? & ?). Qed.

(** A body under the mutation mutex. *)
Lemma sane_with_mutation (body : M response) w : (∀ w1, typed_store s w1 → holds s (λ _ _, True) body w1) → sane w →
  wp (with_mutation body) (λ _ w', sane w') w.
Proof using Type.
  intros Hb [Ht Hf]. eapply wp_mono; [apply (wp_with_mutation body (λ _ w', typed_store s w')); [done|]|].
  - eapply wp_mono; [apply Hb; by eapply (typed_store_frame s w); [|apply Ht|]|].
    intros a w' (He & Ht' & _). split; [done|]. by eapply (typed_store_frame s w'); [|apply Ht'|].
  - intros a w' (Hf' & _ & Ht'). by split.
Qed.

Lemma sane_change m w : (0 ≤ maxUploadSize < 2^63 - 1)%Z → validated m → sane w → wp (mutation_handler m) (λ _ w', sane w') w.
Proof using Type.
  intros HM Hv. destruct m as [vars up|vars up|vars|vars|vars body|vars body|]; cbn [mutation_handler validated] in *;
    apply sane_with_mutation; intros w1 Ht; cbv zeta.
  - exact (holds_upload_provider s _ _ _ _ _ Hv zip_NewReader signer maxUploadSize up w1 HM Ht).
  - exact (holds_upload_module s _ _ _ _ Hv gzip_NewReader maxUploadSize up w1 HM Ht).
  - pose proof (provider_version_names _ Hv) as HN.
    apply (holds_delete_version s (provider_dir (var vars "namespace") (var vars "name"))); [|apply HN|apply provider_index_types|done].
    split; [done|]. by eapply provider_dir_names.
  - apply (holds_delete_version s (module_dir (var vars "namespace") (var vars "name") (var vars "provider")));
      [|apply Hv|apply module_index_types|done]. split; [done|]. by eapply module_dir_names.
  - destruct Hv as [Hv Hm]. pose proof (provider_version_names _ Hv) as HN.
    apply holds_deprecate_version; [apply keeps_GetProviderIndex| |done]. intros w2 H2.
    apply (holds_setDeprecation s (provider_key (var vars "namespace") (var vars "name") (var vars "version") "metadata.json"));
      [done|by eapply good_provider_key, metadata_json_named| |apply HN|done].
    intros v Hok. by apply typed_provider_file, provider_metadata_ok.
  - destruct Hv as [Hv Hm]. apply holds_deprecate_version; [apply keeps_GetModuleIndex| |done]. intros w2 H2.
    apply (holds_setDeprecation s (module_key (var vars "namespace") (var vars "name") (var vars "provider") (var vars "version") "metadata.json"));
      [done|by eapply good_module_key, metadata_json_named| |apply Hv|done].
    intros v Hok. by apply typed_module_file, module_metadata_ok.
  - eapply holds_bind; [by apply holds_collect|]. intros [n e] w2 H2 _. by apply holds_ret.
Qed.

Lemma history_sane w w' : (0 ≤ maxUploadSize < 2^63 - 1)%Z → rtc history_step w w' → sane w → sane w'.
Proof using Type.
  intros HM. induction 1 as [w|w1 w2 w3 Hs _ IH]; [done|]. intros Hw. apply IH. destruct Hs as [m w1 r w2 Hv E|w1 w2 Ef El Em].
  - pose proof (sane_change m w1 HM Hv Hw) as H. unfold wp in H. by rewrite E in H.
  - destruct Hw as [Ht Hf]. split; [|by unfold free; rewrite Em]. eapply typed_store_frame; [exact Ef| |exact Ht].
    intros k. rewrite El. apply Ht.
Qed.

(** C8. The documents of the registry keep their types.  Take a store in which
    every index decodes and lists distinct valid versions, every metadata
    document decodes and names an archive the way uploads do, and every archive
    has the digest that is in its name - an empty store, for one.  After any
    sequence of uploads, deletions, deprecations and collections of garbage
    with validated names, whatever system calls fail in them, the store is
    still such a store; and there every further change, uploads included, ends
    with a reply. *)
Theorem documents_well_typed w w' : (0 ≤ maxUploadSize < 2^63 - 1)%Z → typed_store s w → free w → rtc history_step w w' →
  typed_store s w' ∧ ∀ m, validated m → ∃ r w2, mutation_handler m w' = Some (r, w2) ∧ typed_store s w2 ∧ free w2.
Proof using Type.
  intros HM Ht Hf Hr. pose proof (history_sane w w' HM Hr (conj Ht Hf)) as Hw'. split; [apply Hw'|].
  intros m Hv. destruct (wp_total _ _ _ (sane_change m w' HM Hv Hw')) as (r & w2 & E & Hw2). exists r, w2. split; [done|apply Hw2].
Qed.

End changes.

(** ** A concrete history *)

Lemma vpc_index_ok : index_ok (print_indent 0 (enc_Index vpc_index)).
Proof.
  exists vpc_index. split; [vm_compute; reflexivity|]. cbn [vpc_index versions_of Versions default].
  split; [apply NoDup_singleton|]. by apply Forall_singleton.
Qed.

Lemma module_world_typed faults : typed_store srv (module_world faults).
Proof.
  split; [apply (vpc_ready faults)..|]. intros l v _. unfold value, file.
  destruct (w_fs (module_world faults) !! _) as [n|] eqn:E; [|done]. intros Hn. apply elem_of_list_to_map_2 in E.
  unfold module_entries in E. pose proof vpc_index_ok as Hok. set (idx := print_indent 0 (enc_Index vpc_index)) in *. clearbody idx.
  rewrite !elem_of_cons, elem_of_nil in E. destruct_or? E; simplify_eq/=. by apply (typed_module_index "acme" "vpc" "aws").
Qed.

Lemma vpc_validated : module_version vpc_vars.
Proof. by split. Qed.

(** An upload, then, from the store it leaves, a deletion under faults. *)
Lemma documents_well_typed_witness : ∃ r1 w1 data,
  uploadModuleHandler vpc_reader srv 1000 vpc_vars vpc_upload (module_world []) = Some (r1, w1) ∧ status r1 = 200%Z ∧
  value srv w1 (module_key "acme" "vpc" "aws" "1.0.0" "artifact.json") = Some data ∧ artifact_ok data ∧
  ∃ r2 w2, deleteModuleVersionHandler srv vpc_vars (set_faults [None; None; Some 0] w1) = Some (r2, w2) ∧ typed_store srv w2.
Proof.
  pose proof (proj1 vpc_runs) as R.
  destruct (uploadModuleHandler vpc_reader srv 1000 vpc_vars vpc_upload (module_world [])) as [[r1 w1]|] eqn:E; [|discriminate R].
  injection R as Hst.
  destruct (documents_well_typed no_zip vpc_reader srv None 1000 (module_world []) (set_faults [None; None; Some 0] w1)) as [Ht Hnext].
  - lia.
  - apply module_world_typed.
  - reflexivity.
  - eapply rtc_l; [exact (history_change no_zip vpc_reader srv None 1000 (MutUploadModule vpc_vars vpc_upload) _ r1 w1 vpc_validated E)|].
    apply rtc_once. by apply history_time.
  - assert (∃ data, value srv w1 (module_key "acme" "vpc" "aws" "1.0.0" "artifact.json") = Some data) as [data Hd].
    { assert (match uploadModuleHandler vpc_reader srv 1000 vpc_vars vpc_upload (module_world []) with
              | Some (_, w) => bool_decide (is_Some (value srv w (module_key "acme" "vpc" "aws" "1.0.0" "artifact.json")))
              | None => false end = true) as H by (vm_compute; reflexivity).
      rewrite E in H. apply bool_decide_eq_true in H. exact H. }
    destruct (Hnext (MutDeleteModule vpc_vars) vpc_validated) as (r2 & w2 & E2 & Ht2 & _).
    exists r1, w1, data. split; [reflexivity|]. split; [exact Hst|]. split; [exact Hd|].
    split; [|exists r2, w2; exact (conj E2 Ht2)].
    apply (typed_artifact "acme" "vpc" "aws" "1.0.0").
    apply (ts_typed srv _ (typed_store_frame srv (set_faults [None; None; Some 0] w1) w1 eq_refl (ts_unlocked srv _ Ht) Ht)); [|exact Hd].
    apply (ordinary_module_file "acme" "vpc" "aws" "1.0.0"); [exact vpc_validated|exact artifact_json_named].
Defined.
