(* ===== verification/Interleave.v ===== *)
(** * Interleavings of requests

    A handler in steps: [prog] is a computation cut into atomic pieces, and
    [collapse] puts it together again.  A pool of such threads shares the world
    and steps in any order; a thread that waits for a mutex cannot step.  A
    logic of invariants for pools, and the theorem that handlers which hold the
    mutation mutex run as if one after another, however finely they are cut and
    whatever readers run between. *)

From stdpp Require Import relations.
From S2P Require Import Prelude GoString GoPath Os OsFacts Frame Store StoreFacts.

(** ** Threads *)

Inductive prog (A : Type) : Type :=
| Ret (a : A)
| Step {B : Type} (m : M B) (k : B → prog A).
Arguments Ret {A} a.
Arguments Step {A B} m k.

#[export] Instance prog_ret : MRet prog := @Ret.
#[export] Instance prog_bind : MBind prog := λ A B f,
  fix go p := match p with Ret a => f a | Step m k => Step m (λ b, go (k b)) end.

Definition atomically {A} (m : M A) : prog A := Step m Ret.

(** The thread alone. *)
Fixpoint collapse {A} (p : prog A) : M A :=
  match p with Ret a => mret a | Step m k => b ← m; collapse (k b) end.

(** Equality of computations. *)
Definition same_code {A} (m1 m2 : M A) : Prop := ∀ w, m1 w = m2 w.

#[export] Instance same_code_equivalence A : Equivalence (@same_code A).
Proof. split; [done|by intros m1 m2 H w; rewrite H|by intros m1 m2 m3 H1 H2 w; rewrite H1]. Qed.

Lemma bind_code {A B} (m1 m2 : M A) (k1 k2 : A → M B) :
  same_code m1 m2 → (∀ a, same_code (k1 a) (k2 a)) → same_code (m1 ≫= k1) (m2 ≫= k2).
Proof. intros Hm Hk w. unfold mbind, M_bind. rewrite Hm. destruct (m2 w) as [[a w']|]; [apply Hk|done]. Qed.

Lemma bind_code_assoc {A B C} (m : M A) (f : A → M B) (g : B → M C) :
  same_code ((m ≫= f) ≫= g) (m ≫= λ a, f a ≫= g).
Proof. intros w. unfold mbind, M_bind. by destruct (m w) as [[a w']|]. Qed.

Lemma collapse_bind {A B} (p : prog A) (f : A → prog B) :
  same_code (collapse (p ≫= f)) (a ← collapse p; collapse (f a)).
Proof.
  induction p as [a|C m k IH].
  - intros w. by unfold mbind, M_bind.
  - etransitivity; [|symmetry; apply bind_code_assoc]. change (collapse (Step m k ≫= f)) with (b ← m; collapse (k b ≫= f)).
    apply bind_code; [done|exact IH].
Qed.

Lemma collapse_atomically {A} (m : M A) : same_code (collapse (atomically m)) m.
Proof. intros w. unfold atomically, collapse, mbind, M_bind. by destruct (m w) as [[a w']|]. Qed.

(** One step of a thread. *)
Definition pstep {A} (p : prog A) (w : world) : option (prog A * world) :=
  match p with
  | Ret _ => None
  | Step m k => match m w with Some (b, w') => Some (k b, w') | None => None end
  end.

Lemma collapse_pstep {A} (p q : prog A) w w' : pstep p w = Some (q, w') → collapse p w = collapse q w'.
Proof.
  destruct p as [a|B m k]; [done|]. cbn [pstep collapse]. unfold mbind, M_bind.
  destruct (m w) as [[b w1]|]; [|done]. by intros [= <- <-].
Qed.

Fixpoint each {A} (P : ∀ B, M B → Prop) (p : prog A) : Prop :=
  match p with Ret _ => True | Step m k => P _ m ∧ ∀ b, each P (k b) end.

Lemma each_bind {A B} P (p : prog A) (f : A → prog B) : each P p → (∀ a, each P (f a)) → each P (p ≫= f).
Proof. intros Hp Hf. induction p as [a|C m k IH]; [apply Hf|]. destruct Hp as [Hm Hk]. split; [done|]. intros b. apply IH, Hk. Qed.

(** ** Pools *)

Section pools.
Context {A : Type}.

Definition pool : Type := list (prog A) * world.

Inductive thread_step : pool → pool → Prop :=
| Thread_step ts w i p q w' : ts !! i = Some p → pstep p w = Some (q, w') → thread_step (ts, w) (<[i := q]> ts, w').

(** Time passes; faults to come and random numbers are any. *)
Definition outside (w w' : world) : Prop :=
  w_fs w' = w_fs w ∧ w_locks w' = w_locks w ∧ w_mutation w' = w_mutation w ∧ (w_now w ≤ w_now w')%Z.

Inductive pool_step : pool → pool → Prop :=
| pool_thread c c' : thread_step c c' → pool_step c c'
| pool_outside ts w w' : outside w w' → pool_step (ts, w) (ts, w').

(** A run, with the worlds on its way. *)
Inductive run (c : pool) : list world → pool → Prop :=
| run_start : run c [c.2] c
| run_step l c1 c2 : run c l c1 → pool_step c1 c2 → run c (l ++ [c2.2]) c2.

(** A given schedule. *)
Fixpoint schedule (l : list nat) (c : pool) : option (list world * pool) :=
  match l with
  | [] => Some ([c.2], c)
  | i :: l =>
      p ← c.1 !! i;
      '(q, w') ← pstep p c.2;
      '(ws, c') ← schedule l (<[i := q]> c.1, w');
      Some (c.2 :: ws, c')
  end.

Lemma run_visits c l c' : run c l c' → c'.2 ∈ l.
Proof. induction 1; [by left|]. apply elem_of_app. right. by left. Qed.

Lemma run_cons c c1 l c' : pool_step c c1 → run c1 l c' → run c (c.2 :: l) c'.
Proof.
  intros Hs H. induction H as [|l c2 c3 H IH Hs'].
  - apply (run_step c [c.2] c c1); [constructor|done].
  - apply (run_step c (c.2 :: l) c2 c3); done.
Qed.

Lemma schedule_run l : ∀ c ws c', schedule l c = Some (ws, c') → run c ws c'.
Proof.
  induction l as [|i l IH]; intros [ts w] ws c' E; cbn [schedule fst snd] in E; [injection E as <- <-; constructor|].
  destruct (ts !! i) as [p|] eqn:Ei; [|done]. cbn [mbind option_bind] in E.
  destruct (pstep p w) as [[q w']|] eqn:Es; [|done]. cbn [mbind option_bind] in E.
  destruct (schedule l _) as [[ws' c2]|] eqn:Er; [|done]. injection E as <- <-.
  eapply (run_cons (ts, w)); [apply pool_thread; by econstructor|by apply IH].
Qed.

Lemma schedule_steps l : ∀ c ws c', schedule l c = Some (ws, c') → rtc thread_step c c'.
Proof.
  induction l as [|i l IH]; intros [ts w] ws c' E; cbn [schedule fst snd] in E; [by injection E as _ <-|].
  destruct (ts !! i) as [p|] eqn:Ei; [|done]. cbn [mbind option_bind] in E.
  destruct (pstep p w) as [[q w']|] eqn:Es; [|done]. cbn [mbind option_bind] in E.
  destruct (schedule l _) as [[ws' c2]|] eqn:Er; [|done]. injection E as _ <-.
  eapply rtc_l; [by econstructor|by eapply IH].
Qed.

(** ** Invariants of a pool *)

Section invariants.
Context (Inv : world → Prop).

(** From the worlds [l] on, every step of the thread keeps the invariant, and
    [Q] holds of what it returns and of the worlds it has seen. *)
Fixpoint safe (Q : list world → A → Prop) (l : list world) (p : prog A) : Prop :=
  match p with
  | Ret a => Q l a
  | Step m k => ∀ l' w b w', l ⊆ l' → w ∈ l' → Inv w → m w = Some (b, w') → Inv w' ∧ safe Q (l' ++ [w']) (k b)
  end.

Definition monotone (Q : list world → A → Prop) : Prop := ∀ l l' a, l ⊆ l' → Q l a → Q l' a.

Lemma safe_later Q l l' p : monotone Q → l ⊆ l' → safe Q l p → safe Q l' p.
Proof.
  intros HQ Hl. destruct p as [a|B m k]; cbn [safe]; [by apply HQ|]. intros H l2 w b w' Hl2. apply H. by etransitivity.
Qed.

(** Threads that are safe each by itself are safe together. *)
Lemma safe_run (Q : nat → list world → A → Prop) ts w l ts' w' :
  (∀ i, monotone (Q i)) → (∀ w1 w2, outside w1 w2 → Inv w1 → Inv w2) →
  Inv w → (∀ i p, ts !! i = Some p → safe (Q i) [w] p) → run (ts, w) l (ts', w') →
  Forall Inv l ∧ ∀ i p, ts' !! i = Some p → safe (Q i) l p.
Proof.
  intros HQ Hout Hw Hts Hr. remember (ts', w') as c' eqn:Ec. revert ts' w' Ec.
  induction Hr as [|l c1 c2 Hr IH Hs]; intros ts' w' Ec; [injection Ec as <- <-; split; [by repeat constructor|done]|subst c2].
  destruct c1 as [ts1 w1]. destruct (IH _ _ eq_refl) as [Hl H1]. pose proof (run_visits _ _ _ Hr) as Hin. cbn [snd] in *.
  pose proof (proj1 (Forall_forall _ _) Hl w1 Hin) as Hw1.
  assert (l ⊆ l ++ [w']) as Hsub by (intros x ?; apply elem_of_app; by left).
  inversion Hs as [c c2 Ht|ts2 w2 w3 Ho]; subst; [inversion Ht as [ts2 w2 i p q w3 Ei Ep]; subst|].
  - pose proof (H1 i p Ei) as Hp. destruct p as [a|B m k]; [done|]. cbn [pstep] in Ep.
    destruct (m w1) as [[b w4]|] eqn:Em; [|done]. injection Ep as <- <-.
    destruct (Hp l w1 b w4 ltac:(done) Hin Hw1 Em) as [Hw4 Hk].
    split; [by apply Forall_app; split; [|constructor]|]. intros j p' Hj.
    destruct (decide (j = i)) as [->|Hne].
    + rewrite list_lookup_insert_eq in Hj by (by eapply lookup_lt_Some). by injection Hj as <-.
    + rewrite list_lookup_insert_ne in Hj by done. eapply safe_later; [done|exact Hsub|by apply H1].
  - split; [apply Forall_app; split; [done|]; constructor; [by eapply Hout|constructor]|].
    intros j p Hj. eapply safe_later; [done|exact Hsub|by apply H1].
Qed.

End invariants.
End pools.
Arguments pool A : clear implicits.

Section rules.
Context (Inv : world → Prop).

Lemma safe_bind {A B} (Q : list world → B → Prop) l (p : prog A) (f : A → prog B) :
  safe Inv (λ l a, safe Inv Q l (f a)) l p → safe Inv Q l (p ≫= f).
Proof.
  revert l. induction p as [a|C m k IH]; intros l H; [exact H|]. intros l' w b w' Hl Hin Hw Em.
  destruct (H l' w b w' Hl Hin Hw Em) as [Hw' Hk]. split; [done|]. by apply IH.
Qed.

Lemma safe_mono {A} (Q Q' : list world → A → Prop) l p :
  (∀ l a, Q l a → Q' l a) → safe Inv Q l p → safe Inv Q' l p.
Proof.
  intros HQ. revert l. induction p as [a|C m k IH]; intros l H; [by apply HQ|]. intros l' w b w' Hl Hin Hw Em.
  destruct (H l' w b w' Hl Hin Hw Em) as [Hw' Hk]. split; [done|]. by apply IH.
Qed.

(** An atomic piece, by its weakest precondition. *)
Lemma safe_atomically {A} (Q : list world → A → Prop) l (m : M A) :
  (∀ l' w, l ⊆ l' → w ∈ l' → Inv w → wp m (λ a w', Inv w' ∧ Q (l' ++ [w']) a) w) → safe Inv Q l (atomically m).
Proof. intros H l' w a w' Hl Hin Hw Em. exact (wp_run _ _ _ _ _ (H l' w Hl Hin Hw) Em). Qed.

End rules.

(** ** Mutual exclusion *)

(** A handler under the mutation mutex, cut as its body is. *)
Definition finishing {A} (p : prog A) : prog A := a ← p; atomically unlock_mutation;; Ret a.
Definition locked {A} (p : prog A) : prog A := atomically lock_mutation;; finishing p.

Lemma collapse_locked {A} (p : prog A) : same_code (collapse (locked p)) (with_mutation (collapse p)).
Proof.
  etransitivity; [apply collapse_bind|]. unfold with_mutation. apply bind_code; [apply collapse_atomically|]. intros [].
  etransitivity; [apply collapse_bind|]. apply bind_code; [done|]. intros a.
  etransitivity; [apply collapse_bind|]. apply bind_code; [apply collapse_atomically|done].
Qed.

(** The mutex is not what the invariant is about. *)
Lemma safe_locked {A} Inv (Q : list world → A → Prop) l (p : prog A) :
  (∀ w b, Inv w → Inv (set_mutation b w)) → monotone Q → (∀ l', l ⊆ l' → safe Inv Q l' p) → safe Inv Q l (locked p).
Proof.
  intros HI HQ Hp. apply safe_bind. intros l1 w [] w' Hl Hin Hw Em. unfold lock_mutation in Em. destruct (w_mutation w); [done|].
  injection Em as <-. split; [by apply HI|]. apply safe_bind. eapply safe_mono; [|apply Hp; set_solver].
  intros l2 a Ha. apply safe_bind. intros l3 w3 [] w4 Hl3 Hin3 Hw3 [= <-]. split; [by apply HI|].
  eapply HQ; [|exact Ha]. set_solver.
Qed.

(** A piece that neither takes nor releases the mutation mutex, and adds no
    faults to come. *)
Definition inner (B : Type) (m : M B) : Prop :=
  ∀ w b w', m w = Some (b, w') → w_mutation w' = w_mutation w ∧ (w_faults w = [] → w_faults w' = []).

(** A piece that changes nothing when no system call fails. *)
Definition observing (B : Type) (m : M B) : Prop := ∀ w b w', w_faults w = [] → m w = Some (b, w') → w' = w.

Section exclusion.
Context {A : Type}.

Inductive thread :=
| Mutator (body : prog A)
| Observer (p : prog A).

Definition launch (t : thread) : prog A := match t with Mutator p => locked p | Observer p => p end.
Definition disciplined (t : thread) : Prop :=
  match t with Mutator p => each inner p | Observer p => each observing p end.

(** The mutating handlers one after another, each whole, in the order given,
    with what they return. *)
Inductive serially (ts : list thread) (w : world) : list (nat * A) → world → Prop :=
| serially_none : serially ts w [] w
| serially_more order w1 i body a w2 : serially ts w order w1 → ts !! i = Some (Mutator body) →
    with_mutation (collapse body) w1 = Some (a, w2) → serially ts w (order ++ [(i, a)]) w2.

(** Where a mutating thread is. *)
Definition waiting (order : list (nat * A)) (ps : list (prog A)) (i : nat) (body : prog A) : Prop :=
  i ∉ order.*1 ∧ ps !! i = Some (locked body).
Definition returned (order : list (nat * A)) (ps : list (prog A)) (i : nat) : Prop :=
  ∃ a, (i, a) ∈ order ∧ ps !! i = Some (Ret a).

(** The threads when those of [order] are done, and [active] has the mutex. *)
Definition settled (ts : list thread) (order : list (nat * A)) (active : option nat) (ps : list (prog A)) : Prop :=
  ∀ i t, ts !! i = Some t → active ≠ Some i →
    match t with
    | Mutator body => waiting order ps i body ∨ returned order ps i
    | Observer _ => ∃ p, ps !! i = Some p ∧ each observing p
    end.

(** The invariant of the pool: [w1] is the world after the mutators of [order],
    one after another. *)
Definition serial_state (ts : list thread) (w0 : world) (c : pool A) : Prop :=
  ∃ order w1, serially ts w0 order w1 ∧ NoDup order.*1 ∧ w_faults c.2 = [] ∧ length c.1 = length ts ∧
    ((c.2 = w1 ∧ w_mutation c.2 = false ∧ settled ts order None c.1) ∨
     (w_mutation c.2 = true ∧ ∃ i body p, ts !! i = Some (Mutator body) ∧ i ∉ order.*1 ∧ c.1 !! i = Some (finishing p) ∧
        each inner p ∧ collapse (finishing p) c.2 = collapse (locked body) w1 ∧ settled ts order (Some i) c.1)).

Lemma settled_taken ts order active ps i q : settled ts order active ps → active = None ∨ active = Some i →
  settled ts order (Some i) (<[i := q]> ps).
Proof.
  intros H Ha j t Hj Hne. assert (j ≠ i) by congruence. unfold waiting, returned.
  rewrite list_lookup_insert_ne by done. apply (H j t Hj). destruct Ha as [->| ->]; congruence.
Qed.

Lemma settled_observer ts order active ps i p q : settled ts order active ps → ts !! i = Some (Observer p) →
  i < length ps → each observing q → settled ts order active (<[i := q]> ps).
Proof.
  intros H Hi Hl Hq j t Hj Hne. pose proof (H j t Hj Hne) as Ht. destruct (decide (j = i)) as [->|Hji].
  - assert (t = Observer p) as -> by congruence. exists q. split; [|done]. by apply list_lookup_insert_eq.
  - unfold waiting, returned. by rewrite list_lookup_insert_ne.
Qed.

Lemma settled_returned ts order ps i body a : settled ts order (Some i) ps → ts !! i = Some (Mutator body) →
  i < length ps → settled ts (order ++ [(i, a)]) None (<[i := Ret a]> ps).
Proof.
  intros H Hi Hl j t Hj _. destruct (decide (j = i)) as [->|Hji].
  - assert (t = Mutator body) as -> by congruence. right. exists a. split; [apply elem_of_app; right; by left|].
    by apply list_lookup_insert_eq.
  - assert (Some i ≠ Some j) as Hne by congruence. pose proof (H j t Hj Hne) as Ht. unfold waiting, returned in *.
    rewrite list_lookup_insert_ne by done. destruct t as [b|p]; [|done]. destruct Ht as [[Hn Hp]|(a' & Hin & Hp)]; [left|right].
    + split; [|done]. rewrite fmap_app. intros [?|Hin]%elem_of_app; [done|]. by apply list_elem_of_singleton in Hin.
    + exists a'. split; [apply elem_of_app; by left|done].
Qed.

(** A step of the thread that holds the mutex. *)
Lemma active_step ts w0 ps w i body p q w' order w1 :
  serially ts w0 order w1 → NoDup order.*1 → length ps = length ts → ts !! i = Some (Mutator body) → i ∉ order.*1 →
  w_faults w = [] → w_mutation w = true → each inner p → collapse (finishing p) w = collapse (locked body) w1 →
  settled ts order (Some i) ps → pstep (finishing p) w = Some (q, w') → serial_state ts w0 (<[i := q]> ps, w').
Proof.
  intros Hser Hnd Hlen Hi Hni Hf Hm Hp Hc Hs Hst. assert (i < length ps) as Hl by (rewrite Hlen; by eapply lookup_lt_Some).
  destruct p as [a|B m k].
  - injection Hst as <- <-. exists (order ++ [(i, a)]), (set_mutation false w).
    split; [|split; [|split; [done|split; [by cbn [fst]; rewrite length_insert|]]]].
    + eapply serially_more; [done..|]. rewrite <- collapse_locked, <- Hc. done.
    + rewrite fmap_app. apply NoDup_app. split; [done|]. split; [|by apply NoDup_singleton].
      intros j Hj Hj'. by apply list_elem_of_singleton in Hj' as ->.
    + left. split; [done|]. split; [done|]. by eapply settled_returned.
  - destruct Hp as [Hin Hk]. pose proof Hst as Hst'. cbn in Hst. destruct (m w) as [[b w2]|] eqn:Em; [|done]. injection Hst as <- <-.
    destruct (Hin _ _ _ Em) as [Hm' Hf']. exists order, w1.
    split; [done|split; [done|split; [by apply Hf'|split; [by cbn [fst]; rewrite length_insert|]]]]. right.
    split; [cbn [snd]; congruence|]. exists i, body, (k b). split; [done|]. split; [done|]. split; [by apply list_lookup_insert_eq|].
    split; [apply Hk|]. split; [|eapply settled_taken; [done|by right]]. rewrite <- Hc. symmetry. by apply collapse_pstep.
Qed.

(** Every step of the pool keeps the invariant. *)
Lemma serial_step ts w0 c c' : Forall disciplined ts → serial_state ts w0 c → thread_step c c' → serial_state ts w0 c'.
Proof.
  intros Hd Hser Hst. destruct Hst as [ps w i p q w' Hi Hp]. destruct Hser as (order & w1 & Hs & Hnd & Hf & Hlen & Hphase).
  cbn [fst snd] in *. assert (i < length ps) as Hl by (by eapply lookup_lt_Some).
  destruct (lookup_lt_is_Some_2 ts i) as [t Ht]; [by rewrite <- Hlen|].
  assert (∀ active, settled ts order active ps → active ≠ Some i → (∃ p', t = Observer p') →
    w' = w ∧ settled ts order active (<[i := q]> ps)) as Hobs.
  { intros active Hset Hne [p' ->]. destruct (Hset i _ Ht Hne) as (p2 & Hp2 & He). assert (p2 = p) as -> by congruence.
    destruct p as [a|B m k]; [done|]. cbn [pstep] in Hp. destruct (m w) as [[b w2]|] eqn:Em; [|done]. injection Hp as <- <-.
    destruct He as [Hm Hk]. split; [by eapply Hm|]. by eapply settled_observer. }
  destruct Hphase as [(-> & Hm & Hset)|(Hm & j & body & p' & Hj & Hnj & Hpj & Hin & Hc & Hset)].
  - destruct t as [body|po]; [|destruct (Hobs None Hset) as [-> Hset']; [done|by eexists|]].
    2:{ exists order, w1. cbn [fst snd]. rewrite length_insert. do 4 (split; [done|]). by left. }
    destruct (Hset i _ Ht) as [[Hn Hpi]|(a & _ & Hpi)]; [done| |by assert (p = Ret a) as -> by congruence].
    assert (p = locked body) as -> by congruence.
    assert (w_mutation w1 = false → pstep (locked body) w1 = Some (finishing body, set_mutation true w1)) as El
      by (intros E; cbn; unfold lock_mutation; by rewrite E).
    rewrite El in Hp by done. injection Hp as <- <-. exists order, w1. cbn [fst snd]. rewrite length_insert. do 4 (split; [done|]). right.
    split; [done|]. exists i, body, body. split; [done|]. split; [done|]. split; [by apply list_lookup_insert_eq|].
    split; [exact (proj1 (Forall_lookup _ _) Hd _ _ Ht)|]. split; [|eapply settled_taken; [done|by left]].
    symmetry. apply collapse_pstep. by apply El.
  - destruct (decide (i = j)) as [->|Hij].
    { assert (p = finishing p') as -> by congruence. by eapply active_step. }
    destruct t as [body'|po]; [|destruct (Hobs (Some j) Hset) as [-> Hset']; [congruence|by eexists|]].
    + exfalso. destruct (Hset i _ Ht) as [[Hn Hpi]|(a & _ & Hpi)];
        [congruence| |by assert (p = Ret a) as -> by congruence].
      assert (p = locked body') as -> by congruence. cbn in Hp. unfold lock_mutation in Hp. by rewrite Hm in Hp.
    + exists order, w1. cbn [fst snd]. rewrite length_insert. do 4 (split; [done|]). right. split; [done|]. exists j, body, p'.
      rewrite list_lookup_insert_ne by done. by split_and!.
Qed.

(** Handlers that hold the mutation mutex, cut into steps in any way, and
    readers between their steps: however the threads interleave, when all have
    returned, the world is the one after the mutating handlers ran one after
    another in some order, and each has returned what it returns there. *)
Lemma exclusion_serial ts w0 ps w : Forall disciplined ts → w_faults w0 = [] → w_mutation w0 = false →
  rtc thread_step (launch <$> ts, w0) (ps, w) → (∀ i p, ps !! i = Some p → ∃ a, p = Ret a) →
  ∃ order, serially ts w0 order w ∧ NoDup order.*1 ∧
    (∀ i body, ts !! i = Some (Mutator body) → ∃ a, (i, a) ∈ order ∧ ps !! i = Some (Ret a)).
Proof.
  intros Hd Hf Hm Hr Hdone.
  assert (serial_state ts w0 (launch <$> ts, w0)) as H0.
  { exists [], w0. split; [constructor|]. split; [constructor|]. split; [done|]. split; [by cbn [fst]; rewrite length_fmap|]. left.
    split; [done|]. split; [done|]. intros i t Hi _.
    assert ((launch <$> ts) !! i = Some (launch t)) as Hl by (by rewrite list_lookup_fmap, Hi). destruct t as [body|p].
    - left. split; [apply not_elem_of_nil|exact Hl].
    - exists p. split; [exact Hl|]. exact (proj1 (Forall_lookup _ _) Hd _ _ Hi). }
  assert (serial_state ts w0 (ps, w)) as (order & w1 & Hs & Hnd & _ & Hlen & Hphase).
  { remember (launch <$> ts, w0) as c0. clear -Hr Hd H0. induction Hr as [|c c1 c2 Hst Hr IH]; [done|].
    apply IH. by eapply serial_step. }
  destruct Hphase as [(<- & _ & Hset)|(_ & i & body & p & _ & _ & Hp & _)]; cbn [fst snd] in *.
  - exists order. split; [done|]. split; [done|]. intros i body Hi.
    destruct (Hset i _ Hi) as [[_ Hp]|(a & Hin & Hp)]; [done| |by exists a].
    destruct (Hdone _ _ Hp) as [a Ha]. discriminate Ha.
  - destruct (Hdone _ _ Hp) as [a Ha]. by destruct p.
Qed.

End exclusion.
Arguments thread A : clear implicits.
