(* ===== verification/Concurrent.v ===== *)
(** * Requests that run at the same time

    The handlers of api.go that change the registry hold [mutationMu]; those
    that read it hold nothing.  Here they run as threads of [Interleave], cut
    where they call the store: changes happen as if one after another, and a
    download that overlaps uploads gets a whole archive or none - which it may
    even when the module is published at every moment.  One call of the store
    on one key is atomic here: writers of a key exclude each other by its mutex
    and publish by one rename, and readers open the file once. *)

From stdpp Require Import relations.
From S2P Require Import Prelude GoString SemVer GoPath Regex Validation Sha256 Os OsFacts Frame Json Decode Store StoreFacts KeyValue.
From S2P Require Import Confine StoreSpec Index IndexFacts Archive Signing Http Api Protocol ReadFacts NameFacts Transactions.
From S2P Require Import DownloadFacts ModuleUpload Serving WellTyped Interleave.

#[local] Opaque sha256_hex.

(** ** Handlers in steps *)

Section steps.
Context (gzip_NewReader : string → result error tar_stream) (s : Store) (maxUploadSize : Z).

(** [publish_module] *)
Definition publish_module_steps (namespace name provider version data key : string) (artifactExisted : bool) : prog response :=
  let prefix := ["modules"; namespace; name; provider; version] in
  let filename := module_filename data in
  let artifactMetaKey := slash (prefix ++ ["artifact.json"]) in
  previousMeta ← atomically (Get s artifactMetaKey);
  let artifactMeta := print (enc_ModuleArtifactMeta (mkModuleArtifactMeta filename (sha256_hex data))) in
  r ← atomically (Put s artifactMetaKey artifactMeta);
  match r with
  | Err _ =>
      atomically (delete_unless artifactExisted s key);;
      Ret (writeJSON 500 false (Msg "Metadata store failed"))
  | Ok _ =>
      r ← atomically (AddModuleVersion s namespace name provider version);
      match r with
      | Err _ =>
          atomically (restore s artifactMetaKey previousMeta);;
          atomically (delete_unless artifactExisted s key);;
          Ret (writeJSON 500 false (Msg "Index update failed"))
      | Ok _ =>
          atomically (delete_old s prefix filename
            (previous_filename dec_ModuleArtifactMeta zero_ModuleArtifactMeta mam_filename previousMeta));;
          Ret (counting ModuleUploads (writeJSON 200 true (Msg
            ("Module " +:+ namespace +:+ "/" +:+ name +:+ "/" +:+ provider +:+ "@" +:+ version
             +:+ " uploaded"))))
      end
  end.

(** [uploadModuleHandler] under the mutation mutex. *)
Definition upload_module_steps (namespace name provider version : string) (up : upload) : prog response :=
  match multipartUploadPart up with
  | Err e => Ret (writeUploadError e)
  | Ok file =>
      if slen (peeked file) <? 2 then Ret (writeJSON 400 false (Msg "File too small"))
      else match ValidateUpload (buffer4 (peeked file)) "tar.gz" with
      | Err e => Ret (writeJSON 400 false (MsgErr "" e))
      | Ok _ =>
          r ← atomically (PutStreamImmutable s file maxUploadSize (Some (module_validate gzip_NewReader maxUploadSize))
                (λ data, slash ["modules"; namespace; name; provider; version; module_filename data]));
          match r with
          | Err e => Ret (write_store_error e)
          | Ok st => publish_module_steps namespace name provider version (r_data file) (st_key st) (st_existed st)
          end
      end
  end.

(** [moduleArtifactKey] and [moduleDownloadHandler] *)
Definition module_artifact_steps (namespace name provider version : string) : prog (result error string) :=
  let prefix := ["modules"; namespace; name; provider; version] in
  r ← atomically (Get s (slash (prefix ++ ["artifact.json"])));
  match r with
  | Ok data =>
      let '(meta, ok) := Unmarshal dec_ModuleArtifactMeta data zero_ModuleArtifactMeta in
      if negb ok || negb (MatchString moduleFileRE (mam_filename meta)) then
        Ret (Err (EText "invalid module artifact metadata"))
      else
        let key := slash (prefix ++ [mam_filename meta]) in
        ex ← atomically (Exists s key);
        Ret (if (ex : bool) then Ok key else Err (EOS ENOENT))
  | Err _ =>
      let legacy := slash (prefix ++ ["module.tar.gz"]) in
      ex ← atomically (Exists s legacy);
      Ret (if (ex : bool) then Ok legacy else Err (EOS ENOENT))
  end.

Definition download_module_steps (vars : Vars) : prog response :=
  r ← module_artifact_steps (var vars "namespace") (var vars "name") (var vars "provider") (var vars "version");
  Ret (counting ModuleDownloads (match r with
       | Err _ => error_reply 404 "module not found"
       | Ok key => mkResponse 204 [("X-Terraform-Get", DownloadURL s key); ("Content-Type", "application/json")] BNone []
       end)).

(** A request of one of the module endpoints: an upload, a download, or the
    file named by the digest of [data]. *)
Inductive module_call :=
| CallUpload (vars : Vars) (up : upload)
| CallDownload (vars : Vars)
| CallFile (namespace name provider version data : string).

Definition call_handler (c : module_call) : M response :=
  match c with
  | CallUpload vars up => uploadModuleHandler gzip_NewReader s maxUploadSize vars up
  | CallDownload vars => moduleDownloadHandler s vars
  | CallFile ns name provider version data =>
      fileDownloadHandler s (path_vars (module_key ns name provider version (module_filename data)))
  end.

(** Its thread. *)
Definition call_steps (c : module_call) : prog response :=
  match c with
  | CallUpload vars up =>
      locked (upload_module_steps (var vars "namespace") (var vars "name") (var vars "provider") (var vars "version") up)
  | CallDownload vars => download_module_steps vars
  | CallFile _ _ _ _ _ => atomically (call_handler c)
  end.

(** ** The steps make the handlers *)

#[local] Ltac code_step :=
  match goal with
  | |- same_code (collapse (atomically _)) _ => apply collapse_atomically
  | |- same_code (collapse (mbind _ _)) _ => etransitivity; [apply collapse_bind|]; apply bind_code; [|intros]
  | |- same_code (collapse (Ret _)) _ => reflexivity
  | |- same_code (collapse (match ?x with _ => _ end)) _ => destruct x
  end.

Lemma publish_module_code namespace name provider version data key existed :
  same_code (collapse (publish_module_steps namespace name provider version data key existed))
    (publish_module s namespace name provider version data key existed).
Proof using Type. unfold publish_module_steps, publish_module. cbv zeta. repeat code_step. Qed.

Lemma upload_module_code namespace name provider version up :
  same_code (collapse (upload_module_steps namespace name provider version up))
    (module_upload_body (s := s) namespace name provider version gzip_NewReader maxUploadSize up).
Proof using Type.
  unfold upload_module_steps, module_upload_body. cbv zeta. repeat code_step. apply publish_module_code.
Qed.

Lemma module_artifact_code namespace name provider version :
  same_code (collapse (module_artifact_steps namespace name provider version)) (moduleArtifactKey s namespace name provider version).
Proof using Type.
  unfold module_artifact_steps, moduleArtifactKey. cbv zeta. repeat code_step.
Qed.

Lemma call_code c : same_code (collapse (call_steps c)) (call_handler c).
Proof using Type.
  destruct c as [vars up|vars|ns name p v d]; cbn [call_steps call_handler].
  - etransitivity; [apply collapse_locked|]. unfold with_mutation, uploadModuleHandler.
    apply bind_code; [done|]. intros []. apply bind_code; [apply upload_module_code|done].
  - unfold download_module_steps, moduleDownloadHandler. etransitivity; [apply collapse_bind|]. unfold fmap, M_fmap.
    intros w. rewrite (bind_code_assoc _ _ _ w). revert w. apply bind_code; [apply module_artifact_code|]. intros []; reflexivity.
  - apply collapse_atomically.
Qed.

(** ** What the store holds at every moment *)

#[local] Abbreviation key := module_key.
#[local] Abbreviation valid_names := module_names.

(** Metadata that names no artifact but of an upload. *)
Definition well_named (v : option string) : Prop :=
  ∀ f, named_artifact v = Some f → f = "" ∨ ∃ d, f = module_filename d.

(** Under the name of a digest there is content with that digest. *)
Definition named_whole (k : list string) (v : option string) : Prop := ∀ ns name provider version d c,
  valid_names ns name provider version → k = key ns name provider version (module_filename d) → v = Some c →
  module_filename c = module_filename d.

Record intact (w : world) : Prop := {
  in_ready : ready s w;
  in_unlocked : unlocked w;
  in_whole k : named_whole k (value s w k);
  in_metas ns name provider version : valid_names ns name provider version →
    well_named (value s w (key ns name provider version "artifact.json"))
}.

Lemma intact_frame w w' : w_fs w' = w_fs w → w_locks w' = w_locks w → intact w → intact w'.
Proof using Type.
  intros Ef El [Hr Hu Hw Hm]. destruct (kv_frame (KeyValue := file_store s) w w' Ef) as (Hok & Hv & _).
  split; [by apply Hok|by intros k; rewrite El|intros k; rewrite Hv; apply Hw|]. intros ns name p v HN. rewrite Hv. by apply Hm.
Qed.

Lemma intact_same w w' : same w w' → intact w → intact w'.
Proof using Type.
  intros [He Ef] [Hr Hu Hw Hm]. destruct (kv_frame (KeyValue := file_store s) w w' Ef) as (Hok & Hv & _).
  split; [by apply Hok|by eapply env_unlocked|intros k; rewrite Hv; apply Hw|]. intros ns name p v HN. rewrite Hv. by apply Hm.
Qed.

(** A change of one key. *)
Lemma intact_kept k w w' : intact w → ready s w' → unlocked w' → kept (value s) (dir s) k w w' →
  named_whole k (value s w' k) → (∀ ns name provider version, valid_names ns name provider version →
    k = key ns name provider version "artifact.json" → well_named (value s w' k)) → intact w'.
Proof using Type.
  intros [Hr Hu Hw Hm] Hr' Hu' [Hk _] Hwhole Hmeta. split; [done|done|..].
  - intros l ns name p v d c HN El Ev. destruct (decide (l = k)) as [->|Hne]; [by eapply Hwhole|].
    eapply Hw; [done|exact El|]. rewrite <- (Hk l); [done| |done]. subst l. by apply good_module_key, module_file_named.
  - intros ns name p v HN. destruct (decide (key ns name p v "artifact.json" = k)) as [E|Hne].
    + rewrite E. by eapply Hmeta.
    + rewrite Hk; [by apply Hm|by apply good_meta_key|done].
Qed.

Lemma key_file ns name p v f ns' name' p' v' f' : key ns name p v f = key ns' name' p' v' f' → f = f'.
Proof using Type. intros E. by apply app_inj_tail in E as [_ E]. Qed.

Lemma named_whole_meta ns name p v x : named_whole (key ns name p v "artifact.json") x.
Proof using Type. intros ns' name' p' v' d c _ E%key_file. by destruct (module_filename_not_meta d). Qed.

Lemma named_whole_none k : named_whole k None.
Proof using Type. by intros ns name p v d c _ _. Qed.

(** A write or a removal that fails leaves what was there. *)
Lemma intact_wrote k v w r w' : intact w → ready s w' → unlocked w' → wrote (value s) (dir s) k v w r w' →
  named_whole k v → (∀ ns name provider version, valid_names ns name provider version →
    k = key ns name provider version "artifact.json" → well_named v) → intact w'.
Proof using Type.
  intros Hi Hr Hu [Hk H] Hwhole Hmeta. destruct r as [[]|e]; [|destruct H as [H _]].
  - by eapply intact_kept; rewrite ?H.
  - eapply intact_kept; [done..| |]; rewrite H; [apply Hi|]. intros ns name p ver HN ->. by apply Hi.
Qed.

Definition stored (w : world) (k : list string) : Prop := value s w k ≠ None ∨ dir s w k.

(** ** Uploads keep it *)

(** An upload that succeeds has stored its archive, and the metadata has named
    it. *)
Definition uploaded (ns name provider version data : string) (l : list world) (r : response) : Prop :=
  status r = 200%Z → (∃ w1, w1 ∈ l ∧ stored w1 (key ns name provider version (module_filename data))) ∧
    ∃ w1, w1 ∈ l ∧ value s w1 (key ns name provider version "artifact.json") = Some (print (enc_ModuleArtifactMeta (module_meta data))).

Section upload.
Context (ns name provider version : string) (HN : module_names ns name provider version).
Context (HM : (0 ≤ maxUploadSize < 2^63 - 1)%Z).
#[local] Abbreviation metaK := (key ns name provider version "artifact.json").
#[local] Abbreviation idxK := (module_index ns name provider).
#[local] Abbreviation uploaded := (uploaded ns name provider version).

Lemma good_zip d : good_key (key ns name provider version (module_filename d)).
Proof using HN. apply good_module_key; [done|apply module_file_named]. Qed.

Lemma wp_put_meta text w : intact w → well_named (Some text) →
  wp (Put s (slash metaK) text) (λ r w', intact w' ∧ (is_ok r = true → value s w' metaK = Some text)) w.
Proof using HN.
  intros Hi Ht. eapply wp_mono; [apply (kv_put (KeyValue := file_store s) metaK); [apply Hi..|by apply good_meta_key]|].
  intros r w' (_ & Hu & Hr & H). split; [by eapply intact_wrote; [..|apply named_whole_meta|]|].
  intros Hok. destruct H as [_ H]. by destruct r.
Qed.

Lemma wp_delete_key k w : intact w → good_key k → wp (Delete s (slash k)) (λ _ w', intact w') w.
Proof using Type.
  intros Hi Hg. eapply wp_mono; [apply (kv_delete (KeyValue := file_store s) k); [apply Hi..|done]|].
  intros r w' (_ & Hu & Hr & H). eapply intact_wrote; [done..|apply named_whole_none|]. intros; intros f; discriminate.
Qed.

Lemma wp_restore_meta previous w : intact w → (∀ text, previous = Ok text → well_named (Some text)) →
  wp (restore s (slash metaK) previous) (λ _ w', intact w') w.
Proof using HN.
  intros Hi Hp. unfold restore. destruct previous as [text|e]; apply wp_ignoring.
  - eapply wp_mono; [apply wp_put_meta; [done|by apply Hp]|]. by intros r w' [? _].
  - apply wp_delete_key; [done|by apply good_meta_key].
Qed.

Lemma wp_delete_unless_key existed k w : intact w → good_key k → wp (delete_unless existed s (slash k)) (λ _ w', intact w') w.
Proof using Type. intros. unfold delete_unless. destruct existed; [by apply wp_ret|]. by apply wp_ignoring, wp_delete_key. Qed.

Lemma wp_delete_superseded d previous w : intact w → (∀ text, previous = Ok text → well_named (Some text)) →
  wp (delete_old s ["modules"; ns; name; provider; version] (module_filename d)
        (previous_filename dec_ModuleArtifactMeta zero_ModuleArtifactMeta mam_filename previous)) (λ _ w', intact w') w.
Proof using HN.
  intros Hi Hp. unfold delete_old. destruct (previous_filename _ _ _ previous) as [f|] eqn:Ef; [|by apply wp_ret].
  destruct (String.eqb_spec f ""); [by apply wp_ret|]. destruct (String.eqb f _); [by apply wp_ret|]. cbn [negb andb].
  destruct previous as [text|e]; [|done]. destruct (Hp text eq_refl f Ef) as [?|[d' ->]]; [done|].
  apply wp_ignoring, (wp_delete_key (key ns name provider version (module_filename d'))); [done|apply good_zip].
Qed.

Lemma wp_index w : intact w → wp (AddModuleVersion s ns name provider version) (λ _ w', intact w') w.
Proof using HN.
  intros Hi. eapply wp_mono.
  { apply (wp_addVersionToIndex (KV := file_store s) idxK); [apply Hi..|by eapply good_module_index|].
    apply file_chars_utf8, file_chars, version_file, HN. }
  intros r w' (_ & Hu & Hr & [Hk _]). eapply intact_kept; [done..| |].
  - intros ns' name' p' v' d c _ E. discriminate E.
  - intros ns' name' p' v' _ E. discriminate E.
Qed.

Lemma well_named_meta d : well_named (Some (print (enc_ModuleArtifactMeta (module_meta d)))).
Proof using Type.
  intros f. rewrite named_artifact_meta. intros [= <-]. right. by exists d.
Qed.

Lemma safe_publish l data existed : (∃ w1, w1 ∈ l ∧ stored w1 (key ns name provider version (module_filename data))) →
  safe intact (uploaded data) l (publish_module_steps ns name provider version data (slash (key ns name provider version (module_filename data))) existed).
Proof using HN.
  intros (wz & Hwz & Hz). pose proof (good_zip data) as Gz. unfold publish_module_steps. cbv zeta. apply safe_bind, safe_atomically.
  intros l1 w1 Hl1 _ Hi1. eapply wp_mono; [apply (kv_get (KeyValue := file_store s) metaK); [apply Hi1|by apply good_meta_key]|].
  intros previous w2 [Hsm Hprev]. split; [by eapply intact_same|].
  assert (∀ text, previous = Ok text → well_named (Some text)) as Hp.
  { intros text ->. cbn in Hprev. rewrite <- Hprev. by apply Hi1. }
  apply safe_bind, safe_atomically. intros l2 w3 Hl2 _ Hi3.
  eapply wp_mono; [apply wp_put_meta; [done|apply well_named_meta]|]. intros [[]|e] w4 [Hi4 Hm4]; (split; [done|]).
  2:{ apply safe_bind, safe_atomically. intros l3 w5 _ _ Hi5. eapply wp_mono; [by apply wp_delete_unless_key|]. by intros. }
  apply safe_bind, safe_atomically. intros l3 w5 Hl3 _ Hi5. eapply wp_mono; [by apply wp_index|].
  intros [[]|e] w6 Hi6; (split; [done|]).
  - apply safe_bind, safe_atomically. intros l4 w7 Hl4 _ Hi7. eapply wp_mono; [by apply wp_delete_superseded|].
    intros [] w8 Hi8. split; [done|]. intros _. specialize (Hm4 eq_refl). split; [exists wz|exists w4]; (split; [|done]);
      apply elem_of_app; left; apply Hl4, elem_of_app; left; apply Hl3, elem_of_app; [left|right; by left].
    by apply Hl2, elem_of_app; left; apply Hl1.
  - apply safe_bind, safe_atomically. intros l4 w7 _ _ Hi7. eapply wp_mono; [by apply wp_restore_meta|]. intros [] w8 Hi8.
    split; [done|]. apply safe_bind, safe_atomically. intros l5 w9 _ _ Hi9.
    eapply wp_mono; [by apply wp_delete_unless_key|]. by intros.
Qed.

Lemma safe_upload l up : safe intact (uploaded (upload_data up)) l (upload_module_steps ns name provider version up).
Proof using HN HM.
  unfold upload_module_steps. destruct (multipartUploadPart up) as [file|e] eqn:Eup.
  2:{ intros Hst. pose proof (writeUploadError_status e). lia. }
  destruct (slen (peeked file) <? 2); [done|]. destruct (ValidateUpload _ _); [|done].
  assert (upload_data up = r_data file) as -> by (unfold upload_data; by rewrite Eup).
  apply safe_bind, safe_atomically. intros l1 w1 _ Hw1 Hi1. eapply wp_mono.
  { apply (kv_publish (KeyValue := file_store s) file maxUploadSize (Some (module_validate gzip_NewReader maxUploadSize))
      (λ d, key ns name provider version (module_filename d))); [apply Hi1..|apply good_zip|done]. }
  intros r w2 (_ & Hu & Hr & [Hk H]). split.
  2:{ destruct r as [st|e]; [|intros Hst; pose proof (write_store_error_status e); lia]. destruct H as (_ & _ & -> & H).
      apply safe_publish. destruct (st_existed st).
      - exists w1. split; [apply elem_of_app; by left|apply H].
      - exists w2. split; [apply elem_of_app; right; by left|]. left. by destruct H as [_ ->]. }
  assert (value s w2 (key ns name provider version (module_filename (r_data file))) =
          value s w1 (key ns name provider version (module_filename (r_data file))) ∨
          value s w2 (key ns name provider version (module_filename (r_data file))) = Some (r_data file)) as Hv.
  { destruct r as [st|e]; [|by left; destruct H]. destruct H as (_ & _ & _ & H). destruct (st_existed st); [left|right]; apply H. }
  eapply intact_kept; [done..| |]; [destruct Hv as [->| ->]|].
  - apply Hi1.
  - by intros ns' name' p' v' d c _ E%key_file [= <-].
  - intros ns' name' p' v' _ E%key_file. by destruct (module_filename_not_meta (r_data file)).
Qed.

End upload.

(** ** What downloads answer *)

(** A redirect leads to a key that, at some moment of the run, was in the
    store; it is that of an archive the metadata named at an earlier one, or
    the fixed one of old stores. *)
Definition redirected (ns name provider version : string) (l : list world) (k : string) : Prop :=
  ∃ f w1, w1 ∈ l ∧ stored w1 (key ns name provider version f) ∧ k = slash (key ns name provider version f) ∧
    (f = "module.tar.gz" ∨
     ∃ d w0, f = module_filename d ∧ w0 ∈ l ∧ named_artifact (value s w0 (key ns name provider version "artifact.json")) = Some f).

(** What a request has been told when it returns, after the worlds [l]. *)
Definition answered (c : module_call) (l : list world) (r : response) : Prop :=
  match c with
  | CallUpload vars up =>
      uploaded (var vars "namespace") (var vars "name") (var vars "provider") (var vars "version") (upload_data up) l r
  | CallDownload vars => status r = 204%Z → ∃ k, ("X-Terraform-Get", DownloadURL s k) ∈ headers r ∧
      redirected (var vars "namespace") (var vars "name") (var vars "provider") (var vars "version") l k
  | CallFile ns name provider version d => status r = 200%Z →
      ∃ data t w1, content r = BFile data t ∧ module_filename data = module_filename d ∧
        w1 ∈ l ∧ value s w1 (key ns name provider version (module_filename d)) = Some data
  end.

(** The names are those of validated routes. *)
Definition well_addressed (c : module_call) : Prop :=
  match c with
  | CallUpload vars _ | CallDownload vars =>
      valid_names (var vars "namespace") (var vars "name") (var vars "provider") (var vars "version")
  | CallFile ns name provider version _ => valid_names ns name provider version
  end.

Lemma answered_monotone c : monotone (answered c).
Proof using Type.
  intros l l' r Hl. destruct c as [vars up|vars|ns name p v d]; cbn [answered].
  - intros H Hst. destruct (H Hst) as [(w1 & Hw1 & H1) (w2 & Hw2 & H2)]. split; [exists w1|exists w2]; (split; [by apply Hl|done]).
  - intros H Hst. destruct (H Hst) as (k & Hk & f & w1 & Hw1 & Hs & E & Hf). exists k. split; [done|]. exists f, w1.
    split; [by apply Hl|]. do 2 (split; [done|]). destruct Hf as [?|(d & w0 & Ed & Hw0 & Hn)]; [by left|right].
    exists d, w0. split; [done|]. split; [by apply Hl|done].
  - intros H Hst. destruct (H Hst) as (data & t & w1 & Hc & Hn & Hw1 & Hv).
    exists data, t, w1. do 2 (split; [done|]). split; [by apply Hl|done].
Qed.

Lemma safe_artifact ns name p v l : valid_names ns name p v →
  safe intact (λ l r, match r with Ok k => redirected ns name p v l k | Err _ => True end) l
    (module_artifact_steps ns name p v).
Proof using Type.
  intros HN. unfold module_artifact_steps. cbv zeta. apply safe_bind, safe_atomically. intros l1 w1 Hl1 Hw1 Hi1.
  eapply wp_mono.
  { apply (kv_get (KeyValue := file_store s) (key ns name p v "artifact.json")); [apply Hi1|by apply good_meta_key]. }
  intros [text|e] w2 [Hsm H]; (split; [by eapply intact_same|]).
  2:{ apply safe_bind, safe_atomically. intros l2 w3 Hl2 Hw3 Hi3. eapply wp_mono.
      { apply (kv_exists (KeyValue := file_store s) (key ns name p v "module.tar.gz")); [apply Hi3|].
        apply good_module_key; [done|]. split; [done|]. by eexists "m"%char, _. }
      intros [|] w4 [Hsm4 Hex]; (split; [by eapply intact_same|]); [|done]. exists "module.tar.gz", w3.
      split; [apply elem_of_app; by left|]. split; [done|]. split; [done|by left]. }
  destruct (Unmarshal _ text _) as [meta decoded] eqn:Em. destruct (negb decoded || _) eqn:Ebad; [done|].
  apply orb_false_iff in Ebad as [->%negb_false_iff Hre%negb_false_iff].
  assert (named_artifact (Some text) = Some (mam_filename meta)) as Hnamed.
  { unfold named_artifact, previous_filename. cbn [mbind option_bind]. by rewrite Em. }
  assert (∃ d, mam_filename meta = module_filename d) as [d Ed].
  { assert (well_named (Some text)) as Hwn by (rewrite <- H; by apply Hi1). destruct (Hwn _ Hnamed) as [E|?]; [|done].
    rewrite E in Hre. by vm_compute in Hre. }
  apply safe_bind, safe_atomically. intros l2 w3 Hl2 Hw3 Hi3. eapply wp_mono.
  { apply (kv_exists (KeyValue := file_store s) (key ns name p v (mam_filename meta))); [apply Hi3|].
    rewrite Ed. apply good_module_key; [done|apply module_file_named]. }
  intros [|] w4 [Hsm4 Hex]; (split; [by eapply intact_same|]); [|done]. exists (mam_filename meta), w3.
  split; [apply elem_of_app; by left|]. split; [done|]. split; [done|]. right. exists d, w1.
  split; [done|]. split; [apply elem_of_app; left; apply Hl2, elem_of_app; by left|]. by rewrite H.
Qed.

Lemma safe_call c w : (0 ≤ maxUploadSize < 2^63 - 1)%Z → well_addressed c → safe intact (answered c) [w] (call_steps c).
Proof using Type.
  intros HM Hc. destruct c as [vars up|vars|ns name p v d]; cbn [call_steps well_addressed] in *.
  - apply safe_locked; [intros w1 b; by apply intact_frame|apply answered_monotone|]. intros l _. by apply safe_upload.
  - unfold download_module_steps. apply safe_bind. eapply safe_mono; [|by apply safe_artifact].
    intros l1 [k|e] H; [|by intros Hst]. intros _. exists k. split; [by left|exact H].
  - apply safe_atomically. intros l1 w1 Hl1 Hw1 Hi1. cbn [call_handler]. unfold fileDownloadHandler. rewrite var_path.
    destruct (negb _); [by apply wp_ret|]. apply wp_bind. eapply wp_mono.
    { apply wp_open_entry_at; [apply Hi1|]. apply good_module_key; [done|apply module_file_named]. }
    intros [n|e] w2 [Hsm H]; [|apply wp_ret; split; [by eapply intact_same|done]].
    apply wp_bind. eapply wp_mono; [apply wp_f_noop|]. intros r w3 [Hsm3 _].
    assert (intact w3) as Hi3 by (eapply intact_same; [by transitivity w2|done]).
    destruct r as [[]|e]; apply wp_ret; (split; [done|]); [|done]. destruct n as [data t| |]; [|done..]. intros _.
    assert (value s w1 (key ns name p v (module_filename d)) = Some data) as Hv by (unfold value, file; by rewrite H).
    exists data, t, w1. split; [done|]. split; [exact (in_whole _ Hi1 _ ns name p v d data Hc eq_refl Hv)|]. split; [apply elem_of_app; by left|done].
Qed.

End steps.

(** ** Downloads during uploads *)

(** C7. Downloads are consistent under concurrency.  Any number of uploads and
    downloads of modules and of their archives run at the same time, their
    store operations interleaved in any order, under any faults.  Then at
    every moment whatever is under the name of a digest has that digest; a
    download that redirects does so to a key that was in the store at some
    moment of the run, and whose name the metadata gave at an earlier one (or
    to the fixed name of old stores); and an archive that is sent is, byte for
    byte, one that was stored under that name and has the digest in it.  No
    mixture of an old and a new upload is ever served. *)
Theorem downloads_consistent gzip_NewReader s maxUploadSize (cs : list module_call) w l ts w' :
  (0 ≤ maxUploadSize < 2^63 - 1)%Z → Forall well_addressed cs → intact s w →
  run (call_steps gzip_NewReader s maxUploadSize <$> cs, w) l (ts, w') →
  Forall (intact s) l ∧ ∀ i c r, cs !! i = Some c → ts !! i = Some (Ret r) → answered s c l r.
Proof.
  intros HM Hcs Hw Hr.
  destruct (safe_run (intact s) (λ i l r, ∀ c, cs !! i = Some c → answered s c l r)
    (call_steps gzip_NewReader s maxUploadSize <$> cs) w l ts w') as [Hl Hts]; [..|exact Hr|].
  - intros i l1 l2 r Hsub H c Hc. eapply answered_monotone; [exact Hsub|by apply H].
  - intros w1 w2 (Ef & El & _). by apply intact_frame.
  - done.
  - intros i p Hi. rewrite list_lookup_fmap in Hi. destruct (cs !! i) as [c|] eqn:Ec; [|done]. injection Hi as <-.
    eapply safe_mono; [|apply safe_call; [done|by eapply Forall_lookup_1]]. intros l1 r H c' Hc'. congruence.
  - split; [done|]. intros i c r Hc Hi. exact (Hts i _ Hi c Hc).
Qed.

(** ** Pieces between which handlers may be interrupted *)

(** The mutation mutex is left alone, and no faults to come are added. *)
Definition unmoved (w w' : world) : Prop := w_mutation w' = w_mutation w ∧ (w_faults w = [] → w_faults w' = []).
(** Without faults to come nothing happens at all. *)
Definition untouched_if_calm (w w' : world) : Prop := w_faults w = [] → w' = w.

#[export] Instance unmoved_preorder : PreOrder unmoved.
Proof. split; [done|]. intros w1 w2 w3 [E1 F1] [E2 F2]. split; [congruence|auto]. Qed.
#[export] Instance untouched_preorder : PreOrder untouched_if_calm.
Proof. split; [done|]. intros w1 w2 w3 H1 H2 Hf. assert (w2 = w1) as -> by auto. auto. Qed.

#[export] Instance unmoved_reading total : Reading total anywhere unmoved.
Proof.
  assert (keeps total anywhere unmoved next_fault) as Hf.
  { intros w _. unfold next_fault. destruct (w_faults w) as [|k l] eqn:E; (split; [done|]); [done|]. split; [done|congruence]. }
  split; [apply _|done|exact Hf|]. intros A q. apply keeps_bind; [apply _|exact Hf|]. intros [k|]; [apply keeps_ret; apply _|].
  intros w _. unfold mbind, M_bind, get_world. by destruct (q (w_fs w)).
Qed.
#[export] Instance unmoved_writing total : Writing total anywhere unmoved.
Proof. split; [apply _|by repeat intros ?..]. Qed.

#[export] Instance untouched_reading total : Reading total anywhere untouched_if_calm.
Proof.
  assert (keeps total anywhere untouched_if_calm next_fault) as Hf.
  { intros w _. unfold next_fault. destruct (w_faults w) as [|k l] eqn:E; (split; [done|]); [done|]. intros Hn. congruence. }
  split; [apply _|done|exact Hf|]. intros A q. apply keeps_bind; [apply _|exact Hf|]. intros [k|]; [apply keeps_ret; apply _|].
  intros w _. unfold mbind, M_bind, get_world. unfold untouched_if_calm. destruct w as [f l r d t k b]. cbn. by destruct (q f).
Qed.

Abbreviation moves_nothing := (keeps false anywhere unmoved).

Lemma inner_keeps {A} (m : M A) : moves_nothing m → inner A m.
Proof. intros H w a w' E. specialize (H w I). rewrite E in H. apply H. Qed.
Lemma observing_keeps {A} (m : M A) : keeps false anywhere untouched_if_calm m → observing A m.
Proof. intros H w a w' Hf E. specialize (H w I). rewrite E in H. by apply H. Qed.

Lemma unmoved_with_lock {A} key (m : M A) : moves_nothing m → moves_nothing (with_lock key m).
Proof.
  intros Hm. unfold with_lock. apply keeps_bind; [apply _| |intros [] ].
  { intros w _. unfold lock_key. by destruct (w_locks w !! key) as [[]|]. }
  apply keeps_bind; [apply _|exact Hm|]. intros a. apply keeps_bind; [apply _|by intros w _|].
  intros []. apply keeps_ret. apply _.
Qed.

Lemma unmoved_Put s key data : moves_nothing (Put s key data).
Proof. apply unmoved_with_lock. auto with keeps typeclass_instances. Qed.
Lemma unmoved_clean base rdir : moves_nothing (clean_empty_dirs base rdir).
Proof.
  induction rdir as [|c rdir IH]; cbn [clean_empty_dirs]; destruct (bool_decide _); keeps_tac; by intros w _.
Qed.
Lemma unmoved_Delete s key : moves_nothing (Delete s key).
Proof.
  apply unmoved_with_lock. pose proof unmoved_clean as Hc.
  apply keeps_try; [apply _|auto with keeps typeclass_instances|]. intros p.
  apply keeps_bind; [apply _|auto with keeps typeclass_instances|]. intros [[]|e]; cbv zeta.
  2: destruct (os_IsNotExist e); [|apply keeps_ret; apply _].
  all: apply keeps_bind; [apply _|apply Hc|intros; apply keeps_ret; apply _].
Qed.
Lemma unmoved_index s key version : moves_nothing (addVersionToIndex s key version).
Proof. apply unmoved_with_lock. keeps_tac. Qed.
Lemma unmoved_unindex s key version : moves_nothing (removeVersionFromIndex s key version).
Proof. apply unmoved_with_lock. keeps_tac. Qed.
Lemma unmoved_setDeprecation s key version message : moves_nothing (setDeprecation s key version message).
Proof. apply unmoved_with_lock. keeps_tac. Qed.
#[export] Hint Resolve unmoved_Put unmoved_Delete unmoved_index unmoved_unindex unmoved_setDeprecation : keeps.

Lemma unmoved_PutStreamImmutable s r maxSize validate key : moves_nothing (PutStreamImmutable s r maxSize validate key).
Proof.
  unfold PutStreamImmutable, os_CreateTemp.
  apply keeps_try; [apply _|auto with keeps typeclass_instances|]. intros [tmp f].
  apply keeps_deferred; [intros; unfold f_Close; keeps_tac|]. unfold f_Chmod, f_Sync, f_Seek.
  do 2 (apply keeps_try; [apply _|auto with keeps typeclass_instances|]; intros).
  destruct (_ <? _)%Z; [apply keeps_ret; apply _|].
  do 2 (apply keeps_try; [apply _|auto with keeps typeclass_instances|]; intros).
  apply keeps_try; [apply _|destruct validate; keeps_tac|]. intros. cbv zeta.
  apply keeps_try; [apply _|auto with keeps typeclass_instances|]. intros.
  apply unmoved_with_lock. keeps_tac.
Qed.

Lemma unmoved_ignoring {A} (m : M A) : moves_nothing m → moves_nothing (ignoring m).
Proof. intros. unfold ignoring. keeps_tac. Qed.
Lemma unmoved_restore s key previous : moves_nothing (restore s key previous).
Proof. unfold restore. destruct previous; apply unmoved_ignoring; auto with keeps. Qed.
Lemma unmoved_delete_unless existed s key : moves_nothing (delete_unless existed s key).
Proof. unfold delete_unless. destruct existed; [keeps_tac|]. apply unmoved_ignoring. auto with keeps. Qed.
Lemma unmoved_delete_old s prefix filename old : moves_nothing (delete_old s prefix filename old).
Proof.
  unfold delete_old. destruct old as [o|]; [|keeps_tac]. destruct (_ && _); [|keeps_tac]. apply unmoved_ignoring. auto with keeps.
Qed.
Lemma unmoved_rebuild s signer ns name version : moves_nothing (rebuildProviderChecksums s signer ns name version).
Proof.
  unfold rebuildProviderChecksums. destruct signer as [g|]; [|keeps_tac].
  apply keeps_try; [apply _|auto with keeps typeclass_instances|]. intros platforms.
  apply keeps_bind; [apply _|auto with keeps typeclass_instances|]. intros [|e l]; [keeps_tac|]. cbv zeta.
  apply keeps_try; [apply _|keeps_tac|]. intros signature. destruct (providerChecksumsNames name version). keeps_tac.
Qed.
#[export] Hint Resolve unmoved_PutStreamImmutable unmoved_restore unmoved_delete_unless unmoved_delete_old unmoved_rebuild : keeps.

(** ** Changes happen one after another *)

(** A request that changes the registry, or one that reads it. *)
Inductive request_kind :=
| Change (m : mutation)
| Reads (e : get_endpoint) (vars : Vars).

Section changes.
Context (zip_NewReader : string → Z → result error (list zip_file)) (gzip_NewReader : string → result error tar_stream).
Context (s : Store) (signer : option RegistrySigner) (maxUploadSize : Z).

#[local] Abbreviation mutation_handler := (mutation_handler zip_NewReader gzip_NewReader s signer maxUploadSize).

(** A handler cut into pieces, in any way: one that changes the registry holds
    the mutation mutex around them, one that reads it holds nothing. *)
Inductive cut : request_kind → thread response → Prop :=
| cut_change m p : each inner p → same_code (collapse (locked p)) (mutation_handler m) → cut (Change m) (Mutator p)
| cut_reads e vars p : each observing p → same_code (collapse p) (serve_get s signer vars e) → cut (Reads e vars) (Observer p).

(** The changes of [order], each whole, one after another, with their
    replies. *)
Inductive one_by_one (rs : list request_kind) (w : world) : list (nat * response) → world → Prop :=
| none_yet : one_by_one rs w [] w
| one_more order w1 i m r w2 : one_by_one rs w order w1 → rs !! i = Some (Change m) →
    mutation_handler m w1 = Some (r, w2) → one_by_one rs w (order ++ [(i, r)]) w2.

(** Every change can be cut, at least around its whole body. *)
Lemma mutation_cut m : ∃ p, cut (Change m) (Mutator p).
Proof using Type.
  assert (∃ body, mutation_handler m = with_mutation body ∧ moves_nothing body) as (body & E & Hb).
  { destruct m; cbn [mutation_handler]; eexists; (split; [reflexivity|]); cbv zeta;
      unfold publish_provider, publish_module, AddProviderVersion, AddModuleVersion, providerChecksumsNames, delete_version,
        RemoveProviderVersion, RemoveModuleVersion, deprecate_version, DeprecateProviderVersion, DeprecateModuleVersion, ignoring;
      keeps_tac. }
  exists (atomically body). constructor; [split; [by apply inner_keeps|done]|]. rewrite E.
  etransitivity; [apply collapse_locked|]. unfold with_mutation. apply bind_code; [done|]. intros [].
  apply bind_code; [apply collapse_atomically|done].
Qed.

(** An upload of a module cuts at its calls of the store, and a download too. *)
Lemma upload_cut vars up : cut (Change (MutUploadModule vars up)) (Mutator (upload_module_steps gzip_NewReader s maxUploadSize
  (var vars "namespace") (var vars "name") (var vars "provider") (var vars "version") up)).
Proof using Type.
  constructor; [|exact (call_code gzip_NewReader s maxUploadSize (CallUpload vars up))].
  assert (∀ A (m : M A), moves_nothing m → each inner (atomically m)) as Ha by (intros A m Hm; split; [by apply inner_keeps|done]).
  unfold upload_module_steps, publish_module_steps, AddModuleVersion. cbv zeta.
  repeat first [apply each_bind; [apply Ha; auto with keeps typeclass_instances|intros]|done|case_match].
Qed.

Lemma download_cut vars : cut (Reads GetModuleDownload vars) (Observer (download_module_steps s vars)).
Proof using Type.
  constructor; [|exact (call_code gzip_NewReader s maxUploadSize (CallDownload vars))].
  assert (∀ A (m : M A), keeps false anywhere untouched_if_calm m → each observing (atomically m)) as Ha
    by (intros A m Hm; split; [by apply observing_keeps|done]).
  unfold download_module_steps, module_artifact_steps. cbv zeta. apply each_bind; [|done].
  apply each_bind; [apply Ha, keeps_Get|]. intros [data|e]; [destruct (Unmarshal _ _ _) as [meta decoded]; destruct (negb _ || _)|];
    try done; (apply each_bind; [apply Ha, keeps_Exists|done]).
Qed.

Lemma serially_one_by_one rs ts w order w' : Forall2 cut rs ts → serially ts w order w' → one_by_one rs w order w'.
Proof using Type.
  intros Hc H. induction H as [|order w1 i body r w2 H IH Hi E]; [constructor|].
  destruct (Forall2_lookup_r _ _ _ _ _ Hc Hi) as (q & Hq & Hcut). inversion Hcut as [m p Hin Hcode|]; subst.
  eapply one_more; [exact IH|exact Hq|]. rewrite <- (Hcode w1), (collapse_locked body w1). exact E.
Qed.

(** C6. Changes are serialised.  Each of the seven handlers that change the
    registry - uploads, deletions and deprecations of providers and modules, the
    collection of garbage - holds the mutation mutex around everything it does.
    Such requests and requests that read the registry run at the same time, each
    cut into atomic pieces in any way whatever and the pieces interleaved in any
    order, with no system call failing.  When all have returned, the world is
    exactly the one after the changes ran whole, one after another, in some
    order, and each change has replied what it replies there: concurrency is
    invisible to them, and readers never disturb them. *)
Theorem changes_serialised : (∀ m, ∃ p, cut (Change m) (Mutator p)) ∧
  ∀ (rs : list request_kind) ts w0 ps w,
  Forall2 cut rs ts → w_faults w0 = [] → free w0 →
  rtc thread_step (launch <$> ts, w0) (ps, w) → (∀ i p, ps !! i = Some p → ∃ r, p = Ret r) →
  ∃ order, one_by_one rs w0 order w ∧ NoDup order.*1 ∧
    ∀ i m, rs !! i = Some (Change m) → ∃ r, (i, r) ∈ order ∧ ps !! i = Some (Ret r).
Proof using Type.
  split; [exact mutation_cut|]. intros rs ts w0 ps w Hc Hf Hm Hr Hdone. assert (Forall disciplined ts) as Hd.
  { clear -Hc. induction Hc as [|q t rs ts H Hc IH]; constructor; [|exact IH]. by destruct H. }
  destruct (exclusion_serial ts w0 ps w Hd Hf Hm Hr Hdone) as (order & Hs & Hnd & Hall).
  exists order. split; [by eapply serially_one_by_one|]. split; [exact Hnd|]. intros i m Hi.
  destruct (Forall2_lookup_l _ _ _ _ _ Hc Hi) as (t & Ht & Hcut). inversion Hcut as [m' p Hin Hcode|]; subst. by eapply Hall.
Qed.

End changes.

(** ** A download that misses a published module *)

Definition old_archive : string := vpc_archive.
Definition new_archive : string := String "031" (String "139" "new").
Definition new_upload : upload := Part "file" "vpc.tar.gz" (Reader new_archive None).

(** The module with [old_archive], as its upload leaves it. *)
Definition race_entries : list (path * node) := module_entries ++ [
  (["srv"; "modules"; "acme"; "vpc"; "aws"; "1.0.0"], NDir);
  (["srv"; "modules"; "acme"; "vpc"; "aws"; "1.0.0"; "artifact.json"],
     NFile (print (enc_ModuleArtifactMeta (module_meta old_archive))) 0);
  (["srv"; "modules"; "acme"; "vpc"; "aws"; "1.0.0"; module_filename old_archive], NFile old_archive 0)].
Definition race_world : world := World (list_to_map race_entries) [] (λ _, 7%N) 0 (10 ^ 18) ∅ false.

(** The metadata names an archive that is there, whole. *)
Definition published_at (w : world) : Prop := ∃ d,
  value srv w (module_key "acme" "vpc" "aws" "1.0.0" "artifact.json") = Some (print (enc_ModuleArtifactMeta (module_meta d))) ∧
  value srv w (module_key "acme" "vpc" "aws" "1.0.0" (module_filename d)) = Some d.

Definition race_calls : list module_call := [CallDownload vpc_vars; CallUpload vpc_vars new_upload].
Definition race_threads : list (prog response) := call_steps vpc_reader srv 1000 <$> race_calls.

(** The download reads the metadata; the upload runs; the download looks for
    the archive. *)
Definition race_schedule : list nat := [0] ++ replicate 7 1 ++ [0].

(** Whether the metadata names one of the two archives, and it is there. *)
Definition published_b (w : world) : bool := existsb (λ d,
  bool_decide (value srv w (module_key "acme" "vpc" "aws" "1.0.0" "artifact.json")
               = Some (print (enc_ModuleArtifactMeta (module_meta d)))) &&
  bool_decide (value srv w (module_key "acme" "vpc" "aws" "1.0.0" (module_filename d)) = Some d)) [old_archive; new_archive].

Lemma published_b_at w : published_b w = true → published_at w.
Proof.
  unfold published_b. rewrite existsb_exists. intros (d & _ & [H1 H2]%andb_true_iff). exists d.
  by apply bool_decide_eq_true in H1, H2.
Qed.

Definition reply_status (p : prog response) : option Z := match p with Ret r => Some (status r) | Step _ _ => None end.

Definition race_outcome : option (bool * list (option Z)) :=
  '(ws, (ts, _)) ← schedule race_schedule (race_threads, race_world); Some (forallb published_b ws, map reply_status ts).

Lemma race_runs : race_outcome = Some (true, [Some 404%Z; Some 200%Z]).
Proof. vm_compute. reflexivity. Qed.

(** C40. A download can miss a module that is published at every moment.  The
    module is in the store; while [moduleDownloadHandler] runs, an upload
    replaces its archive.  The download reads the old metadata, the upload
    stores the new archive, switches the metadata and deletes the old archive,
    and the download, which looks for the old one, answers 404 - although at
    every moment of this run the metadata names an archive that is there, whole,
    and the upload answers 200. *)
Theorem download_misses_published : ∃ l r0 r1 w',
  run (call_steps vpc_reader srv 1000 <$> [CallDownload vpc_vars; CallUpload vpc_vars new_upload], race_world) l ([Ret r0; Ret r1], w') ∧
  status r0 = 404%Z ∧ status r1 = 200%Z ∧ Forall published_at l.
Proof.
  pose proof race_runs as E. unfold race_outcome in E.
  destruct (schedule race_schedule (race_threads, race_world)) as [[l [ts w']]|] eqn:Es; [|discriminate E].
  apply schedule_run in Es. cbn [mbind option_bind] in E. injection E as Hl Hts.
  assert (∃ r0 r1, ts = [Ret r0; Ret r1] ∧ status r0 = 404%Z ∧ status r1 = 200%Z) as (r0 & r1 & -> & H0 & H1).
  { destruct ts as [|[r0|] [|[r1|] [|]]]; try discriminate Hts. injection Hts as H0 H1. by exists r0, r1. }
  exists l, r0, r1, w'. split; [exact Es|]. do 2 (split; [done|]). apply Forall_forall. intros w Hw.
  rewrite forallb_forall in Hl. by apply published_b_at, Hl, list_elem_of_In.
Qed.

(** ** Concrete runs *)

(** What is in the store at a key of a module. *)
Lemma race_value ns name p v f c : value srv race_world (module_key ns name p v f) = Some c →
  (f = "artifact.json" ∧ c = print (enc_ModuleArtifactMeta (module_meta old_archive))) ∨
  (f = module_filename old_archive ∧ c = old_archive).
Proof.
  unfold value, file. destruct (w_fs race_world !! _) as [n|] eqn:E; [|done]. intros Hn.
  apply elem_of_list_to_map_2 in E. unfold race_entries, module_entries in E.
  set (meta := print (enc_ModuleArtifactMeta _)) in *. set (zip := module_filename old_archive) in *. clearbody meta zip.
  set (old := old_archive) in *. clearbody old. set (idx := print_indent 0 (enc_Index vpc_index)) in *. clearbody idx.
  rewrite elem_of_app, !elem_of_cons, elem_of_nil in E.
  destruct_or? E; unfold module_key, module_dir in *; simplify_eq/=; auto.
Qed.

Lemma race_intact : intact srv race_world.
Proof.
  split.
  - apply (store_fs_checked ["srv"] race_entries). vm_compute. reflexivity.
  - intros k. cbn. by rewrite lookup_empty.
  - intros k ns name p v d c _ -> Hv. destruct (race_value _ _ _ _ _ _ Hv) as [[E _]|[E ->]]; [|done].
    by destruct (module_filename_not_meta d).
  - intros ns name p v _. destruct (value srv race_world _) as [c|] eqn:E; [|by intros f].
    destruct (race_value _ _ _ _ _ _ E) as [[_ ->]|[E' _]]; [apply well_named_meta|].
    by destruct (module_filename_not_meta old_archive).
Qed.

Lemma acme_names : module_names "acme" "vpc" "aws" "1.0.0".
Proof. by split. Qed.

(** A download of the old archive, between. *)
Definition three_calls : list module_call := race_calls ++ [CallFile "acme" "vpc" "aws" "1.0.0" old_archive].

Lemma downloads_consistent_witness : ∃ l ts w' r data t,
  run (call_steps vpc_reader srv 1000 <$> three_calls, race_world) l (ts, w') ∧ Forall (intact srv) l ∧
  ts !! 2 = Some (Ret r) ∧ content r = BFile data t ∧ module_filename data = module_filename old_archive.
Proof.
  assert (match schedule ([0; 2] ++ replicate 7 1 ++ [0]) (call_steps vpc_reader srv 1000 <$> three_calls, race_world) with
          | Some (_, (ts, _)) => bool_decide (map reply_status ts = [Some 404%Z; Some 200%Z; Some 200%Z])
          | None => false end = true) as Hrun by (vm_compute; reflexivity).
  destruct (schedule _ _) as [[l [ts w']]|] eqn:E; [|discriminate Hrun]. apply schedule_run in E. apply bool_decide_eq_true in Hrun.
  destruct ts as [|p0 [|p1 [|[r|] [|]]]]; try discriminate Hrun. injection Hrun as _ _ Hst.
  destruct (downloads_consistent vpc_reader srv 1000 three_calls race_world l _ w' ltac:(lia)
    ltac:(repeat (constructor; [exact acme_names|]); constructor) race_intact E) as [Hl Hr].
  destruct (Hr 2 _ r eq_refl eq_refl Hst) as (data & t & w1 & Hc & Hd & _).
  exists l, [p0; p1; Ret r], w', r, data, t. split; [exact E|]. split; [exact Hl|]. split; [reflexivity|]. split; [exact Hc|exact Hd].
Defined.

Lemma changes_serialised_witness : ∃ w order r,
  one_by_one no_zip vpc_reader srv None 1000 [Reads GetModuleDownload vpc_vars; Change (MutUploadModule vpc_vars new_upload)]
    race_world order w ∧ (1, r) ∈ order ∧ status r = 200%Z.
Proof.
  pose proof race_runs as Hrun. unfold race_outcome in Hrun.
  destruct (schedule race_schedule (race_threads, race_world)) as [[l [ts w]]|] eqn:E; [|discriminate Hrun].
  apply schedule_steps in E. cbn [mbind option_bind] in Hrun. injection Hrun as _ Hts.
  destruct ts as [|[r0|] [|[r1|] [|]]]; try discriminate Hts. injection Hts as _ H1.
  destruct (proj2 (changes_serialised no_zip vpc_reader srv None 1000)
    [Reads GetModuleDownload vpc_vars; Change (MutUploadModule vpc_vars new_upload)]
    [Observer (download_module_steps srv vpc_vars);
     Mutator (upload_module_steps vpc_reader srv 1000 "acme" "vpc" "aws" "1.0.0" new_upload)]
    race_world [Ret r0; Ret r1] w) as (order & Hone & _ & Hall).
  - constructor; [apply download_cut|]. constructor; [exact (upload_cut no_zip vpc_reader srv None 1000 vpc_vars new_upload)|constructor].
  - reflexivity.
  - reflexivity.
  - exact E.
  - intros [|[|i]] p Hp; [injection Hp as <-|injection Hp as <-|discriminate Hp]; by eexists.
  - destruct (Hall 1 _ eq_refl) as (r & Hin & Er). injection Er as <-. exists w, order, r1. split; [exact Hone|]. split; [exact Hin|exact H1].
Defined.
